(* ===== verification/_CoqProject ===== *)
-Q . S2P
Prelude.v
Std.v
Text.v
Ext.v
Float.v
FloatText.v
Regression.v
Metrics.v
Dump.v
Codec.v
Errors.v
Record.v
Memtable.v
Label.v
Block.v
Bloom.v
Manifest.v
Wal.v
Sst.v
SstFacts.v
MergeIter.v
Io.v
Lsm.v
TsdbTests.v
Net.v
CoreProto.v
CoreStorage.v
CoreIter.v
CoreEngine.v
CoreBackend.v
CoreSystem.v
CoreTurns.v
CoreGc.v
CoreSafety.v
CoreRecover.v
CoreFiles.v
CoreSync.v
CoreMetered.v
CoreServer.v
CoreRuntime.v
CoreSession.v
CoreWire.v
Tracing.v
CoreListen.v
CoreDaemon.v
CoreExamples.v
CoreIndexed.v
CoreTests.v
CoreServerTests.v
Mem.v
MemText.v
Compare.v
Display.v
Runs.v
Baseline.v
BenchTool.v
BenchRun.v
Xtask.v
