(* ===== verification/Prelude.v ===== *)
(** * A verification of logregator

    logregator stores streams of log records. The repository has two
    generations of the storage: the crate [logregator-tsdb], an LSM tree keyed
    by (stream, time, sequence, source) with label-indexed streams, and the
    older [logregator-core], a daemon with its own storage engine and a
    length-delimited client protocol. This library models logregator-tsdb
    completely, except for recovery and for glue around the file system;
    logregator-core from the client's request to the named files on disk and
    back, with its syncs and its metrics, over an interface of its SST format;
    the finished parts of logregator-net, the network front end of the first;
    the start of the daemon (logregatord), the benchmark tools
    (logregator-tools) and the task runner (xtask).

    ** How the program works, and where it is modelled

    A client hands [LsmTree::append_batch] payloads: a label map followed by a
    message. The label map is decoded and resolved to a stream id by the
    stream registry; the rest becomes a record with a fresh sequence number;
    the record is sent to the I/O worker for the write-ahead log and inserted
    into the active memtable. A full memtable is frozen and sent to the I/O
    worker, which writes it to an SST (blocks of records, an index of the
    blocks, a bloom filter of the streams, a footer) and records that in the
    manifest (a log that is folded into a JSON snapshot and truncated when it
    grows). The finished SST comes back to the tree and replaces the frozen
    memtable. A range query finds the streams with the wanted labels and
    merges, for each, the memtables and the SSTs.

    - [Prelude]: outcomes of Rust code ([Ok], [Err], [Panic]), code with a
      mutable state ([st]), machine integers, slices, big-endian integers, and
      the automation ([zlia], [gsplit], [if_true], the [blen] rewrites).
    - [Std]: what is used of the Rust standard library: [Ord], [BTreeSet],
      [BTreeMap], [Bound], [binary_search_by], [str::from_utf8], and
      [BinaryHeap] as an interface ([MinHeap]).
    - [Text]: strings as their bytes: decimal numbers, padding, splitting,
      file stems and extensions, stable sorting. [Float]: IEEE doubles, on the
      Standard Library's [spec_float]; [FloatText]: how they are printed.
    - [Ext]: the third-party crates as interfaces: crc32fast, fnv, nom, and
      the standard library's unspecified [DefaultHasher]; each with a concrete
      instance for running the theorems.
    - [Codec] (codec.rs): the codec traits as classes with laws
      ([LawfulCodec], [StreamingCodec]), [FramedReader] over an arbitrary
      sequence of reads, [BufWriter] and [FramedWriter] over an arbitrary
      [Write].
    - [Errors] (block.rs, sst.rs, io.rs, lib.rs): the error types.
    - [Record] (record.rs), [Memtable] (memtable.rs), [Label] (label.rs: label
      maps, their codec, the stream registry), [Block] (block.rs: encoding,
      writer, cursor), [Bloom] (bloom.rs), [Manifest] (manifest.rs: entries,
      snapshots, the log), [Wal] (wal.rs), [Sst] (sst.rs: writer, file handle,
      opening, cursor) with its facts in [SstFacts], [MergeIter]
      (merge_iter.rs), [Io] (io.rs, counter.rs) and [Lsm] (lsm.rs, and
      [LabeledIter] of label.rs).
    - [CoreProto] (logregator-core/src/proto.rs): messages, frames and the two
      codecs of the client protocol.
    - [Net] (logregator-net/src/lib.rs): the parsers of requests, the
      iterator over the payloads of a batch, the loop that serves requests and
      the connections.

    The daemon of logregator-core serves connections. Each request becomes a
    command of the backend loop, which owns the engine: an insert goes to the
    log and the memtable; a full memtable is frozen, its log rotated and a
    flush sent to the I/O worker, whose tasks write SSTs, merge old ones, and
    report back to the loop. A query merges the memtables and the SSTs and is
    streamed to the client in batches. A restart reads the logs and the SSTs.

    - [CoreStorage] (logregator-core/src/storage): byte-encoded records and
      their order (record.rs), the memtable and its filtering iterator
      (memtable.rs), writing and recovering the log (wal.rs), and the part of
      [Engine::range] that reads the memtables (engine.rs).
    - [CoreIter] (iter.rs): the iterators over SST files and the merge.
      [SstModule] is the interface of index and bloom filter, whose source
      (storage/sstable.rs) is not in the repository.
    - [CoreEngine] (engine.rs): the engine, its opening, inserting, querying,
      and the bookkeeping of flushes and compactions. [SstCodec] is what it
      and the worker use to write and open SST files.
    - [CoreBackend] (backend.rs, io_worker.rs, [Wal::rotate]): the handlers of
      the loop, its turns, and the tasks of the worker.
    - [CoreSystem]: loop and worker as one transition system ([sys_step]:
      turns, tasks that end in any order or fail, renames that fail), and the
      invariant of its reachable states ([sys_inv]). [SstCodecLaws] is what it
      relies on of the SST files.
    - [CoreTurns]: the same loop and worker in smaller steps ([turn_run]): a
      turn begins, handles its commands one at a time, each acknowledged
      before the log is flushed, and ends; the worker runs in between.
    - [CoreGc]: which ids flushes and compactions get in a run, and what the
      loop that deletes logs does with them.
    - [CoreSafety], [CoreRecover]: what the invariant gives for queries, for
      what is on disk at any step, and for [Engine::open] after a crash.
    - [CoreFiles] (paths and opening in wal.rs and engine.rs): the same files
      by name in a file system; [fs_rep] is the correspondence, and opening,
      rotating and deleting by name refine the operations by id.
    - [CoreSync] (the fsync side of io_worker.rs and wal.rs): what is durable,
      the worker's open file, notifications, and a loss of power.
    - [Metrics] (metrics.rs), [Regression] (regression.rs): counters, gauges,
      latencies over an interface of hdrhistogram, and the regression check.
      [CoreMetered]: the backend loop with its metrics.
    - [CoreRuntime] (runtime.rs, logregatord): the builder, what [spawn]
      starts, the options of the two binaries. [Tracing] (_tracing.rs): which
      layers are installed.
    - [CoreServer] (server.rs, client.rs): the connection handler over an
      interface of the engine ([EngineService]), and the client.
      [CoreSession]: the client's calls over a connection. [CoreWire]: the
      handler in front of the backend.
    - [CoreListen] (server.rs): binding, and the main loop with any number of
      connections as a transition system ([loop_step]): bytes arrive in pieces
      and handlers take turns. [CoreDaemon]: the main loop in front of
      [CoreSystem], that is all tasks of the daemon ([daemon_step]). Each
      request is a turn of the backend of its own there.
    - [CoreExamples]: a concrete SST format that satisfies the laws, a run of
      the system, and the theorems applied to it. [CoreIndexed]: a second
      format, with an index.

    The tools run benchmarks against the daemon and keep their results.

    - [Dump] (dump.rs), [Mem] (mem.rs: /proc, the sampling task, the report)
      and [MemText] (the report as text), [Runs] (runs.rs: unpacking a run
      directory, and bin/desc.rs), [Compare] (cmp/ and bin/cmp.rs) and
      [Display] (cmp/display.rs: the printed comparison), [Baseline]
      (bin/baseline.rs), [BenchTool] (bin/bench.rs: the list of runs and the
      work of a client) and [BenchRun] (a run, and all of them), and [Xtask]
      (xtask: the processes a command starts).

    The tests in the sources are run on the model, so that what the programmers
    expect of their code is compared with it: [CoreTests] (iter.rs,
    memtable.rs, wal.rs and engine.rs of logregator-core), [CoreServerTests]
    (server.rs), [TsdbTests] (logregator-tsdb).

    Definitions keep the names of the source, prefixed by the component where
    two of them would clash ([memtable_append], [wal_append]).

    ** What the theorems show

    - Data survives: framed streams, blocks, block indexes, SST data, label
      maps, manifest entries, WAL records and protocol frames read back as
      written, for every way the bytes may be cut into reads; torn streams
      yield their complete prefix. Decoders on arbitrary bytes accept exactly
      the encodings of values ([record_decode_spec], [decode_block_spec],
      [labelmap_decode_sound]).
    - State stays consistent: the memtable is the sorted set of what was
      accepted, within its size limit; the registry's maps agree; the block
      writer stays within its limits; a batch keeps the tree's invariant and
      neither loses nor duplicates a record ([append_batch_ok]).
    - Refinement: snapshots and the manifest refine an abstract catalogue of
      live tables and label maps; the merge iterator refines sorting the union
      of its sources, in both generations ([core_merge_spec]); a range query
      refines filtering the stored records, in the tree ([lsm_range_spec]) and
      from a client's request to the frames of the answer ([wire_query]).
    - The whole daemon: whatever the connections, the worker and its failing
      tasks do, and however bytes arrive, all clients see one order of
      requests, and each answer in it is the one that the records acknowledged
      before call for ([daemon_answers]); for any engine, the main loop is
      linearizable and no connection starves ([server_linearizable]).
    - Nothing acknowledged is lost while the daemon runs: at every step an
      acknowledged record can be queried; between turns it is in the files,
      within a turn those of the turn may be in the log's buffer only
      ([backend_no_loss], [backend_query_exact]). A restart on the files has
      the records of every log that is not torn ([backend_recovery]), provided
      that the scan of the SSTs ends without an error; on the data directory
      itself, beside any files that are neither logs nor SSTs
      ([directory_recovery], [rotate_refines]). After a sync that is true
      of a loss of power too ([sync_power_loss]). The metrics count exactly
      what was acknowledged ([metrics_exact]). The daemon starts this system
      ([daemon_start]). The system does not get stuck ([backend_progress]);
      the loop that deletes logs ends, and for good at the id of a compaction
      ([wal_gc_ends]).
    - Equivalence: a batch is its inserts one by one
      ([engine_batch_insert_equiv]); a connection is its requests answered one
      by one, whatever is buffered ([server_conn_spec]), and each call of a
      client gets its own answer ([session_over_wire]); a comparison of
      benchmarks does not depend on the order of hash maps ([compare_spec])
      or directories ([unpack_order]).
    - Tools: the runs of a benchmark, and when the list of them is finite
      ([build_run_configs_spec]); what a client sends, and that its counters
      say so ([client_work_accounted]); latencies lose no sample
      ([latency_counts_samples]); a dump of the metrics can be read back
      ([dump_readable]); the newest baseline is the current one
      ([baseline_current_latest]); a printed number is the nearest there is
      ([fmt_fixed_nearest]), a printed comparison is its sections in order,
      every workload once ([write_to_spec], [condensed_groups]), and the bars
      of the memory chart fit it ([bar_width]).
    - Conformance: the tests of the repository pass on the model
      ([engine_tests_pass], [server_tests_pass], [manifest_tests_pass] and so
      on), the property tests for every input they can draw
      ([prop_roundtrips_pass], [prop_framed_passes]); the tests of the log and
      of SSTs cannot ([wal_tests_panic], [sst_tests_fail]).
    - Errors: what each refusal leaves behind; and where the code does not do
      what it means to, the theorem states what it does. SSTs are never
      finalized because encoding the bloom filter panics; the WAL's flush ends
      in a [todo!]; the merge iterator skips the first record of an SST; a
      flush reads between the first and last key inserted, not the smallest
      and largest; compaction entries decode to the first id repeated; a
      manifest in which the end of a read buffer cuts an entry does not read
      back, so that it is never truncated again ([manifest_append_refines]);
      short messages
      become records that cannot be encoded; empty time windows and malformed
      frames panic; logregator-core orders timestamps as unsigned numbers,
      drops a whole log that is torn within a record, so that a crash within
      a turn can lose what earlier turns acknowledged
      ([torn_log_loses_acknowledged]), may miss the records of
      an SST at the very start of a window, and renames an empty log over one
      that is still needed when it restarts after a crash before its first
      flush had ended ([restart_overwrites_log]); a sync can go to the log
      before the one it was meant for ([sync_notification_lost]) and a log can
      be skipped ([skipped_log_never_synced]); the request codec of
      logregator-net accepts no string; the memory profiler hangs when it is
      stopped after 10 000 samples ([profiler_stop]); the regression check
      takes a higher range rate for a regression ([regression_spec]), and
      xtask ignores its result ([xtask_regression_ignored]).

    ** Conventions and bounds

    [usize] and the fixed-width integers are [Z]; arithmetic that can wrap in
    a release build is written with [wrap64] and the like, and
    [debug_assert!] is not modelled. Files are byte lists, or any instance of
    [Write] where the code is generic. [HashMap]s are finite maps; where their
    iteration order shows, the order is a parameter. Locks are not contended
    (the tree is the only writer), [Arc] sharing is invisible because shared
    values are not written. Clocks and channels are inputs: each payload comes
    with the time read for it, and a channel is the list of what was sent.

    Loops that are not structural take fuel: [framed_reader_next] one unit per
    read (a read delivers at least a byte, so one more than the number of
    bytes is enough, and that is proved), [sst_write] two (a full block is
    flushed once and the record fits the new one, also proved), the collecting
    loops one more than the number of items they yield, a compaction one more
    than the bytes of its files, [delete_wals] one more than the flushes
    applied, a connection one more than the bytes it received; that these are
    enough is part of [backend_progress], [wal_gc_ends] and
    [server_conn_spec]. The transition system assumes that the 64-bit counters
    do not run out ([has_room]).

    ** Not modelled

    [LsmTree::recover] (it ends in [unimplemented!] and calls a
    [Wal::recover] that wal.rs does not have), and with it the directory
    handling of logregator-tsdb except the file names of SSTs; [Debug] and
    [Display] code of the data types, log messages and accessors. Of
    logregator-core: storage/sstable.rs, which is not in the repository and
    stands as an interface with laws (of the bytes after the records of an SST
    nothing is assumed: what the scan of the file makes of them is a case
    distinction of the theorems); errors of writing or flushing the log, and
    of opening the new log after the rename, except in [wal_rotate] of
    [CoreFiles]; a crash between the steps of the end of a turn; the capacity
    of channels; the channel of memory statistics. Of the tools: crate::bench, which is not in the
    repository (the parts of its types that are used are parameters or records
    of the fields read), and the formats of JSON and TOML files. Parsing of
    command lines. The benchmarks of logregator-core, which only measure, and
    logregator-tsdb/tests/integ.rs, which is ignored because it does not
    compile; the tests of block.rs are commented out. *)
From stdpp Require Export base list gmap sorting strings.
From coqutil Require Export Byte Word.LittleEndianList.
From Stdlib Require Export ZArith Lia Permutation.

#[global] Open Scope Z_scope.
#[global] Set Default Goal Selector "!".

(** ** Outcomes of Rust code

    [Ok] and [Err] are the two variants of a Rust [Result]; [Panic] is the
    third thing a Rust expression can do: unwind ([panic!], [todo!],
    [unwrap] on the wrong variant, an index out of bounds, ...). *)

Inductive outcome (E A : Type) : Type :=
| Ok (a : A)
| Err (e : E)
| Panic.
Arguments Ok {E A} a.
Arguments Err {E A} e.
Arguments Panic {E A}.

#[global] Instance outcome_ret E : MRet (outcome E) := fun A a => Ok a.
#[global] Instance outcome_bind E : MBind (outcome E) := fun A B f m =>
  match m with Ok a => f a | Err e => Err e | Panic => Panic end.

(** [r.map_err(f)] *)
Definition map_err {E F A} (f : E -> F) (m : outcome E A) : outcome F A :=
  match m with Ok a => Ok a | Err e => Err (f e) | Panic => Panic end.

(** [o.ok_or(e)] *)
Definition ok_or {E A} (o : option A) (e : E) : outcome E A :=
  match o with Some a => Ok a | None => Err e end.

(** [o.unwrap()] and [o.expect(..)] *)
Definition unwrap {E A} (o : option A) : outcome E A :=
  match o with Some a => Ok a | None => Panic end.

(** ** Fallible code that mutates a state

    [st S E A] is code that takes [&mut S] and returns [Result<A, E>]: the
    state it leaves behind is kept on every outcome, as in the source. *)

Definition st (S E A : Type) : Type := S -> S * outcome E A.

#[global] Instance st_ret S E : MRet (st S E) := fun A a s => (s, Ok a).
#[global] Instance st_bind S E : MBind (st S E) := fun A B f m s =>
  match m s with
  | (s', Ok a) => f a s'
  | (s', Err e) => (s', Err e)
  | (s', Panic) => (s', Panic)
  end.

Definition st_lift {S E A} (m : outcome E A) : st S E A := fun s => (s, m).
Definition st_get {S E} : st S E S := fun s => (s, Ok s).
Definition st_modify {S E} (f : S -> S) : st S E unit := fun s => (f s, Ok tt).
Definition st_err {S E A} (e : E) : st S E A := fun s => (s, Err e).
Definition st_panic {S E A} : st S E A := fun s => (s, Panic).

Lemma ok_bind {E A B} (a : A) (f : A -> outcome E B) : (Ok a ≫= f) = f a.
Proof. reflexivity. Qed.
Lemma err_bind {E A B} (e : E) (f : A -> outcome E B) : (Err e ≫= f) = Err e.
Proof. reflexivity. Qed.
Lemma panic_bind {E A B} (f : A -> outcome E B) : (Panic ≫= f) = Panic.
Proof. reflexivity. Qed.
Lemma st_bind_unfold {S E A B} (m : st S E A) (f : A -> st S E B) s :
  (m ≫= f) s = match m s with
               | (s', Ok a) => f a s'
               | (s', Err e) => (s', Err e)
               | (s', Panic) => (s', Panic)
               end.
Proof. reflexivity. Qed.

Create Rewrite HintDb rust.
Create Rewrite HintDb blen.
Create HintDb rust.
Create HintDb sizes.
#[export] Hint Rewrite @ok_bind @err_bind @panic_bind : rust.

(** ** Machine integers *)

Definition u8_max : Z := 255.
Definition u16_max : Z := 65535.
Definition u32_max : Z := 4294967295.
Definition u64_max : Z := 18446744073709551615.
Definition in_u8 (z : Z) : Prop := 0 <= z <= u8_max.
Definition in_u16 (z : Z) : Prop := 0 <= z <= u16_max.
Definition in_u32 (z : Z) : Prop := 0 <= z <= u32_max.
Definition in_u64 (z : Z) : Prop := 0 <= z <= u64_max.
Definition in_i64 (z : Z) : Prop := - 2 ^ 63 <= z < 2 ^ 63.

(** [a.wrapping_add(b)], [a.wrapping_mul(b)] on [u64], and [x as u16] etc. *)
Definition wrap64 (z : Z) : Z := z mod 2 ^ 64.
Definition wrap32 (z : Z) : Z := z mod 2 ^ 32.
Definition wrap16 (z : Z) : Z := z mod 2 ^ 16.
Definition wrap8 (z : Z) : Z := z mod 2 ^ 8.

(** ** Lengths, indexing and slices

    [usize] values are [Z]; lengths are [blen]. Out-of-range accesses
    panic, as in Rust. *)

Definition blen {A} (l : list A) : Z := Z.of_nat (length l).

(** [&l[a..b]] *)
Definition slice {E A} (l : list A) (a b : Z) : outcome E (list A) :=
  if (0 <=? a) && (a <=? b) && (b <=? blen l)
  then Ok (take (Z.to_nat (b - a)) (drop (Z.to_nat a) l))
  else Panic.

(** [l[i]] *)
Definition index {E A} (l : list A) (i : Z) : outcome E A :=
  if 0 <=? i then unwrap (l !! Z.to_nat i) else Panic.

(** [l.get(i)] *)
Definition get_opt {A} (l : list A) (i : Z) : option A :=
  if 0 <=? i then l !! Z.to_nat i else None.

(** [dst[a..b].copy_from_slice(src)]: panics when the range is out of
    bounds or its length is not [src.len()]. *)
Definition copy_into {E} (a b : Z) (src : list byte) : st (list byte) E unit :=
  fun dst =>
    if (0 <=? a) && (a <=? b) && (b <=? blen dst) && (blen src =? b - a)
    then (take (Z.to_nat a) dst ++ src ++ drop (Z.to_nat b) dst, Ok tt)
    else (dst, Panic).

(** ** Automation

    [zlia] is [lia] with the length function unfolded; [rust_step] runs one
    bind of [outcome] code; [case_if] splits on the boolean guards the code
    tests; [gsplit] turns boolean guards into propositions. *)

Lemma blen_nonneg {A} (l : list A) : 0 <= blen l.
Proof. unfold blen. lia. Qed.
Lemma blen_nil {A} : blen (@nil A) = 0.
Proof. reflexivity. Qed.
Lemma blen_cons {A} (x : A) l : blen (x :: l) = 1 + blen l.
Proof. unfold blen. cbn [length]. lia. Qed.
Lemma blen_app {A} (l k : list A) : blen (l ++ k) = blen l + blen k.
Proof. unfold blen. rewrite length_app. lia. Qed.
Lemma blen_take {A} n (l : list A) : blen (take n l) = Z.min (Z.of_nat n) (blen l).
Proof. unfold blen. rewrite length_take. lia. Qed.
Lemma blen_drop {A} n (l : list A) : blen (drop n l) = Z.max 0 (blen l - Z.of_nat n).
Proof. unfold blen. rewrite length_drop. lia. Qed.
Lemma blen_replicate {A} n (x : A) : blen (replicate n x) = Z.of_nat n.
Proof. unfold blen. by rewrite length_replicate. Qed.
Lemma blen_fmap {A B} (f : A -> B) l : blen (f <$> l) = blen l.
Proof. unfold blen. by rewrite length_fmap. Qed.
Lemma blen_0_nil {A} (l : list A) : blen l = 0 -> l = [].
Proof. destruct l; [done|]. rewrite blen_cons. pose proof (blen_nonneg l). lia. Qed.
Lemma blen_pos {A} (l : list A) : l <> [] -> 0 < blen l.
Proof. destruct l; [done|]. intros _. rewrite blen_cons. pose proof (blen_nonneg l). lia. Qed.
#[export] Hint Rewrite @blen_nil @blen_cons @blen_app @blen_take @blen_drop
  @blen_replicate @blen_fmap : blen.

Ltac pose_blen :=
  repeat match goal with
  | |- context [blen ?l] => lazymatch goal with
      | _ : 0 <= blen l |- _ => fail | _ => pose proof (blen_nonneg l) end
  | _ : context [blen ?l] |- _ => lazymatch goal with
      | _ : 0 <= blen l |- _ => fail | _ => pose proof (blen_nonneg l) end
  end.
Ltac zlia := autounfold with sizes in *; autorewrite with blen in *; pose_blen; lia.

Ltac gsplit :=
  repeat match goal with
  | H : (_ && _)%bool = true |- _ => apply andb_true_iff in H as [? ?]
  | H : (_ || _)%bool = false |- _ => apply orb_false_iff in H as [? ?]
  | H : negb _ = true |- _ => apply negb_true_iff in H
  | H : negb _ = false |- _ => apply negb_false_iff in H
  | H : (_ <=? _) = true |- _ => apply Z.leb_le in H
  | H : (_ <=? _) = false |- _ => apply Z.leb_gt in H
  | H : (_ <? _) = true |- _ => apply Z.ltb_lt in H
  | H : (_ <? _) = false |- _ => apply Z.ltb_ge in H
  | H : (_ =? _) = true |- _ => apply Z.eqb_eq in H
  | H : (_ =? _) = false |- _ => apply Z.eqb_neq in H
  end.
(** [if_true]/[if_false] decide the outermost guard of the goal by [zlia]. *)
Ltac bdecide :=
  repeat rewrite ?andb_true_iff, ?orb_true_iff, ?andb_false_iff, ?orb_false_iff,
    ?negb_true_iff, ?negb_false_iff,
    ?Z.leb_le, ?Z.ltb_lt, ?Z.eqb_eq, ?Z.leb_gt, ?Z.ltb_ge, ?Z.eqb_neq;
  zlia.
Ltac if_true := match goal with |- context [if ?b then _ else _] =>
  replace b with true by (symmetry; bdecide) end.
Ltac if_false := match goal with |- context [if ?b then _ else _] =>
  replace b with false by (symmetry; bdecide) end.
Ltac case_if := match goal with
  | |- context [if ?b then _ else _] => destruct b eqn:?; gsplit
  | H : context [if ?b then _ else _] |- _ => destruct b eqn:?; gsplit
  end.

(** ** Slices and copies *)

Lemma slice_ok {E A} (l : list A) a b :
  0 <= a <= b -> b <= blen l ->
  slice l a b = @Ok E _ (take (Z.to_nat (b - a)) (drop (Z.to_nat a) l)).
Proof. intros. unfold slice. by if_true. Qed.

Lemma slice_inv {E A} (l r : list A) a b :
  slice l a b = @Ok E _ r ->
  0 <= a <= b /\ b <= blen l /\ r = take (Z.to_nat (b - a)) (drop (Z.to_nat a) l).
Proof. unfold slice. case_if; [|done]. intros [= <-]. repeat split; lia. Qed.

Lemma slice_app {E A} (x y z : list A) a b :
  a = blen x -> b = blen x + blen y ->
  slice (x ++ y ++ z) a b = @Ok E _ y.
Proof.
  intros -> ->. rewrite slice_ok by zlia. f_equal. unfold blen.
  rewrite Nat2Z.id, drop_app_length.
  replace (Z.to_nat _) with (length y) by lia. apply take_app_length.
Qed.

Lemma slice_prefix {E A} (y z : list A) b :
  b = blen y -> slice (y ++ z) 0 b = @Ok E _ y.
Proof. intros ->. apply (slice_app []); zlia. Qed.

Lemma slice_suffix {E A} (x y : list A) a b :
  a = blen x -> b = blen x + blen y -> slice (x ++ y) a b = @Ok E _ y.
Proof. intros ??. rewrite <- (app_nil_r y) at 1. by apply slice_app. Qed.

Lemma index_ok {E A} (l : list A) i x :
  0 <= i -> l !! Z.to_nat i = Some x -> index l i = @Ok E _ x.
Proof. intros ? Hx. unfold index. if_true. by rewrite Hx. Qed.

Lemma index_middle {E A} (x z : list A) y i :
  i = blen x -> index (x ++ y :: z) i = @Ok E _ y.
Proof.
  intros ->. apply index_ok; [zlia|]. unfold blen. rewrite Nat2Z.id.
  by apply list_lookup_middle.
Qed.

Lemma copy_into_middle {E} (x y z src : list byte) a b :
  a = blen x -> b = blen x + blen y -> blen src = blen y ->
  @copy_into E a b src (x ++ y ++ z) = (x ++ src ++ z, Ok tt).
Proof.
  intros -> -> Hlen. unfold copy_into. if_true. f_equal.
  unfold blen in *. rewrite Nat2Z.id, take_app_length.
  replace (Z.to_nat _) with (length x + length y)%nat by lia.
  by rewrite <- drop_drop, drop_app_length, drop_app_length.
Qed.

(** The shape in which the encoders use it: the buffer is the part already
    written followed by at least [src.len()] free bytes. *)
Lemma copy_into_next {E} (done free src : list byte) a b :
  a = blen done -> b = a + blen src -> blen src <= blen free ->
  @copy_into E a b src (done ++ free)
  = ((done ++ src) ++ drop (length src) free, Ok tt).
Proof.
  intros -> -> Hle. rewrite <- (take_drop (length src) free) at 1.
  assert (blen (take (length src) free) = blen src) as Ht
    by (unfold blen in *; rewrite length_take; lia).
  rewrite copy_into_middle; [by rewrite app_assoc|done|lia|lia].
Qed.

(** ** Big- and little-endian integers *)

(** [z.to_be_bytes()] on an [n]-byte integer (two's complement when [z] is
    negative), and [from_be_bytes] / [from_le_bytes] of unsigned integers. *)
Definition be_bytes (n : nat) (z : Z) : list byte := rev (le_split n z).
Definition be_val (bs : list byte) : Z := le_combine (rev bs).
Definition le_bytes (n : nat) (z : Z) : list byte := le_split n z.
Definition le_val (bs : list byte) : Z := le_combine bs.

(** [i64::from_be_bytes] *)
Definition be_val_i64 (bs : list byte) : Z :=
  let u := be_val bs in if u <? 2 ^ 63 then u else u - 2 ^ 64.

(** [[src[off], .., src[off + n - 1]]]: panics when one index does. *)
Definition array_at {E} (n : nat) (src : list byte) (off : Z) : outcome E (list byte) :=
  slice src off (off + Z.of_nat n).

Definition zero_byte : byte := Byte.x00.

(** [x as u8 as usize] *)
Definition u8_val (b : byte) : Z := byte.unsigned b.
Definition u8_of (z : Z) : byte := byte.of_Z z.

Lemma length_be_bytes n z : length (be_bytes n z) = n.
Proof. unfold be_bytes. by rewrite length_rev, length_le_split. Qed.
Lemma blen_be_bytes n z : blen (be_bytes n z) = Z.of_nat n.
Proof. unfold blen. by rewrite length_be_bytes. Qed.
Lemma blen_le_bytes n z : blen (le_bytes n z) = Z.of_nat n.
Proof. unfold blen, le_bytes. by rewrite length_le_split. Qed.
#[export] Hint Rewrite blen_be_bytes blen_le_bytes length_be_bytes : blen.

Lemma be_val_be_bytes n z : be_val (be_bytes n z) = z mod 2 ^ (Z.of_nat n * 8).
Proof. unfold be_val, be_bytes. by rewrite rev_involutive, le_combine_split. Qed.
Lemma be_val_be_bytes_small n z :
  0 <= z < 2 ^ (Z.of_nat n * 8) -> be_val (be_bytes n z) = z.
Proof. intros. by rewrite be_val_be_bytes, Z.mod_small. Qed.
Lemma be_bytes_be_val bs : be_bytes (length bs) (be_val bs) = bs.
Proof.
  unfold be_val, be_bytes.
  rewrite <- length_rev, split_le_combine. apply rev_involutive.
Qed.
Lemma be_val_bound bs : 0 <= be_val bs < 2 ^ (8 * blen bs).
Proof. unfold be_val, blen. rewrite <- length_rev. apply le_combine_bound. Qed.
Lemma le_val_le_bytes_small n z :
  0 <= z < 2 ^ (Z.of_nat n * 8) -> le_val (le_bytes n z) = z.
Proof.
  intros. unfold le_val, le_bytes. by rewrite le_combine_split, Z.mod_small.
Qed.

Lemma be_val_u64 z : in_u64 z -> be_val (be_bytes 8 z) = z.
Proof. unfold in_u64, u64_max. intros. apply be_val_be_bytes_small. lia. Qed.
Lemma be_val_u32 z : in_u32 z -> be_val (be_bytes 4 z) = z.
Proof. unfold in_u32, u32_max. intros. apply be_val_be_bytes_small. lia. Qed.
Lemma be_val_u16 z : in_u16 z -> be_val (be_bytes 2 z) = z.
Proof. unfold in_u16, u16_max. intros. apply be_val_be_bytes_small. lia. Qed.
Lemma be_val_i64_be_bytes z : in_i64 z -> be_val_i64 (be_bytes 8 z) = z.
Proof.
  unfold in_i64, be_val_i64. rewrite be_val_be_bytes. change (Z.of_nat 8 * 8) with 64.
  intros Hz. destruct (Z_lt_le_dec z 0).
  - rewrite <- (Z.mod_add z 1), Z.mod_small by lia. if_false. lia.
  - rewrite Z.mod_small by lia. by if_true.
Qed.

Lemma u8_val_of z : in_u8 z -> u8_val (u8_of z) = z.
Proof.
  unfold in_u8, u8_max, u8_val, u8_of. intros.
  rewrite byte.unsigned_of_Z. apply Z.mod_small. lia.
Qed.
Lemma u8_of_val b : u8_of (u8_val b) = b.
Proof. apply byte.of_Z_unsigned. Qed.
Lemma u8_val_range b : in_u8 (u8_val b).
Proof. unfold in_u8, u8_max, u8_val. pose proof (byte.unsigned_range b). lia. Qed.

Lemma be_val_in_u64 bs : blen bs = 8 -> in_u64 (be_val bs).
Proof. intros H. pose proof (be_val_bound bs). rewrite H in *. unfold in_u64, u64_max. lia. Qed.
Lemma be_val_in_u32 bs : blen bs = 4 -> in_u32 (be_val bs).
Proof. intros H. pose proof (be_val_bound bs). rewrite H in *. unfold in_u32, u32_max. lia. Qed.
Lemma be_val_in_u16 bs : blen bs = 2 -> in_u16 (be_val bs).
Proof. intros H. pose proof (be_val_bound bs). rewrite H in *. unfold in_u16, u16_max. lia. Qed.

Lemma be_bytes_be_val_n n bs : blen bs = Z.of_nat n -> be_bytes n (be_val bs) = bs.
Proof.
  intros H. replace n with (length bs); [apply be_bytes_be_val|].
  unfold blen in H. lia.
Qed.

#[global] Arguments be_bytes : simpl never.
#[global] Arguments be_val : simpl never.
#[global] Arguments le_bytes : simpl never.
#[global] Arguments le_val : simpl never.

(** Bytes are a countable type, so that byte strings index finite maps. *)
#[global] Instance byte_eq_dec : EqDecision byte.
Proof. intros x y. destruct (Byte.byte_eq_dec x y); [by left|by right]. Defined.
#[global] Program Instance byte_countable : Countable byte :=
  inj_countable' Byte.to_N (fun n => default Byte.x00 (Byte.of_N n)) _.
Next Obligation. by intros []. Qed.

(** ** Lists *)

Lemma concat_app {A} (l k : list (list A)) : concat (l ++ k) = concat l ++ concat k.
Proof. induction l as [|x l IH]; cbn; [done|]. by rewrite IH, app_assoc. Qed.

Lemma drop_app_blen {A} (x y : list A) n :
  n = blen x -> drop (Z.to_nat n) (x ++ y) = y.
Proof. intros ->. unfold blen. rewrite Nat2Z.id. apply drop_app_length. Qed.

Lemma take_app_blen {A} (x y : list A) n :
  n = blen x -> take (Z.to_nat n) (x ++ y) = x.
Proof. intros ->. unfold blen. rewrite Nat2Z.id. apply take_app_length. Qed.

(** taking the head off one of several lists *)
Lemma concat_insert_perm {A} (L : list (list A)) i x l :
  L !! i = Some (x :: l) -> concat L ≡ₚ x :: concat (<[i := l]> L).
Proof.
  revert i. induction L as [|k L IH]; intros [|i] Hi; cbn in *; try done.
  - by injection Hi as ->.
  - rewrite (IH i Hi). by rewrite Permutation_middle.
Qed.

(** ** Reachability of step relations *)

Lemma rtc_invariant {A} (R : A -> A -> Prop) (Inv : A -> Prop) x y :
  (forall a b, R a b -> Inv a -> Inv b) -> rtc R x y -> Inv x -> Inv y.
Proof. intros Hstep Hr. induction Hr; eauto. Qed.

(** ** Writing into a part of a buffer

    [f(&mut dst[a..b])]: runs [m] on the sub-slice and puts it back. *)
Definition on_subslice {E A} (a b : Z) (m : st (list byte) E A) : st (list byte) E A := fun dst =>
  if (0 <=? a) && (a <=? b) && (b <=? blen dst)
  then let '(sub, o) := m (take (Z.to_nat (b - a)) (drop (Z.to_nat a) dst)) in
       (take (Z.to_nat a) dst ++ sub ++ drop (Z.to_nat b) dst, o)
  else (dst, Panic).

Lemma on_subslice_middle {E A} (m : st (list byte) E A) (x y z : list byte) a b :
  a = blen x -> b = blen x + blen y ->
  on_subslice a b m (x ++ y ++ z) = let '(sub, o) := m y in (x ++ sub ++ z, o).
Proof.
  intros -> ->. unfold on_subslice. if_true.
  rewrite drop_app_blen, take_app_blen, take_app_blen by zlia.
  destruct (m y) as [sub o]. do 2 f_equal.
  rewrite app_assoc, drop_app_blen by zlia. done.
Qed.

Lemma on_subslice_prefix {E A} (m : st (list byte) E A) (y z : list byte) b :
  b = blen y -> on_subslice 0 b m (y ++ z) = let '(sub, o) := m y in (sub ++ z, o).
Proof. intros ->. apply (on_subslice_middle m []); zlia. Qed.
