(* ===== verification/Std.v ===== *)
(** * The parts of the Rust standard library the crates use

    Comparison ([Ord]), [BTreeSet] and [BTreeMap] as strictly sorted lists,
    [Bound] and range queries, [BinaryHeap] as an interface (the order in
    which equal elements leave a heap is not specified), [binary_search_by],
    [str::from_utf8]. *)
From S2P Require Import Prelude.

(** ** [Ord] *)

Class Cmp (A : Type) := cmp : A -> A -> comparison.

Class TotalCmp (A : Type) `{Cmp A} : Prop := {
  cmp_refl (x : A) : cmp x x = Eq;
  cmp_flip (x y : A) : cmp y x = CompOpp (cmp x y);
  cmp_trans (x y z : A) : cmp x y = Lt -> cmp y z = Lt -> cmp x z = Lt;
  cmp_eq_compat (x y z : A) : cmp x y = Eq -> cmp x z = cmp y z
}.

(** Comparison that identifies only equal values ([derive(Ord)]). *)
Class LeibnizCmp (A : Type) `{Cmp A} : Prop := cmp_eq (x y : A) : cmp x y = Eq -> x = y.

#[global] Instance Z_cmp : Cmp Z := Z.compare.
#[global] Instance Z_total_cmp : TotalCmp Z.
Proof.
  split; unfold cmp, Z_cmp.
  - apply Z.compare_refl.
  - intros x y. apply Z.compare_antisym.
  - intros x y z. rewrite !Z.compare_lt_iff. lia.
  - intros x y z ->%Z.compare_eq. done.
Qed.
#[global] Instance Z_leibniz_cmp : LeibnizCmp Z.
Proof. intros x y. apply Z.compare_eq. Qed.

(** [c1.then(c2)] *)
Definition ord_then (c1 c2 : comparison) : comparison :=
  match c1 with Eq => c2 | _ => c1 end.

#[global] Instance pair_cmp {A B} `{Cmp A, Cmp B} : Cmp (A * B) := fun x y =>
  ord_then (cmp x.1 y.1) (cmp x.2 y.2).
#[global] Instance pair_total_cmp {A B} `{TotalCmp A, TotalCmp B} : TotalCmp (A * B).
Proof.
  split; unfold cmp, pair_cmp, ord_then.
  - intros [a b]; cbn. by rewrite !cmp_refl.
  - intros [a b] [a' b']; cbn. rewrite (cmp_flip a), (cmp_flip b).
    by destruct (cmp a a').
  - intros [a b] [a' b'] [a'' b'']; cbn. intros HL1 HL2.
    destruct (cmp a a') eqn:E1; try done.
    + rewrite (cmp_eq_compat a a' a'' E1). destruct (cmp a' a''); try done.
      by apply cmp_trans with b'.
    + destruct (cmp a' a'') eqn:E2; try done.
      * assert (cmp a'' a' = Eq) as E2' by (by rewrite cmp_flip, E2).
        assert (cmp a'' a = cmp a' a) as E3 by (by apply cmp_eq_compat).
        by rewrite (cmp_flip a'' a), E3, (cmp_flip a a'), E1.
      * by rewrite (cmp_trans _ _ _ E1 E2).
  - intros [a b] [a' b'] [a'' b'']; cbn.
    destruct (cmp a a') eqn:E1; try done. intros E2.
    rewrite (cmp_eq_compat _ _ _ E1). destruct (cmp a' a''); try done.
    by apply cmp_eq_compat.
Qed.
#[global] Instance pair_leibniz_cmp {A B} `{LeibnizCmp A, LeibnizCmp B} : LeibnizCmp (A * B).
Proof.
  intros [a b] [a' b']. unfold cmp, pair_cmp, ord_then. cbn.
  destruct (cmp a a') eqn:E; try done. intros ?. f_equal; by apply cmp_eq.
Qed.

(** Slices compare lexicographically; [str] compares by its bytes. *)
Fixpoint bytes_compare (x y : list byte) : comparison :=
  match x, y with
  | [], [] => Eq
  | [], _ => Lt
  | _, [] => Gt
  | a :: x, b :: y => ord_then (u8_val a ?= u8_val b) (bytes_compare x y)
  end.
#[global] Instance bytes_cmp : Cmp (list byte) := bytes_compare.

Lemma u8_val_inj a b : u8_val a = u8_val b -> a = b.
Proof. intros H. by rewrite <- (u8_of_val a), H, u8_of_val. Qed.

#[global] Instance bytes_leibniz_cmp : LeibnizCmp (list byte).
Proof.
  unfold LeibnizCmp, cmp, bytes_cmp. intros x. induction x as [|a x IH]; intros [|b y]; cbn; try done.
  destruct (Z.compare_spec (u8_val a) (u8_val b)); cbn; try done.
  intros ?. f_equal; [by apply u8_val_inj|by apply IH].
Qed.
#[global] Instance bytes_total_cmp : TotalCmp (list byte).
Proof.
  split; unfold cmp, bytes_cmp.
  - intros x. induction x as [|a x IH]; cbn; [done|]. by rewrite Z.compare_refl, IH.
  - intros x. induction x as [|a x IH]; intros [|b y]; cbn; try done.
    rewrite IH, (Z.compare_antisym (u8_val a)). by destruct (u8_val a ?= u8_val b).
  - intros x. induction x as [|a x IH]; intros [|b y] [|c z]; cbn; try done.
    destruct (Z.compare_spec (u8_val a) (u8_val b)) as [E|E|E];
      destruct (Z.compare_spec (u8_val b) (u8_val c)) as [F|F|F]; cbn; try done;
      intros ? ?; destruct (Z.compare_spec (u8_val a) (u8_val c)); cbn; try done; try lia.
    by apply IH with y.
  - intros x y z ->%bytes_leibniz_cmp. done.
Qed.

Section cmp_facts.
Context {A : Type} `{TotalCmp A}.
Implicit Types x y z : A.

Lemma cmp_gt_lt x y : cmp x y = Gt <-> cmp y x = Lt.
Proof. rewrite (cmp_flip x y). by destruct (cmp x y). Qed.
Lemma cmp_eq_sym x y : cmp x y = Eq -> cmp y x = Eq.
Proof. intros E. by rewrite (cmp_flip x y), E. Qed.
Lemma cmp_eq_compat_r x y z : cmp x y = Eq -> cmp z x = cmp z y.
Proof. intros E. rewrite (cmp_flip x z), (cmp_flip y z). by rewrite (cmp_eq_compat x y z). Qed.
Lemma cmp_le_trans x y z : cmp x y <> Gt -> cmp y z <> Gt -> cmp x z <> Gt.
Proof.
  intros HL1 HL2. destruct (cmp x y) eqn:E1; [|destruct (cmp y z) eqn:E2|]; try done.
  - by rewrite (cmp_eq_compat _ _ _ E1).
  - rewrite <- (cmp_eq_compat_r _ _ _ E2), E1. done.
  - by rewrite (cmp_trans _ _ _ E1 E2).
Qed.
Lemma cmp_lt_le_trans x y z : cmp x y = Lt -> cmp y z <> Gt -> cmp x z = Lt.
Proof.
  intros HL1 HL2. destruct (cmp y z) eqn:E2; try done.
  - by rewrite <- (cmp_eq_compat_r _ _ _ E2).
  - by apply cmp_trans with y.
Qed.
Lemma cmp_le_lt_trans x y z : cmp x y <> Gt -> cmp y z = Lt -> cmp x z = Lt.
Proof.
  intros HL1 HL2. destruct (cmp x y) eqn:E1; try done.
  - by rewrite (cmp_eq_compat _ _ _ E1).
  - by apply cmp_trans with y.
Qed.
End cmp_facts.

(** ** [BTreeSet]: a strictly sorted list

    The elements are ordered by the key [key x]. [BTreeSet::insert] keeps
    the element already present when an equal one is inserted. *)

Section btree_set.
Context {A K : Type} `{TotalCmp K} (key : A -> K).

Definition key_lt (x y : A) : Prop := cmp (key x) (key y) = Lt.
Definition bset_sorted (l : list A) : Prop := StronglySorted key_lt l.

Fixpoint bset_insert (x : A) (l : list A) : list A :=
  match l with
  | [] => [x]
  | y :: t => match cmp (key x) (key y) with
              | Lt => x :: y :: t
              | Eq => y :: t
              | Gt => y :: bset_insert x t
              end
  end.

Definition bset_fresh (x : A) (l : list A) : Prop :=
  Forall (fun y => cmp (key y) (key x) <> Eq) l.

Lemma bset_insert_Forall (P : A -> Prop) x l :
  P x -> Forall P l -> Forall P (bset_insert x l).
Proof. intros Hx. induction 1; cbn; [by repeat constructor|]. by destruct (cmp _ _); repeat constructor. Qed.

Lemma bset_insert_sorted x l : bset_sorted l -> bset_sorted (bset_insert x l).
Proof.
  induction 1 as [|y t Hs IH Hy]; cbn; [by repeat constructor|].
  destruct (cmp (key x) (key y)) eqn:E.
  - by constructor.
  - constructor; [by constructor|]. constructor; [done|].
    eapply Forall_impl; [exact Hy|]. intros z Hz. by apply cmp_trans with (key y).
  - constructor; [done|]. apply bset_insert_Forall; [|done]. by apply cmp_gt_lt.
Qed.

Lemma bset_insert_fresh x l : bset_fresh x l -> bset_insert x l ≡ₚ x :: l.
Proof.
  induction 1 as [|y t Hy Ht IH]; cbn; [done|].
  destruct (cmp (key x) (key y)) eqn:E.
  - destruct Hy. by apply cmp_eq_sym.
  - done.
  - rewrite IH. apply Permutation_swap.
Qed.

Lemma bset_insert_present x l :
  bset_sorted l -> ~ bset_fresh x l -> bset_insert x l = l.
Proof.
  induction 1 as [|y t Hs IH Hy]; cbn; intros Hf.
  - destruct Hf. constructor.
  - destruct (cmp (key x) (key y)) eqn:E; [done| |].
    + destruct Hf. constructor.
      * rewrite (cmp_flip (key x)), E. done.
      * eapply Forall_impl; [exact Hy|]. intros z Hz Hzx.
        assert (cmp (key y) (key x) = Lt) as Hyx
          by (by rewrite <- (cmp_eq_compat_r _ _ _ Hzx)).
        by rewrite (cmp_flip (key x)), E in Hyx.
    + f_equal. apply IH. intros Hft. apply Hf. constructor; [|done].
      rewrite (cmp_flip (key x)), E. done.
Qed.

Lemma bset_fresh_dec x l : {bset_fresh x l} + {~ bset_fresh x l}.
Proof. apply Forall_dec. intros y. destruct (cmp (key y) (key x)); [right|left|left]; naive_solver. Qed.

Lemma bset_insert_last x l :
  Forall (fun y => key_lt y x) l -> bset_insert x l = l ++ [x].
Proof.
  induction 1 as [|y t Hy Ht IH]; cbn; [done|].
  unfold key_lt in Hy. apply cmp_gt_lt in Hy. by rewrite Hy, IH.
Qed.

(** Sorted lists are determined by their elements. *)
Lemma bset_sorted_perm_eq l k : bset_sorted l -> bset_sorted k -> l ≡ₚ k -> l = k.
Proof.
  intros Hl. revert k. induction Hl as [|x l Hs IH Hx]; intros k Hk Hp.
  - by apply Permutation_nil_l in Hp.
  - destruct Hk as [|y k Hks Hky]; [by apply Permutation_nil_r in Hp|].
    assert (x = y) as ->.
    { assert (x ∈ y :: k) as Hxk by (rewrite <- Hp; left).
      assert (y ∈ x :: l) as Hyl by (rewrite Hp; left).
      apply list_elem_of_In in Hxk, Hyl.
      destruct Hxk as [->|Hxk]; [done|]. destruct Hyl as [->|Hyl]; [done|].
      apply list_elem_of_In in Hxk, Hyl.
      pose proof (proj1 (Forall_forall _ _) Hx _ Hyl) as H1.
      pose proof (proj1 (Forall_forall _ _) Hky _ Hxk) as H2.
      unfold key_lt in *. apply cmp_gt_lt in H1. congruence. }
    f_equal. apply IH; [done|]. by apply Permutation.Permutation_cons_inv in Hp.
Qed.
End btree_set.

(** ** [Bound] and range queries *)

Inductive bound (K : Type) : Type :=
| Included (k : K)
| Excluded (k : K)
| Unbounded.
Arguments Included {K} k.
Arguments Excluded {K} k.
Arguments Unbounded {K}.

Section range.
Context {K : Type} `{TotalCmp K}.

Definition after_start (b : bound K) (k : K) : bool :=
  match b with
  | Included s => match cmp k s with Lt => false | _ => true end
  | Excluded s => match cmp k s with Gt => true | _ => false end
  | Unbounded => true
  end.

Definition before_end (b : bound K) (k : K) : bool :=
  match b with
  | Included e => match cmp k e with Gt => false | _ => true end
  | Excluded e => match cmp k e with Lt => true | _ => false end
  | Unbounded => true
  end.

Definition in_bounds (s e : bound K) (k : K) : bool := after_start s k && before_end e k.

(** [BTreeSet::range] panics when the start is after the end, and when
    both bounds exclude the same key; the bounds of a set that has no root
    node yet are not looked at. *)
Definition range_panics (s e : bound K) : bool :=
  match s, e with
  | Excluded a, Excluded b => match cmp a b with Lt => false | _ => true end
  | Included a, Included b | Included a, Excluded b | Excluded a, Included b =>
      match cmp a b with Gt => true | _ => false end
  | _, _ => false
  end.

Definition bset_range {E A} (key : A -> K) (s e : bound K) (l : list A) : outcome E (list A) :=
  match l with
  | [] => Ok []
  | _ => if range_panics s e then Panic else Ok (List.filter (fun x => in_bounds s e (key x)) l)
  end.

Lemma bset_range_ok {E A} (key : A -> K) s e l :
  range_panics s e = false ->
  bset_range (E := E) key s e l = Ok (List.filter (fun x => in_bounds s e (key x)) l).
Proof. intros Hp. destruct l; cbn [bset_range]; [done|]. by rewrite Hp. Qed.
Lemma bset_range_nonempty {E A} (key : A -> K) s e l :
  l <> [] ->
  bset_range (E := E) key s e l
  = if range_panics s e then Panic else Ok (List.filter (fun x => in_bounds s e (key x)) l).
Proof. by destruct l. Qed.

Lemma filter_sorted {A} (key : A -> K) (p : A -> bool) l :
  bset_sorted key l -> bset_sorted key (List.filter p l).
Proof.
  induction 1 as [|x l Hs IH Hx]; cbn; [constructor|].
  destruct (p x); [|done]. constructor; [done|].
  apply Forall_forall. intros y Hy. apply list_elem_of_In, filter_In in Hy as [Hy _].
  rewrite Forall_forall in Hx. by apply Hx, list_elem_of_In.
Qed.

Lemma filter_all {A} (p : A -> bool) l : Forall (fun x => p x = true) l -> List.filter p l = l.
Proof. induction 1 as [|x l Hx _ IH]; cbn; [done|]. by rewrite Hx, IH. Qed.
Lemma filter_none {A} (p : A -> bool) l : Forall (fun x => p x = false) l -> List.filter p l = [].
Proof. induction 1 as [|x l Hx _ IH]; cbn; [done|]. by rewrite Hx, IH. Qed.
End range.

Lemma concat_map_filter {A B} (f : A -> list B) (p : B -> bool) l :
  concat (map (fun x => List.filter p (f x)) l) = List.filter p (concat (map f l)).
Proof. induction l as [|x l IH]; cbn; [done|]. by rewrite List.filter_app, IH. Qed.
#[global] Instance list_filter_proper {A} (p : A -> bool) : Proper ((≡ₚ) ==> (≡ₚ)) (List.filter p).
Proof.
  intros l k. induction 1 as [|x l k _ IH|x y l|l k m _ IH1 _ IH2]; cbn [List.filter]; [done| | |by rewrite IH1].
  - destruct (p x); [by f_equiv|done].
  - destruct (p x), (p y); [apply Permutation_swap|done..].
Qed.
Lemma NoDup_fmap_filter {A B} (f : A -> B) (p : A -> bool) l :
  NoDup (f <$> l) -> NoDup (f <$> List.filter p l).
Proof.
  induction l as [|x l IH]; cbn [List.filter]; [done|]. intros [Hx Hl]%NoDup_cons.
  destruct (p x); [|by apply IH]. apply NoDup_cons. split; [|by apply IH].
  intros (y & Hy & [Hin _]%list_elem_of_In%filter_In)%list_elem_of_fmap. apply Hx. rewrite Hy.
  by apply list_elem_of_fmap_2, list_elem_of_In.
Qed.
Lemma filter_filter_and {A} (p q : A -> bool) l :
  (forall x, p x = true -> q x = true) -> List.filter p (List.filter q l) = List.filter p l.
Proof.
  intros Hpq. induction l as [|x l IH]; cbn [List.filter]; [done|].
  destruct (q x) eqn:Eq; cbn [List.filter]; [by rewrite IH|].
  destruct (p x) eqn:Ep; [|done]. by rewrite (Hpq x Ep) in Eq.
Qed.

(** ** [BinaryHeap<Reverse<T>>]: an interface

    [pop] returns a smallest element; which one of several equal elements
    is not specified, so it is a parameter constrained by its laws. *)

Class MinHeap (A H : Type) `{Cmp A} := {
  heap_new : H;
  heap_push : A -> H -> H;
  heap_pop : H -> option (A * H);
  heap_elems : H -> list A
}.

Class MinHeapLaws (A H : Type) `{MinHeap A H} : Prop := {
  heap_new_elems : heap_elems heap_new = [];
  heap_push_elems (x : A) (h : H) : heap_elems (heap_push x h) ≡ₚ x :: heap_elems h;
  heap_pop_none (h : H) : heap_pop h = None <-> heap_elems h = [];
  heap_pop_elems (h : H) x h' :
    heap_pop h = Some (x, h') -> heap_elems h ≡ₚ x :: heap_elems h';
  heap_pop_min (h : H) x h' y :
    heap_pop h = Some (x, h') -> y ∈ heap_elems h -> cmp x y <> Gt
}.

(** The instance the witnesses run: a list kept sorted, first in first out. *)
Section list_heap.
Context {A : Type} `{TotalCmp A}.

Fixpoint lheap_push (x : A) (l : list A) : list A :=
  match l with
  | [] => [x]
  | y :: t => match cmp x y with Lt => x :: y :: t | _ => y :: lheap_push x t end
  end.

Definition lheap_sorted : list A -> Prop := StronglySorted (fun x y => cmp x y <> Gt).

Lemma lheap_push_perm x l : lheap_push x l ≡ₚ x :: l.
Proof.
  induction l as [|y t IH]; cbn; [done|].
  destruct (cmp x y); try done; rewrite IH; apply Permutation_swap.
Qed.

Lemma lheap_push_sorted x l : lheap_sorted l -> lheap_sorted (lheap_push x l).
Proof.
  induction 1 as [|y t Hs IH Hy]; cbn; [by repeat constructor|].
  destruct (cmp x y) eqn:E.
  all: constructor; [by try constructor|].
  2: { constructor; [congruence|]. eapply Forall_impl; [exact Hy|].
       intros z Hz. cbn. apply cmp_le_trans with y; congruence. }
  all: rewrite (lheap_push_perm x t); constructor; [|done].
  - rewrite (cmp_flip x y), E. done.
  - rewrite (cmp_flip x y), E. done.
Qed.

Lemma lheap_foldr_sorted l : lheap_sorted (foldr lheap_push [] l).
Proof. induction l as [|x l IH]; cbn; [constructor|]. by apply lheap_push_sorted. Qed.

(** A sorted list packed with its invariant. *)
Record list_heap := ListHeap { lh_list : list A; lh_sorted : lheap_sorted lh_list }.

Program Definition lh_push (x : A) (h : list_heap) : list_heap :=
  {| lh_list := lheap_push x (lh_list h) |}.
Next Obligation. intros x h. apply lheap_push_sorted, lh_sorted. Qed.

Lemma lheap_tail x t : lheap_sorted (x :: t) -> lheap_sorted t.
Proof. by inversion 1. Qed.

Definition lh_pop (h : list_heap) : option (A * list_heap) :=
  match lh_list h as l return lheap_sorted l -> option (A * list_heap) with
  | [] => fun _ => None
  | x :: t => fun Hs => Some (x, ListHeap t (lheap_tail x t Hs))
  end (lh_sorted h).

#[global] Instance list_heap_heap : MinHeap A list_heap := {
  heap_new := ListHeap [] (SSorted_nil _);
  heap_push := lh_push;
  heap_pop := lh_pop;
  heap_elems := lh_list
}.

#[global] Instance list_heap_laws : MinHeapLaws A list_heap.
Proof.
  split.
  - done.
  - intros x h. apply lheap_push_perm.
  - intros [l Hl]; cbn. destruct l; cbn; naive_solver.
  - intros [l Hl] x h'. destruct l; cbn; [done|]. by intros [= <- <-].
  - intros [l Hl] x h' y. destruct l as [|z l]; cbn; [done|]. intros [= <- <-].
    apply StronglySorted_inv in Hl as [_ Hz]. rewrite elem_of_cons.
    intros [->|Hy]; [by rewrite cmp_refl|]. rewrite Forall_forall in Hz. by apply Hz.
Qed.
End list_heap.
#[global] Arguments list_heap A {_}.

(** ** [BTreeMap]: a strictly sorted association list *)

Section btree_map.
Context {K V : Type} `{TotalCmp K}.

Definition bmap_sorted (m : list (K * V)) : Prop := bset_sorted fst m.

Fixpoint bmap_insert (k : K) (v : V) (m : list (K * V)) : list (K * V) :=
  match m with
  | [] => [(k, v)]
  | (k', v') :: t => match cmp k k' with
                     | Lt => (k, v) :: (k', v') :: t
                     | Eq => (k', v) :: t
                     | Gt => (k', v') :: bmap_insert k v t
                     end
  end.

Fixpoint bmap_get (k : K) (m : list (K * V)) : option V :=
  match m with
  | [] => None
  | (k', v) :: t => match cmp k k' with Eq => Some v | _ => bmap_get k t end
  end.

Definition bmap_remove (k : K) (m : list (K * V)) : list (K * V) :=
  List.filter (fun kv => match cmp k kv.1 with Eq => false | _ => true end) m.

Lemma bmap_insert_keys_Forall (P : K -> Prop) k v m :
  P k -> Forall (fun kv => P kv.1) m -> Forall (fun kv => P kv.1) (bmap_insert k v m).
Proof.
  intros Hk. induction 1 as [|[k' v'] t Hx Ht IH]; cbn; [by repeat constructor|].
  by destruct (cmp k k'); repeat constructor.
Qed.

Lemma bmap_insert_sorted k v m : bmap_sorted m -> bmap_sorted (bmap_insert k v m).
Proof.
  induction 1 as [|[k' v'] t Hs IH Hy]; cbn; [by repeat constructor|].
  destruct (cmp k k') eqn:E.
  - constructor; [done|]. exact Hy.
  - constructor; [by constructor|]. constructor; [done|].
    eapply Forall_impl; [exact Hy|]. intros z Hz. unfold key_lt in *. cbn in *.
    by apply cmp_trans with k'.
  - constructor; [done|]. unfold key_lt. cbn.
    apply (bmap_insert_keys_Forall (fun x => cmp k' x = Lt)); [by apply cmp_gt_lt|done].
Qed.

Lemma bmap_insert_last k v m :
  Forall (fun kv => cmp kv.1 k = Lt) m -> bmap_insert k v m = m ++ [(k, v)].
Proof.
  induction 1 as [|[k' v'] t Hy Ht IH]; cbn in *; [done|].
  apply cmp_gt_lt in Hy. by rewrite Hy, IH.
Qed.

Lemma bmap_remove_sorted k m : bmap_sorted m -> bmap_sorted (bmap_remove k m).
Proof. apply filter_sorted. Qed.

Context `{!LeibnizCmp K}.

Lemma cmp_ne x y : x <> y -> cmp x y <> Eq.
Proof. intros Hne E. by apply cmp_eq in E. Qed.

Lemma bmap_get_insert k v m : bmap_get k (bmap_insert k v m) = Some v.
Proof.
  induction m as [|[k' v'] t IH]; cbn; [by rewrite cmp_refl|].
  destruct (cmp k k') eqn:E; cbn; [by rewrite E|by rewrite cmp_refl|by rewrite E].
Qed.

Lemma bmap_get_insert_ne k k' v m : k <> k' -> bmap_get k' (bmap_insert k v m) = bmap_get k' m.
Proof.
  intros Hne. pose proof (cmp_ne k' k (not_eq_sym Hne)) as Hc.
  induction m as [|[x w] t IH]; cbn; [by destruct (cmp k' k)|].
  destruct (cmp k x) eqn:E; cbn.
  - apply cmp_eq in E as <-. by destruct (cmp k' k).
  - by destruct (cmp k' k).
  - by rewrite IH.
Qed.

Lemma bmap_get_remove k m : bmap_get k (bmap_remove k m) = None.
Proof.
  induction m as [|[x w] t IH]; cbn; [done|]. unfold bmap_remove in *. cbn.
  destruct (cmp k x) eqn:E; cbn; rewrite ?E; apply IH.
Qed.

Lemma bmap_get_remove_ne k k' m : k <> k' -> bmap_get k' (bmap_remove k m) = bmap_get k' m.
Proof.
  intros Hne. induction m as [|[x w] t IH]; cbn; [done|]. unfold bmap_remove in *. cbn.
  destruct (cmp k x) eqn:E; cbn; rewrite ?IH; [|done..].
  apply cmp_eq in E as <-. pose proof (cmp_ne k' k (not_eq_sym Hne)). by destruct (cmp k' k).
Qed.

Lemma bmap_get_elem k v m : bmap_sorted m -> (k, v) ∈ m <-> bmap_get k m = Some v.
Proof.
  induction 1 as [|[x w] t Hs IH Hx]; cbn; [split; [by intros ?%not_elem_of_nil|done]|].
  rewrite elem_of_cons. destruct (cmp k x) eqn:E.
  - apply cmp_eq in E as <-. split; [intros [[= ->]|Hin]; [done|]|intros [= ->]; by left].
    rewrite Forall_forall in Hx. specialize (Hx _ Hin). unfold key_lt in Hx. cbn in Hx. by rewrite cmp_refl in Hx.
  - rewrite <- IH. split; [intros [[= -> ->]|?]; [by rewrite cmp_refl in E|done]|by right].
  - rewrite <- IH. split; [intros [[= -> ->]|?]; [by rewrite cmp_refl in E|done]|by right].
Qed.

Lemma bmap_get_None k m : Forall (fun kv => kv.1 <> k) m -> bmap_get k m = None.
Proof.
  induction 1 as [|[x w] t Hx _ IH]; cbn; [done|]. pose proof (cmp_ne k x (not_eq_sym Hx)). by destruct (cmp k x).
Qed.

Lemma bmap_keys_nodup m : bmap_sorted m -> NoDup m.*1.
Proof.
  induction 1 as [|[x w] t Hs IH Hx]; cbn; [constructor|]. constructor; [|done].
  rewrite list_elem_of_fmap. intros ([y z] & -> & Hin). rewrite Forall_forall in Hx. specialize (Hx _ Hin).
  unfold key_lt in Hx. cbn in Hx. by rewrite cmp_refl in Hx.
Qed.
End btree_map.
#[export] Hint Rewrite @bmap_get_insert @bmap_get_remove : rust.

(** ** [slice::binary_search_by]

    The loop of the standard library. The closure may fail or panic. *)

Section binary_search.
Context {E A : Type} (f : A -> outcome E comparison).

Fixpoint bsearch_loop (fuel : nat) (l : list A) (base size : Z) : outcome E Z :=
  match fuel with
  | O => Ok base
  | S fuel =>
      if 1 <? size then
        let half := size / 2 in
        let mid := base + half in
        x ← index l mid;
        c ← f x;
        bsearch_loop fuel l (match c with Gt => base | _ => mid end) (size - half)
      else Ok base
  end.

(** [inl i] is [Ok(i)], [inr i] is [Err(i)]. *)
Definition binary_search_by (l : list A) : outcome E (Z + Z) :=
  if blen l =? 0 then Ok (inr 0)
  else
    base ← bsearch_loop (length l) l 0 (blen l);
    x ← index l base;
    c ← f x;
    Ok (match c with Eq => inl base | Lt => inr (base + 1) | Gt => inr base end).

Context (g : A -> comparison) (l : list A).
Hypothesis f_g : forall x, x ∈ l -> f x = Ok (g x).
(** the verdicts along [l] never go back: [Lt .. Lt Eq .. Eq Gt .. Gt] *)
Hypothesis mono : forall i j x y, (i < j)%nat -> l !! i = Some x -> l !! j = Some y ->
  (g x = Gt -> g y = Gt) /\ (g y = Lt -> g x = Lt).

Definition all_lt_before (i : Z) : Prop :=
  forall j x, Z.of_nat j < i -> l !! j = Some x -> g x = Lt.
Definition all_gt_from (i : Z) : Prop :=
  forall j x, i <= Z.of_nat j -> l !! j = Some x -> g x = Gt.

Lemma index_in (i : Z) : 0 <= i < blen l -> exists x, l !! Z.to_nat i = Some x /\ x ∈ l /\ index l i = @Ok E _ x.
Proof.
  intros Hi. destruct (lookup_lt_is_Some_2 l (Z.to_nat i)) as [x Hx]; [unfold blen in *; lia|].
  exists x. split_and!; [done|by eapply list_elem_of_lookup_2|]. apply index_ok; [lia|done].
Qed.

Lemma bsearch_loop_spec fuel base size :
  0 <= base -> 1 <= size -> base + size <= blen l -> size <= Z.of_nat fuel ->
  (base = 0 \/ exists x, l !! Z.to_nat base = Some x /\ g x <> Gt) ->
  all_gt_from (base + size) ->
  exists b, bsearch_loop fuel l base size = Ok b /\ 0 <= b < blen l /\
    (b = 0 \/ exists x, l !! Z.to_nat b = Some x /\ g x <> Gt) /\ all_gt_from (b + 1).
Proof.
  revert base size. induction fuel as [|fuel IH]; intros base size Hb Hs Hbs Hf Hlow Hhigh; [lia|].
  cbn. destruct (1 <? size) eqn:E1; gsplit.
  2: { exists base. replace size with 1 in * by lia. repeat split; try done; lia. }
  pose proof (Z.div_le_upper_bound size 2 size). pose proof (Z.div_str_pos size 2).
  pose proof (Z.mul_div_le size 2).
  destruct (index_in (base + size / 2)) as (x & Hx & Hin & ->); [lia|].
  rewrite ok_bind, (f_g x Hin), ok_bind.
  assert (size - size / 2 <= Z.of_nat fuel) by lia.
  destruct (g x) eqn:Ex.
  - apply IH; try lia; [right; exists x; by rewrite Ex|].
    intros j y Hj. apply Hhigh. lia.
  - apply IH; try lia; [right; exists x; by rewrite Ex|].
    intros j y Hj. apply Hhigh. lia.
  - apply IH; try lia; [done|]. intros j y Hj Hy.
    destruct (decide (Z.of_nat j = base + size / 2)) as [Heq|Hne].
    + replace (Z.to_nat (base + size / 2)) with j in Hx by lia. congruence.
    + destruct (Z_lt_le_dec (Z.of_nat j) (base + size / 2)); [lia|].
      apply (mono (Z.to_nat (base + size / 2)) j x y); try done; lia.
Qed.

Lemma binary_search_by_spec :
  exists r, binary_search_by l = Ok r /\
    match r with
    | inl i => exists x, 0 <= i < blen l /\ l !! Z.to_nat i = Some x /\ g x = Eq
    | inr i => 0 <= i <= blen l /\ all_lt_before i /\ all_gt_from i
    end.
Proof.
  unfold binary_search_by. destruct (blen l =? 0) eqn:E0; gsplit.
  { apply blen_0_nil in E0. exists (inr 0). split; [done|].
    split; [zlia|]. split; intros j x _; by rewrite E0. }
  destruct (bsearch_loop_spec (length l) 0 (blen l)) as (b & -> & Hb & Hlow & Hhigh); try zlia.
  { unfold blen. lia. }
  { intros j x Hj Hx%lookup_lt_Some. unfold blen in Hj. lia. }
  rewrite ok_bind. destruct (index_in b Hb) as (x & Hx & Hin & ->).
  rewrite ok_bind, (f_g x Hin), ok_bind. eexists. split; [done|].
  destruct (g x) eqn:Ex.
  - by exists x.
  - split; [lia|]. split; [|done]. intros j y Hj Hy.
    destruct (decide (Z.of_nat j = b)) as [<-|Hne]; [rewrite Nat2Z.id in Hx; congruence|].
    apply (mono j (Z.to_nat b) y x); try done; lia.
  - destruct Hlow as [->|(y & Hy & Hg)]; [|congruence].
    split; [zlia|]. split; [intros ???; lia|]. intros j y Hj Hy.
    destruct (decide (j = 0%nat)) as [->|Hne]; [change (Z.to_nat 0) with 0%nat in Hx; congruence|].
    apply (mono 0%nat j x y); try done; lia.
Qed.
End binary_search.

(** ** [str::from_utf8]

    Well-formed UTF-8 byte sequences (Unicode, table 3-7), which is what
    the standard library accepts. A [str] is the list of its bytes. *)

Definition between (lo hi : Z) (b : byte) : bool := (lo <=? u8_val b) && (u8_val b <=? hi).
Definition utf8_cont : byte -> bool := between 0x80 0xBF.

Fixpoint utf8_valid (bs : list byte) : bool :=
  match bs with
  | [] => true
  | b0 :: r0 =>
      if between 0x00 0x7F b0 then utf8_valid r0
      else match r0 with
      | [] => false
      | b1 :: r1 =>
          if between 0xC2 0xDF b0 then utf8_cont b1 && utf8_valid r1
          else match r1 with
          | [] => false
          | b2 :: r2 =>
              if between 0xE0 0xE0 b0 then between 0xA0 0xBF b1 && utf8_cont b2 && utf8_valid r2
              else if between 0xE1 0xEC b0 || between 0xEE 0xEF b0
                   then utf8_cont b1 && utf8_cont b2 && utf8_valid r2
              else if between 0xED 0xED b0
                   then between 0x80 0x9F b1 && utf8_cont b2 && utf8_valid r2
              else match r2 with
              | [] => false
              | b3 :: r3 =>
                  if between 0xF0 0xF0 b0
                  then between 0x90 0xBF b1 && utf8_cont b2 && utf8_cont b3 && utf8_valid r3
                  else if between 0xF1 0xF3 b0
                  then utf8_cont b1 && utf8_cont b2 && utf8_cont b3 && utf8_valid r3
                  else if between 0xF4 0xF4 b0
                  then between 0x80 0x8F b1 && utf8_cont b2 && utf8_cont b3 && utf8_valid r3
                  else false
              end
          end
      end
  end.

(** [haystack.contains(needle)] *)
Fixpoint starts_with (needle hay : list byte) : bool :=
  match needle, hay with
  | [], _ => true
  | a :: n, b :: h => bool_decide (a = b) && starts_with n h
  | _ :: _, [] => false
  end.
Fixpoint str_contains (hay needle : list byte) : bool :=
  starts_with needle hay || match hay with [] => false | _ :: h => str_contains h needle end.
