(* ===== verification/Text.v ===== *)
(** * Text: what the tools and the daemon use of Rust's strings

    Strings are their UTF-8 bytes. Decimal numbers ([Display] with padding and
    [str::parse]), prefixes, splitting, ASCII case, and [sort_by], which is
    stable. *)
From S2P Require Import Prelude Std.
From Stdlib Require Export (notations) String.
#[global] Open Scope Z_scope.

(** a literal of the source *)
Definition str (s : String.string) : list byte := String.list_byte_of_string s.
Arguments str s%_string.

#[export] Instance bytes_eq_dec : EqDecision (list byte).
Proof. apply list_eq_dec. Defined.

(** ** Decimal numbers *)

Definition digit (d : Z) : byte := byte.of_Z (48 + d).
Definition digit_val (b : byte) : option Z :=
  let v := u8_val b in if (48 <=? v) && (v <=? 57) then Some (v - 48) else None.

(** the digits of [n], last one first *)
Fixpoint dec_rev (fuel : nat) (n : Z) : list byte :=
  match fuel with
  | O => []
  | S fuel => digit (n mod 10) :: if n <? 10 then [] else dec_rev fuel (n / 10)
  end.
(** [format!("{}", n)] of an unsigned number *)
Definition fmt_uint (n : Z) : list byte := rev (dec_rev (S (Z.to_nat (Z.log2 n))) n).
(** [format!("{:0w}", n)] *)
Definition fmt_uint_pad (w : nat) (n : Z) : list byte :=
  let s := fmt_uint n in repeat (digit 0) (w - length s) ++ s.
(** [format!("{}", n)] of a signed number *)
Definition fmt_int (n : Z) : list byte := if n <? 0 then Byte.x2d :: fmt_uint (- n) else fmt_uint n.
(** [format!("{:>w}", s)], of ASCII text *)
Definition fmt_right (w : nat) (s : list byte) : list byte := repeat Byte.x20 (w - length s) ++ s.

(** digits from the left; overflow is an error as soon as it happens *)
Fixpoint num_digits (max : Z) (bs : list byte) (acc : Z) : option Z :=
  match bs with
  | [] => Some acc
  | b :: bs =>
      match digit_val b with
      | Some d => let acc := acc * 10 + d in if acc <=? max then num_digits max bs acc else None
      | None => None
      end
  end.

(** [s.parse::<u32>()], [s.parse::<u64>()]: a sign [+] may stand in front *)
Definition parse_uint (max : Z) (s : list byte) : option Z :=
  match s with
  | [] => None
  | b :: rest =>
      if bool_decide (b = Byte.x2b) then match rest with [] => None | _ => num_digits max rest 0 end
      else num_digits max s 0
  end.
(** [s.parse::<i64>()] *)
Definition parse_i64 (s : list byte) : option Z :=
  match s with
  | [] => None
  | b :: rest =>
      if bool_decide (b = Byte.x2d) then match rest with [] => None | _ => Z.opp <$> num_digits (2 ^ 63) rest 0 end
      else parse_uint (2 ^ 63 - 1) s
  end.

(** ** Pieces of a string *)

(** [strip_prefix] *)
Fixpoint strip_prefix (p s : list byte) : option (list byte) :=
  match p, s with
  | [], _ => Some s
  | a :: p, b :: s => if bool_decide (a = b) then strip_prefix p s else None
  | _ :: _, [] => None
  end.

(** the pieces between bytes that satisfy [sep] *)
Fixpoint split_by (sep : byte -> bool) (s : list byte) : list (list byte) :=
  match s with
  | [] => [[]]
  | b :: s =>
      match split_by sep s with
      | w :: ws => if sep b then [] :: w :: ws else (b :: w) :: ws
      | [] => []
      end
  end.

Definition is_space (b : byte) : bool := let v := u8_val b in (v =? 32) || ((9 <=? v) && (v <=? 13)).
(** [split_whitespace], of ASCII text *)
Definition split_whitespace (s : list byte) : list (list byte) :=
  List.filter (fun w => match w with [] => false | _ => true end) (split_by is_space s).

(** [lines]: a [\r] in front of the line end belongs to it; there is no line
    after the last line end *)
Definition chop_cr (l : list byte) : list byte :=
  match rev l with b :: r => if bool_decide (b = Byte.x0d) then rev r else l | [] => l end.
Definition str_lines (s : list byte) : list (list byte) :=
  match rev (split_by (fun b => bool_decide (b = Byte.x0a)) s) with
  | [] => []
  | lst :: before => rev (map chop_cr before) ++ match lst with [] => [] | _ => [lst] end
  end.

(** [s.find(needle)]: what is in front of the first occurrence, and after *)
Fixpoint split_at_str (needle s : list byte) : option (list byte * list byte) :=
  match strip_prefix needle s with
  | Some rest => Some ([], rest)
  | None => match s with
            | [] => None
            | b :: s => '(p, q) ← split_at_str needle s; Some (b :: p, q)
            end
  end.

(** [Path::file_stem] and [Path::extension] of a file name: the last dot
    divides them, unless it is the first character *)
Definition file_stem_of (c : list byte) : list byte :=
  match split_at_str (str ".") (rev c) with
  | Some (_, b :: before) => rev (b :: before)
  | _ => c
  end.
Definition extension_of (c : list byte) : option (list byte) :=
  match split_at_str (str ".") (rev c) with
  | Some (ext, _ :: _) => Some (rev ext)
  | _ => None
  end.

(** [to_lowercase], of ASCII text *)
Definition lower (b : byte) : byte := let v := u8_val b in if (65 <=? v) && (v <=? 90) then byte.of_Z (v + 32) else b.
Definition to_lowercase (s : list byte) : list byte := map lower s.

(** ** [sort_by] *)

Section sorting.
Context {A : Type} (le : A -> A -> bool).

Fixpoint sort_insert (x : A) (l : list A) : list A :=
  match l with
  | [] => [x]
  | y :: l => if le x y then x :: y :: l else y :: sort_insert x l
  end.
Fixpoint stable_sort (l : list A) : list A :=
  match l with [] => [] | x :: l => sort_insert x (stable_sort l) end.

Lemma sort_insert_perm x l : sort_insert x l ≡ₚ x :: l.
Proof. induction l as [|y l IH]; cbn; [done|]. destruct (le x y); [done|]. rewrite IH. apply Permutation_swap. Qed.
Lemma stable_sort_perm l : stable_sort l ≡ₚ l.
Proof. induction l as [|x l IH]; cbn; [done|]. by rewrite sort_insert_perm, IH. Qed.

(** an element that no other is above stays last *)
Lemma sort_insert_snoc x l e : le x e = true -> sort_insert x (l ++ [e]) = sort_insert x l ++ [e].
Proof. intros Hx. induction l as [|y l IH]; cbn; [by rewrite Hx|]. destruct (le x y); [done|]. by rewrite IH. Qed.
Lemma stable_sort_snoc l e : Forall (fun x => le x e = true) l -> stable_sort (l ++ [e]) = stable_sort l ++ [e].
Proof. induction 1 as [|x l Hx _ IH]; cbn; [done|]. by rewrite IH, sort_insert_snoc. Qed.

Hypothesis le_total : forall x y, le x y = true \/ le y x = true.
Hypothesis le_trans : forall x y z, le x y = true -> le y z = true -> le x z = true.

Lemma sort_insert_sorted x l : StronglySorted (fun x y => le x y = true) l -> StronglySorted (fun x y => le x y = true) (sort_insert x l).
Proof.
  induction 1 as [|y l Hs IH Hall]; cbn; [repeat constructor|]. destruct (le x y) eqn:E.
  - constructor; [by constructor|]. constructor; [done|]. eapply Forall_impl; [exact Hall|]. eauto.
  - constructor; [done|]. apply Forall_forall. intros z Hz. rewrite sort_insert_perm in Hz.
    apply elem_of_cons in Hz as [->|Hz]; [by destruct (le_total x y); [congruence|]|]. by eapply Forall_forall in Hall.
Qed.
Lemma stable_sort_sorted l : StronglySorted (fun x y => le x y = true) (stable_sort l).
Proof. induction l as [|x l IH]; cbn; [constructor|by apply sort_insert_sorted]. Qed.

(** the order the elements come in does not matter when no two of them tie *)
Lemma sorted_unique l k :
  StronglySorted (fun x y => le x y = true) l -> StronglySorted (fun x y => le x y = true) k -> l ≡ₚ k ->
  (forall x y, x ∈ l -> y ∈ l -> le x y = true -> le y x = true -> x = y) -> l = k.
Proof.
  intros Hl. revert k. induction Hl as [|x l Hl IH Hall]; intros k Hk Hp Hanti; [by apply Permutation_nil_l in Hp|].
  destruct Hk as [|y k Hk Hally]; [by symmetry in Hp; apply Permutation_nil_cons in Hp|].
  assert (x = y) as ->.
  { assert (y ∈ x :: l) as Hy by (rewrite Hp; left). assert (x ∈ y :: k) as Hx by (rewrite <- Hp; left).
    apply elem_of_cons in Hy as [->|Hy]; [done|]. apply elem_of_cons in Hx as [->|Hx]; [done|].
    apply Hanti; [left|by right| |]; [by eapply Forall_forall in Hall|by eapply Forall_forall in Hally]. }
  f_equal. apply IH; [done|by apply Permutation_cons_inv in Hp|]. intros u v Hu Hv. apply Hanti; by right.
Qed.
Lemma stable_sort_order l k : l ≡ₚ k -> (forall x y, x ∈ l -> y ∈ l -> le x y = true -> le y x = true -> x = y) ->
  stable_sort l = stable_sort k.
Proof.
  intros Hp Hanti. apply sorted_unique; [apply stable_sort_sorted..|by rewrite !stable_sort_perm|].
  intros x y. rewrite !stable_sort_perm. apply Hanti.
Qed.
End sorting.

(** ** What is printed is read back *)

Lemma digit_val_digit d : 0 <= d < 10 -> digit_val (digit d) = Some d.
Proof.
  intros Hd. assert (d = 0 \/ d = 1 \/ d = 2 \/ d = 3 \/ d = 4 \/ d = 5 \/ d = 6 \/ d = 7 \/ d = 8 \/ d = 9) as Hc by lia.
  repeat destruct Hc as [->|Hc]; try reflexivity. by subst.
Qed.

Lemma num_digits_app max l k a : num_digits max (l ++ k) a = (num_digits max l a ≫= num_digits max k).
Proof.
  revert a. induction l as [|b l IH]; intros a; cbn; [done|]. destruct (digit_val b) as [d|]; [|done]. by destruct (_ <=? _).
Qed.

Lemma parse_dec_rev max fuel : forall n, 0 <= n <= max -> n < 2 ^ Z.of_nat fuel -> (0 < fuel)%nat ->
  num_digits max (rev (dec_rev fuel n)) 0 = Some n.
Proof.
  induction fuel as [|fuel IH]; intros n Hn Hf Hpos; [lia|]. cbn [dec_rev rev]. rewrite num_digits_app.
  assert (0 <= n mod 10 < 10) as Hd by (apply Z.mod_pos_bound; lia).
  pose proof (Z.div_mod n 10 ltac:(lia)) as Hdiv. destruct (Z.ltb_spec n 10) as [Hlt|Hge].
  - cbn [rev num_digits]. cbn -[digit Z.mul]. rewrite digit_val_digit by done. rewrite Z.mod_small by lia.
    destruct (Z.leb_spec (0 * 10 + n) max); [f_equal; lia|lia].
  - assert (n / 10 < 2 ^ Z.of_nat fuel) as Hdl.
    { rewrite Nat2Z.inj_succ, Z.pow_succ_r in Hf by lia. apply Z.div_lt_upper_bound; [lia|].
      pose proof (Z.pow_pos_nonneg 2 (Z.of_nat fuel)). lia. }
    assert (1 <= n / 10) by (apply Z.div_le_lower_bound; lia).
    destruct fuel as [|fuel]; [cbn in Hdl; lia|].
    rewrite IH by lia. cbn -[digit Z.mul]. rewrite digit_val_digit by done. cbn -[Z.mul].
    destruct (Z.leb_spec (n / 10 * 10 + n mod 10) max); [f_equal; lia|lia].
Qed.

Lemma fmt_uint_parse max n : 0 <= n <= max -> num_digits max (fmt_uint n) 0 = Some n.
Proof.
  intros Hn. apply parse_dec_rev; [done| |lia]. rewrite Nat2Z.inj_succ.
  destruct (Z.eq_dec n 0) as [->|Hne]; [cbn; lia|]. pose proof (Z.log2_nonneg n). rewrite Z2Nat.id by done. apply Z.log2_spec. lia.
Qed.

(** a printed number starts with a digit *)
Lemma dec_rev_digits fuel n : Forall (fun b => exists d, 0 <= d < 10 /\ b = digit d) (dec_rev fuel n).
Proof.
  revert n. induction fuel as [|fuel IH]; intros n; cbn [dec_rev]; [constructor|]. constructor.
  - exists (n mod 10). split; [apply Z.mod_pos_bound; lia|done].
  - destruct (n <? 10); [constructor|apply IH].
Qed.
Lemma fmt_pad_digits w n : Forall (fun b => exists d, 0 <= d < 10 /\ b = digit d) (fmt_uint_pad w n).
Proof.
  unfold fmt_uint_pad. apply Forall_app; split; [|unfold fmt_uint; apply Forall_rev, dec_rev_digits].
  apply Forall_forall. intros b Hb%list_elem_of_In%repeat_spec. exists 0. split; [lia|done].
Qed.
Lemma fmt_uint_digits n : Forall (fun b => exists d, 0 <= d < 10 /\ b = digit d) (fmt_uint n).
Proof. unfold fmt_uint. apply Forall_rev, dec_rev_digits. Qed.
Lemma digit_not d b : 0 <= d < 10 -> digit_val b = None -> digit d <> b.
Proof. intros Hd Hb <-. by rewrite digit_val_digit in Hb. Qed.

Lemma num_digits_zeros max k s : 0 <= max -> num_digits max (repeat (digit 0) k ++ s) 0 = num_digits max s 0.
Proof.
  intros Hm. induction k as [|k IH]; [done|]. cbn -[digit]. rewrite digit_val_digit by lia. change (0 * 10 + 0) with 0. destruct (Z.leb_spec 0 max); [exact IH|lia].
Qed.

(** the round trip *)
Lemma parse_fmt_pad max w n : 0 <= n <= max -> parse_uint max (fmt_uint_pad w n) = Some n.
Proof.
  intros Hn. pose proof (fmt_pad_digits w n) as Hd.
  assert (num_digits max (fmt_uint_pad w n) 0 = Some n) as Hp by (unfold fmt_uint_pad; rewrite num_digits_zeros by lia; by apply fmt_uint_parse).
  unfold parse_uint. destruct (fmt_uint_pad w n) as [|b s] eqn:E.
  - exfalso. unfold fmt_uint_pad, fmt_uint in E. cbn [dec_rev rev] in E. destruct (repeat _ _); [|done]. by destruct (rev _).
  - apply Forall_inv in Hd as (d & Hd & ->). case_bool_decide as Hb; [|done]. by destruct (digit_not d Byte.x2b Hd eq_refl).
Qed.

Lemma strip_prefix_app p s : strip_prefix p (p ++ s) = Some s.
Proof. induction p as [|b p IH]; cbn; [done|]. by rewrite bool_decide_eq_true_2. Qed.
Lemma strip_prefix_Some p s r : strip_prefix p s = Some r -> s = p ++ r.
Proof.
  revert s. induction p as [|b p IH]; intros [|c s]; cbn; try by intros [= <-]. case_bool_decide; [|done]. subst.
  intros Hs. by rewrite (IH _ Hs).
Qed.

(** a needle whose first byte is not in [p] is first found after [p] *)
Lemma split_at_str_app c needle p s : c ∉ p -> split_at_str (c :: needle) (p ++ c :: needle ++ s) = Some (p, s).
Proof.
  induction p as [|b p IH]; intros Hc.
  - cbn. rewrite bool_decide_eq_true_2 by done. by rewrite strip_prefix_app.
  - apply not_elem_of_cons in Hc as [Hb Hp]. cbn [app split_at_str strip_prefix]. rewrite bool_decide_eq_false_2 by done. by rewrite IH.
Qed.

(** a name made of a stem and an extension *)
Lemma name_parts stem ext : stem <> [] -> Byte.x2e ∉ ext ->
  file_stem_of (stem ++ Byte.x2e :: ext) = stem /\ extension_of (stem ++ Byte.x2e :: ext) = Some ext.
Proof.
  intros Hs He. unfold file_stem_of, extension_of. rewrite rev_app_distr. cbn [rev]. rewrite <- app_assoc. cbn [app].
  assert (split_at_str (str ".") (rev ext ++ Byte.x2e :: rev stem) = Some (rev ext, rev stem)) as ->.
  { apply (split_at_str_app Byte.x2e []). by rewrite list_elem_of_In, <- in_rev, <- list_elem_of_In. }
  destruct (rev stem) as [|b l] eqn:E; [by apply (f_equal (@rev _)) in E; rewrite rev_involutive in E|].
  apply (f_equal (@rev _)) in E. rewrite rev_involutive in E. by rewrite E, rev_involutive.
Qed.

(** ** Splitting *)

Lemma split_by_not_nil sep s : exists w ws, split_by sep s = w :: ws.
Proof. induction s as [|b s (w & ws & IH)]; cbn; [by eexists _, _|]. rewrite IH. destruct (sep b); by eexists _, _. Qed.
Lemma split_by_word sep w c s : Forall (fun b => sep b = false) w -> sep c = true -> split_by sep (w ++ c :: s) = w :: split_by sep s.
Proof.
  intros Hw Hc. induction Hw as [|b w Hb _ IH]; cbn.
  - rewrite Hc. by destruct (split_by_not_nil sep s) as (w & ws & ->).
  - by rewrite IH, Hb.
Qed.

(** leading blanks do not matter, and a word ends at a blank *)
Lemma split_whitespace_blank b s : is_space b = true -> split_whitespace (b :: s) = split_whitespace s.
Proof. intros Hb. unfold split_whitespace. cbn [split_by]. destruct (split_by_not_nil is_space s) as (w & ws & ->). by rewrite Hb. Qed.
Lemma split_whitespace_blanks p s : Forall (fun b => is_space b = true) p -> split_whitespace (p ++ s) = split_whitespace s.
Proof. induction 1 as [|b p Hb _ IH]; [done|]. cbn [app]. by rewrite split_whitespace_blank, IH. Qed.
Lemma split_whitespace_word w c s : w <> [] -> Forall (fun b => is_space b = false) w -> is_space c = true ->
  split_whitespace (w ++ c :: s) = w :: split_whitespace s.
Proof. intros Hne Hw Hc. unfold split_whitespace. rewrite split_by_word by done. by destruct w. Qed.

(** lines with their ends *)
Definition line_ok (l : list byte) : Prop := Forall (fun b => bool_decide (b = Byte.x0a) = false) l /\ chop_cr l = l.
Definition unlines (ls : list (list byte)) : list byte := concat (map (fun l => l ++ [Byte.x0a]) ls).

Lemma split_unlines ls : Forall line_ok ls -> split_by (fun b => bool_decide (b = Byte.x0a)) (unlines ls) = ls ++ [[]].
Proof.
  unfold unlines. induction 1 as [|l ls [Hl _] _ IH]; cbn [map concat app]; [done|]. rewrite <- app_assoc. cbn [app].
  by rewrite split_by_word, IH.
Qed.
Lemma str_lines_unlines ls : Forall line_ok ls -> str_lines (unlines ls) = ls.
Proof.
  intros Hls. unfold str_lines. rewrite split_unlines by done. rewrite rev_app_distr. cbn [rev app]. rewrite app_nil_r.
  rewrite <- map_rev, rev_involutive. rewrite <- (map_id ls) at 2. apply map_ext_Forall. eapply Forall_impl; [exact Hls|]. by intros l [_ ?].
Qed.

(** ** Sorting blocks of ties *)

Section blocks.
Context {A B : Type} (le : A -> A -> bool) (leB : B -> B -> bool) (g : A -> list B).
Hypothesis le_total : forall x y, le x y = true \/ le y x = true.
Hypothesis le_trans : forall x y z, le x y = true -> le y z = true -> le x z = true.
(** the elements of a block compare as the block does *)
Hypothesis g_le : forall x y b c, b ∈ g x -> c ∈ g y -> leB b c = le x y.

Lemma sort_insert_front b l : Forall (fun c => leB b c = true) l -> sort_insert leB b l = b :: l.
Proof. destruct l as [|c l]; [done|]. cbn. by intros ->%Forall_inv. Qed.
Lemma sort_insert_past b l k : Forall (fun c => leB b c = false) l -> sort_insert leB b (l ++ k) = l ++ sort_insert leB b k.
Proof. induction 1 as [|c l Hc _ IH]; [done|]. cbn. by rewrite Hc, IH. Qed.

Lemma insert_front x bs l : (forall b, b ∈ bs -> b ∈ g x) -> (forall c, c ∈ l -> exists y, c ∈ g y /\ le x y = true) ->
  foldr (sort_insert leB) l bs = bs ++ l.
Proof.
  intros Hbs Hl. induction bs as [|b bs IH]; cbn [foldr app]; [done|]. rewrite IH by (intros c Hc; apply Hbs; by right).
  assert (b ∈ g x) as Hb by (apply Hbs; left). apply sort_insert_front, Forall_forall. intros c Hc. apply elem_of_app in Hc as [Hc|Hc].
  - rewrite (g_le x x) by (done || by apply Hbs; right). by destruct (le_total x x).
  - destruct (Hl c Hc) as (y & Hy & Hle). by rewrite (g_le x y).
Qed.
Lemma insert_past x y bs l : le x y = false -> (forall b, b ∈ bs -> b ∈ g x) ->
  foldr (sort_insert leB) (g y ++ l) bs = g y ++ foldr (sort_insert leB) l bs.
Proof.
  intros Hxy Hbs. induction bs as [|b bs IH]; cbn [foldr]; [done|]. rewrite IH by (intros c Hc; apply Hbs; by right).
  apply sort_insert_past, Forall_forall. intros c Hc. rewrite (g_le x y); [done| |done]. apply Hbs. left.
Qed.
Lemma insert_block x l : StronglySorted (fun x y => le x y = true) l ->
  foldr (sort_insert leB) (concat (map g l)) (g x) = concat (map g (sort_insert le x l)).
Proof.
  induction 1 as [|y l Hl IH Hall]; cbn [map concat sort_insert].
  - apply (insert_front x); [done|]. by intros c ?%not_elem_of_nil.
  - destruct (le x y) eqn:E; cbn [map concat]; [|by rewrite (insert_past x), IH].
    apply (insert_front x); [done|]. intros c Hc. apply elem_of_app in Hc as [Hc|Hc]; [by exists y|].
    apply list_elem_of_In, in_concat in Hc as (k & (z & <- & Hz)%in_map_iff & Hc). exists z. split; [by apply list_elem_of_In|].
    eapply le_trans; [exact E|]. apply (proj1 (Forall_forall _ _) Hall). by apply list_elem_of_In.
Qed.

(** sorting the elements sorts the blocks *)
Lemma stable_sort_blocks l : stable_sort leB (concat (map g l)) = concat (map g (stable_sort le l)).
Proof.
  assert (forall bs k, stable_sort leB (bs ++ k) = foldr (sort_insert leB) (stable_sort leB k) bs) as Happ
    by (intros bs k; induction bs as [|b bs IH]; cbn; [done|by rewrite IH]).
  induction l as [|x l IH]; cbn [map concat stable_sort]; [done|]. rewrite Happ, IH. by apply insert_block, stable_sort_sorted.
Qed.
End blocks.
