(* ===== verification/Ext.v ===== *)
(** * Interfaces of the third-party crates

    What the code relies on of [crc32fast], [fnv], [nom] and [serde_json]
    is stated as classes: the operations are parameters, and the laws are
    the documented behaviour the proofs use. Each class has an instance, so
    that the theorems that assume it can be run on concrete inputs. *)
From S2P Require Import Prelude Std.

(** ** [crc32fast]: [hash], and [Hasher::new/update/finalize]

    [finalize] after a series of [update]s is the [hash] of the
    concatenated inputs, so a hasher is the bytes it was fed. *)
Class Crc32 := {
  crc32 : list byte -> Z;
  crc32_range (bs : list byte) : in_u32 (crc32 bs)
}.

(** ** [fnv::FnvHasher]: [write]s then [finish] *)
Class Fnv := {
  fnv_finish : list byte -> Z;
  fnv_range (bs : list byte) : in_u64 (fnv_finish bs)
}.

(** ** [std::hash::DefaultHasher]

    The algorithm is unspecified by the standard library; [LabelMap] feeds
    it the label strings in order. *)
Class DefaultHasher := {
  hash_strs : list (list byte * list byte) -> Z;
  hash_strs_range l : in_u64 (hash_strs l)
}.

(** ** [nom]: the complete-input parsers used by the codecs

    [None] is a parse error (of whatever kind: the callers only format it
    into a message). *)
Class Nom := {
  nom_be_u8 : list byte -> option (list byte * Z);
  nom_be_u32 : list byte -> option (list byte * Z);
  nom_be_u64 : list byte -> option (list byte * Z);
  nom_take : Z -> list byte -> option (list byte * list byte)
}.

Class NomLaws `{Nom} : Prop := {
  nom_be_u8_spec bs :
    nom_be_u8 bs = match bs with [] => None | b :: r => Some (r, u8_val b) end;
  nom_be_u32_spec bs :
    nom_be_u32 bs = if blen bs <? 4 then None else Some (drop 4 bs, be_val (take 4 bs));
  nom_be_u64_spec bs :
    nom_be_u64 bs = if blen bs <? 8 then None else Some (drop 8 bs, be_val (take 8 bs));
  nom_take_spec n bs :
    nom_take n bs = if blen bs <? n then None
                    else Some (drop (Z.to_nat n) bs, take (Z.to_nat n) bs)
}.

(** ** Concrete values, passed explicitly by the witnesses *)

(** An additive checksum stands in for CRC-32 when a theorem is run. *)
Definition sum_hash (m : Z) (bs : list byte) : Z :=
  foldl (fun acc b => (acc * 31 + u8_val b + 1) mod m) 7 bs mod m.

Lemma sum_hash_range m bs : 0 < m -> 0 <= sum_hash m bs < m.
Proof. intros. unfold sum_hash. by apply Z.mod_pos_bound. Qed.

Program Definition sum_crc32 : Crc32 := {| crc32 := sum_hash (2 ^ 32) |}.
Next Obligation. intros bs. pose proof (sum_hash_range (2 ^ 32) bs). unfold in_u32, u32_max. lia. Qed.

Program Definition sum_fnv : Fnv := {| fnv_finish := sum_hash (2 ^ 64) |}.
Next Obligation. intros bs. pose proof (sum_hash_range (2 ^ 64) bs). unfold in_u64, u64_max. lia. Qed.

Program Definition sum_hasher : DefaultHasher :=
  {| hash_strs l := sum_hash (2 ^ 64) (concat (map (fun kv => kv.1 ++ kv.2) l)) |}.
Next Obligation.
  intros l. pose proof (sum_hash_range (2 ^ 64) (concat (map (fun kv => kv.1 ++ kv.2) l))).
  unfold in_u64, u64_max. lia.
Qed.

Definition ref_nom : Nom := {|
  nom_be_u8 bs := match bs with [] => None | b :: r => Some (r, u8_val b) end;
  nom_be_u32 bs := if blen bs <? 4 then None else Some (drop 4 bs, be_val (take 4 bs));
  nom_be_u64 bs := if blen bs <? 8 then None else Some (drop 8 bs, be_val (take 8 bs));
  nom_take n bs := if blen bs <? n then None
                   else Some (drop (Z.to_nat n) bs, take (Z.to_nat n) bs)
|}.
Definition ref_nom_laws : @NomLaws ref_nom.
Proof. by split. Qed.
