(* ===== verification/Float.v ===== *)
(** * Rust's [f64]

    IEEE 754 binary64 with round-to-nearest-even, as the Standard Library
    specifies it ([SpecFloat]): the arithmetic and comparisons the tools and
    the metrics use, conversions between [f64] and integers ([as]), and the
    facts about signs that comparisons of changes rest on. *)
From Stdlib Require Export SpecFloat.
From S2P Require Import Prelude.

Definition f64 : Type := spec_float.

Definition f64_add : f64 -> f64 -> f64 := SFadd 53 1024.
Definition f64_sub : f64 -> f64 -> f64 := SFsub 53 1024.
Definition f64_mul : f64 -> f64 -> f64 := SFmul 53 1024.
Definition f64_div : f64 -> f64 -> f64 := SFdiv 53 1024.
Definition f64_neg : f64 -> f64 := SFopp.
Definition f64_abs : f64 -> f64 := SFabs.
Definition f64_lt : f64 -> f64 -> bool := SFltb.
Definition f64_le : f64 -> f64 -> bool := SFleb.
Definition f64_eq : f64 -> f64 -> bool := SFeqb.
Definition f64_infinity : f64 := S754_infinity false.
Definition f64_nan : f64 := S754_nan.

(** [m * 2^e], rounded; the literals of the source are of this form *)
Definition f64_dyadic (m e : Z) : f64 := binary_normalize 53 1024 m e false.
(** [n as f64] *)
Definition f64_of_Z (n : Z) : f64 := f64_dyadic n 0.

(** [x as u64]: towards zero, saturating, NaN to 0 *)
Definition f64_to_u64 (x : f64) : Z :=
  match x with
  | S754_nan | S754_zero _ => 0
  | S754_infinity s => if s then 0 else u64_max
  | S754_finite s m e => if s then 0 else Z.min u64_max (if 0 <=? e then Z.pos m * 2 ^ e else Z.pos m / 2 ^ (- e))
  end.

(** [x.clamp(lo, hi)] keeps NaN *)
Definition f64_clamp (x lo hi : f64) : f64 := if f64_lt x lo then lo else if f64_lt hi x then hi else x.

(** the numbers a Rust [f64] can hold *)
Definition f64_ok (x : f64) : Prop := valid_binary 53 1024 x = true.

(** ** Signs *)

(** the sign bit *)
Definition f64_neg_bit (x : f64) : bool :=
  match x with S754_zero s | S754_infinity s | S754_finite s _ _ => s | S754_nan => false end.

(** a number that is not above zero is not above anything that is not below *)
Lemma f64_lt_sign x y : f64_neg_bit y = true -> f64_neg_bit x = false -> x <> S754_nan -> f64_lt x y = false.
Proof.
  unfold f64_lt, SFltb, SFcompare.
  destruct x as [[]|[]| |[] mx ex], y as [[]|[]| |[] my ey]; cbn; intros Hy Hx Hn; congruence || done.
Qed.

Lemma binary_round_aux_sign s m e l x :
  binary_round_aux 53 1024 s m e l = x -> x = S754_nan \/ f64_neg_bit x = s.
Proof.
  unfold binary_round_aux. destruct (shr_fexp _ _ m e l) as [mrs e1]. destruct (shr_fexp _ _ _ e1 loc_Exact) as [mrs2 e2].
  destruct (shr_m mrs2) as [|p|p]; [|destruct (e2 <=? 1024 - 53)|]; intros <-; cbn; auto.
Qed.

(** quotients and products have the product of the signs, or are NaN *)
Lemma f64_div_sign x y : f64_div x y = S754_nan \/ f64_neg_bit (f64_div x y) = xorb (f64_neg_bit x) (f64_neg_bit y).
Proof.
  unfold f64_div. destruct x as [sx|sx| |sx mx ex], y as [sy|sy| |sy my ey]; cbn -[SFdiv_core_binary binary_round_aux]; auto.
  destruct (SFdiv_core_binary _ _ _ _ _ _) as [[mz ez] lz]. by eapply binary_round_aux_sign.
Qed.
Lemma f64_mul_sign x y : f64_mul x y = S754_nan \/ f64_neg_bit (f64_mul x y) = xorb (f64_neg_bit x) (f64_neg_bit y).
Proof.
  unfold f64_mul. destruct x as [sx|sx| |sx mx ex], y as [sy|sy| |sy my ey]; cbn -[binary_round_aux]; auto.
  by eapply binary_round_aux_sign.
Qed.

Lemma f64_lt_nan_r x : f64_lt x S754_nan = false.
Proof. by destruct x as [[]|[]| |[]]. Qed.
Lemma f64_lt_nan_l x : f64_lt S754_nan x = false.
Proof. by destruct x as [[]|[]| |[]]. Qed.

(** ** The sign of a difference *)

Lemma digits2_pos_bounds p : 2 ^ (Z.pos (digits2_pos p) - 1) <= Z.pos p < 2 ^ Z.pos (digits2_pos p).
Proof.
  induction p as [p IH|p IH|]; cbn [digits2_pos]; [| |done].
  - rewrite Pos2Z.inj_succ. replace (Z.succ (Z.pos (digits2_pos p)) - 1) with (Z.succ (Z.pos (digits2_pos p) - 1)) by lia.
    rewrite !Z.pow_succ_r by lia. lia.
  - rewrite Pos2Z.inj_succ. replace (Z.succ (Z.pos (digits2_pos p)) - 1) with (Z.succ (Z.pos (digits2_pos p) - 1)) by lia.
    rewrite !Z.pow_succ_r by lia. lia.
Qed.

(** [m * 2^e] on a grid [2^g] that both exponents lie on *)
Definition on_grid (m : positive) (e g : Z) : Z := Z.pos m * 2 ^ (e - g).

Lemma shl_align_grid m e g : g <= e -> Z.pos (shl_align m e g).1 = on_grid m e g.
Proof.
  intros Hg. unfold shl_align, on_grid. destruct (g - e) as [|d|d] eqn:E; cbn [fst]; [|lia|].
  - replace (e - g) with 0 by lia. by rewrite Z.mul_1_r.
  - replace (e - g) with (Z.pos d) by lia. clear. induction d as [|d IH] using Pos.peano_ind; [cbn; lia|].
    rewrite Pos.iter_succ. change (Z.pos (Pos.iter xO m d)~0) with (2 * Z.pos (Pos.iter xO m d)). rewrite IH.
    rewrite Pos2Z.inj_succ, Z.pow_succ_r by lia. lia.
Qed.

(** canonical mantissas are ordered by exponent first *)
Lemma canonical_lt m1 e1 m2 e2 g :
  bounded 53 1024 m1 e1 = true -> bounded 53 1024 m2 e2 = true -> g <= e1 -> e1 < e2 -> on_grid m1 e1 g < on_grid m2 e2 g.
Proof.
  unfold bounded, canonical_mantissa, fexp, emin. intros [Hb1%Z.eqb_eq _]%andb_true_iff [Hb2%Z.eqb_eq _]%andb_true_iff Hg Hlt.
  pose proof (digits2_pos_bounds m1) as [_ H1]. pose proof (digits2_pos_bounds m2) as [H2 _].
  assert (Z.pos (digits2_pos m2) = 53) as Hd2 by lia. assert (Z.pos (digits2_pos m1) <= 53) as Hd1 by lia.
  rewrite Hd2 in H2. assert (Z.pos m1 < 2 ^ 53) as H1' by (eapply Z.lt_le_trans; [exact H1|apply Z.pow_le_mono_r; lia]).
  unfold on_grid. replace (e2 - g) with (e1 - g + (e2 - e1)) by lia. rewrite Z.pow_add_r by lia.
  assert (2 <= 2 ^ (e2 - e1)) as Hp by (replace (e2 - e1) with (Z.succ (e2 - e1 - 1)) by lia; rewrite Z.pow_succ_r by lia; pose proof (Z.pow_pos_nonneg 2 (e2 - e1 - 1)); lia).
  pose proof (Z.pow_pos_nonneg 2 (e1 - g) ltac:(lia) ltac:(lia)). change (53 - 1) with 52 in H2.
  assert (Z.pos m1 < Z.pos m2 * 2 ^ (e2 - e1)) as Hm.
  { apply Z.lt_le_trans with (2 ^ 52 * 2); [exact H1'|]. apply Z.mul_le_mono_nonneg; lia. }
  rewrite (Z.mul_comm (2 ^ (e1 - g))), Z.mul_assoc. apply Z.mul_lt_mono_pos_r; lia.
Qed.

(** the comparison of two finite numbers of one sign *)
Lemma compare_grid m1 e1 m2 e2 g :
  bounded 53 1024 m1 e1 = true -> bounded 53 1024 m2 e2 = true -> g <= e1 -> g <= e2 ->
  match e1 ?= e2 with Lt => Lt | Gt => Gt | Eq => Pos.compare_cont Eq m1 m2 end = Lt -> on_grid m1 e1 g < on_grid m2 e2 g.
Proof.
  intros Hb1 Hb2 Hg1 Hg2. destruct (Z.compare_spec e1 e2) as [->|Hlt|Hgt]; [|intros _; by apply canonical_lt|done].
  change (Pos.compare_cont Eq m1 m2) with (m1 ?= m2)%positive. intros Hm%Pos.compare_lt_iff. unfold on_grid.
  apply Z.mul_lt_mono_pos_r; [apply Z.pow_pos_nonneg; lia|]. by apply Pos2Z.pos_lt_pos.
Qed.

Lemma binary_round_sign s m e : binary_round 53 1024 s m e = S754_nan \/ f64_neg_bit (binary_round 53 1024 s m e) = s.
Proof. unfold binary_round. destruct (shl_align _ _ _) as [mz ez]. by eapply binary_round_aux_sign. Qed.

(** the order of two finite numbers is the order on a common grid *)
Lemma finite_lt sx mx ex sy my ey g :
  f64_ok (S754_finite sx mx ex) -> f64_ok (S754_finite sy my ey) -> g <= ex -> g <= ey ->
  f64_lt (S754_finite sx mx ex) (S754_finite sy my ey) = true -> cond_Zopp sx (on_grid mx ex g) < cond_Zopp sy (on_grid my ey g).
Proof.
  unfold f64_ok, f64_lt, SFltb. cbn -[bounded]. intros Hx Hy Hgx Hgy Hlt.
  assert (0 < on_grid mx ex g /\ 0 < on_grid my ey g) as [Hpx Hpy] by (unfold on_grid; split; apply Z.mul_pos_pos; try lia; apply Z.pow_pos_nonneg; lia).
  destruct sx, sy; cbn; [|lia|done|].
  - assert (on_grid my ey g < on_grid mx ex g); [|lia]. apply compare_grid; try done. rewrite Z.compare_antisym.
    destruct (ex ?= ey); cbn in *; try done. change (Pos.compare_cont Eq my mx) with (my ?= mx)%positive.
    change (Pos.compare_cont Eq mx my) with (mx ?= my)%positive in Hlt. rewrite Pos.compare_antisym. by destruct (mx ?= my)%positive.
  - apply compare_grid; try done. by destruct (_ : comparison).
Qed.

(** [x < y] makes [x - y] negative and [y - x] positive; NaN arises from
    infinities only *)
Lemma f64_sub_sign x y : f64_ok x -> f64_ok y -> f64_lt x y = true ->
  (f64_sub x y = S754_nan \/ f64_neg_bit (f64_sub x y) = true) /\ (f64_sub y x = S754_nan \/ f64_neg_bit (f64_sub y x) = false).
Proof.
  intros Hx Hy Hlt.
  destruct x as [sx|sx| |sx mx ex], y as [sy|sy| |sy my ey]; cbn in Hlt;
    try done; try (destruct sx; done || (cbn; by auto)); try (destruct sy; done || (cbn; by auto)).
  { destruct sx, sy; done || (cbn; by auto). }
  assert (forall g, g = Z.min ex ey -> cond_Zopp sx (on_grid mx ex g) < cond_Zopp sy (on_grid my ey g)) as Hg.
  { intros g ->. apply finite_lt; try done; lia. }
  unfold f64_sub, SFsub. split; cbv zeta.
  - rewrite !shl_align_grid by lia. specialize (Hg _ eq_refl). destruct (_ - _) as [|p|p] eqn:E; [lia|lia|]. apply binary_round_sign.
  - rewrite !shl_align_grid by lia. rewrite (Z.min_comm ey ex). specialize (Hg _ eq_refl).
    destruct (_ - _) as [|p|p] eqn:E; [lia| |lia]. apply binary_round_sign.
Qed.

(** ** Conversion to an integer *)

(** a finite number that is not above the integer [n = m * 2^e] converts to
    at most [n] *)
Lemma f64_to_u64_le x m e n : f64_ok x -> f64_ok (S754_finite false m e) -> e <= 0 -> Z.pos m = n * 2 ^ (- e) ->
  0 <= n -> f64_lt (S754_finite false m e) x = false -> f64_to_u64 x <= n.
Proof.
  intros Hx Hm He Em Hn Hlt. destruct x as [s|s| |s mx ex]; cbn; [lia|by destruct s| lia|].
  destruct s; [lia|]. set (g := Z.min ex e).
  assert (on_grid mx ex g <= on_grid m e g) as Hg.
  { destruct (f64_lt (S754_finite false mx ex) (S754_finite false m e)) eqn:Hlt'.
    - apply Z.lt_le_incl. apply (finite_lt false mx ex false m e g) in Hlt'; try done; unfold g; lia.
    - unfold f64_lt, SFltb in Hlt, Hlt'. cbn in Hlt, Hlt'. rewrite Z.compare_antisym in Hlt'.
      destruct (Z.compare_spec e ex) as [->| |]; try done. cbn in Hlt'.
      change (Pos.compare_cont Eq m mx) with (m ?= mx)%positive in Hlt.
      change (Pos.compare_cont Eq mx m) with (mx ?= m)%positive in Hlt'. rewrite Pos.compare_antisym in Hlt'.
      destruct (Pos.compare_spec m mx) as [->| |]; done || lia. }
  unfold on_grid in Hg. rewrite Em in Hg. rewrite <- Z.mul_assoc, <- Z.pow_add_r in Hg by (unfold g; lia).
  replace (- e + (e - g)) with (- g) in Hg by lia.
  etrans; [apply Z.le_min_r|]. destruct (Z.leb_spec 0 ex).
  - replace (ex - g) with (ex + - g) in Hg by lia. rewrite Z.pow_add_r, Z.mul_assoc in Hg by (unfold g; lia).
    eapply Z.mul_le_mono_pos_r; [|exact Hg]. apply Z.pow_pos_nonneg; unfold g; lia.
  - apply Z.lt_succ_r. apply Z.div_lt_upper_bound; [apply Z.pow_pos_nonneg; lia|].
    assert (Z.pos mx <= n * 2 ^ (- ex)) as Hle.
    { apply (Z.mul_le_mono_pos_r _ _ (2 ^ (ex - g))); [apply Z.pow_pos_nonneg; unfold g; lia|].
      rewrite <- Z.mul_assoc, <- Z.pow_add_r by (unfold g; lia). by replace (- ex + (ex - g)) with (- g) by lia. }
    pose proof (Z.pow_pos_nonneg 2 (- ex)). lia.
Qed.
Lemma f64_to_u64_nonneg x : 0 <= f64_to_u64 x.
Proof.
  destruct x as [s|s| |s m e]; cbn; [lia|by destruct s|lia|]. destruct s; [lia|].
  apply Z.min_glb; [by vm_compute|]. destruct (Z.leb_spec 0 e); [lia|]. apply Z.div_pos; [lia|].
  apply Z.pow_pos_nonneg; lia.
Qed.
