(* ===== verification/FloatText.v ===== *)
(** * Printing an [f64] with a fixed number of decimals

    [format!("{:.d}", x)]: the exact value of [x], rounded to [d] decimals,
    ties to even, as the formatter of the standard library does it; and the
    paddings that the tools use around it. *)
From S2P Require Import Prelude Std Text Float.

(** ** Rounding a quotient *)

(** [n / m] to the nearest integer, ties to even *)
Definition div_half_even (n m : Z) : Z :=
  let q := n / m in
  match 2 * (n mod m) ?= m with
  | Lt => q
  | Gt => q + 1
  | Eq => if Z.even q then q else q + 1
  end.

(** [m * 2^e * 10^d] as a quotient of integers *)
Definition scaled_num (d : nat) (m : positive) (e : Z) : Z := Z.pos m * 10 ^ Z.of_nat d * 2 ^ Z.max e 0.
Definition scaled_den (e : Z) : Z := 2 ^ Z.max (- e) 0.
Definition scaled (d : nat) (m : positive) (e : Z) : Z := div_half_even (scaled_num d m e) (scaled_den e).

(** ** The text *)

(** [q] units of [10^-d] *)
Definition fmt_point (d : nat) (q : Z) : list byte :=
  fmt_uint (q / 10 ^ Z.of_nat d) ++
  match d with O => [] | _ => str "." ++ fmt_uint_pad d (q mod 10 ^ Z.of_nat d) end.

(** the sign; [plus]: the flag [+] *)
Definition fmt_sign (plus neg : bool) : list byte := if neg then str "-" else if plus then str "+" else [].

Definition fmt_float (plus : bool) (d : nat) (x : f64) : list byte :=
  match x with
  | S754_nan => str "NaN"
  | S754_infinity s => fmt_sign plus s ++ str "inf"
  | S754_zero s => fmt_sign plus s ++ fmt_point d 0
  | S754_finite s m e => fmt_sign plus s ++ fmt_point d (scaled d m e)
  end.
(** [{:.d}] and [{:+.d}] *)
Definition fmt_fixed (d : nat) (x : f64) : list byte := fmt_float false d x.
Definition fmt_fixed_plus (d : nat) (x : f64) : list byte := fmt_float true d x.

(** [x.fract() == 0.0] *)
Definition f64_is_integer (x : f64) : bool :=
  match x with
  | S754_nan | S754_infinity _ => false
  | S754_zero _ => true
  | S754_finite _ m e => (0 <=? e) || (Z.pos m mod 2 ^ (- e) =? 0)
  end.

(** padding counts characters: the bytes that continue none *)
Definition str_chars (s : list byte) : nat := length (List.filter (fun b => negb (utf8_cont b)) s).
(** [{:c<w}] with a fill character, [{:<w}] and [{:>w}] of any text *)
Definition fmt_fill (c : byte) (w : nat) (s : list byte) : list byte := s ++ repeat c (w - str_chars s).
Definition fmt_left (w : nat) (s : list byte) : list byte := fmt_fill Byte.x20 w s.
Definition fmt_right_chars (w : nat) (s : list byte) : list byte := repeat Byte.x20 (w - str_chars s) ++ s.

(** ** The digits are the nearest ones *)

Lemma div_half_even_near n m : 0 < m -> 2 * Z.abs (n - div_half_even n m * m) <= m.
Proof.
  intros Hm. unfold div_half_even. pose proof (Z.div_mod n m ltac:(lia)). pose proof (Z.mod_pos_bound n m Hm).
  destruct (Z.compare_spec (2 * (n mod m)) m); [destruct (Z.even _)| |]; nia.
Qed.
Lemma div_half_even_tie n m : 0 < m -> 2 * Z.abs (n - div_half_even n m * m) = m -> Z.even (div_half_even n m) = true.
Proof.
  intros Hm. unfold div_half_even. pose proof (Z.div_mod n m ltac:(lia)). pose proof (Z.mod_pos_bound n m Hm).
  destruct (Z.compare_spec (2 * (n mod m)) m); [|nia|nia]. intros _. destruct (Z.even (n / m)) eqn:E; [done|].
  by rewrite Z.add_1_r, Z.even_succ, <- Z.negb_even, E.
Qed.

(** nearest with ties to even is one number *)
Lemma nearest_unique n m q q' : 0 < m -> 2 * Z.abs (n - q * m) <= m -> 2 * Z.abs (n - q' * m) <= m ->
  (2 * Z.abs (n - q * m) = m -> Z.even q = true) -> (2 * Z.abs (n - q' * m) = m -> Z.even q' = true) -> q = q'.
Proof.
  intros Hm Hq Hq' He He'. destruct (Z.eq_dec q q') as [|Hne]; [done|]. exfalso.
  assert (q' = q + 1 \/ q = q' + 1) as [-> | ->] by nia.
  - assert (Z.even q = true) by (apply He; nia). assert (Z.even (q + 1) = true) as H1 by (apply He'; nia).
    rewrite Z.add_1_r, Z.even_succ, <- Z.negb_even in H1. by destruct (Z.even q).
  - assert (Z.even q' = true) by (apply He'; nia). assert (Z.even (q' + 1) = true) as H1 by (apply He; nia).
    rewrite Z.add_1_r, Z.even_succ, <- Z.negb_even in H1. by destruct (Z.even q').
Qed.

Lemma div_half_even_mono n n' m : 0 < m -> n <= n' -> div_half_even n m <= div_half_even n' m.
Proof.
  intros Hm Hn. pose proof (div_half_even_near n m Hm). pose proof (div_half_even_near n' m Hm).
  destruct (Z.le_gt_cases (div_half_even n m) (div_half_even n' m)) as [|Hgt]; [done|]. exfalso.
  assert (div_half_even n m = div_half_even n' m + 1) as E by nia.
  assert (n = n') as -> by nia. lia.
Qed.

Lemma div_half_even_exact q m : 0 < m -> div_half_even (q * m) m = q.
Proof.
  intros Hm. apply (nearest_unique (q * m) m); [done|by apply div_half_even_near| |by apply div_half_even_tie|];
    rewrite Z.sub_diag; cbn; lia.
Qed.

Lemma div_half_even_nonneg n m : 0 < m -> 0 <= n -> 0 <= div_half_even n m.
Proof. intros Hm Hn. rewrite <- (div_half_even_exact 0 m Hm). by apply div_half_even_mono. Qed.

Lemma scaled_den_pos e : 0 < scaled_den e.
Proof. unfold scaled_den. apply Z.pow_pos_nonneg; lia. Qed.
Lemma scaled_nonneg d m e : 0 <= scaled d m e.
Proof.
  apply div_half_even_nonneg; [apply scaled_den_pos|]. unfold scaled_num.
  pose proof (Z.pow_pos_nonneg 10 (Z.of_nat d)). pose proof (Z.pow_pos_nonneg 2 (Z.max e 0)). nia.
Qed.

(** ** The text is read back *)

(** the number a text stands for, in units of [10^-d]; [None] when it has not
    [d] decimals *)
Definition read_point (d : nat) (s : list byte) : option Z :=
  let max := 10 ^ blen s in
  match d with
  | O => num_digits max s 0
  | _ =>
      match split_at_str (str ".") s with
      | Some (i, f) =>
          i ← num_digits max i 0;
          f' ← num_digits max f 0;
          if (length f =? d)%nat then Some (i * 10 ^ Z.of_nat d + f') else None
      | None => None
      end
  end.

Lemma length_dec_rev fuel n : n < 2 ^ Z.of_nat fuel -> 0 <= n -> forall k, n < 10 ^ Z.of_nat k -> (0 < k)%nat -> (length (dec_rev fuel n) <= k)%nat.
Proof.
  revert n. induction fuel as [|fuel IH]; intros n Hf Hn k Hk Hpos; cbn [dec_rev length]; [lia|].
  destruct (Z.ltb_spec n 10) as [Hlt|Hge]; cbn [length]; [lia|]. destruct k as [|k]; [lia|].
  rewrite Nat2Z.inj_succ, Z.pow_succ_r in Hk by lia.
  assert (n / 10 < 10 ^ Z.of_nat k) by (apply Z.div_lt_upper_bound; lia).
  assert (n / 10 < 2 ^ Z.of_nat fuel).
  { rewrite Nat2Z.inj_succ, Z.pow_succ_r in Hf by lia. apply Z.div_lt_upper_bound; [lia|]. pose proof (Z.pow_pos_nonneg 2 (Z.of_nat fuel)). lia. }
  assert (1 <= n / 10) by (apply Z.div_le_lower_bound; lia).
  destruct k as [|k]; [cbn in *; lia|]. specialize (IH (n / 10) ltac:(done) ltac:(lia) (S k) ltac:(done) ltac:(lia)). lia.
Qed.
Lemma dec_rev_bound fuel n : n < 2 ^ Z.of_nat fuel -> 0 <= n -> n < 10 ^ blen (dec_rev fuel n).
Proof.
  revert n. induction fuel as [|fuel IH]; intros n Hf Hn; [exact Hf|]. cbn [dec_rev].
  destruct (Z.ltb_spec n 10) as [Hlt|Hge]; rewrite blen_cons; [change (n < 10); lia|].
  assert (n / 10 < 2 ^ Z.of_nat fuel).
  { rewrite Nat2Z.inj_succ, Z.pow_succ_r in Hf by lia. apply Z.div_lt_upper_bound; [lia|]. pose proof (Z.pow_pos_nonneg 2 (Z.of_nat fuel)). lia. }
  specialize (IH (n / 10) ltac:(done) ltac:(apply Z.div_pos; lia)). rewrite Z.pow_add_r by (try apply blen_nonneg; lia).
  pose proof (Z.div_mod n 10 ltac:(lia)). pose proof (Z.mod_pos_bound n 10 ltac:(lia)). lia.
Qed.

Lemma log2_fuel n : 0 <= n -> n < 2 ^ Z.of_nat (S (Z.to_nat (Z.log2 n))).
Proof.
  intros Hn. rewrite Nat2Z.inj_succ, Z2Nat.id by apply Z.log2_nonneg. destruct (Z.eq_dec n 0) as [->|]; [cbn; lia|].
  apply Z.log2_spec. lia.
Qed.
Lemma length_fmt_uint_le n k : 0 <= n < 10 ^ Z.of_nat k -> (0 < k)%nat -> (length (fmt_uint n) <= k)%nat.
Proof. intros [Hn Hk] Hp. unfold fmt_uint. rewrite length_rev. apply length_dec_rev; try done. by apply log2_fuel. Qed.
Lemma fmt_uint_bound n : 0 <= n -> n < 10 ^ blen (fmt_uint n).
Proof.
  intros Hn. unfold fmt_uint. unfold blen. rewrite length_rev. apply dec_rev_bound; [by apply log2_fuel|done].
Qed.
Lemma length_fmt_uint_pad d n : 0 <= n < 10 ^ Z.of_nat d -> (0 < d)%nat -> length (fmt_uint_pad d n) = d.
Proof.
  intros Hn Hd. unfold fmt_uint_pad. rewrite length_app, repeat_length. pose proof (length_fmt_uint_le n d Hn Hd). lia.
Qed.

Lemma fmt_uint_no_dot n : Byte.x2e ∉ fmt_uint n.
Proof.
  intros Hin. pose proof (fmt_uint_digits n) as Hd. rewrite Forall_forall in Hd.
  destruct (Hd _ Hin) as (d & Hr & E). by destruct (digit_not d Byte.x2e Hr eq_refl).
Qed.

Lemma read_fmt_point d q : 0 <= q -> read_point d (fmt_point d q) = Some q.
Proof.
  intros Hq. unfold read_point, fmt_point. set (t := 10 ^ Z.of_nat d). assert (0 < t) by (apply Z.pow_pos_nonneg; lia).
  assert (0 <= q / t) as Hi by (apply Z.div_pos; lia). pose proof (fmt_uint_bound _ Hi) as Hb.
  destruct d as [|d].
  - rewrite app_nil_r. replace (q / t) with q in * by (unfold t; cbn; by rewrite Z.div_1_r). apply fmt_uint_parse. lia.
  - assert (0 <= q mod t < t) as Hm by (by apply Z.mod_pos_bound). set (f := fmt_uint_pad (S d) (q mod t)).
    assert (length f = S d) as Hl by (apply length_fmt_uint_pad; [done|lia]).
    change (str ".") with [Byte.x2e]. pose proof (split_at_str_app Byte.x2e [] (fmt_uint (q / t)) f (fmt_uint_no_dot _)) as Hs. cbn [app] in Hs.
    cbn [app]. rewrite Hs.
    set (max := 10 ^ blen _). assert (10 ^ blen (fmt_uint (q / t)) <= max /\ t <= max) as [H1 H2].
    { unfold max, t. split; apply Z.pow_le_mono_r; try lia; rewrite blen_app, blen_cons; unfold blen; rewrite ?Hl; lia. }
    rewrite fmt_uint_parse by lia. cbn [mbind option_bind].
    assert (num_digits max f 0 = Some (q mod t)) as ->.
    { unfold f, fmt_uint_pad. rewrite num_digits_zeros by lia. apply fmt_uint_parse. lia. }
    cbn [mbind option_bind]. rewrite Hl, Nat.eqb_refl. f_equal. pose proof (Z.div_mod q t ltac:(lia)). fold t. lia.
Qed.

(** What [{:.d}] prints of a finite number is a sign and the decimal text of
    the number of units of [10^-d] nearest to the exact value, the even one of
    two that are equally near. *)
Lemma fmt_fixed_nearest (d : nat) (s : bool) (m : positive) (e : Z) :
  exists q, fmt_fixed d (S754_finite s m e) = fmt_sign false s ++ fmt_point d q /\
    read_point d (fmt_point d q) = Some q /\
    2 * Z.abs (scaled_num d m e - q * scaled_den e) <= scaled_den e /\
    (forall q', 2 * Z.abs (scaled_num d m e - q' * scaled_den e) <= scaled_den e ->
       (2 * Z.abs (scaled_num d m e - q' * scaled_den e) = scaled_den e -> Z.even q' = true) -> q' = q).
Proof.
  exists (scaled d m e). pose proof (scaled_den_pos e) as Hd. split_and!.
  - done.
  - apply read_fmt_point, scaled_nonneg.
  - by apply div_half_even_near.
  - intros q' Hn Ht. eapply nearest_unique; [done|done|by apply div_half_even_near|done|by apply div_half_even_tie].
Qed.

(** larger numbers print as larger ones *)
Lemma scaled_mono d m m' e : (m <= m')%positive -> scaled d m e <= scaled d m' e.
Proof.
  intros Hm. apply div_half_even_mono; [apply scaled_den_pos|]. unfold scaled_num.
  pose proof (Z.pow_pos_nonneg 10 (Z.of_nat d)). pose proof (Z.pow_pos_nonneg 2 (Z.max e 0)).
  apply Z.mul_le_mono_nonneg_r; [lia|]. apply Z.mul_le_mono_nonneg_r; lia.
Qed.

(** ** Padding *)

Lemma str_chars_app s t : str_chars (s ++ t) = (str_chars s + str_chars t)%nat.
Proof. unfold str_chars. by rewrite List.filter_app, length_app. Qed.
Lemma str_chars_repeat c n : utf8_cont c = false -> str_chars (repeat c n) = n.
Proof. intros Hc. unfold str_chars. induction n as [|n IH]; [done|]. cbn. rewrite Hc. cbn. by rewrite IH. Qed.
(** a padded text has the width asked for, or its own when that is more *)
Lemma str_chars_fill c w s : utf8_cont c = false -> str_chars (fmt_fill c w s) = Nat.max w (str_chars s).
Proof. intros Hc. unfold fmt_fill. rewrite str_chars_app, str_chars_repeat by done. lia. Qed.
Lemma str_chars_left w s : str_chars (fmt_left w s) = Nat.max w (str_chars s).
Proof. by apply str_chars_fill. Qed.
Lemma str_chars_right w s : str_chars (fmt_right_chars w s) = Nat.max w (str_chars s).
Proof. unfold fmt_right_chars. rewrite str_chars_app, str_chars_repeat by done. lia. Qed.

(** ** Known answers *)

Example fmt_fixed_samples :
  map (fun p => fmt_fixed p.1 p.2)
    [(2%nat, f64_dyadic 5 (-1)); (0%nat, f64_dyadic 5 (-1)); (0%nat, f64_dyadic 7 (-1)); (0%nat, f64_dyadic 1 (-1));
     (1%nat, f64_dyadic (-1) (-2)); (3%nat, f64_div (f64_of_Z 1) (f64_of_Z 3)); (1%nat, S754_zero true); (1%nat, f64_infinity);
     (2%nat, f64_of_Z 1234567); (2%nat, f64_div (f64_of_Z 1005) (f64_of_Z 1000))] =
  [str "2.50"; str "2"; str "4"; str "0"; str "-0.2"; str "0.333"; str "-0.0"; str "inf"; str "1234567.00"; str "1.00"].
Proof. vm_compute. reflexivity. Qed.
