(* ===== verification/Regression.v ===== *)
(** * Checking benchmarks for regressions: logregator-core/src/regression.rs *)
From S2P Require Import Prelude Float.

Inductive RegressionMetric :=
| InsertPerSecond | RangePerSecond | InsertLatencyP50 | RangeLatencyP50 | InsertLatencyP99 | RangeLatencyP99 | RssMaxKb.

Inductive RegressionStatus :=
| Passed
| Regressed (metric : RegressionMetric) (baseline target delta_pct : f64).

(** the multiplier of the tolerance and whether lower is better *)
Definition metric_rule (metric : RegressionMetric) : f64 * bool :=
  match metric with
  | InsertPerSecond => (f64_of_Z 1, false)
  | RangePerSecond => (f64_dyadic 3 (-1), true)
  | InsertLatencyP50 => (f64_of_Z 4, true)
  | RangeLatencyP50 => (f64_of_Z 4, true)
  | InsertLatencyP99 => (f64_dyadic 3 (-1), true)
  | RangeLatencyP99 => (f64_of_Z 4, true)
  | RssMaxKb => (f64_of_Z 2, true)
  end.

Definition check_for_regression (baseline_tolerance_pct : f64) (metric : RegressionMetric) (target baseline : f64) : RegressionStatus :=
  let delta := f64_sub target baseline in
  if f64_eq delta (f64_of_Z 0) then Passed
  else
    let delta_pct := f64_mul (f64_div delta (f64_abs baseline)) (f64_of_Z 100) in
    let '(multiplier, lower_is_better) := metric_rule metric in
    let allowed_pct := f64_mul baseline_tolerance_pct multiplier in
    if lower_is_better
    then if f64_lt allowed_pct delta_pct then Regressed metric baseline target delta_pct else Passed
    else if f64_lt delta_pct (f64_neg allowed_pct) then Regressed metric baseline target delta_pct else Passed.

(** ** Facts *)

Lemma metric_multiplier metric : f64_neg_bit (metric_rule metric).1 = false.
Proof. by destruct metric. Qed.

Lemma abs_neg_bit x : f64_neg_bit (f64_abs x) = false.
Proof. by destruct x. Qed.

Lemma neg_neg_bit x : x <> S754_nan -> f64_neg_bit (f64_neg x) = negb (f64_neg_bit x).
Proof. by destruct x. Qed.

(** the change in percent has the sign of the change *)
Lemma delta_pct_sign delta baseline :
  let pct := f64_mul (f64_div delta (f64_abs baseline)) (f64_of_Z 100) in pct = S754_nan \/ f64_neg_bit pct = f64_neg_bit delta.
Proof.
  intros pct. subst pct. destruct (f64_mul_sign (f64_div delta (f64_abs baseline)) (f64_of_Z 100)) as [?|E]; [by left|].
  change (f64_neg_bit (f64_of_Z 100)) with false in E. rewrite xorb_false_r in E.
  destruct (f64_div_sign delta (f64_abs baseline)) as [En|E2].
  - left. by rewrite En.
  - right. by rewrite E, E2, abs_neg_bit, xorb_false_r.
Qed.

Lemma allowed_sign tol metric :
  f64_neg_bit tol = false -> let allowed := f64_mul tol (metric_rule metric).1 in allowed = S754_nan \/ f64_neg_bit allowed = false.
Proof.
  intros Ht. cbv zeta. destruct (f64_mul_sign tol (metric_rule metric).1) as [?|E]; [by left|right]. by rewrite E, Ht, metric_multiplier.
Qed.

(** a comparison with NaN on either side, or from a positive number up to a
    negative one, fails *)
Lemma f64_lt_false x y :
  x = S754_nan \/ f64_neg_bit x = false -> y = S754_nan \/ f64_neg_bit y = true -> f64_lt x y = false.
Proof.
  intros [->|Hx] [->|Hy]; rewrite ?f64_lt_nan_l, ?f64_lt_nan_r; try done.
  destruct x as [s|s| |s m e]; [by apply f64_lt_sign..|by rewrite f64_lt_nan_l|by apply f64_lt_sign].
Qed.

(** A change for the better is never reported, whatever the (non-negative)
    tolerance: neither a lower value of a metric for which lower is better,
    nor a higher rate of inserts; and measurements that are NaN always pass.
    But the rate of range queries is taken for a metric for which lower is
    better: however far it drops, the check passes, and a rate that doubles
    is reported at the usual tolerance of 5 percent. *)
Theorem regression_spec (tol target baseline : f64) (metric : RegressionMetric)
    (Hpos : f64_neg_bit tol = false) (Ht : f64_ok target) (Hb : f64_ok baseline) :
  (f64_lt target baseline = true -> metric <> InsertPerSecond -> check_for_regression tol metric target baseline = Passed) /\
  (f64_lt baseline target = true -> metric = InsertPerSecond -> check_for_regression tol metric target baseline = Passed) /\
  (target = S754_nan \/ baseline = S754_nan -> check_for_regression tol metric target baseline = Passed) /\
  (f64_lt target baseline = true -> check_for_regression tol RangePerSecond target baseline = Passed) /\
  check_for_regression (f64_of_Z 5) RangePerSecond (f64_of_Z 200) (f64_of_Z 100) =
    Regressed RangePerSecond (f64_of_Z 100) (f64_of_Z 200) (f64_of_Z 100).
Proof.
  assert (forall m, m <> InsertPerSecond -> f64_lt target baseline = true -> check_for_regression tol m target baseline = Passed) as Hlow.
  { intros m Hm Hlt. unfold check_for_regression. destruct (f64_eq _ _); [done|].
    destruct (delta_pct_sign (f64_sub target baseline) baseline) as [En|Es], (f64_sub_sign target baseline Ht Hb Hlt) as [[E|E] _];
      destruct (allowed_sign tol m Hpos) as [Ea|Ea]; destruct m; cbn [metric_rule fst] in *; try done;
      (rewrite f64_lt_false; [done|by auto|]); rewrite ?E in *; auto. }
  split_and!.
  - auto.
  - intros Hlt ->. unfold check_for_regression. destruct (f64_eq _ _); [done|].
    destruct (f64_sub_sign baseline target Hb Ht Hlt) as [_ Hs]. pose proof (delta_pct_sign (f64_sub target baseline) baseline) as Hd.
    destruct (allowed_sign tol InsertPerSecond Hpos) as [Ea|Ea]; cbn [metric_rule fst] in *.
    + rewrite Ea. by rewrite f64_lt_nan_r.
    + rewrite f64_lt_false; [done| |].
      * destruct Hs as [Hs|Hs]; [rewrite Hs; by left|]. destruct Hd as [?|Hd]; [by left|right]. by rewrite Hd.
      * destruct (f64_mul tol (f64_of_Z 1)) eqn:Em; cbn in *; auto; by rewrite Ea; auto.
  - intros Hn. unfold check_for_regression. assert (f64_sub target baseline = S754_nan) as -> by (destruct Hn as [->| ->]; [done|by destruct target]).
    cbn. destruct metric; cbn; by rewrite ?f64_lt_nan_r, ?f64_lt_nan_l.
  - intros Hlt. by apply Hlow.
  - by vm_compute.
Qed.

(** a drop of the insert latency, and of the rate of range queries *)
Lemma regression_spec_witness :
  check_for_regression (f64_of_Z 5) InsertLatencyP50 (f64_of_Z 80) (f64_of_Z 100) = Passed /\
  check_for_regression (f64_of_Z 5) RangePerSecond (f64_of_Z 1) (f64_of_Z 100) = Passed.
Proof.
  split.
  - exact (proj1 (regression_spec (f64_of_Z 5) (f64_of_Z 80) (f64_of_Z 100) InsertLatencyP50 eq_refl eq_refl eq_refl) eq_refl
      ltac:(discriminate)).
  - exact (proj1 (regression_spec (f64_of_Z 5) (f64_of_Z 1) (f64_of_Z 100) RangePerSecond eq_refl eq_refl eq_refl) eq_refl
      ltac:(discriminate)).
Defined.
