(* ===== verification/Metrics.v ===== *)
(** * Counters, gauges, latencies and their snapshots: logregator-core/src/metrics.rs

    Atomics are plain integers that wrap. A histogram is what the
    [hdrhistogram] crate provides ([HdrHist]); it lies behind a lock that is
    never poisoned. *)
From S2P Require Import Prelude Std Float.

(** ** Counters and gauges *)

Definition counter_inc (n v : Z) : Z := wrap64 (v + n).
(** an [AtomicI64] wraps *)
Definition wrap_i64 (z : Z) : Z := (z + 2 ^ 63) mod 2 ^ 64 - 2 ^ 63.
Definition gauge_add (delta v : Z) : Z := wrap_i64 (v + delta).
Definition gauge_dec (delta v : Z) : Z := wrap_i64 (v - delta).
(** [set]: the value before is lost; [n as i64] wraps *)
Definition gauge_set (n _v : Z) : Z := wrap_i64 n.

Lemma counter_inc_inc a b v : counter_inc a (counter_inc b v) = wrap64 (v + (b + a)).
Proof. unfold counter_inc, wrap64. rewrite Zplus_mod_idemp_l. f_equal. lia. Qed.

Lemma wrap_i64_id z : in_i64 z -> wrap_i64 z = z.
Proof. unfold in_i64, wrap_i64. intros. rewrite Z.mod_small; lia. Qed.

Lemma gauge_add_small d v : in_i64 (v + d) -> gauge_add d v = v + d.
Proof. apply wrap_i64_id. Qed.

(** ** Histograms *)

Class HdrHist := {
  Hist : Type;
  (** [new_with_bounds(low, high, significant figures)] *)
  hist_new : Z -> Z -> Z -> Hist;
  (** [None]: the value cannot be recorded *)
  hist_record : Z -> Hist -> option Hist;
  hist_is_empty : Hist -> bool;
  hist_min : Hist -> Z;
  hist_value_at_percentile : f64 -> Hist -> Z;
  hist_max : Hist -> Z;
  hist_mean : Hist -> f64;
  hist_stdev : Hist -> f64;
  hist_len : Hist -> Z
}.

(** A histogram takes every value up to its highest trackable one and counts
    it; recording does not change what it can take. *)
Class HdrHistLaws `{HdrHist} := {
  hist_high : Hist -> Z;
  hist_new_high lo hi sig : hist_high (hist_new lo hi sig) = hi;
  hist_new_len lo hi sig : hist_len (hist_new lo hi sig) = 0;
  hist_record_ok v h : 0 <= v <= hist_high h ->
    exists h', hist_record v h = Some h' /\ hist_high h' = hist_high h /\ hist_len h' = hist_len h + 1;
  hist_empty_len h : hist_is_empty h = (hist_len h =? 0)
}.

Record LatencySnapshot := {
  ls_min : Z; ls_p50 : Z; ls_p90 : Z; ls_p95 : Z; ls_p99 : Z; ls_p99_9 : Z; ls_max : Z;
  ls_mean : f64; ls_stddev : f64; ls_sample_count : Z
}.

(** [de_u64_from_f64_or_u64]: the two methods of the visitor; every other
    kind of value is an error *)
Inductive json_value := JsonU64 (v : Z) | JsonF64 (v : f64) | JsonOther.
Definition de_u64_from_f64_or_u64 (j : json_value) : option Z :=
  match j with JsonU64 v => Some v | JsonF64 v => Some (f64_to_u64 v) | JsonOther => None end.

Section latency.
Context `{HdrHist}.

(** [Latency] *)
Definition LATENCY_MAX : Z := 3600000000.
Definition latency_new : Hist := hist_new 1 LATENCY_MAX 3.

Definition latency_record_us (us : f64) (h : Hist) : Hist :=
  let v := f64_to_u64 (f64_clamp us (f64_of_Z 0) (f64_of_Z LATENCY_MAX)) in
  match hist_record v h with Some h => h | None => h end.

(** [record_instant], of the seconds that have elapsed *)
Definition latency_record_instant (elapsed_secs : f64) (h : Hist) : Hist :=
  latency_record_us (f64_mul elapsed_secs (f64_of_Z 1000000)) h.

(** 99.9 is not dyadic: the nearest [f64] *)
Definition f64_99_9 : f64 := f64_div (f64_of_Z 999) (f64_of_Z 10).

Definition from_histogram (h : Hist) : LatencySnapshot := {|
  ls_min := hist_min h;
  ls_p50 := hist_value_at_percentile (f64_of_Z 50) h;
  ls_p90 := hist_value_at_percentile (f64_of_Z 90) h;
  ls_p95 := hist_value_at_percentile (f64_of_Z 95) h;
  ls_p99 := hist_value_at_percentile (f64_of_Z 99) h;
  ls_p99_9 := hist_value_at_percentile f64_99_9 h;
  ls_max := hist_max h;
  ls_mean := hist_mean h;
  ls_stddev := hist_stdev h;
  ls_sample_count := hist_len h
|}.

Definition latency_snapshot (h : Hist) : option LatencySnapshot :=
  if hist_is_empty h then None else Some (from_histogram h).
End latency.

(** ** The metrics of the daemon *)

Record WalMetrics `{HdrHist} := {
  wm_write_count : Z; wm_write_bytes : Z; wm_sync_count : Z; wm_sync_latency : Hist
}.
Record EngineMetrics `{HdrHist} := {
  em_insert_count : Z; em_batch_insert_count : Z; em_records_inserted : Z; em_insert_failures : Z;
  em_range_count : Z; em_range_failures : Z; em_records_scanned : Z;
  em_memtable_bytes : Z; em_memtable_limit : Z; em_sstable_count : Z;
  em_flush_count : Z; em_compaction_count : Z;
  em_insert_latency : Hist; em_batch_insert_latency : Hist; em_range_latency : Hist;
  em_flush_duration : Hist; em_compaction_duration : Hist
}.
Record ServerMetrics := {
  connections_accepted : Z; connections_active : Z; frames_read : Z; frames_written : Z
}.
Record Metrics `{HdrHist} := { m_wal : WalMetrics; m_engine : EngineMetrics; m_server : ServerMetrics }.

Definition server_metrics_default : ServerMetrics :=
  {| connections_accepted := 0; connections_active := 0; frames_read := 0; frames_written := 0 |}.

Section metrics.
Context `{HdrHist}.

(** [Metrics::default] *)
Definition wal_metrics_default : WalMetrics :=
  {| wm_write_count := 0; wm_write_bytes := 0; wm_sync_count := 0; wm_sync_latency := latency_new |}.
Definition engine_metrics_default : EngineMetrics :=
  {| em_insert_count := 0; em_batch_insert_count := 0; em_records_inserted := 0; em_insert_failures := 0;
     em_range_count := 0; em_range_failures := 0; em_records_scanned := 0;
     em_memtable_bytes := 0; em_memtable_limit := 0; em_sstable_count := 0; em_flush_count := 0; em_compaction_count := 0;
     em_insert_latency := latency_new; em_batch_insert_latency := latency_new; em_range_latency := latency_new;
     em_flush_duration := latency_new; em_compaction_duration := latency_new |}.
Definition metrics_default : Metrics :=
  {| m_wal := wal_metrics_default; m_engine := engine_metrics_default; m_server := server_metrics_default |}.

(** ** Snapshots *)

Record WalSnapshot := { ws_write_count : Z; ws_write_bytes : Z; ws_sync_count : Z; ws_sync_latency : option LatencySnapshot }.
Record EngineSnapshot := {
  es_insert_count : Z; es_batch_insert_count : Z; es_records_inserted : Z; es_insert_failures : Z;
  es_range_count : Z; es_range_failures : Z; es_records_scanned : Z;
  es_memtable_bytes : Z; es_memtable_limit : Z; es_sstable_count : Z; es_flush_count : Z; es_compaction_count : Z;
  es_insert_latency : option LatencySnapshot; es_batch_insert_latency : option LatencySnapshot;
  es_range_latency : option LatencySnapshot; es_flush_duration : option LatencySnapshot;
  es_compaction_duration : option LatencySnapshot
}.
Record ServerSnapshot := { vs_connections_accepted : Z; vs_connections_active : Z; vs_frames_read : Z; vs_frames_written : Z }.
Record MetricsSnapshot := { ms_wal : WalSnapshot; ms_engine : EngineSnapshot; ms_server : ServerSnapshot }.

Definition metrics_snapshot (m : Metrics) : MetricsSnapshot :=
  let w := m_wal m in let e := m_engine m in let v := m_server m in {|
  ms_wal := {|
    ws_write_count := wm_write_count w; ws_write_bytes := wm_write_bytes w; ws_sync_count := wm_sync_count w;
    ws_sync_latency := latency_snapshot (wm_sync_latency w) |};
  ms_engine := {|
    es_insert_count := em_insert_count e; es_batch_insert_count := em_batch_insert_count e;
    es_records_inserted := em_records_inserted e; es_insert_failures := em_insert_failures e;
    es_range_count := em_range_count e; es_range_failures := em_range_failures e; es_records_scanned := em_records_scanned e;
    es_memtable_bytes := em_memtable_bytes e; es_memtable_limit := em_memtable_limit e;
    es_sstable_count := em_sstable_count e; es_flush_count := em_flush_count e; es_compaction_count := em_compaction_count e;
    es_insert_latency := latency_snapshot (em_insert_latency e);
    es_batch_insert_latency := latency_snapshot (em_batch_insert_latency e);
    es_range_latency := latency_snapshot (em_range_latency e);
    es_flush_duration := latency_snapshot (em_flush_duration e);
    es_compaction_duration := latency_snapshot (em_compaction_duration e) |};
  ms_server := {|
    vs_connections_accepted := connections_accepted v; vs_connections_active := connections_active v;
    vs_frames_read := frames_read v; vs_frames_written := frames_written v |}
|}.
End metrics.

(** ** What a latency keeps *)

Lemma latency_value us : f64_ok us -> 0 <= f64_to_u64 (f64_clamp us (f64_of_Z 0) (f64_of_Z LATENCY_MAX)) <= LATENCY_MAX.
Proof.
  intros Hok. split; [apply f64_to_u64_nonneg|]. unfold f64_clamp. destruct (f64_lt us _); [by vm_compute|].
  destruct (f64_lt (f64_of_Z LATENCY_MAX) us) eqn:Hlt; [by vm_compute|].
  eapply (f64_to_u64_le us _ (-21)); [done| | | |by vm_compute|exact Hlt]; by vm_compute.
Qed.

Section latency_facts.
Context `{HdrHistLaws}.

Lemma latency_records us h : f64_ok us -> hist_high h = LATENCY_MAX ->
  hist_high (latency_record_us us h) = LATENCY_MAX /\ hist_len (latency_record_us us h) = hist_len h + 1.
Proof.
  intros Hok Hh. unfold latency_record_us.
  destruct (hist_record_ok (f64_to_u64 (f64_clamp us (f64_of_Z 0) (f64_of_Z LATENCY_MAX))) h) as (h' & -> & Hhi & Hl).
  { rewrite Hh. by apply latency_value. }
  by rewrite Hhi, Hl.
Qed.

(** No sample of a latency is lost. Whatever [f64]s are recorded (NaN,
    infinities and negative numbers too), each is clamped to a value the
    histogram takes, so that a latency that has had [n] calls of [record_us]
    has a snapshot, which counts exactly [n] samples. *)
Theorem latency_counts_samples (us : list f64) (Hok : Forall f64_ok us) (Hne : us <> []) :
  exists s, latency_snapshot (foldl (fun h u => latency_record_us u h) latency_new us) = Some s /\
    ls_sample_count s = Z.of_nat (length us).
Proof.
  assert (forall h, hist_high h = LATENCY_MAX ->
    hist_len (foldl (fun h u => latency_record_us u h) h us) = hist_len h + Z.of_nat (length us)) as Hlen.
  { clear Hne. induction Hok as [|u us Hu _ IH]; intros h Hh; cbn [foldl length]; [lia|].
    destruct (latency_records u h Hu Hh) as [Hh' Hl]. rewrite IH by done. lia. }
  specialize (Hlen latency_new (hist_new_high _ _ _)). unfold latency_new in Hlen at 2. rewrite hist_new_len in Hlen.
  unfold latency_snapshot. rewrite hist_empty_len, Hlen. destruct us as [|u us]; [done|]. cbn [length] in *.
  destruct (Z.eqb_spec (0 + Z.of_nat (S (length us))) 0); [lia|]. eexists; split; [done|]. cbn [ls_sample_count from_histogram]. lia.
Qed.
End latency_facts.

(** The values of a histogram, most recent first: percentiles are of no
    concern here. *)
#[local] Instance list_hist : HdrHist := {
  Hist := Z * list Z;
  hist_new _ hi _ := (hi, []);
  hist_record v h := if decide (v <= h.1) then Some (h.1, v :: h.2) else None;
  hist_is_empty h := match h.2 with [] => true | _ => false end;
  hist_min h := foldr Z.min u64_max h.2;
  hist_value_at_percentile _ h := foldr Z.max 0 h.2;
  hist_max h := foldr Z.max 0 h.2;
  hist_mean _ := f64_of_Z 0;
  hist_stdev _ := f64_of_Z 0;
  hist_len h := Z.of_nat (length h.2)
}.
#[local] Instance list_hist_laws : HdrHistLaws.
Proof.
  unshelve refine {| hist_high := (fun h : Hist => h.1 : Z) |}; [done|done| |by intros [? [|??]]].
  intros v [hi l] Hv. cbn in *. case_decide; [|lia]. eexists; split_and!; [done|done|]. cbn. lia.
Defined.

Definition demo_samples : list f64 := [S754_nan; f64_infinity; f64_neg f64_infinity; f64_of_Z (-7); f64_of_Z 250].
Lemma latency_counts_samples_witness :
  exists s, latency_snapshot (foldl (fun h u => latency_record_us u h) latency_new demo_samples) = Some s /\ ls_sample_count s = 5.
Proof. apply (latency_counts_samples demo_samples); [repeat constructor|done]. Defined.
