(* ===== verification/Dump.v ===== *)
(** * The metrics as text: dump.rs of logregator-tools

    [dump_metrics] prints right-aligned columns. A row can be taken apart
    again at its blanks, so every number that was printed can be read back
    from its line. *)
From S2P Require Import Prelude Std Text Float Metrics.

(** [format!("{:>w1} {:>w2} ..", ..)] *)
Fixpoint row (cols : list (nat * list byte)) : list byte :=
  match cols with
  | [] => []
  | [(w, s)] => fmt_right w s
  | (w, s) :: cols => fmt_right w s ++ Byte.x20 :: row cols
  end.
Definition writeln (s out : list byte) : list byte := out ++ s ++ [Byte.x0a].
Definition newline_then (s : list byte) : list byte := Byte.x0a :: s.

Section dump.
Context `{HdrHist}.

Definition server_widths : list nat := [8; 8; 8; 8]%nat.
Definition server_values (m : Metrics) : list Z :=
  let v := m_server m in [connections_accepted v; connections_active v; frames_read v; frames_written v].

Definition engine_widths : list nat := [8; 8; 10; 8; 8; 8; 10; 10; 10; 5; 8; 8]%nat.
Definition engine_values (m : Metrics) : list Z :=
  let e := m_engine m in
  [em_insert_count e; em_batch_insert_count e; em_records_inserted e; em_insert_failures e; em_range_count e; em_range_failures e;
   em_records_scanned e; em_memtable_bytes e; em_memtable_limit e; em_sstable_count e; em_flush_count e; em_compaction_count e].

Definition wal_widths : list nat := [10; 12; 8]%nat.
Definition wal_values (m : Metrics) : list Z :=
  let w := m_wal m in [wm_write_count w; wm_write_bytes w; wm_sync_count w].

Definition latency_widths : list nat := [16; 10; 10; 10; 10; 10; 10; 10; 10]%nat.
Definition latencies (m : Metrics) : list (list byte * option LatencySnapshot) :=
  [(str "insert", latency_snapshot (em_insert_latency (m_engine m)));
   (str "batch_insert", latency_snapshot (em_batch_insert_latency (m_engine m)));
   (str "range", latency_snapshot (em_range_latency (m_engine m)));
   (str "flush", latency_snapshot (em_flush_duration (m_engine m)));
   (str "compaction", latency_snapshot (em_compaction_duration (m_engine m)));
   (str "wal_sync", latency_snapshot (wm_sync_latency (m_wal m)))].
Definition latency_words (name : list byte) (s : LatencySnapshot) : list (list byte) :=
  name :: map fmt_uint [ls_min s; ls_p50 s; ls_p90 s; ls_p95 s; ls_p99 s; ls_p99_9 s; ls_max s; ls_sample_count s].
Definition write_latency (out : list byte) (x : list byte * option LatencySnapshot) : list byte :=
  match x.2 with
  | Some s => writeln (row (zip latency_widths (latency_words x.1 s))) out
  | None => out
  end.

Definition dump_metrics (m : Metrics) : list byte :=
  let out := writeln (newline_then (str "==> SERVER METRICS <==")) [] in
  let out := writeln (row (zip server_widths [str "ACCEPTED"; str "ACTIVE"; str "FRM_RD"; str "FRM_WR"])) out in
  let out := writeln (row (zip server_widths (map fmt_int (server_values m)))) out in
  let out := writeln (newline_then (str "==> ENGINE METRICS <==")) out in
  let out := writeln (row (zip engine_widths
    [str "INSERTS"; str "BATCH"; str "RECORDS"; str "FAIL"; str "RANGES"; str "R_FAIL"; str "SCANNED"; str "MT_BYTES";
     str "MT_LIM"; str "SST"; str "FLUSHES"; str "COMPACT"])) out in
  let out := writeln (row (zip engine_widths (map fmt_int (engine_values m)))) out in
  let out := writeln (newline_then (str "==> WAL METRICS <==")) out in
  let out := writeln (row (zip wal_widths [str "WRITES"; str "BYTES"; str "SYNCS"])) out in
  let out := writeln (row (zip wal_widths (map fmt_int (wal_values m)))) out in
  let out := writeln (newline_then (str "==> LATENCIES (µs) <==")) out in
  let out := writeln (row (zip latency_widths
    [[]; str "MIN"; str "P50"; str "P90"; str "P95"; str "P99"; str "P99.9"; str "MAX"; str "COUNT"])) out in
  let out := writeln (repeat Byte.x2d 106) out in
  foldl write_latency out (latencies m).
End dump.

(** ** Lines and words *)

(** a byte that is neither a line end nor a carriage return, and a word *)
Definition in_line (b : byte) : Prop := b <> Byte.x0a /\ b <> Byte.x0d.
Definition word_ok (w : list byte) : Prop := w <> [] /\ Forall (fun b => is_space b = false) w.

Lemma in_line_ok l : Forall in_line l -> line_ok l.
Proof.
  intros Hl. split; [eapply Forall_impl; [exact Hl|]; intros b [Hb _]; by apply bool_decide_eq_false_2|].
  unfold chop_cr. destruct (rev l) as [|b r] eqn:E; [done|]. rewrite bool_decide_eq_false_2; [done|].
  assert (b ∈ l) as Hb by (rewrite <- (rev_involutive l), E; cbn; apply elem_of_app; right; by left).
  rewrite Forall_forall in Hl. by apply Hl in Hb as [_ ?].
Qed.
Lemma not_space_in_line b : is_space b = false -> in_line b.
Proof. by intros Hb; split; intros ->. Qed.
Lemma digits_word l : l <> [] -> Forall (fun b => exists d, 0 <= d < 10 /\ b = digit d) l -> word_ok l.
Proof.
  intros Hne Hd. split; [done|]. eapply Forall_impl; [exact Hd|]. intros b (d & Hd' & ->).
  assert (d = 0 \/ d = 1 \/ d = 2 \/ d = 3 \/ d = 4 \/ d = 5 \/ d = 6 \/ d = 7 \/ d = 8 \/ d = 9) as Hc by lia.
  by repeat (destruct Hc as [->|Hc]; [done|]); subst d.
Qed.
Lemma fmt_uint_word n : word_ok (fmt_uint n).
Proof.
  apply digits_word; [|unfold fmt_uint; apply Forall_rev, dec_rev_digits]. unfold fmt_uint. cbn [dec_rev rev]. by intros [_ ?]%app_nil.
Qed.
Lemma fmt_int_word n : word_ok (fmt_int n).
Proof.
  unfold fmt_int. case_if; [|apply fmt_uint_word]. destruct (fmt_uint_word (- n)) as [_ Hw]. split; [done|]. by constructor.
Qed.

Lemma word_last w : word_ok w -> split_whitespace w = [w].
Proof.
  intros [Hne Hw]. unfold split_whitespace. assert (split_by is_space w = [w]) as ->; [|by destruct w].
  clear Hne. induction Hw as [|b w Hb _ IH]; [done|]. cbn. by rewrite IH, Hb.
Qed.
Lemma split_row cols : Forall (fun x => word_ok x.2) cols -> cols <> [] -> split_whitespace (row cols) = cols.*2.
Proof.
  assert (forall n, Forall (fun b => is_space b = true) (repeat Byte.x20 n)) as Hblank by (intros n; induction n; by constructor).
  induction 1 as [|[w s] cols Hs Hc IH]; [done|]. intros _. cbn [snd] in Hs. destruct cols as [|c cols].
  - cbn [row fmap list_fmap snd]. unfold fmt_right. by rewrite split_whitespace_blanks, word_last.
  - cbn [row]. unfold fmt_right. rewrite <- app_assoc, split_whitespace_blanks by done.
    destruct Hs as [Hne Hs]. rewrite split_whitespace_word by done. cbn [fmap list_fmap snd]. f_equal. by apply IH.
Qed.
Lemma row_in_line cols : Forall (fun x => Forall in_line x.2) cols -> Forall in_line (row cols).
Proof.
  assert (forall n, Forall in_line (repeat Byte.x20 n)) as Hblank by (intros n; by induction n; constructor).
  induction 1 as [|[w s] cols Hs _ IH]; [constructor|]. cbn [snd] in Hs. assert (Forall in_line (fmt_right w s)) as Hf by (unfold fmt_right; by apply Forall_app).
  destruct cols as [|c cols]; [done|]. cbn [row]. apply Forall_app. split; [done|]. by constructor.
Qed.
Lemma zip_words (ws : list nat) (words : list (list byte)) (P : list byte -> Prop) :
  Forall P words -> Forall (fun x => P x.2) (zip ws words).
Proof. intros Hw. revert ws. induction Hw; intros [|w ws]; cbn; constructor; eauto. Qed.
Lemma zip_row ws words : length ws = length words -> words <> [] -> Forall word_ok words ->
  split_whitespace (row (zip ws words)) = words.
Proof.
  intros Hl Hne Hw. rewrite split_row; [|by apply zip_words|by destruct ws, words].
  by apply (snd_zip ws words); lia.
Qed.

(** ** The lines of the dump *)

Lemma writeln_unlines s ls : writeln s (unlines ls) = unlines (ls ++ [s]).
Proof. unfold writeln, unlines. rewrite map_app, concat_app. cbn. by rewrite app_nil_r. Qed.
Lemma writeln_blank s ls : writeln (newline_then s) (unlines ls) = unlines (ls ++ [[]; s]).
Proof. unfold writeln, newline_then, unlines. rewrite map_app, concat_app. cbn. by rewrite app_nil_r. Qed.

Section claims.
Context `{HdrHist}.

Definition latency_line (x : list byte * option LatencySnapshot) : option (list byte) :=
  s ← x.2; Some (row (zip latency_widths (latency_words x.1 s))).
Lemma write_latencies l : forall ls, foldl write_latency (unlines ls) l = unlines (ls ++ omap latency_line l).
Proof.
  induction l as [|[name [s|]] l IH]; intros ls; cbn [foldl omap list_omap]; [by rewrite app_nil_r|..].
  - unfold write_latency at 2. cbn [snd fst]. by rewrite writeln_unlines, IH, <- app_assoc.
  - apply IH.
Qed.

Definition dump_lines (m : Metrics) : list (list byte) :=
  [[]; str "==> SERVER METRICS <=="; row (zip server_widths [str "ACCEPTED"; str "ACTIVE"; str "FRM_RD"; str "FRM_WR"]);
   row (zip server_widths (map fmt_int (server_values m)));
   []; str "==> ENGINE METRICS <==";
   row (zip engine_widths
    [str "INSERTS"; str "BATCH"; str "RECORDS"; str "FAIL"; str "RANGES"; str "R_FAIL"; str "SCANNED"; str "MT_BYTES";
     str "MT_LIM"; str "SST"; str "FLUSHES"; str "COMPACT"]);
   row (zip engine_widths (map fmt_int (engine_values m)));
   []; str "==> WAL METRICS <=="; row (zip wal_widths [str "WRITES"; str "BYTES"; str "SYNCS"]);
   row (zip wal_widths (map fmt_int (wal_values m)));
   []; str "==> LATENCIES (µs) <==";
   row (zip latency_widths
    [[]; str "MIN"; str "P50"; str "P90"; str "P95"; str "P99"; str "P99.9"; str "MAX"; str "COUNT"]);
   repeat Byte.x2d 106] ++ omap latency_line (latencies m).

Lemma dump_metrics_lines m : dump_metrics m = unlines (dump_lines m).
Proof.
  unfold dump_metrics. change (writeln (newline_then (str "==> SERVER METRICS <==")) []) with (unlines [[]; str "==> SERVER METRICS <=="]).
  cbv zeta. repeat (rewrite writeln_unlines || rewrite writeln_blank). cbn [app]. by rewrite write_latencies.
Qed.

Lemma word_in_line w : word_ok w -> Forall in_line w.
Proof. intros [_ Hw]. eapply Forall_impl; [exact Hw|]. apply not_space_in_line. Qed.
Lemma latency_words_ok m x s : x ∈ latencies m -> x.2 = Some s -> Forall word_ok (latency_words x.1 s).
Proof.
  intros Hx _. unfold latency_words. constructor; [|apply Forall_map, Forall_forall; intros n _; apply fmt_uint_word].
  assert (forall w, w <> [] -> forallb (fun b => negb (is_space b)) w = true -> word_ok w) as Hw.
  { intros w Hne Hw. split; [done|]. apply Forall_forall. intros b Hb%list_elem_of_In. rewrite forallb_forall in Hw.
    by apply Hw, negb_true_iff in Hb. }
  apply Hw; repeat (apply elem_of_cons in Hx as [->|Hx]; [done|]); by apply elem_of_nil in Hx.
Qed.
Lemma dump_lines_ok m : Forall line_ok (dump_lines m).
Proof.
  assert (forall ws words, Forall (Forall in_line) words -> line_ok (row (zip ws words))) as Hrow
    by (intros ws words Hw; by apply in_line_ok, row_in_line, zip_words).
  assert (forall ns, Forall (Forall in_line) (map fmt_int ns)) as Hnum
    by (intros ns; apply Forall_map, Forall_forall; intros n _; apply word_in_line, fmt_int_word).
  assert (forall l : list byte, forallb (fun b => negb (bool_decide (b = Byte.x0a)) && negb (bool_decide (b = Byte.x0d))) l = true ->
    Forall in_line l) as Hdec.
  { intros l Hl. apply Forall_forall. intros b Hb%list_elem_of_In. rewrite forallb_forall in Hl. apply Hl, andb_true_iff in Hb as [H1 H2].
    by split; [apply negb_true_iff, bool_decide_eq_false in H1|apply negb_true_iff, bool_decide_eq_false in H2]. }
  unfold dump_lines. apply Forall_app. split.
  - repeat (constructor; [try (by apply in_line_ok, Hdec); apply Hrow; try apply Hnum; repeat (constructor; [by apply Hdec|]); constructor|]).
    constructor.
  - apply Forall_forall. intros l (x & Hx & E)%list_elem_of_omap. unfold latency_line in E. apply bind_Some in E as (s & Es & E).
    injection E as E. subst l. apply (Hrow latency_widths (latency_words x.1 s)). eapply Forall_impl; [by eapply latency_words_ok|]. apply word_in_line.
Qed.

(** What [dump_metrics] prints can be read back. Whatever the metrics,
    the fourth, eighth and twelfth line hold, divided by blanks, exactly the
    numbers of the server, the engine and the log, in order, however wide
    they are; and from the seventeenth line on there is one line for each
    latency with samples, its name first. *)
Theorem dump_readable (m : Metrics) :
  let ls := str_lines (dump_metrics m) in
  split_whitespace <$> ls !! 3%nat = Some (map fmt_int (server_values m)) /\
  split_whitespace <$> ls !! 7%nat = Some (map fmt_int (engine_values m)) /\
  split_whitespace <$> ls !! 11%nat = Some (map fmt_int (wal_values m)) /\
  map split_whitespace (drop 16 ls) =
    omap (fun x : list byte * option LatencySnapshot => s ← x.2; Some (latency_words x.1 s)) (latencies m).
Proof.
  cbv zeta. rewrite dump_metrics_lines, str_lines_unlines by apply dump_lines_ok.
  assert (forall ns, Forall word_ok (map fmt_int ns)) as Hnum
    by (intros ns; apply Forall_map, Forall_forall; intros n _; apply fmt_int_word).
  split_and!; [unfold dump_lines; cbn [lookup list_lookup app fmap option_fmap option_map]; f_equal; by apply zip_row..|].
  change (drop 16 (dump_lines m)) with (omap latency_line (latencies m)). pose proof (latency_words_ok m) as Hok.
  induction (latencies m) as [|x l IH]; [done|]. cbn [omap list_omap]. unfold latency_line at 1.
  destruct x.2 as [s|] eqn:E; cbn [mbind option_bind].
  - cbn [map]. f_equal; [|apply IH; intros y s' Hy; apply Hok; by right]. apply zip_row; [done|done|]. apply Hok; [left|done].
  - apply IH. intros y s' Hy. apply Hok. by right.
Qed.
End claims.
