(* ===== verification/Codec.v ===== *)
(** * Codecs and framed I/O: logregator-tsdb/src/codec.rs

    The error type of the codecs, the codec traits as classes (with the laws
    a codec that is read back through a [FramedReader] must satisfy), and
    the framed reader and writer, which are generic in the codec. *)
From S2P Require Import Prelude Std Ext.

(** ** Errors *)

Inductive io_kind := UnexpectedEof | InvalidInput | InvalidData | AlreadyExists | OtherIo.
Record io_error := IoError { io_error_kind : io_kind }.

Record NotEnoughBytes := { neb_got : Z; neb_want : Z }.
Record InvalidSize := { is_got : Z; is_min : Z; is_max : Z }.

Inductive CodecError :=
| CodecIo (e : io_error)
| CodecOther (msg : string)
| CodecNotEnoughBytes (e : NotEnoughBytes)
| CodecInvalidPayloadSize (e : InvalidSize).

Definition not_enough_bytes (got want : Z) : CodecError :=
  CodecNotEnoughBytes {| neb_got := got; neb_want := want |}.
Definition codec_other (msg : string) : CodecError := CodecOther msg.
Definition invalid_payload_sz (got max min : Z) : CodecError :=
  CodecInvalidPayloadSize {| is_got := got; is_max := max; is_min := min |}.

Definition SZ_U8 : Z := 1.
Definition SZ_U16 : Z := 2.
Definition SZ_U32 : Z := 4.
Definition SZ_U64 : Z := 8.
#[export] Hint Unfold SZ_U8 SZ_U16 SZ_U32 SZ_U64 : sizes.

(** ** The traits *)

Class WireLen (I : Type) := wire_len : I -> Z.

Class SpecCodec (I : Type) := {
  encode : I -> st (list byte) CodecError Z;
  decode : list byte -> outcome CodecError (option (I * Z))
}.

(** What an implementation promises: [wire x] is the encoding of a [valid]
    item, [encode] writes it at the start of any large enough buffer and
    leaves the rest of the buffer alone, and [decode] reads it back whatever
    follows it. *)
Class LawfulCodec (I : Type) `{WireLen I, SpecCodec I}
    (valid : I -> Prop) (wire : I -> list byte) : Prop := {
  wire_nonempty x : valid x -> 0 < blen (wire x);
  wire_len_wire x : valid x -> wire_len x = blen (wire x);
  encode_wire x dst : valid x -> wire_len x <= blen dst ->
    encode x dst = (wire x ++ drop (length (wire x)) dst, Ok (wire_len x));
  decode_wire x rest : valid x -> decode (wire x ++ rest) = Ok (Some (x, blen (wire x)))
}.

(** A codec that can be used behind a [FramedReader] also answers
    [Ok(None)] ("read more") on an incomplete encoding. *)
Class StreamingCodec (I : Type) `{LawfulCodec I valid wire} : Prop :=
  decode_partial x pre : valid x -> pre `prefix_of` wire x -> pre <> wire x ->
    decode pre = Ok None.

(** ** [FramedReader]

    The buffered reader underneath is the sequence of its [read] results:
    how a stream is cut into reads is up to the operating system. *)

Definition BUFSIZE : Z := 4 * 1024.
#[export] Hint Unfold BUFSIZE : sizes.

Inductive read_event :=
| ReadData (bs : list byte)
| ReadErr (e : io_error).

(** [inner.read(&mut buf[..n])] *)
Definition bufreader_read (n : Z) (src : list read_event)
    : list read_event * outcome io_error (list byte) :=
  match src with
  | [] => ([], Ok [])
  | ReadErr e :: r => (r, Err e)
  | ReadData bs :: r =>
      let rest := drop (Z.to_nat n) bs in
      (match rest with [] => r | _ => ReadData rest :: r end, Ok (take (Z.to_nat n) bs))
  end.

Record FramedReader := {
  fr_inner : list read_event;
  fr_buf : list byte;
  fr_start : Z;
  fr_end : Z
}.

Definition framed_reader_new (r : list read_event) : FramedReader :=
  {| fr_inner := r; fr_buf := replicate (Z.to_nat BUFSIZE) zero_byte; fr_start := 0; fr_end := 0 |}.

(** The first half of [fill]: make room at the end of the buffer, by moving
    the unread bytes to its start and by doubling it when it is still full. *)
Definition framed_reader_make_room (r : FramedReader) : FramedReader :=
  if fr_end r =? blen (fr_buf r) then
    let r1 :=
      if 0 <? fr_start r then
        {| fr_inner := fr_inner r;
           fr_buf := take (Z.to_nat (fr_end r - fr_start r)) (drop (Z.to_nat (fr_start r)) (fr_buf r))
                     ++ drop (Z.to_nat (fr_end r - fr_start r)) (fr_buf r);
           fr_start := 0;
           fr_end := fr_end r - fr_start r |}
      else r in
    if fr_end r1 =? blen (fr_buf r1) then
      {| fr_inner := fr_inner r1;
         fr_buf := fr_buf r1 ++ replicate (length (fr_buf r1)) zero_byte;
         fr_start := fr_start r1;
         fr_end := fr_end r1 |}
    else r1
  else r.

Definition framed_reader_fill : st FramedReader io_error bool := fun r0 =>
  let r := framed_reader_make_room r0 in
  match bufreader_read (blen (fr_buf r) - fr_end r) (fr_inner r) with
  | (src, Ok got) =>
      let buf := take (Z.to_nat (fr_end r)) (fr_buf r) ++ got
                 ++ drop (Z.to_nat (fr_end r + blen got)) (fr_buf r) in
      ({| fr_inner := src; fr_buf := buf; fr_start := fr_start r; fr_end := fr_end r + blen got |},
       Ok (blen got =? 0))
  | (src, Err e) =>
      ({| fr_inner := src; fr_buf := fr_buf r; fr_start := fr_start r; fr_end := fr_end r |}, Err e)
  | (src, Panic) => (r, Panic)
  end.

Section framed_reader.
Context {I : Type} `{SpecCodec I}.

(** [Iterator::next]. [Ok None] is the end of the iteration, [Err e] is
    [Some(Err(e))]; the outer [None] is lack of fuel (every turn of the
    loop but the last reads at least one byte, so the number of bytes left
    in the source plus one is enough). *)
Fixpoint framed_reader_next (fuel : nat) (r : FramedReader)
    : option (FramedReader * outcome CodecError (option I)) :=
  match fuel with
  | O => None
  | S fuel =>
      match slice (fr_buf r) (fr_start r) (fr_end r) ≫= decode with
      | Ok (Some (item, n)) =>
          Some ({| fr_inner := fr_inner r; fr_buf := fr_buf r;
                   fr_start := fr_start r + n; fr_end := fr_end r |}, Ok (Some item))
      | Ok None =>
          match framed_reader_fill r with
          | (r', Ok false) => framed_reader_next fuel r'
          | (r', Ok true) => Some (r', Ok None)
          | (r', Err _) => Some (r', Ok None)
          | (r', Panic) => Some (r', Panic)
          end
      | Err e => Some (r, Err e)
      | Panic => Some (r, Panic)
      end
  end.

(** [for item in reader { items.push(item?) }]: the items up to the end
    of the stream or the first error. *)
Fixpoint framed_reader_collect (items fuel : nat) (r : FramedReader)
    : option (list I * outcome CodecError unit) :=
  match items with
  | O => None
  | S items =>
      match framed_reader_next fuel r with
      | None => None
      | Some (_, Ok None) => Some ([], Ok tt)
      | Some (r', Ok (Some x)) =>
          match framed_reader_collect items fuel r' with
          | Some (xs, o) => Some (x :: xs, o)
          | None => None
          end
      | Some (_, Err e) => Some ([], Err e)
      | Some (_, Panic) => Some ([], Panic)
      end
  end.
End framed_reader.

(** ** The reader's view of the stream *)

Definition event_bytes (e : read_event) : list byte :=
  match e with ReadData bs => bs | ReadErr _ => [] end.
Definition source_bytes (src : list read_event) : list byte := concat (map event_bytes src).

(** Every read of the source returns at least one byte: no I/O error, and
    end of file only at the end. *)
Definition good_source (src : list read_event) : Prop :=
  Forall (fun e => match e with ReadData bs => bs <> [] | ReadErr _ => False end) src.

Definition fr_unread (r : FramedReader) : list byte :=
  take (Z.to_nat (fr_end r - fr_start r)) (drop (Z.to_nat (fr_start r)) (fr_buf r)).
Definition fr_pending (r : FramedReader) : list byte := fr_unread r ++ source_bytes (fr_inner r).

Record fr_wf (r : FramedReader) : Prop := {
  fr_wf_start : 0 <= fr_start r <= fr_end r;
  fr_wf_end : fr_end r <= blen (fr_buf r);
  fr_wf_buf : 0 < blen (fr_buf r);
  fr_wf_source : good_source (fr_inner r)
}.

Lemma framed_reader_new_wf src : good_source src -> fr_wf (framed_reader_new src).
Proof. by split; cbn. Qed.
Lemma framed_reader_new_pending src : fr_pending (framed_reader_new src) = source_bytes src.
Proof. done. Qed.

Lemma slice_unread {E} r : fr_wf r -> slice (fr_buf r) (fr_start r) (fr_end r) = @Ok E _ (fr_unread r).
Proof. intros [????]. by rewrite slice_ok by lia. Qed.

Lemma make_room_spec r :
  fr_wf r ->
  let r' := framed_reader_make_room r in
  fr_wf r' /\ fr_unread r' = fr_unread r /\ fr_inner r' = fr_inner r /\
  fr_end r' < blen (fr_buf r').
Proof.
  intros [Hs He Hb Hsrc]. unfold framed_reader_make_room.
  destruct (fr_end r =? blen (fr_buf r)) eqn:E1; gsplit.
  2: { split_and!; try done; lia. }
  destruct (0 <? fr_start r) eqn:E2; gsplit; cbn [fr_end fr_buf fr_start fr_inner].
  - assert (blen (take (Z.to_nat (fr_end r - fr_start r)) (drop (Z.to_nat (fr_start r)) (fr_buf r))
              ++ drop (Z.to_nat (fr_end r - fr_start r)) (fr_buf r)) = blen (fr_buf r)) as Hlen by zlia.
    if_false. split_and!; cbn; try done; [split; cbn; rewrite ?Hlen; try done; lia| |lia].
    unfold fr_unread; cbn. rewrite Z.sub_0_r, drop_0.
    by rewrite take_app_le, take_take, Nat.min_id by (unfold blen in *; rewrite length_take, length_drop; lia).
  - if_true. cbn. split_and!; try done.
    + split; cbn; try done; zlia.
    + unfold fr_unread; cbn. replace (fr_start r) with 0 by lia. cbn. rewrite !drop_0.
      apply take_app_le. unfold blen in *; lia.
    + autorewrite with blen. unfold blen in *; lia.
Qed.

Lemma good_source_read n src :
  good_source src -> 0 < n ->
  match src with
  | [] => bufreader_read n src = ([], Ok [])
  | _ => exists src' got, bufreader_read n src = (src', Ok got) /\ got <> [] /\ blen got <= n /\
           good_source src' /\ source_bytes src = got ++ source_bytes src'
  end.
Proof.
  intros Hg Hn. destruct Hg as [|e src He Hg]; [done|]. destruct e as [bs|]; [|done].
  eexists _, _. split; [done|].
  split. { destruct bs; [done|]. destruct (Z.to_nat n) eqn:E; [lia|done]. }
  split. { autorewrite with blen. lia. }
  destruct (drop (Z.to_nat n) bs) as [|b d] eqn:Ed.
  - split; [done|]. unfold source_bytes. cbn.
    rewrite <- (take_drop (Z.to_nat n) bs) at 1. by rewrite Ed, app_nil_r.
  - split; [by constructor|]. unfold source_bytes. cbn.
    rewrite <- (take_drop (Z.to_nat n) bs) at 1. by rewrite Ed, <- app_assoc.
Qed.

(** [fill] at the end of the source changes nothing the decoder sees;
    otherwise it moves a non-empty chunk from the source to the buffer. *)
Lemma fill_spec r :
  fr_wf r ->
  match fr_inner r with
  | [] => exists r', framed_reader_fill r = (r', Ok true) /\ fr_wf r' /\ fr_pending r' = fr_pending r
  | _ => exists r', framed_reader_fill r = (r', Ok false) /\ fr_wf r' /\
           fr_pending r' = fr_pending r /\
           blen (source_bytes (fr_inner r')) < blen (source_bytes (fr_inner r))
  end.
Proof.
  intros Hwf. destruct (make_room_spec r Hwf) as (Hwf' & Hun & Hin & Hroom).
  unfold framed_reader_fill. set (q := framed_reader_make_room r) in *.
  pose proof (good_source_read (blen (fr_buf q) - fr_end q) (fr_inner q) (fr_wf_source _ Hwf')) as Hread.
  specialize (Hread ltac:(lia)). rewrite Hin in *. destruct (fr_inner r) as [|e src] eqn:Esrc.
  - rewrite Hread. eexists. split; [done|]. destruct Hwf' as [? ? ? ?].
    rewrite blen_nil, Z.add_0_r, app_nil_l, take_drop.
    split; [split; cbn; try done; constructor|]. unfold fr_pending. rewrite Esrc. cbn. f_equal. exact Hun.
  - destruct Hread as (src' & got & -> & Hgot & Hle & Hg & Hbytes).
    assert (0 < blen got) as Hpos by (destruct got; [done|zlia]).
    replace (blen got =? 0) with false by (symmetry; apply Z.eqb_neq; lia).
    eexists. split; [done|]. destruct Hwf' as [Hs He Hb _]. split_and!.
    + split; cbn; try done; autorewrite with blen; zlia.
    + unfold fr_pending. cbn. rewrite Esrc, Hbytes, (app_assoc (fr_unread r)). f_equal.
      rewrite <- Hun. unfold fr_unread; cbn.
      rewrite drop_app_le by (rewrite length_take; unfold blen in *; lia).
      rewrite app_assoc, take_app_le
        by (unfold blen in *; rewrite length_app, length_drop, length_take; lia).
      rewrite skipn_firstn_comm.
      rewrite take_ge by (unfold blen in *; rewrite length_app, length_take, length_drop; lia).
      f_equal. f_equal. lia.
    + cbn [fr_inner]. rewrite Hbytes. zlia.
Qed.

Section framed_reader_proofs.
Context {I : Type} `{StreamingCodec I valid wire}.

Lemma prefix_or_extends (u s w rest : list byte) :
  u ++ s = w ++ rest -> (exists k, u = w ++ k /\ rest = k ++ s) \/ (u `prefix_of` w /\ u <> w).
Proof.
  intros Heq. destruct (decide (length w <= length u)%nat) as [Hle|Hgt].
  - left. exists (drop (length w) u).
    assert (u = w ++ drop (length w) u) as Hu.
    { rewrite <- (take_drop (length w) u) at 1. f_equal.
      apply (f_equal (take (length w))) in Heq.
      by rewrite take_app_le, take_app_length in Heq by done. }
    split; [done|]. rewrite Hu, <- app_assoc in Heq. by apply app_inv_head in Heq.
  - right. split; [|intros ->; lia]. exists (drop (length u) w).
    apply (f_equal (take (length u))) in Heq.
    rewrite take_app_length, take_app_le in Heq by lia.
    rewrite <- (take_drop (length u) w) at 1. by rewrite <- Heq.
Qed.

Lemma next_item fuel r x rest :
  fr_wf r -> valid x -> fr_pending r = wire x ++ rest ->
  blen (source_bytes (fr_inner r)) < Z.of_nat fuel ->
  exists r', framed_reader_next fuel r = Some (r', Ok (Some x)) /\ fr_wf r' /\
    fr_pending r' = rest /\
    blen (source_bytes (fr_inner r')) <= blen (source_bytes (fr_inner r)).
Proof.
  revert r. induction fuel as [|fuel IH]; intros r Hwf Hx Hp Hfuel; [zlia|].
  cbn. rewrite slice_unread, ok_bind by done.
  destruct (prefix_or_extends _ _ _ _ Hp) as [(k & Hk & ->)|[Hpre Hne]].
  - rewrite Hk, decode_wire by done. eexists. split; [done|].
    assert (fr_end r - fr_start r = blen (wire x) + blen k) as Hlen.
    { apply (f_equal blen) in Hk. unfold fr_unread in Hk. destruct Hwf. zlia. }
    destruct Hwf. split_and!; [split; cbn; try done; zlia| |apply Z.le_refl].
    unfold fr_pending. cbn. f_equal. unfold fr_unread in *; cbn in *.
    apply (f_equal (drop (length (wire x)))) in Hk.
    rewrite drop_app_length in Hk. rewrite <- Hk.
    rewrite skipn_firstn_comm, drop_drop. f_equal; [unfold blen; lia|]. f_equal. unfold blen; lia.
  - rewrite (decode_partial x) by done.
    pose proof (fill_spec r Hwf) as Hfill. destruct (fr_inner r) as [|e src] eqn:Esrc.
    + exfalso. unfold fr_pending in Hp. rewrite Esrc in Hp. cbn in Hp. rewrite app_nil_r in Hp.
      apply prefix_length in Hpre as Hl. apply Hne. apply prefix_length_eq; [done|].
      rewrite Hp, length_app. lia.
    + destruct Hfill as (r' & -> & Hwf' & Hp' & Hlt).
      destruct (IH r' Hwf' Hx) as (r'' & -> & ? & ? & ?); [congruence|lia|].
      eexists. split; [done|]. split_and!; try done. lia.
Qed.

(** A torn encoding at the end of the stream ends the iteration. *)
Lemma next_end fuel r y :
  fr_wf r -> valid y -> fr_pending r `prefix_of` wire y -> fr_pending r <> wire y ->
  blen (source_bytes (fr_inner r)) < Z.of_nat fuel ->
  exists r', framed_reader_next fuel r = Some (r', @Ok _ (option I) None).
Proof.
  revert r. induction fuel as [|fuel IH]; intros r Hwf Hy Hpre Hne Hfuel; [zlia|].
  cbn. rewrite slice_unread, ok_bind by done.
  assert (fr_unread r `prefix_of` fr_pending r) as Hun by (by eexists).
  rewrite (decode_partial y) by first [done | by etrans |
    intros Heq; apply Hne; apply (anti_symm prefix); [done|by rewrite <- Heq]].
  pose proof (fill_spec r Hwf) as Hfill. destruct (fr_inner r) as [|e src] eqn:Esrc.
  - destruct Hfill as (r' & -> & _). by eexists.
  - destruct Hfill as (r' & -> & Hwf' & Hp' & Hlt). rewrite <- Hp' in *.
    apply IH; try done. lia.
Qed.

Lemma collect_S items fuel r :
  framed_reader_collect (I := I) (S items) fuel r =
  match framed_reader_next fuel r with
  | None => None
  | Some (_, Ok None) => Some ([], Ok tt)
  | Some (r', Ok (Some x)) =>
      match framed_reader_collect items fuel r' with
      | Some (xs, o) => Some (x :: xs, o)
      | None => None
      end
  | Some (_, Err e) => Some ([], Err e)
  | Some (_, Panic) => Some ([], Panic)
  end.
Proof. reflexivity. Qed.

Lemma collect_wires fuel xs tail y r :
  fr_wf r -> Forall valid xs -> valid y -> tail `prefix_of` wire y -> tail <> wire y ->
  fr_pending r = concat (map wire xs) ++ tail ->
  blen (source_bytes (fr_inner r)) < Z.of_nat fuel ->
  framed_reader_collect (S (length xs)) fuel r = Some (xs, Ok tt).
Proof.
  intros Hwf Hxs. revert r Hwf. induction Hxs as [|x xs Hx Hxs IH];
    intros r Hwf Hy Hpre Hne Hp Hfuel; cbn [length]; rewrite collect_S.
  - cbn in Hp. destruct (next_end fuel r y) as (r' & ->); try done; by rewrite Hp.
  - cbn in Hp. rewrite <- app_assoc in Hp.
    destruct (next_item fuel r x _ Hwf Hx Hp Hfuel) as (r' & -> & Hwf' & Hp' & Hle).
    rewrite (IH r'); try done. lia.
Qed.
End framed_reader_proofs.

(** ** Writers

    [io::Write] as a class (a file, a [Cursor<Vec<u8>>], ...), [BufWriter]
    on top of it with the policy of the standard library. *)

Class Write (W : Type) := {
  w_write_all : list byte -> st W io_error unit;
  w_flush : st W io_error unit;
  w_contents : W -> list byte
}.

Class WriteLaws (W : Type) `{Write W} : Prop := {
  w_write_all_ok w w' bs : w_write_all bs w = (w', Ok tt) -> w_contents w' = w_contents w ++ bs;
  w_flush_ok w w' : w_flush w = (w', Ok tt) -> w_contents w' = w_contents w
}.

(** A sink that never fails: [Cursor<Vec<u8>>] positioned at its end. *)
#[global] Instance vec_write : Write (list byte) := {|
  w_write_all bs w := (w ++ bs, Ok tt);
  w_flush w := (w, Ok tt);
  w_contents w := w
|}.
#[global] Instance vec_write_laws : WriteLaws (list byte).
Proof. split; cbn; naive_solver. Qed.

Definition BUFWRITER_CAP : Z := 8 * 1024.

Record BufWriter (W : Type) := { bw_inner : W; bw_buf : list byte }.
Arguments bw_inner {W} b.
Arguments bw_buf {W} b.

Section bufwriter.
Context {W : Type} `{Write W}.

Definition bufwriter_new (w : W) : BufWriter W := {| bw_inner := w; bw_buf := [] |}.

Definition bufwriter_drain : st (BufWriter W) io_error unit := fun b =>
  match w_write_all (bw_buf b) (bw_inner b) with
  | (w, Ok _) => ({| bw_inner := w; bw_buf := [] |}, Ok tt)
  | (w, o) => ({| bw_inner := w; bw_buf := bw_buf b |}, o)
  end.

Definition bufwriter_put (bs : list byte) : st (BufWriter W) io_error unit := fun b =>
  if BUFWRITER_CAP <=? blen bs then
    let '(w, o) := w_write_all bs (bw_inner b) in
    ({| bw_inner := w; bw_buf := bw_buf b |}, o)
  else ({| bw_inner := bw_inner b; bw_buf := bw_buf b ++ bs |}, Ok tt).

Definition bufwriter_write_all (bs : list byte) : st (BufWriter W) io_error unit := fun b =>
  if BUFWRITER_CAP <? blen (bw_buf b) + blen bs
  then (bufwriter_drain ≫= fun _ => bufwriter_put bs) b
  else bufwriter_put bs b.

Definition bufwriter_flush_inner : st (BufWriter W) io_error unit := fun b =>
  let '(w, o) := w_flush (bw_inner b) in
  ({| bw_inner := w; bw_buf := bw_buf b |}, o).

Definition bufwriter_flush : st (BufWriter W) io_error unit :=
  bufwriter_drain ≫= fun _ => bufwriter_flush_inner.

(** everything accepted so far, in order *)
Definition bw_total (b : BufWriter W) : list byte := w_contents (bw_inner b) ++ bw_buf b.
(** bytes at least as long as the capacity only go around an empty buffer *)
Definition bw_ok (b : BufWriter W) : Prop := blen (bw_buf b) <= BUFWRITER_CAP.

Context `{!WriteLaws W}.

Lemma bufwriter_drain_ok b b' :
  bufwriter_drain b = (b', Ok tt) -> bw_total b' = bw_total b /\ bw_buf b' = [].
Proof.
  unfold bufwriter_drain. destruct (w_write_all _ _) as [w [[]|e|]] eqn:E; intros [= <-].
  unfold bw_total. cbn. by rewrite (w_write_all_ok _ _ _ E), app_nil_r.
Qed.

Lemma bufwriter_put_ok bs b b' :
  bufwriter_put bs b = (b', Ok tt) -> bw_buf b = [] \/ blen bs < BUFWRITER_CAP ->
  bw_total b' = bw_total b ++ bs.
Proof.
  unfold bufwriter_put, bw_total. case_if.
  - destruct (w_write_all _ _) as [w o] eqn:E. intros [= <- ->] [Hb|?]; [|lia].
    cbn. by rewrite Hb, (w_write_all_ok _ _ _ E), !app_nil_r.
  - intros [= <-] _. cbn. by rewrite app_assoc.
Qed.

Lemma bufwriter_write_all_ok bs b b' :
  bw_ok b -> bufwriter_write_all bs b = (b', Ok tt) -> bw_total b' = bw_total b ++ bs /\ bw_ok b'.
Proof.
  unfold bufwriter_write_all, bw_ok. intros Hok. case_if.
  - rewrite st_bind_unfold. destruct (bufwriter_drain b) as [b1 [[]|e|]] eqn:E1; intros Hput; try done.
    apply bufwriter_drain_ok in E1 as [<- Hb].
    split; [by eapply bufwriter_put_ok; [|left]|].
    unfold bufwriter_put in Hput. rewrite Hb in Hput. case_if.
    + destruct (w_write_all _ _) as [w o]. injection Hput as <- ->. done.
    + injection Hput as <-. cbn. lia.
  - intros Hput. pose proof (blen_nonneg (bw_buf b)).
    unfold bufwriter_put in Hput. case_if.
    + destruct (w_write_all _ _) as [w o] eqn:E. injection Hput as <- ->.
      assert (bw_buf b = []) as Hb by (apply blen_0_nil; lia).
      unfold bw_total. cbn. rewrite Hb, (w_write_all_ok _ _ _ E), !app_nil_r. by split.
    + injection Hput as <-. unfold bw_total. cbn. rewrite app_assoc. split; [done|]. zlia.
Qed.

Lemma bufwriter_flush_ok b b' :
  bufwriter_flush b = (b', Ok tt) -> w_contents (bw_inner b') = bw_total b.
Proof.
  unfold bufwriter_flush. rewrite st_bind_unfold.
  destruct (bufwriter_drain b) as [b1 [[]|e|]] eqn:E1; try done.
  apply bufwriter_drain_ok in E1 as [<- Hb].
  unfold bufwriter_flush_inner. destruct (w_flush _) as [w o] eqn:E. intros [= <- ->]. cbn.
  unfold bw_total. by rewrite (w_flush_ok _ _ E), Hb, app_nil_r.
Qed.
End bufwriter.

(** On a sink that never fails nothing does. *)
Lemma bufwriter_write_all_vec bs (b : BufWriter (list byte)) :
  exists b', bufwriter_write_all bs b = (b', Ok tt).
Proof.
  unfold bufwriter_write_all, bufwriter_put. case_if.
  - rewrite st_bind_unfold. cbn. case_if; by eexists.
  - case_if; by eexists.
Qed.

Record FramedWriter (W : Type) := {
  fw_inner : BufWriter W;
  fw_buf : list byte;
  fw_bytes_written : Z
}.
Arguments fw_inner {W} f.
Arguments fw_buf {W} f.
Arguments fw_bytes_written {W} f.

Section framed_writer.
Context {W I : Type} `{Write W, WireLen I, SpecCodec I}.

Definition framed_writer_new (w : W) : FramedWriter W :=
  {| fw_inner := bufwriter_new w; fw_buf := replicate (Z.to_nat BUFSIZE) zero_byte;
     fw_bytes_written := 0 |}.

Definition framed_writer_size_hint (f : FramedWriter W) : Z := fw_bytes_written f.

(** [write_with]: the hook sees the encoded bytes before they are written;
    it acts on a state of its own (the WAL's hasher). *)
Definition framed_writer_write_with {Hk} (item : I) (hook : I -> list byte -> Hk -> Hk)
    : st (FramedWriter W * Hk) CodecError unit := fun '(f, hk) =>
  let buf0 := replicate (Z.to_nat (wire_len item)) zero_byte in
  match encode item buf0 with
  | (buf, Ok n) =>
      let hk' := hook item buf hk in
      match bufwriter_write_all buf (fw_inner f) with
      | (bw, Ok _) =>
          (({| fw_inner := bw; fw_buf := buf; fw_bytes_written := fw_bytes_written f + n |}, hk'), Ok tt)
      | (bw, Err e) =>
          (({| fw_inner := bw; fw_buf := buf; fw_bytes_written := fw_bytes_written f |}, hk'), Err (CodecIo e))
      | (bw, Panic) =>
          (({| fw_inner := bw; fw_buf := buf; fw_bytes_written := fw_bytes_written f |}, hk'), Panic)
      end
  | (buf, Err e) =>
      (({| fw_inner := fw_inner f; fw_buf := buf; fw_bytes_written := fw_bytes_written f |}, hk), Err e)
  | (buf, Panic) =>
      (({| fw_inner := fw_inner f; fw_buf := buf; fw_bytes_written := fw_bytes_written f |}, hk), Panic)
  end.

Definition framed_writer_write (item : I) : st (FramedWriter W) CodecError unit := fun f =>
  let buf0 := replicate (Z.to_nat (wire_len item)) zero_byte in
  match encode item buf0 with
  | (buf, Ok n) =>
      match bufwriter_write_all buf (fw_inner f) with
      | (bw, Ok _) =>
          ({| fw_inner := bw; fw_buf := buf; fw_bytes_written := fw_bytes_written f + n |}, Ok tt)
      | (bw, Err e) =>
          ({| fw_inner := bw; fw_buf := buf; fw_bytes_written := fw_bytes_written f |}, Err (CodecIo e))
      | (bw, Panic) =>
          ({| fw_inner := bw; fw_buf := buf; fw_bytes_written := fw_bytes_written f |}, Panic)
      end
  | (buf, Err e) =>
      ({| fw_inner := fw_inner f; fw_buf := buf; fw_bytes_written := fw_bytes_written f |}, Err e)
  | (buf, Panic) =>
      ({| fw_inner := fw_inner f; fw_buf := buf; fw_bytes_written := fw_bytes_written f |}, Panic)
  end.

Definition framed_writer_flush : st (FramedWriter W) io_error unit := fun f =>
  let '(bw, o) := bufwriter_flush (fw_inner f) in
  ({| fw_inner := bw; fw_buf := fw_buf f; fw_bytes_written := fw_bytes_written f |}, o).

(** writing a sequence of items, stopping at the first error *)
Fixpoint framed_writer_write_all (items : list I) : st (FramedWriter W) CodecError unit :=
  match items with
  | [] => mret tt
  | x :: xs => framed_writer_write x ≫= fun _ => framed_writer_write_all xs
  end.
End framed_writer.

Section framed_writer_proofs.
Context {W I : Type} `{WriteLaws W, LawfulCodec I valid wire}.

Lemma encode_fresh x :
  valid x -> encode x (replicate (Z.to_nat (wire_len x)) zero_byte) = (wire x, Ok (wire_len x)).
Proof.
  intros Hx. pose proof (wire_len_wire x Hx). pose proof (wire_nonempty x Hx).
  rewrite encode_wire by (done || zlia). f_equal.
  rewrite drop_ge, app_nil_r; [done|]. rewrite length_replicate. unfold blen in *. lia.
Qed.

Lemma framed_writer_write_ok x (f f' : FramedWriter W) :
  valid x -> bw_ok (fw_inner f) -> framed_writer_write x f = (f', Ok tt) ->
  bw_total (fw_inner f') = bw_total (fw_inner f) ++ wire x /\ bw_ok (fw_inner f') /\
  fw_bytes_written f' = fw_bytes_written f + blen (wire x).
Proof.
  intros Hx Hok. unfold framed_writer_write. rewrite encode_fresh by done.
  destruct (bufwriter_write_all (wire x) (fw_inner f)) as [bw [[]|e|]] eqn:E; intros [= <-].
  apply bufwriter_write_all_ok in E as [Ht Hok']; [|done]. cbn.
  by rewrite Ht, wire_len_wire.
Qed.

Lemma framed_writer_write_all_ok xs (f f' : FramedWriter W) :
  Forall valid xs -> bw_ok (fw_inner f) -> framed_writer_write_all xs f = (f', Ok tt) ->
  bw_total (fw_inner f') = bw_total (fw_inner f) ++ concat (map wire xs) /\ bw_ok (fw_inner f') /\
  fw_bytes_written f' = fw_bytes_written f + blen (concat (map wire xs)).
Proof.
  intros Hxs. revert f. induction Hxs as [|x xs Hx Hxs IH]; intros f Hok; cbn.
  - intros [= <-]. rewrite app_nil_r. split_and!; [done|done|zlia].
  - rewrite st_bind_unfold.
    destruct (framed_writer_write x f) as [f1 [[]|e|]] eqn:E1; try done. intros E2.
    destruct (framed_writer_write_ok _ _ _ Hx Hok E1) as (Ht & Hok1 & Hn).
    destruct (IH f1 Hok1 E2) as (Ht' & Hok' & Hn').
    rewrite Ht', Ht, <- app_assoc. split_and!; [done|done|zlia].
Qed.
End framed_writer_proofs.

Lemma framed_writer_write_all_vec {I} `{LawfulCodec I valid wire} xs (f : FramedWriter (list byte)) :
  Forall valid xs -> exists f', framed_writer_write_all xs f = (f', Ok tt).
Proof.
  intros Hxs. revert f. induction Hxs as [|x xs Hx Hxs IH]; intros f; cbn; [by eexists|].
  rewrite st_bind_unfold. unfold framed_writer_write. rewrite encode_fresh by done.
  destruct (bufwriter_write_all_vec (wire x) (fw_inner f)) as [b' ->]. apply IH.
Qed.

(** ** Round trip of framed streams *)

Section framed_roundtrip.
Context {I : Type} `{StreamingCodec I valid wire}.

(** The bytes a writer over a fresh vector holds after writing [xs] and
    flushing. *)
Lemma framed_writer_vec_contents xs :
  Forall valid xs ->
  exists f1 f2, framed_writer_write_all xs (framed_writer_new ([] : list byte)) = (f1, Ok tt) /\
    framed_writer_flush f1 = (f2, Ok tt) /\
    bw_inner (fw_inner f2) = concat (map wire xs) /\
    framed_writer_size_hint f2 = blen (concat (map wire xs)).
Proof.
  intros Hxs. destruct (framed_writer_write_all_vec xs (framed_writer_new []) Hxs) as [f1 E1].
  assert (bw_ok (fw_inner (framed_writer_new ([] : list byte)))) as Hok by done.
  destruct (framed_writer_write_all_ok _ _ _ Hxs Hok E1) as (Ht & _ & Hn).
  exists f1. eexists. split; [done|]. split; [done|]. cbn in *.
  unfold bw_total in Ht. cbn in Ht. unfold framed_writer_size_hint. cbn. by rewrite Ht, Hn.
Qed.

(** Complete encodings followed by a cut: which items remain. *)
Lemma take_wires_prefix xs k :
  (k < length (concat (map wire xs)))%nat -> Forall valid xs ->
  exists n x tail, (n < length xs)%nat /\ xs !! n = Some x /\ valid x /\
    take k (concat (map wire xs)) = concat (map wire (take n xs)) ++ tail /\
    tail `prefix_of` wire x /\ tail <> wire x.
Proof.
  revert k. induction xs as [|x xs IH]; intros k Hk Hxs; cbn in *; [lia|].
  inversion_clear Hxs as [|?? Hx Hxs']. destruct (decide (k < length (wire x))%nat) as [Hlt|Hge].
  - exists 0%nat, x, (take k (wire x)). cbn. rewrite take_app_le by lia.
    split_and!; try done; [lia|by eexists (drop k (wire x)); rewrite take_drop|].
    intros Heq%(f_equal length). rewrite length_take in Heq. lia.
  - rewrite length_app in Hk. destruct (IH (k - length (wire x))%nat) as (n & y & tail & ? & ? & ? & Hcut & ? & ?);
      [lia|done|]. exists (S n), y, tail. cbn. split_and!; try done; [lia|].
    by rewrite take_app_ge, Hcut, <- app_assoc by lia.
Qed.
End framed_roundtrip.

(** Items of lengths [lens] lie in pages of [BUFSIZE] bytes, of which the
    current one has [room] left, so that no item is cut by the end of a page. *)
Fixpoint paged (room : Z) (lens : list Z) : bool :=
  match lens with
  | [] => true
  | n :: lens => if n <=? room then paged (room - n) lens
                 else (room =? 0) && (n <=? BUFSIZE) && paged (BUFSIZE - n) lens
  end.

Lemma paged_fits room lens : Forall (fun n => 0 <= n) lens -> foldr Z.add 0 lens <= room -> paged room lens = true.
Proof.
  intros Hl. revert room. induction Hl as [|n lens Hn Hl IH]; intros room Hle; [done|]. cbn in *.
  assert (0 <= foldr Z.add 0 lens) by (clear -Hl; induction Hl; cbn; lia).
  if_true. apply IH. lia.
Qed.

Lemma paged_app room l1 l2 : paged room (l1 ++ l2) = true -> paged room l1 = true.
Proof.
  revert room. induction l1 as [|n l1 IH]; intros room; cbn; [done|]. case_if; [apply IH|].
  intros [-> Hp]%andb_prop. cbn. by apply IH.
Qed.

(** ** Streams that fit one read

    A codec that reports an incomplete item as an error, but asks for more on
    an empty buffer, still reads a stream that arrives in a single read. *)
Section one_read.
Context {I : Type} `{LawfulCodec I valid wire}.
Hypothesis decode_nil : decode (I := I) [] = Ok None.

Lemma next_ready fuel r x rest :
  fr_wf r -> valid x -> fr_unread r = wire x ++ rest ->
  exists r', framed_reader_next (S fuel) r = Some (r', Ok (Some x)) /\ fr_wf r' /\
    fr_unread r' = rest /\ fr_inner r' = fr_inner r /\ fr_buf r' = fr_buf r /\ fr_end r' = fr_end r.
Proof.
  intros Hwf Hx Hk. cbn. rewrite slice_unread, ok_bind by done.
  rewrite Hk, decode_wire by done. eexists. split; [done|].
  assert (fr_end r - fr_start r = blen (wire x) + blen rest) as Hlen.
  { apply (f_equal blen) in Hk. unfold fr_unread in Hk. destruct Hwf. zlia. }
  destruct Hwf. split_and!; [split; cbn; try done; zlia| |done..].
  unfold fr_unread in *; cbn in *. apply (f_equal (drop (length (wire x)))) in Hk.
  rewrite drop_app_length in Hk. rewrite <- Hk.
  rewrite skipn_firstn_comm, drop_drop. f_equal; [unfold blen; lia|]. f_equal. unfold blen; lia.
Qed.

Lemma next_empty fuel r :
  fr_wf r -> fr_unread r = [] -> fr_inner r = [] ->
  exists r', framed_reader_next (S fuel) r = Some (r', @Ok _ (option I) None).
Proof.
  intros Hwf Hun Hin. cbn. rewrite slice_unread, ok_bind, Hun, decode_nil by done.
  pose proof (fill_spec r Hwf) as Hfill. rewrite Hin in Hfill. destruct Hfill as (r' & -> & _). by eexists.
Qed.

Lemma collect_ready fuel xs r :
  fr_wf r -> Forall valid xs -> fr_unread r = concat (map wire xs) -> fr_inner r = [] ->
  forall k, (length xs < k)%nat -> framed_reader_collect k (S fuel) r = Some (xs, Ok tt).
Proof.
  intros Hwf Hxs. revert r Hwf. induction Hxs as [|x xs Hx Hxs IH]; intros r Hwf Hun Hin k Hk;
    (destruct k as [|k]; [cbn in Hk; lia|]); cbn [framed_reader_collect].
  - destruct (next_empty fuel r) as [r' ->]; done.
  - destruct (next_ready fuel r x (concat (map wire xs))) as (r' & -> & Hwf' & Hun' & Hin' & _); [done..|].
    rewrite (IH r'); [done|done|done|congruence|cbn in Hk; lia].
Qed.

Lemma next_after_fill fuel r r' :
  fr_wf r -> fr_unread r = [] -> framed_reader_fill r = (r', Ok false) ->
  framed_reader_next (I := I) (S fuel) r = framed_reader_next fuel r'.
Proof.
  intros Hwf Hun Hfill. cbn [framed_reader_next].
  by rewrite slice_unread, ok_bind, Hun, decode_nil, Hfill by done.
Qed.

(** ** Reading a file page by page

    The reader takes a file into its buffer in pages of [BUFSIZE] bytes. When
    an incomplete item is an error, the items come back exactly when none of
    them is cut by the end of a page. *)
Hypothesis decode_cut : forall x pre,
  valid x -> pre `prefix_of` wire x -> pre <> wire x -> pre <> [] -> exists e, decode (I := I) pre = Err e.

Record page_inv (r : FramedReader) (xs : list I) : Prop := {
  pg_wf : fr_wf r;
  pg_buf : blen (fr_buf r) = BUFSIZE;
  pg_pending : fr_pending r = concat (map wire xs);
  pg_source : fr_inner r = [] \/
    exists s, s <> [] /\ fr_inner r = [ReadData s] /\ (fr_end r = 0 \/ fr_end r = BUFSIZE)
}.

Lemma empty_unread r : fr_wf r -> fr_unread r = [] -> fr_start r = fr_end r.
Proof.
  intros [? ? ? ?] Hun%(f_equal blen). unfold fr_unread in Hun. revert Hun. autorewrite with blen. zlia.
Qed.

Lemma make_room_page r s xs :
  page_inv r xs -> fr_unread r = [] -> fr_inner r = [ReadData s] ->
  framed_reader_make_room r = {| fr_inner := [ReadData s]; fr_buf := fr_buf r; fr_start := 0; fr_end := 0 |}.
Proof.
  intros [Hwf Hb _ Hsrc] Hun Hin. pose proof (empty_unread r Hwf Hun) as Hse.
  destruct Hsrc as [Hsrc|(s' & _ & _ & Hend)]; [congruence|]. unfold framed_reader_make_room.
  assert (BUFSIZE = 4096) as HB by done. destruct Hend as [Hend|Hend].
  - if_false. destruct r; cbn in *. by subst.
  - if_true. if_true. cbn [fr_end fr_buf fr_start fr_inner]. rewrite Hse, Z.sub_diag.
    change (take (Z.to_nat 0) _ ++ drop (Z.to_nat 0) (fr_buf r)) with (fr_buf r).
    rewrite Hin. by if_false.
Qed.

(** the next page *)
Lemma fill_page r s xs :
  page_inv r xs -> fr_unread r = [] -> fr_inner r = [ReadData s] ->
  exists r', framed_reader_fill r = (r', Ok false) /\ page_inv r' xs /\ fr_unread r' = take (Z.to_nat BUFSIZE) s.
Proof.
  intros Hpg Hun Hin. pose proof Hpg as [Hwf Hb Hp Hsrc].
  pose proof (fill_spec r Hwf) as Hfill. rewrite Hin in Hfill.
  destruct Hfill as (r' & Hfill & Hwf' & Hp' & _). exists r'. split; [done|].
  unfold framed_reader_fill in Hfill. rewrite (make_room_page r s xs) in Hfill by done.
  cbn [fr_inner fr_buf fr_start fr_end bufreader_read] in Hfill. rewrite Z.sub_0_r, Hb in Hfill.
  assert (BUFSIZE = 4096) as HB by done.
  injection Hfill as <- _. split.
  - split; cbn; [done|autorewrite with blen; zlia|congruence|].
    destruct (drop (Z.to_nat BUFSIZE) s) as [|b d] eqn:E; [by left|]. right. exists (b :: d).
    split_and!; [done|done|]. right. apply (f_equal length) in E. rewrite length_drop in E. cbn in E.
    rewrite blen_take. unfold blen. lia.
  - unfold fr_unread. cbn. rewrite Z.sub_0_r, drop_0. rewrite take_app_le by (unfold blen; lia).
    apply take_ge. unfold blen. lia.
Qed.

Lemma next_cut fuel r x :
  fr_wf r -> valid x -> fr_unread r `prefix_of` wire x -> fr_unread r <> wire x -> fr_unread r <> [] ->
  exists e, framed_reader_next (I := I) (S fuel) r = Some (r, Err e).
Proof.
  intros Hwf Hx Hpre Hne Hnil. cbn. rewrite slice_unread, ok_bind by done.
  destruct (decode_cut x _ Hx Hpre Hne Hnil) as [e ->]. by eexists.
Qed.

Definition lens_of (xs : list I) : list Z := map (fun x => blen (wire x)) xs.
Lemma lens_of_sum xs : foldr Z.add 0 (lens_of xs) = blen (concat (map wire xs)).
Proof. induction xs as [|x xs IH]; cbn; [done|]. rewrite blen_app. by rewrite <- IH. Qed.
Lemma lens_of_nonneg xs : Forall (fun n => 0 <= n) (lens_of xs).
Proof. apply Forall_map, Forall_true. intros x. apply blen_nonneg. Qed.

(** an item that lies whole in the buffer is read, and the rest follows *)
Lemma page_ready fuel r x xs :
  page_inv r (x :: xs) -> valid x -> blen (wire x) <= blen (fr_unread r) ->
  exists r', framed_reader_next (S fuel) r = Some (r', Ok (Some x)) /\ page_inv r' xs /\
    blen (fr_unread r') = blen (fr_unread r) - blen (wire x).
Proof.
  intros [Hwf Hb Hp Hsrc] Hx Hle. pose proof Hp as Hp0. unfold fr_pending in Hp. cbn [map concat] in Hp.
  destruct (prefix_or_extends _ _ _ _ Hp) as [(k & Hk & Hrest)|[Hpre Hne]].
  2: { exfalso. apply Hne, prefix_length_eq; [done|]. unfold blen in Hle. lia. }
  destruct (next_ready fuel r x k Hwf Hx Hk) as (r' & Hn & Hwf' & Hun & Hin & Hbuf & Hend).
  exists r'. split; [done|]. split; [|rewrite Hun, Hk; zlia].
  split; [done|by rewrite Hbuf| |by rewrite Hin, Hend]. unfold fr_pending. by rewrite Hun, Hin.
Qed.

(** an item that does not lie whole in a non-empty buffer is an error *)
Lemma page_cut fuel r x xs :
  page_inv r (x :: xs) -> valid x -> 0 < blen (fr_unread r) < blen (wire x) ->
  exists e, framed_reader_next (I := I) (S fuel) r = Some (r, Err e).
Proof.
  intros [Hwf Hb Hp Hsrc] Hx Hlt. unfold fr_pending in Hp. cbn [map concat] in Hp.
  destruct (prefix_or_extends _ _ _ _ Hp) as [(k & Hk & Hrest)|[Hpre Hne]].
  - rewrite Hk in Hlt. zlia.
  - apply (next_cut fuel r x); try done. intros Heq. rewrite Heq in Hlt. zlia.
Qed.

(** an empty buffer is filled with the next page *)
Lemma page_empty fuel r x xs :
  page_inv r (x :: xs) -> valid x -> fr_unread r = [] ->
  exists r', framed_reader_next (I := I) (S fuel) r = framed_reader_next fuel r' /\ page_inv r' (x :: xs) /\
    blen (fr_unread r') = BUFSIZE `min` blen (concat (map wire (x :: xs))).
Proof.
  intros Hpg Hx Hun. pose proof Hpg as [Hwf _ Hp [Hin|(s & Hs & Hin & _)]];
    unfold fr_pending in Hp; rewrite Hun, Hin in Hp; unfold source_bytes in Hp; cbn in Hp.
  - exfalso. symmetry in Hp. apply app_eq_nil in Hp as [Hw _]. pose proof (wire_nonempty x Hx). rewrite Hw in *. done.
  - rewrite app_nil_r in Hp. destruct (fill_page r s (x :: xs) Hpg Hun Hin) as (r' & Hfill & Hpg' & Hun').
    exists r'. split; [by apply next_after_fill|]. split; [done|].
    rewrite Hun', blen_take, Hp. unfold BUFSIZE. done.
Qed.

Definition collects (k fuel : nat) (r : FramedReader) (xs : list I) (ok : bool) : Prop :=
  if ok then framed_reader_collect k fuel r = Some (xs, Ok tt)
  else exists ys e, framed_reader_collect k fuel r = Some (ys, Err e).

Lemma collects_cons k fuel r r' x xs ok :
  framed_reader_next fuel r = Some (r', Ok (Some x)) -> collects k fuel r' xs ok ->
  collects (S k) fuel r (x :: xs) ok.
Proof.
  unfold collects. rewrite collect_S. intros ->. destruct ok; [by intros ->|].
  intros (ys & e & ->). by eauto.
Qed.
Lemma collects_error k fuel r r' e xs :
  framed_reader_next (I := I) fuel r = Some (r', Err e) -> collects (S k) fuel r xs false.
Proof. unfold collects. rewrite collect_S. intros ->. by eauto. Qed.

Lemma collect_paged xs r fuel k :
  Forall valid xs -> page_inv r xs -> (length xs < k)%nat ->
  collects k (S (S fuel)) r xs (paged (blen (fr_unread r)) (lens_of xs)).
Proof.
  intros Hxs. revert r k. induction Hxs as [|x xs Hx Hxs IH]; intros r k Hpg Hk;
    (destruct k as [|k]; [cbn in Hk; lia|]); cbn [lens_of map paged].
  - unfold collects. rewrite collect_S. pose proof Hpg as [Hwf _ Hp Hsrc]. apply app_eq_nil in Hp as [Hun Hs].
    destruct (next_empty (S fuel) r) as [r' ->]; [done|done| |done].
    destruct Hsrc as [?|(s & Hne & Hin & _)]; [done|]. rewrite Hin in Hs. unfold source_bytes in Hs.
    cbn in Hs. rewrite app_nil_r in Hs. done.
  - cbn [length] in Hk. fold (lens_of xs). destruct (_ <=? _) eqn:E; gsplit.
    { destruct (page_ready (S fuel) r x xs Hpg Hx) as (r' & Hn & Hpg' & Hroom); [lia|].
      rewrite <- Hroom. apply (collects_cons _ _ _ r'); [done|]. apply IH; [done|lia]. }
    pose proof (blen_nonneg (fr_unread r)). destruct (blen (fr_unread r) =? 0) eqn:E0; gsplit.
    2: { destruct (page_cut (S fuel) r x xs Hpg Hx) as [e Hn]; [lia|]. by eapply collects_error. }
    assert (fr_unread r = []) as Hun by (by apply blen_0_nil).
    destruct (page_empty (S fuel) r x xs Hpg Hx Hun) as (r' & Hn & Hpg' & Hroom).
    assert (BUFSIZE = 4096) as HB by done. cbn [map concat] in Hroom. rewrite blen_app in Hroom.
    pose proof (blen_nonneg (concat (map wire xs))). destruct (_ <=? BUFSIZE) eqn:E1; gsplit; cbn [andb].
    2: { destruct (page_cut fuel r' x xs Hpg' Hx) as [e Hn']; [lia|]. rewrite <- Hn in Hn'. by eapply collects_error. }
    destruct (page_ready fuel r' x xs Hpg' Hx) as (r'' & Hn' & Hpg'' & Hroom''); [lia|]. rewrite <- Hn in Hn'.
    apply (collects_cons _ _ _ r''); [done|].
    replace (paged (BUFSIZE - blen (wire x)) (lens_of xs)) with (paged (blen (fr_unread r'')) (lens_of xs));
      [apply IH; [done|lia]|].
    destruct (decide (blen (wire x) + blen (concat (map wire xs)) <= BUFSIZE)).
    + rewrite !paged_fits; [done|apply lens_of_nonneg|rewrite lens_of_sum; lia|apply lens_of_nonneg|rewrite lens_of_sum; lia].
    + do 2 f_equal. lia.
Qed.

(** a file read from its start *)
Lemma collect_file xs bs fuel k :
  Forall valid xs -> bs = concat (map wire xs) -> bs <> [] -> (length xs < k)%nat ->
  collects k (S (S fuel)) (framed_reader_new [ReadData bs]) xs (paged 0 (lens_of xs)).
Proof.
  intros Hxs Hbs Hne Hk. apply (collect_paged xs (framed_reader_new [ReadData bs])); [done| |done]. split.
  - apply framed_reader_new_wf. by repeat constructor.
  - done.
  - rewrite framed_reader_new_pending. unfold source_bytes. cbn. by rewrite app_nil_r.
  - right. exists bs. split_and!; [done|done|by left].
Qed.
End one_read.

(** C7: whatever valid items are written through a [FramedWriter] and
    flushed come back from a [FramedReader] in order and complete, for every
    way the operating system may cut the file into reads, and for every
    codec with the streaming laws. Both loops finish: writing succeeds, and
    fuel for one turn per byte is enough to read. *)
Theorem framed_stream_roundtrip {I : Type} `{StreamingCodec I valid wire} (xs : list I) (y : I)
    (Hxs : Forall valid xs) (Hy : valid y) :
  exists f1 f2, framed_writer_write_all xs (framed_writer_new ([] : list byte)) = (f1, Ok tt) /\
    framed_writer_flush f1 = (f2, Ok tt) /\
    framed_writer_size_hint f2 = blen (bw_inner (fw_inner f2)) /\
    forall src, good_source src -> source_bytes src = bw_inner (fw_inner f2) ->
      framed_reader_collect (S (length xs)) (S (length (source_bytes src))) (framed_reader_new src)
      = Some (xs, Ok tt).
Proof.
  destruct (framed_writer_vec_contents xs Hxs) as (f1 & f2 & E1 & E2 & Hc & Hn).
  exists f1, f2. split_and!; [done|done|by rewrite Hc|]. intros src Hg Hsrc.
  apply (collect_wires _ xs [] y); try done.
  - apply prefix_nil.
  - intros Heq. pose proof (wire_nonempty y Hy). rewrite <- Heq in *. done.
  - by rewrite framed_reader_new_pending, Hsrc, Hc, app_nil_r.
  - cbn [fr_inner framed_reader_new]. unfold blen. lia.
Qed.

(** A stream that was cut anywhere (a crash in the middle of a write)
    is read up to its last complete item and then ends without an error: the
    items recovered are the longest prefix whose encodings survived the cut. *)
Theorem framed_stream_torn {I : Type} `{StreamingCodec I valid wire} (xs : list I) (k : nat) src
    (Hxs : Forall valid xs) (Hk : (k < length (concat (map wire xs)))%nat)
    (Hg : good_source src) (Hcut : source_bytes src = take k (concat (map wire xs))) :
  exists n, (n < length xs)%nat /\
    framed_reader_collect (S n) (S k) (framed_reader_new src) = Some (take n xs, Ok tt) /\
    (length (concat (map wire (take n xs))) <= k
     < length (concat (map wire (take (S n) xs))))%nat.
Proof.
  destruct (take_wires_prefix xs k Hk Hxs) as (n & x & tail & Hn & Hx & Hv & Htake & Hpre & Hne).
  exists n. split; [done|].
  assert (length (take k (concat (map wire xs))) = k) as Hlen by (rewrite length_take; lia).
  split.
  - replace (S n) with (S (length (take n xs))) by (rewrite length_take; lia).
    apply (collect_wires _ (take n xs) tail x); try done.
    + by apply Forall_take.
    + by rewrite framed_reader_new_pending, Hcut.
    + cbn [fr_inner framed_reader_new]. rewrite Hcut. unfold blen. lia.
  - rewrite Htake, length_app in Hlen. rewrite (take_S_r _ _ _ Hx), map_app, concat_app, length_app.
    cbn. rewrite app_nil_r. split; [lia|].
    pose proof (prefix_length _ _ Hpre). enough (length tail <> length (wire x)) by lia.
    intros Heq. apply Hne. apply prefix_length_eq; [done|lia].
Qed.
