(* ===== verification/Errors.v ===== *)
(** * Error types of logregator-tsdb

    The errors of the block, SST, I/O and top-level layers (block.rs,
    sst.rs, io.rs, lib.rs), with the conversions [?] inserts between them. *)
From S2P Require Import Prelude Std Ext Codec.

(** ** lib.rs *)
Record ChecksumMismatch := { cm_original : Z; cm_computed : Z }.

(** ** block.rs *)
Inductive InvalidBlockSize :=
| TooManyRecords (n : Z)
| MaxSizeExceeded (n : Z).

Inductive DecodeBlockError :=
| NumOfRecordsMissing
| UnexpectedSize (e : NotEnoughBytes).

Inductive BlockCodecError :=
| BceInvalidBlockSize (e : InvalidBlockSize)
| BceInvalidOffsets (start end_ : Z)
| BceInvalidOffsetSegment (start end_ len : option Z)
| BceInvalidPayloadSize (e : InvalidSize)
| BceCorruptedMetadata (context : string)
| BceDecodeError (e : DecodeBlockError)
| BceChecksum (e : ChecksumMismatch).

Record InvalidBlockLimit := { ibl_got : Z }.

Definition too_many_records (n : Z) : BlockCodecError := BceInvalidBlockSize (TooManyRecords n).
Definition max_size_exceeded (n : Z) : BlockCodecError := BceInvalidBlockSize (MaxSizeExceeded n).
Definition corrupted_meta (context : string) : BlockCodecError := BceCorruptedMetadata context.
Definition invalid_offsets (start end_ : Z) : BlockCodecError := BceInvalidOffsets start end_.
Definition unexpected_size (got want : Z) : BlockCodecError :=
  BceDecodeError (UnexpectedSize {| neb_got := got; neb_want := want |}).
Definition checksum_mismatch (stored computed : Z) : BlockCodecError :=
  BceChecksum {| cm_original := stored; cm_computed := computed |}.

(** ** sst.rs *)
Inductive BoundKind := BkStart | BkEnd | BkNone.

Inductive SstError :=
| SstOther (msg : string)
| SstIo (e : io_error)
| SstBlockCodecError (e : BlockCodecError)
| SstCodecError (e : CodecError)
| SstInvalidBlockLimit (e : InvalidBlockLimit)
| SstInvalidBlockNotSorted
| SstFilledUp
| SstInvalidSstSize (min max got : Z)
| SstBlockIdxOutOfBounds (idx len : Z)
| SstStreamIdNotFound (stream_id : Z) (bound_kind : BoundKind)
| SstFinalizeMissingKeys
| SstChecksumMismatch (e : ChecksumMismatch)
| SstBlockCursorExhausted.

(** ** io.rs *)
Inductive MemtableFlushError :=
| MfeSstError (e : SstError)
| MfeManifestError (e : CodecError).

Inductive IoError_ :=
| IoChannelSendErr (msg : string)
| IoStdIoError (msg : string)
| IoMemtableFlushError (e : MemtableFlushError).

(** ** lib.rs: [Error], a box around [ErrorImpl] *)
Inductive Error :=
| ErrMessage (msg : string)
| ErrOther
| ErrCodec (e : CodecError)
| ErrStdIo (e : io_error)
| ErrSst (e : SstError)
| ErrIoThread (e : IoError_).
