(* ===== verification/Record.v ===== *)
(** * Keys and records: logregator-tsdb/src/record.rs

    [Key] and [Record] with their order, the fixed-width wire format of
    records, and the proof that [RecordCodec] is a streaming codec. *)
From S2P Require Import Prelude Std Ext Codec.

Definition LABEL_COUNT_WIRE_LEN : Z := 1.

Definition KEY_SIZE : Z := 32.
Definition PAYLOAD_LEN_SIZE : Z := 4.
Definition MIN_PAYLOAD_LENGTH : Z := LABEL_COUNT_WIRE_LEN + 1.
Definition MAX_PAYLOAD_LENGTH : Z := 4096.
Definition MIN_RECORD_WIRE_LENGTH : Z := KEY_SIZE + SZ_U32 + MIN_PAYLOAD_LENGTH.
Definition MAX_RECORD_WIRE_LENGTH : Z := KEY_SIZE + SZ_U32 + MAX_PAYLOAD_LENGTH.
#[export] Hint Unfold MIN_RECORD_WIRE_LENGTH MAX_RECORD_WIRE_LENGTH KEY_SIZE PAYLOAD_LEN_SIZE
  MIN_PAYLOAD_LENGTH MAX_PAYLOAD_LENGTH LABEL_COUNT_WIRE_LEN : sizes.
Ltac unfold_sizes := unfold MIN_RECORD_WIRE_LENGTH, MAX_RECORD_WIRE_LENGTH, KEY_SIZE,
  PAYLOAD_LEN_SIZE, MIN_PAYLOAD_LENGTH, MAX_PAYLOAD_LENGTH, LABEL_COUNT_WIRE_LEN, SZ_U32 in *.

(** ** [Key] *)

Record Key := {
  stream_id : Z;
  timestamp : Z;
  sequence_num : Z;
  source_id : Z
}.
#[global] Instance Key_eq_dec : EqDecision Key.
Proof. solve_decision. Defined.

(** the argument order of [Key::new] *)
Definition key_new (source_id timestamp sequence_num stream_id : Z) : Key :=
  {| stream_id := stream_id; timestamp := timestamp;
     sequence_num := sequence_num; source_id := source_id |}.

Definition key_default : Key := {| stream_id := 0; timestamp := 0; sequence_num := 0; source_id := 0 |}.

Record key_wf (k : Key) : Prop := {
  kw_stream : in_u64 (stream_id k);
  kw_timestamp : in_u64 (timestamp k);
  kw_seq : in_u64 (sequence_num k);
  kw_source : in_u64 (source_id k)
}.

(** [derive(Ord)]: lexicographic in the order of the fields. *)
Definition key_tuple (k : Key) : Z * (Z * (Z * Z)) :=
  (stream_id k, (timestamp k, (sequence_num k, source_id k))).
#[global] Instance key_cmp : Cmp Key := fun a b => cmp (key_tuple a) (key_tuple b).
#[global] Instance key_total_cmp : TotalCmp Key.
Proof.
  split; unfold cmp, key_cmp; intros.
  - apply cmp_refl.
  - apply cmp_flip.
  - by apply cmp_trans with (key_tuple y).
  - by apply cmp_eq_compat.
Qed.
#[global] Instance key_leibniz_cmp : LeibnizCmp Key.
Proof.
  intros x y Heq. apply (cmp_eq (key_tuple x) (key_tuple y)) in Heq.
  destruct x, y. by injection Heq as -> -> -> ->.
Qed.

Definition key_wire_len (k : Key) : Z := KEY_SIZE.

Definition key_to_be_bytes (k : Key) : list byte :=
  be_bytes 8 (source_id k) ++ be_bytes 8 (timestamp k) ++ be_bytes 8 (sequence_num k)
  ++ be_bytes 8 (stream_id k).

Definition key_from_be_bytes (src : list byte) : outcome CodecError Key :=
  if blen src <? KEY_SIZE then Err (not_enough_bytes (blen src) KEY_SIZE)
  else
    source_id ← array_at 8 src 0;
    timestamp ← array_at 8 src 8;
    sequence_num ← array_at 8 src 16;
    stream_id ← array_at 8 src 24;
    Ok {| source_id := be_val source_id; timestamp := be_val timestamp;
          sequence_num := be_val sequence_num; stream_id := be_val stream_id |}.

(** [SpecCodec<Key>]. [dst.try_into()] needs a slice of exactly 32 bytes. *)
Definition key_encode (k : Key) : st (list byte) CodecError Z := fun dst =>
  if blen dst <? key_wire_len k then (dst, Err (not_enough_bytes (blen dst) (key_wire_len k)))
  else if blen dst =? KEY_SIZE then (key_to_be_bytes k, Ok KEY_SIZE)
  else (dst, Err (CodecIo (IoError OtherIo))).

Definition key_decode (src : list byte) : outcome CodecError (option (Key * Z)) :=
  if blen src <? KEY_SIZE then Ok None
  else
    hd ← slice src 0 KEY_SIZE;
    k ← key_from_be_bytes hd;
    Ok (Some (k, KEY_SIZE)).

#[global] Instance Key_wire_len : WireLen Key := key_wire_len.
#[global] Instance Key_codec : SpecCodec Key := {| encode := key_encode; decode := key_decode |}.

(** ** [Record] *)

Record LogRecord := { rec_key : Key; rec_payload : list byte }.
#[global] Instance LogRecord_eq_dec : EqDecision LogRecord.
Proof. solve_decision. Defined.

(** [Ord for Record] compares the keys, [PartialEq] too. *)
#[global] Instance record_cmp : Cmp LogRecord := fun a b => cmp (rec_key a) (rec_key b).
#[global] Instance record_total_cmp : TotalCmp LogRecord.
Proof.
  split; unfold cmp, record_cmp; intros.
  - apply cmp_refl.
  - apply cmp_flip.
  - by apply cmp_trans with (rec_key y).
  - by apply cmp_eq_compat.
Qed.

Definition record_wire_len (r : LogRecord) : Z :=
  key_wire_len (rec_key r) + SZ_U32 + blen (rec_payload r).

(** [size_of::<Record>()] is the key and a fat pointer. *)
Definition record_size_of (r : LogRecord) : Z := 48 + blen (rec_payload r).

Definition payload_size_ok (n : Z) : bool := (MIN_PAYLOAD_LENGTH <=? n) && (n <=? MAX_PAYLOAD_LENGTH).

Definition check_payload_size (payload_len : Z) : outcome CodecError unit :=
  if negb (payload_size_ok payload_len)
  then Err (invalid_payload_sz payload_len MAX_RECORD_WIRE_LENGTH MIN_RECORD_WIRE_LENGTH)
  else Ok tt.

Definition record_encode (r : LogRecord) : st (list byte) CodecError Z := fun dst =>
  if blen dst <? record_wire_len r then (dst, Err (not_enough_bytes (blen dst) (record_wire_len r)))
  else
    (_ ← on_subslice 0 KEY_SIZE (key_encode (rec_key r));
     _ ← (if negb (payload_size_ok (blen (rec_payload r)))
          then st_err (invalid_payload_sz (blen (rec_payload r)) MAX_RECORD_WIRE_LENGTH MIN_RECORD_WIRE_LENGTH)
          else mret tt);
     _ ← copy_into KEY_SIZE (KEY_SIZE + PAYLOAD_LEN_SIZE) (be_bytes 4 (wrap32 (blen (rec_payload r))));
     _ ← copy_into (KEY_SIZE + PAYLOAD_LEN_SIZE) (KEY_SIZE + PAYLOAD_LEN_SIZE + blen (rec_payload r))
           (rec_payload r);
     mret (record_wire_len r) : st (list byte) CodecError Z) dst.

Definition record_decode (src : list byte) : outcome CodecError (option (LogRecord * Z)) :=
  if blen src <? KEY_SIZE + PAYLOAD_LEN_SIZE then Ok None
  else
    ko ← key_decode src;
    match ko with
    | None => Ok None
    | Some (key, _) =>
        lenb ← array_at 4 src KEY_SIZE;
        let payload_len := be_val lenb in
        _ ← check_payload_size payload_len;
        let total := KEY_SIZE + PAYLOAD_LEN_SIZE + payload_len in
        if blen src <? total then Ok None
        else
          payload ← slice src (KEY_SIZE + PAYLOAD_LEN_SIZE) total;
          Ok (Some ({| rec_key := key; rec_payload := payload |}, total))
    end.

#[global] Instance LogRecord_wire_len : WireLen LogRecord := record_wire_len.
#[global] Instance LogRecord_codec : SpecCodec LogRecord :=
  {| encode := record_encode; decode := record_decode |}.

(** [RecordCodecExt]: the default methods, as used by the block layer. *)
Definition encode_key : Key -> st (list byte) CodecError Z := encode.
Definition encode_record : LogRecord -> st (list byte) CodecError Z := encode.
Definition decode_key : list byte -> outcome CodecError (option (Key * Z)) := decode.
Definition decode_record : list byte -> outcome CodecError (option (LogRecord * Z)) := decode.

(** ** The wire format, and the laws of the codec *)

Record record_valid (r : LogRecord) : Prop := {
  rv_key : key_wf (rec_key r);
  rv_payload : MIN_PAYLOAD_LENGTH <= blen (rec_payload r) <= MAX_PAYLOAD_LENGTH
}.

Definition record_wire (r : LogRecord) : list byte :=
  key_to_be_bytes (rec_key r) ++ be_bytes 4 (blen (rec_payload r)) ++ rec_payload r.

Lemma blen_key_to_be_bytes k : blen (key_to_be_bytes k) = 32.
Proof. unfold key_to_be_bytes. zlia. Qed.
#[export] Hint Rewrite blen_key_to_be_bytes : blen.

Lemma blen_record_wire r : blen (record_wire r) = record_wire_len r.
Proof. unfold record_wire, record_wire_len, key_wire_len. unfold_sizes. zlia. Qed.
#[export] Hint Rewrite blen_record_wire : blen.

Lemma payload_size_ok_true n :
  MIN_PAYLOAD_LENGTH <= n <= MAX_PAYLOAD_LENGTH -> payload_size_ok n = true.
Proof. unfold payload_size_ok. intros. bdecide. Qed.

Lemma wrap32_small z : in_u32 z -> wrap32 z = z.
Proof. unfold in_u32, u32_max, wrap32. intros. apply Z.mod_small. lia. Qed.

Lemma key_from_be_bytes_parts a b c d :
  blen a = 8 -> blen b = 8 -> blen c = 8 -> blen d = 8 ->
  key_from_be_bytes (a ++ b ++ c ++ d) = Ok (key_new (be_val a) (be_val b) (be_val c) (be_val d)).
Proof.
  intros Ha Hb Hc Hd. unfold key_from_be_bytes. if_false. unfold array_at.
  rewrite (slice_prefix a), ok_bind by zlia.
  rewrite (slice_app a b (c ++ d) 8), ok_bind by zlia.
  rewrite (app_assoc a), (slice_app (a ++ b) c d 16), ok_bind by zlia.
  by rewrite (app_assoc (a ++ b)), (slice_suffix ((a ++ b) ++ c) d), ok_bind by zlia.
Qed.

(** [from_be_bytes] reads back exactly what [to_be_bytes] wrote. *)
Lemma key_from_to_be_bytes k :
  key_wf k -> key_from_be_bytes (key_to_be_bytes k) = Ok k.
Proof.
  intros [????]. unfold key_to_be_bytes. rewrite key_from_be_bytes_parts by zlia.
  rewrite !be_val_u64 by done. by destruct k.
Qed.

Lemma split_at_blen (bs : list byte) n m :
  blen bs = n + m -> 0 <= n -> 0 <= m -> exists x y, bs = x ++ y /\ blen x = n /\ blen y = m.
Proof.
  intros Hlen ??. exists (take (Z.to_nat n) bs), (drop (Z.to_nat n) bs).
  rewrite take_drop. split_and!; [done|zlia|zlia].
Qed.

(** Conversely every 32 bytes are the encoding of the key they decode to. *)
Lemma key_to_from_be_bytes bs :
  blen bs = KEY_SIZE -> exists k, key_wf k /\ key_from_be_bytes bs = Ok k /\ key_to_be_bytes k = bs.
Proof.
  intros Hlen.
  destruct (split_at_blen bs 8 24) as (a & bs1 & -> & Ha & H1); [done|lia|lia|].
  destruct (split_at_blen bs1 8 16) as (b & bs2 & -> & Hb & H2); [done|lia|lia|].
  destruct (split_at_blen bs2 8 8) as (c & d & -> & Hc & Hd); [done|lia|lia|].
  eexists. split; [|split; [by apply key_from_be_bytes_parts|]].
  - by split; apply be_val_in_u64.
  - unfold key_to_be_bytes. cbn [key_new source_id timestamp sequence_num stream_id].
    by rewrite !be_bytes_be_val_n.
Qed.

Lemma key_decode_app k rest :
  key_wf k -> key_decode (key_to_be_bytes k ++ rest) = Ok (Some (k, KEY_SIZE)).
Proof.
  intros Hk. unfold key_decode. unfold KEY_SIZE in *. if_false.
  rewrite slice_prefix, ok_bind by zlia. by rewrite key_from_to_be_bytes.
Qed.

Lemma record_encode_wire r dst :
  record_valid r -> record_wire_len r <= blen dst ->
  record_encode r dst = (record_wire r ++ drop (length (record_wire r)) dst, Ok (record_wire_len r)).
Proof.
  intros [Hk Hp] Hlen. unfold record_encode. if_false.
  unfold record_wire_len, key_wire_len in Hlen. unfold_sizes.
  rewrite st_bind_unfold. rewrite <- (take_drop 32 dst) at 1.
  assert (blen (take 32 dst) = 32) as H32 by zlia.
  rewrite on_subslice_prefix by done.
  unfold key_encode, key_wire_len, KEY_SIZE. rewrite H32. cbn [app Z.ltb Z.compare Z.eqb Pos.compare Pos.compare_cont Pos.eqb].
  rewrite payload_size_ok_true by done. cbn [negb].
  rewrite st_bind_unfold. cbn [mret st_ret].
  rewrite st_bind_unfold, copy_into_next by zlia.
  rewrite st_bind_unfold, copy_into_next by zlia.
  unfold mret, st_ret. f_equal. rewrite wrap32_small by (unfold in_u32, u32_max; zlia).
  unfold record_wire. rewrite <- !app_assoc. do 3 f_equal.
  rewrite !drop_drop. f_equal.
Qed.

Lemma record_decode_wire r rest :
  record_valid r -> record_decode (record_wire r ++ rest) = Ok (Some (r, record_wire_len r)).
Proof.
  intros [Hk Hp]. unfold record_decode, record_wire.
  assert (in_u32 (blen (rec_payload r))) by (unfold_sizes; unfold in_u32, u32_max; lia).
  assert (forall x : list byte, ((key_to_be_bytes (rec_key r) ++ x) ++ rest)
            = key_to_be_bytes (rec_key r) ++ x ++ rest) as Hassoc by (intros; by rewrite app_assoc).
  rewrite Hassoc. if_false.
  rewrite key_decode_app, ok_bind by done. unfold array_at.
  rewrite <- app_assoc, slice_app by (unfold_sizes; zlia). rewrite ok_bind, be_val_u32 by done.
  unfold check_payload_size. rewrite payload_size_ok_true by done. cbn [negb]. rewrite ok_bind.
  if_false.
  rewrite app_assoc, slice_app by (unfold_sizes; zlia). rewrite ok_bind.
  unfold record_wire_len, key_wire_len. by destruct r.
Qed.

#[global] Instance record_lawful : LawfulCodec LogRecord record_valid record_wire.
Proof.
  split.
  - intros r [??]. unfold record_wire. zlia.
  - intros r _. unfold wire_len, LogRecord_wire_len. by rewrite blen_record_wire.
  - intros r dst. apply record_encode_wire.
  - intros r rest ?. rewrite blen_record_wire. by apply record_decode_wire.
Qed.

(** What is left once the header is there: the payload length is read, and
    the verdict depends on it and on the bytes available. *)
Lemma record_decode_header k lenb rest :
  key_wf k -> blen lenb = 4 ->
  record_decode (key_to_be_bytes k ++ lenb ++ rest) =
  if negb (payload_size_ok (be_val lenb))
  then Err (invalid_payload_sz (be_val lenb) MAX_RECORD_WIRE_LENGTH MIN_RECORD_WIRE_LENGTH)
  else if blen rest <? be_val lenb then Ok None
  else Ok (Some ({| rec_key := k; rec_payload := take (Z.to_nat (be_val lenb)) rest |},
                 KEY_SIZE + PAYLOAD_LEN_SIZE + be_val lenb)).
Proof.
  intros Hk Hlen. unfold record_decode. if_false.
  rewrite key_decode_app, ok_bind by done. unfold array_at. cbv iota beta.
  rewrite slice_app, ok_bind by zlia. unfold check_payload_size.
  pose proof (be_val_bound lenb).
  destruct (payload_size_ok (be_val lenb)); [|done]. cbn [negb]. rewrite ok_bind.
  destruct (blen rest <? be_val lenb) eqn:E; gsplit.
  - by if_true.
  - if_false. rewrite slice_ok by zlia. rewrite ok_bind. do 5 f_equal.
    + f_equal. zlia.
    + rewrite app_assoc. apply drop_app_blen. zlia.
Qed.

Lemma record_header_split src :
  KEY_SIZE + PAYLOAD_LEN_SIZE <= blen src ->
  exists k lenb rest, src = key_to_be_bytes k ++ lenb ++ rest /\ key_wf k /\ blen lenb = 4.
Proof.
  intros Hlen.
  destruct (split_at_blen src 32 (blen src - 32)) as (kb & src1 & -> & Hkb & H1); [zlia..|].
  destruct (split_at_blen src1 4 (blen src1 - 4)) as (lenb & rest & -> & Hl & H2); [zlia..|].
  destruct (key_to_from_be_bytes kb Hkb) as (k & Hk & _ & <-). by exists k, lenb, rest.
Qed.

(** A record with a given key and payload length exists. *)
Lemma record_of_header k n :
  key_wf k -> payload_size_ok n = true ->
  forall rest, blen rest <= n ->
  exists p, record_valid {| rec_key := k; rec_payload := rest ++ p |} /\ blen (rest ++ p) = n.
Proof.
  intros Hk Hn rest Hr. unfold payload_size_ok in Hn. gsplit.
  exists (replicate (Z.to_nat (n - blen rest)) zero_byte).
  assert (blen (rest ++ replicate (Z.to_nat (n - blen rest)) zero_byte) = n) as Hlen by zlia.
  split; [|done]. split; cbn; [done|]. by rewrite Hlen.
Qed.

(** A truncated record is not yet an error. *)
Lemma record_decode_short src :
  blen src < KEY_SIZE + PAYLOAD_LEN_SIZE -> record_decode src = Ok None.
Proof. intros. unfold record_decode. by if_true. Qed.

#[global] Instance record_streaming : StreamingCodec LogRecord.
Proof.
  intros r pre Hr [suf Hpre] Hne. change (record_decode pre = Ok None).
  destruct (Z_lt_le_dec (blen pre) (KEY_SIZE + PAYLOAD_LEN_SIZE)) as [Hlt|Hge];
    [by apply record_decode_short|].
  destruct (record_header_split pre Hge) as (k & lenb & rest & -> & Hk & Hl).
  unfold record_wire in Hpre. rewrite <- !app_assoc in Hpre.
  apply app_inj_1 in Hpre as [Hkey Hpre]; [|apply Nat2Z.inj; fold (blen (key_to_be_bytes (rec_key r)));
    fold (blen (key_to_be_bytes k)); zlia].
  apply app_inj_1 in Hpre as [Hlen Hpre]; [|unfold blen in Hl; rewrite length_be_bytes; lia].
  rewrite record_decode_header by done. destruct Hr as [_ Hp].
  rewrite <- Hlen, be_val_u32 by (unfold in_u32, u32_max; zlia).
  rewrite payload_size_ok_true by done. cbn [negb].
  destruct suf as [|b suf]; [|rewrite Hpre; by if_true].
  destruct Hne. unfold record_wire. by rewrite Hkey, Hlen, Hpre, app_nil_r.
Qed.

(** With a complete header, the two ways to be accepted. *)
Lemma record_header_prefix k lenb rest :
  key_wf k -> blen lenb = 4 -> payload_size_ok (be_val lenb) = true ->
  (blen rest < be_val lenb ->
     exists r, record_valid r /\ key_to_be_bytes k ++ lenb ++ rest `prefix_of` record_wire r /\
       key_to_be_bytes k ++ lenb ++ rest <> record_wire r) /\
  (be_val lenb <= blen rest ->
     let r := {| rec_key := k; rec_payload := take (Z.to_nat (be_val lenb)) rest |} in
     record_valid r /\ record_wire r `prefix_of` key_to_be_bytes k ++ lenb ++ rest).
Proof.
  intros Hk Hl Hok. split; intros Hlen.
  - assert (blen rest <= be_val lenb) as Hle by lia.
    destruct (record_of_header k _ Hk Hok rest Hle) as (p & Hr & Hp).
    eexists. split; [exact Hr|]. unfold record_wire. cbn [rec_key rec_payload].
    rewrite Hp, be_bytes_be_val_n by done.
    split; [exists p; by rewrite <- !app_assoc|].
    intros Heq%(f_equal blen). zlia.
  - unfold payload_size_ok in Hok. gsplit.
    assert (blen (take (Z.to_nat (be_val lenb)) rest) = be_val lenb) as Hp by zlia.
    split; [split; cbn; [done|by rewrite Hp]|].
    exists (drop (Z.to_nat (be_val lenb)) rest). unfold record_wire. cbn [rec_key rec_payload].
    by rewrite Hp, be_bytes_be_val_n, <- !app_assoc, take_drop.
Qed.

(** ** Claims about the record codec *)

(** C25: [RecordCodec::decode] on an arbitrary buffer. It returns a record
    exactly when the buffer starts with the encoding of a valid record (and
    then that record and the length of its encoding), it asks for more bytes
    exactly when the fixed-size header is incomplete or the buffer is a proper
    prefix of the encoding of some valid record, and it never panics; every
    other buffer is an error. *)
Theorem record_decode_spec (src : list byte) :
  (forall r n, record_decode src = Ok (Some (r, n)) <->
     record_valid r /\ n = record_wire_len r /\ record_wire r `prefix_of` src) /\
  (record_decode src = Ok None <->
     blen src < KEY_SIZE + PAYLOAD_LEN_SIZE \/
     exists r, record_valid r /\ src `prefix_of` record_wire r /\ src <> record_wire r) /\
  record_decode src <> Panic.
Proof.
  assert (forall r, record_valid r -> src `prefix_of` record_wire r -> src <> record_wire r ->
    record_decode src = Ok None) as Hpartial by (intros r; exact (record_streaming r src)).
  assert (forall r n, record_valid r -> n = record_wire_len r -> record_wire r `prefix_of` src ->
    record_decode src = Ok (Some (r, n))) as Hfull
    by (intros r n Hr -> [rest ->]; by apply record_decode_wire).
  destruct (Z_lt_le_dec (blen src) (KEY_SIZE + PAYLOAD_LEN_SIZE)) as [Hlt|Hge].
  { rewrite record_decode_short by done. split_and!; [|split; [by left|done]|done].
    intros r n. split; [done|]. intros (Hr & _ & [rest ->]). unfold record_wire in Hlt. zlia. }
  destruct (record_header_split src Hge) as (k & lenb & rest & -> & Hk & Hl).
  pose proof (record_decode_header k lenb rest Hk Hl) as Hdec.
  destruct (payload_size_ok (be_val lenb)) eqn:Eok; cbn [negb] in Hdec.
  2: { split_and!; [intros r n; split; [by rewrite Hdec|intros (Hr & Hn & Hp); by apply Hfull]|
         split; [by rewrite Hdec|intros [?|(r & Hr & Hp & Hne)]; [lia|by apply (Hpartial r)]]|
         by rewrite Hdec]. }
  pose proof (record_header_prefix k lenb rest Hk Hl Eok) as [Hnone Hsome].
  destruct (blen rest <? be_val lenb) eqn:Esz; gsplit; rewrite Hdec.
  - split_and!; [|split; [intros _; right; by apply Hnone|done]|done].
    intros r n. split; [done|]. intros (Hr & Hn & Hpre). by rewrite <- Hdec, (Hfull r n).
  - split_and!; [|split; [done|]|done].
    + intros r n. split; [intros [= <- <-]|intros (Hr & Hn & Hpre); by rewrite <- Hdec, (Hfull r n)].
      destruct (Hsome Esz) as [Hr Hpre]. split_and!; [done| |done].
      unfold record_wire_len, key_wire_len. cbn [rec_payload].
      pose proof (be_val_bound lenb). zlia.
    + intros [?|(r & Hr & Hpre & Hne)]; [lia|]. by rewrite <- Hdec, (Hpartial r).
Qed.

(** [RecordCodec::encode] on an arbitrary record and buffer: it fails
    without touching the buffer when the buffer is too short, it refuses a
    payload outside the size limits (after having written the key), and
    otherwise it writes the encoding at the start of the buffer, leaves the
    rest of it alone and returns the encoding's length. It never panics. *)
Theorem record_encode_spec (r : LogRecord) (dst : list byte) (Hk : key_wf (rec_key r)) :
  record_encode r dst =
  if blen dst <? record_wire_len r then (dst, Err (not_enough_bytes (blen dst) (record_wire_len r)))
  else if payload_size_ok (blen (rec_payload r))
  then (record_wire r ++ drop (length (record_wire r)) dst, Ok (record_wire_len r))
  else (key_to_be_bytes (rec_key r) ++ drop 32 dst,
        Err (invalid_payload_sz (blen (rec_payload r)) MAX_RECORD_WIRE_LENGTH MIN_RECORD_WIRE_LENGTH)).
Proof.
  destruct (blen dst <? record_wire_len r) eqn:E; gsplit.
  { unfold record_encode. by if_true. }
  destruct (payload_size_ok (blen (rec_payload r))) eqn:Eok.
  - apply record_encode_wire; [|done]. split; [done|]. unfold payload_size_ok in Eok. gsplit. done.
  - unfold record_encode. if_false. unfold record_wire_len, key_wire_len in E.
    rewrite st_bind_unfold. rewrite <- (take_drop 32 dst) at 1.
    assert (blen (take 32 dst) = 32) as H32 by zlia.
    rewrite on_subslice_prefix by done. unfold key_encode. rewrite H32. cbn -[drop].
    by rewrite Eok.
Qed.

(** A valid record, for the witnesses. *)
Definition sample_record (ts : Z) : LogRecord :=
  {| rec_key := key_new 7 ts 1 42; rec_payload := [u8_of 0; u8_of 104; u8_of 105] |}.
Lemma sample_record_valid ts : in_u64 ts -> record_valid (sample_record ts).
Proof. intros Hts. split; [|done]. by split; cbn. Qed.

Lemma record_encode_spec_witness :
  key_wf (rec_key (sample_record 5)) /\
  record_encode (sample_record 5) (replicate 40 zero_byte)
  = (record_wire (sample_record 5) ++ [zero_byte], Ok 39).
Proof.
  assert (key_wf (rec_key (sample_record 5))) as Hk by (split; done).
  split; [exact Hk|]. rewrite (record_encode_spec _ _ Hk). reflexivity.
Defined.

Lemma framed_stream_roundtrip_witness :
  exists f1 f2, framed_writer_write_all [sample_record 5; sample_record 6]
      (framed_writer_new ([] : list byte)) = (f1, Ok tt) /\
    framed_writer_flush f1 = (f2, Ok tt) /\
    framed_writer_size_hint f2 = blen (bw_inner (fw_inner f2)) /\
    forall src, good_source src -> source_bytes src = bw_inner (fw_inner f2) ->
      framed_reader_collect 3 (S (length (source_bytes src))) (framed_reader_new src)
      = Some ([sample_record 5; sample_record 6], Ok tt).
Proof.
  apply (framed_stream_roundtrip [sample_record 5; sample_record 6] (sample_record 7)).
  - repeat constructor; by apply sample_record_valid.
  - by apply sample_record_valid.
Defined.

(** Two records cut five bytes into the second, delivered in two reads. *)
Definition torn_source : list read_event :=
  let bytes := take 44 (concat (map record_wire [sample_record 5; sample_record 6])) in
  [ReadData (take 20 bytes); ReadData (drop 20 bytes)].

Lemma framed_stream_torn_witness :
  exists n, (n < 2)%nat /\
    framed_reader_collect (S n) 45 (framed_reader_new torn_source)
    = Some (take n [sample_record 5; sample_record 6], Ok tt) /\
    (length (concat (map record_wire (take n [sample_record 5; sample_record 6]))) <= 44
     < length (concat (map record_wire (take (S n) [sample_record 5; sample_record 6]))))%nat.
Proof.
  apply (framed_stream_torn [sample_record 5; sample_record 6] 44 torn_source).
  - repeat constructor; by apply sample_record_valid.
  - apply Nat.ltb_lt. reflexivity.
  - repeat constructor; done.
  - reflexivity.
Defined.
