(* ===== verification/Memtable.v ===== *)
(** * The memtable: logregator-tsdb/src/memtable.rs

    An ordered set of records with a soft size limit. The record set is a
    strictly sorted list ([BTreeSet]); sharing ([Arc]) of a frozen memtable
    is invisible because it is never written again. *)
From S2P Require Import Prelude Std Ext Codec Errors Record.

Definition DEFAULT_MEMTABLE_SIZE : Z := 16 * 10 * 1024.

Inductive AppendOutput :=
| AppendOk
| AppendFull (r : option LogRecord).

Definition was_appended (o : AppendOutput) : bool :=
  match o with
  | AppendOk => true
  | AppendFull None => true
  | AppendFull (Some _) => false
  end.

Record MemtableInner := {
  mt_id : Z;
  mt_set : list LogRecord;
  mt_limit : Z;
  mt_size_bytes : Z;
  mt_first_key : option Key;
  mt_last_key : option Key
}.

Definition with_size_limit (id limit : Z) : MemtableInner :=
  {| mt_id := id; mt_set := []; mt_limit := limit; mt_size_bytes := 0;
     mt_first_key := None; mt_last_key := None |}.

(** [MutMemtable::new] *)
Definition mut_memtable_new (id : Z) (limit : option Z) : MemtableInner :=
  with_size_limit id (default DEFAULT_MEMTABLE_SIZE limit).

Definition memtable_append (rec : LogRecord) (m : MemtableInner) : MemtableInner * AppendOutput :=
  if (mt_limit m <? mt_size_bytes m + record_size_of rec) && negb (mt_size_bytes m =? 0)
  then (m, AppendFull (Some rec))
  else
    let m' := {| mt_id := mt_id m;
                 mt_set := bset_insert rec_key rec (mt_set m);
                 mt_limit := mt_limit m;
                 mt_size_bytes := mt_size_bytes m + record_size_of rec;
                 mt_first_key := match mt_first_key m with
                                 | None => Some (rec_key rec)
                                 | Some k => Some k
                                 end;
                 mt_last_key := Some (rec_key rec) |} in
    (m', if mt_limit m' <=? mt_size_bytes m' then AppendFull None else AppendOk).

Definition memtable_last (m : MemtableInner) : option LogRecord := last (mt_set m).

Definition memtable_range {E} (start end_ : bound Key) (m : MemtableInner)
    : outcome E (list LogRecord) := bset_range rec_key start end_ (mt_set m).

(** clones the records of the range into a new set *)
Definition memtable_range_cloned {E} (start end_ : bound Key) (m : MemtableInner)
    : outcome E (list LogRecord) :=
  rs ← bset_range rec_key start end_ (mt_set m);
  Ok (foldl (fun s r => bset_insert rec_key r s) [] rs).

Definition key_max : Key := key_new u64_max u64_max u64_max u64_max.

Definition memtable_full_range {E} (m : MemtableInner) : outcome E (list LogRecord) :=
  bset_range rec_key (Included key_default) (Included key_max) (mt_set m).

(** [freeze]: the old contents, and a fresh memtable in their place. *)
Definition memtable_freeze (new_id : Z) (m : MemtableInner) : MemtableInner * MemtableInner :=
  (with_size_limit new_id (mt_limit m), m).

Definition memtable_count (m : MemtableInner) : Z := blen (mt_set m).
Definition memtable_key_range (m : MemtableInner) : option Key * option Key :=
  (mt_first_key m, mt_last_key m).

Definition key_bounds_full (m : MemtableInner) : outcome Error (bound Key * bound Key) :=
  match memtable_key_range m with
  | (Some k1, Some k2) => Ok (Included k1, Included k2)
  | _ => Err (ErrMessage "`first_key` or `last_key` not set after calling `active_memtable.append(record)`")
  end.

(** [FlushableMemtable]: a frozen memtable and its flag. *)
Record FlushableMemtable := { fm_inner : MemtableInner; fm_flushed : bool }.
Definition flushable_from (m : MemtableInner) : FlushableMemtable :=
  {| fm_inner := m; fm_flushed := false |}.

(** [compare_exchange(false, true).expect(..)] *)
Definition mark_flushed {E} : st FlushableMemtable E unit := fun f =>
  if fm_flushed f then (f, Panic)
  else ({| fm_inner := fm_inner f; fm_flushed := true |}, Ok tt).
Definition is_flushed (f : FlushableMemtable) : bool := fm_flushed f.

(** ** Histories

    A memtable is created once and then only appended to; [mt_history] is
    the sequence of records [append] has accepted. *)

Inductive mt_reach (id limit : Z) : list LogRecord -> MemtableInner -> Prop :=
| mt_reach_new : mt_reach id limit [] (with_size_limit id limit)
| mt_reach_append rs m rec m' o :
    mt_reach id limit rs m -> memtable_append rec m = (m', o) ->
    mt_reach id limit (if was_appended o then rs ++ [rec] else rs) m'.

(** the records whose key is not already among [seen], in order *)
Fixpoint first_by_key (seen : list Key) (rs : list LogRecord) : list LogRecord :=
  match rs with
  | [] => []
  | r :: rs => if decide (rec_key r ∈ seen) then first_by_key seen rs
               else r :: first_by_key (rec_key r :: seen) rs
  end.

(** ** Invariant *)

Definition sum_sizes (rs : list LogRecord) : Z := foldr (fun r n => record_size_of r + n) 0 rs.

Record mt_inv (id limit : Z) (rs : list LogRecord) (m : MemtableInner) : Prop := {
  mi_id : mt_id m = id;
  mi_limit : mt_limit m = limit;
  mi_sorted : bset_sorted rec_key (mt_set m);
  mi_set : mt_set m ≡ₚ first_by_key [] rs;
  mi_size : mt_size_bytes m = sum_sizes rs;
  mi_soft : mt_size_bytes m <= limit \/ exists r, rs = [r];
  mi_first : mt_first_key m = rec_key <$> head rs;
  mi_last : mt_last_key m = rec_key <$> last rs
}.

Lemma record_size_of_pos r : 48 <= record_size_of r.
Proof. unfold record_size_of. zlia. Qed.
Lemma sum_sizes_app rs qs : sum_sizes (rs ++ qs) = sum_sizes rs + sum_sizes qs.
Proof. unfold sum_sizes. induction rs as [|r rs IH]; cbn; [done|]. rewrite IH. lia. Qed.
Lemma sum_sizes_nonneg rs : 48 * blen rs <= sum_sizes rs.
Proof.
  induction rs as [|r rs IH]; cbn; [done|]. pose proof (record_size_of_pos r).
  fold (sum_sizes rs). zlia.
Qed.

Lemma first_by_key_app seen rs r :
  first_by_key seen (rs ++ [r]) =
  first_by_key seen rs ++ (if decide (rec_key r ∈ seen ++ (rec_key <$> rs)) then [] else [r]).
Proof.
  revert seen. induction rs as [|q rs IH]; intros seen; cbn.
  - rewrite app_nil_r. by destruct (decide _).
  - destruct (decide (rec_key q ∈ seen)) as [Hq|Hq].
    + rewrite IH. f_equal. apply decide_ext. rewrite !elem_of_app, elem_of_cons.
      split; [tauto|]. intros [?|[->|?]]; tauto.
    + rewrite IH. cbn. f_equal. f_equal. apply decide_ext.
      rewrite elem_of_cons, !elem_of_app, elem_of_cons. tauto.
Qed.

Lemma first_by_key_keys seen rs k :
  k ∈ (rec_key <$> rs) -> k ∈ seen \/ k ∈ (rec_key <$> first_by_key seen rs).
Proof.
  revert seen. induction rs as [|q rs IH]; intros seen; cbn; [by intros ?%not_elem_of_nil|].
  destruct (decide (rec_key q ∈ seen)) as [Hq|Hq].
  - rewrite elem_of_cons. intros [->|Hk]; [by left|by apply IH].
  - cbn. rewrite !elem_of_cons. intros [->|Hk]; [by right; left|].
    destruct (IH (rec_key q :: seen) Hk) as [[->|?]%elem_of_cons|?]; auto.
Qed.

Lemma first_by_key_elem seen rs r : r ∈ first_by_key seen rs -> r ∈ rs.
Proof.
  revert seen. induction rs as [|q rs IH]; intros seen; cbn; [done|].
  destruct (decide _); rewrite ?elem_of_cons; intros Hr.
  - right. by eapply IH.
  - destruct Hr as [->|Hr]; [by left|right; by eapply IH].
Qed.

Lemma fresh_not_in r (l : list LogRecord) :
  bset_fresh rec_key r l <-> rec_key r ∉ (rec_key <$> l).
Proof.
  unfold bset_fresh. rewrite Forall_forall. split.
  - intros Hf Hin. apply list_elem_of_fmap in Hin as (q & Heq & Hq). apply (Hf q Hq).
    rewrite <- Heq. apply cmp_refl.
  - intros Hn q Hq Heq. apply cmp_eq in Heq. apply Hn. rewrite <- Heq. by apply list_elem_of_fmap_2.
Qed.

Lemma bset_insert_first_by_key rs r l :
  bset_sorted rec_key l -> l ≡ₚ first_by_key [] rs ->
  bset_insert rec_key r l ≡ₚ first_by_key [] (rs ++ [r]).
Proof.
  intros Hs Hp. rewrite first_by_key_app. cbn [app].
  assert (rec_key r ∈ (rec_key <$> l) <-> rec_key r ∈ (rec_key <$> rs)) as Hkeys.
  { rewrite Hp. split.
    - intros (q & -> & Hq)%list_elem_of_fmap. apply list_elem_of_fmap_2. by eapply first_by_key_elem.
    - intros Hk. destruct (first_by_key_keys [] rs _ Hk) as [?%not_elem_of_nil|?]; done. }
  destruct (decide _) as [Hin|Hni].
  - rewrite app_nil_r, bset_insert_present; [done|done|]. rewrite fresh_not_in. tauto.
  - rewrite bset_insert_fresh by (rewrite fresh_not_in; tauto). rewrite Hp. apply Permutation_cons_append.
Qed.

Lemma memtable_append_inv id limit rs m r m' o :
  mt_inv id limit rs m -> memtable_append r m = (m', o) ->
  mt_inv id limit (if was_appended o then rs ++ [r] else rs) m'.
Proof.
  intros [Hid Hlim Hs Hset Hsz Hsoft Hf Hl]. unfold memtable_append. case_if.
  { by intros [= <- <-]. }
  intros [= <- <-].
  assert (was_appended (if mt_limit m <=? mt_size_bytes m + record_size_of r
                        then AppendFull None else AppendOk) = true) as -> by (by case_if).
  split; cbn.
  - done.
  - done.
  - by apply bset_insert_sorted.
  - by apply bset_insert_first_by_key.
  - rewrite sum_sizes_app. cbn. lia.
  - apply andb_false_iff in Heqb as [Hb|Hb]; gsplit; [left; lia|]. right. exists r.
    pose proof (sum_sizes_nonneg rs). destruct rs; [done|zlia].
  - rewrite Hf. by destruct rs.
  - by rewrite last_snoc.
Qed.

Lemma mt_reach_inv id limit rs m : 0 <= limit -> mt_reach id limit rs m -> mt_inv id limit rs m.
Proof.
  intros Hlim Hr. induction Hr as [|rs m r m' o Hr IH Ha].
  - split; cbn; try done; [constructor|by left].
  - by eapply memtable_append_inv.
Qed.

(** ** Ranges *)

Lemma filter_id_iff {A} (p : A -> bool) l : List.filter p l = l <-> Forall (fun x => p x = true) l.
Proof.
  split; [|apply filter_all]. intros Heq. apply Forall_forall. intros x Hx.
  rewrite <- Heq in Hx. by apply list_elem_of_In, filter_In in Hx as [_ ?].
Qed.

Lemma in_bounds_included (a b k : Key) :
  in_bounds (Included a) (Included b) k = true <-> cmp a k <> Gt /\ cmp k b <> Gt.
Proof.
  unfold in_bounds, after_start, before_end. rewrite andb_true_iff, (cmp_flip k a).
  destruct (cmp k a), (cmp k b); cbn; intuition congruence.
Qed.

(** collecting a sorted sequence into a set *)
Lemma foldl_insert_sorted l acc :
  bset_sorted rec_key (acc ++ l) -> foldl (fun s r => bset_insert rec_key r s) acc l = acc ++ l.
Proof.
  revert acc. induction l as [|x l IH]; intros acc Hs; cbn; [by rewrite app_nil_r|].
  rewrite bset_insert_last.
  - rewrite IH; by rewrite <- app_assoc.
  - apply Forall_forall. intros y Hy.
    eapply StronglySorted_app_1_elem_of; [exact Hs|exact Hy|left].
Qed.

(** every key of the set is the key of an accepted record, and conversely *)
Lemma mt_inv_keys id limit rs m k :
  mt_inv id limit rs m -> k ∈ (rec_key <$> mt_set m) <-> k ∈ (rec_key <$> rs).
Proof.
  intros [? ? ? Hset ? ? ? ?]. rewrite Hset. split.
  - intros (q & -> & Hq)%list_elem_of_fmap. apply list_elem_of_fmap_2. by eapply first_by_key_elem.
  - intros Hk. by destruct (first_by_key_keys [] rs _ Hk) as [?%not_elem_of_nil|?].
Qed.

Lemma key_default_least k : key_wf k -> cmp key_default k <> Gt.
Proof.
  intros [[? _] [? _] [? _] [? _]].
  unfold cmp, key_cmp, key_tuple, cmp, pair_cmp, cmp, pair_cmp, cmp, pair_cmp, cmp, Z_cmp, ord_then. cbn -[Z.compare].
  destruct (Z.compare_spec 0 (stream_id k)); [|done|lia].
  destruct (Z.compare_spec 0 (timestamp k)); [|done|lia].
  destruct (Z.compare_spec 0 (sequence_num k)); [|done|lia].
  destruct (Z.compare_spec 0 (source_id k)); [done|done|lia].
Qed.

Lemma key_max_greatest k : key_wf k -> cmp k key_max <> Gt.
Proof.
  intros [[_ ?] [_ ?] [_ ?] [_ ?]].
  unfold cmp, key_cmp, key_tuple, cmp, pair_cmp, cmp, pair_cmp, cmp, pair_cmp, cmp, Z_cmp, ord_then.
  cbn -[Z.compare u64_max].
  destruct (Z.compare_spec (stream_id k) u64_max); [|done|lia].
  destruct (Z.compare_spec (timestamp k) u64_max); [|done|lia].
  destruct (Z.compare_spec (sequence_num k) u64_max); [|done|lia].
  destruct (Z.compare_spec (source_id k) u64_max); [done|done|lia].
Qed.

(** ** Claims *)

(** C8: after any sequence of [append]s, the memtable holds, sorted by key
    and without duplicate keys, exactly the accepted records with the first
    record of each key kept; its size is the sum of the sizes of all accepted
    records; and the size stays within the limit except when the only record
    is larger than the limit itself. *)
Theorem memtable_reach_spec (id limit : Z) (rs : list LogRecord) (m : MemtableInner)
    (Hlim : 0 <= limit) (Hr : mt_reach id limit rs m) :
  bset_sorted rec_key (mt_set m) /\ mt_set m ≡ₚ first_by_key [] rs /\
  mt_size_bytes m = sum_sizes rs /\ (mt_size_bytes m <= limit \/ exists r, rs = [r]).
Proof. destruct (mt_reach_inv _ _ _ _ Hlim Hr). done. Qed.

(** [append] refuses a record exactly when the memtable already holds
    some and the record would exceed the limit; a refused record is handed
    back and changes nothing; an accepted one whose key is new is inserted,
    one whose key is present leaves the set as it was (the old record is
    kept); and [Full] is signalled exactly when the limit is reached. *)
Theorem memtable_append_spec (id limit : Z) (rs : list LogRecord) (m : MemtableInner) (r : LogRecord)
    (Hlim : 0 <= limit) (Hr : mt_reach id limit rs m) :
  let '(m', o) := memtable_append r m in
  if bool_decide (rs <> []) && (limit <? mt_size_bytes m + record_size_of r)
  then m' = m /\ o = AppendFull (Some r)
  else (o = AppendFull None <-> limit <= mt_size_bytes m') /\ was_appended o = true /\
       (forall q, q ∈ mt_set m' <->
          q ∈ mt_set m \/ (q = r /\ rec_key r ∉ (rec_key <$> mt_set m))).
Proof.
  destruct (mt_reach_inv _ _ _ _ Hlim Hr) as [Hid Hl Hs Hset Hsz Hsoft _ _].
  assert (negb (mt_size_bytes m =? 0) = bool_decide (rs <> [])) as Hempty.
  { pose proof (sum_sizes_nonneg rs). destruct rs as [|q rs].
    - by rewrite Hsz.
    - rewrite bool_decide_true by done. apply negb_true_iff, Z.eqb_neq. zlia. }
  unfold memtable_append. rewrite Hempty, Hl, andb_comm. case_if; [done|]. cbn.
  split_and!; [| |].
  - case_if; split; done || lia.
  - by case_if.
  - intros q. destruct (bset_fresh_dec rec_key r (mt_set m)) as [Hf|Hf].
    + rewrite bset_insert_fresh, elem_of_cons by done. rewrite fresh_not_in in Hf. tauto.
    + rewrite bset_insert_present by done. rewrite fresh_not_in in Hf. tauto.
Qed.

(** The range a flush reads, from [key_bounds_full], is delimited by the
    first and the last record {e appended}, not by the smallest and largest
    key. So reading it panics exactly when the last appended key is smaller
    than the first, and it covers the whole memtable exactly when all the
    keys lie between those two (in particular when records arrive in key
    order); otherwise the flush silently leaves records out. *)
Theorem memtable_flush_range (id limit : Z) (rs : list LogRecord) (m : MemtableInner) (a b : LogRecord)
    (Hlim : 0 <= limit) (Hr : mt_reach id limit rs m) (Ha : head rs = Some a) (Hb : last rs = Some b) :
  exists s e, key_bounds_full m = Ok (s, e) /\
    (memtable_range (E := Error) s e m = Panic <-> cmp (rec_key b) (rec_key a) = Lt) /\
    (memtable_range (E := Error) s e m = Ok (mt_set m) <->
     forall r, r ∈ rs -> cmp (rec_key a) (rec_key r) <> Gt /\ cmp (rec_key r) (rec_key b) <> Gt).
Proof.
  pose proof (mt_reach_inv _ _ _ _ Hlim Hr) as Hinv. pose proof (mt_inv_keys _ _ _ _ (rec_key a) Hinv).
  exists (Included (rec_key a)), (Included (rec_key b)).
  assert (a ∈ rs) as Hain by (destruct rs; [done|]; injection Ha as ->; left).
  assert (mt_set m <> []) as Hne.
  { intros E. assert (rec_key a ∈ (rec_key <$> mt_set m)) as Hin
      by (rewrite (mt_inv_keys _ _ _ _ _ Hinv); by apply list_elem_of_fmap_2).
    rewrite E in Hin. by apply not_elem_of_nil in Hin. }
  unfold key_bounds_full, memtable_key_range, memtable_range. rewrite !bset_range_nonempty by done.
  unfold range_panics. rewrite (mi_first _ _ _ _ Hinv), (mi_last _ _ _ _ Hinv), Ha, Hb. split; [done|].
  rewrite <- (cmp_gt_lt (rec_key a) (rec_key b)).
  destruct (cmp (rec_key a) (rec_key b)) eqn:E; (split; [done|]).
  3: { split; [done|]. intros Hall. destruct (Hall a Hain) as [_ Hgt]. by rewrite E in Hgt. }
  all: split; [intros [= Heq]|intros Hall; f_equal; apply filter_all].
  1,3: rewrite filter_id_iff, Forall_forall in Heq; intros r Hr';
    apply in_bounds_included;
    assert (rec_key r ∈ (rec_key <$> mt_set m)) as (q & -> & Hq)%list_elem_of_fmap
      by (rewrite (mt_inv_keys _ _ _ _ _ Hinv); by apply list_elem_of_fmap_2);
    by apply Heq.
  all: apply Forall_forall; intros q Hq; apply in_bounds_included;
    assert (rec_key q ∈ (rec_key <$> rs)) as (r & -> & Hr')%list_elem_of_fmap
      by (rewrite <- (mt_inv_keys _ _ _ _ _ Hinv); by apply list_elem_of_fmap_2);
    by apply Hall.
Qed.

(** [full_range] always returns every record, in key order, and
    [range_cloned] builds the same sequence as [range]. *)
Theorem memtable_full_range_complete (id limit : Z) (rs : list LogRecord) (m : MemtableInner)
    (Hlim : 0 <= limit) (Hr : mt_reach id limit rs m) (Hwf : Forall (fun r => key_wf (rec_key r)) rs) :
  memtable_full_range (E := Error) m = Ok (mt_set m) /\
  forall s e, memtable_range_cloned (E := Error) s e m = memtable_range s e m.
Proof.
  pose proof (mt_reach_inv _ _ _ _ Hlim Hr) as Hinv. split.
  - unfold memtable_full_range. rewrite bset_range_ok by reflexivity. f_equal. apply filter_all.
    apply Forall_forall. intros q Hq. apply in_bounds_included.
    assert (rec_key q ∈ (rec_key <$> rs)) as (r & -> & Hr')%list_elem_of_fmap
      by (rewrite <- (mt_inv_keys _ _ _ _ _ Hinv); by apply list_elem_of_fmap_2).
    rewrite Forall_forall in Hwf. specialize (Hwf r Hr').
    split; [by apply key_default_least|by apply key_max_greatest].
  - intros s e. unfold memtable_range_cloned, memtable_range.
    destruct (decide (mt_set m = [])) as [->|Hne]; [done|]. rewrite bset_range_nonempty by done.
    destruct (range_panics s e); [done|]. rewrite ok_bind. f_equal.
    rewrite <- (app_nil_l (List.filter _ _)) at 2. apply foldl_insert_sorted.
    apply filter_sorted, Hinv.
Qed.

(** ** Witnesses *)

Definition sample_memtable : MemtableInner :=
  (memtable_append (sample_record 5) (memtable_append (sample_record 9) (with_size_limit 3 200)).1).1.

Lemma sample_memtable_reach : mt_reach 3 200 [sample_record 9; sample_record 5] sample_memtable.
Proof.
  apply (mt_reach_append 3 200 [sample_record 9] (memtable_append (sample_record 9) (with_size_limit 3 200)).1
    (sample_record 5) sample_memtable AppendOk); [|reflexivity].
  exact (mt_reach_append 3 200 [] (with_size_limit 3 200) (sample_record 9) _ AppendOk
    (mt_reach_new 3 200) eq_refl).
Qed.

Lemma memtable_reach_spec_witness :
  mt_set sample_memtable = [sample_record 5; sample_record 9] /\
  mt_set sample_memtable ≡ₚ first_by_key [] [sample_record 9; sample_record 5].
Proof.
  split; [reflexivity|].
  apply (memtable_reach_spec 3 200 _ sample_memtable ltac:(lia) sample_memtable_reach).
Defined.

(** a third record of 108 bytes no longer fits *)
Definition large_record : LogRecord :=
  {| rec_key := rec_key (sample_record 7); rec_payload := replicate 60 zero_byte |}.

Lemma memtable_append_spec_witness :
  let '(m', o) := memtable_append large_record sample_memtable in
  m' = sample_memtable /\ o = AppendFull (Some large_record).
Proof.
  exact (memtable_append_spec 3 200 _ sample_memtable large_record ltac:(lia) sample_memtable_reach).
Defined.

(** two records in descending key order: the flush range panics *)
Lemma memtable_flush_range_witness :
  exists s e, key_bounds_full sample_memtable = Ok (s, e) /\
    memtable_range (E := Error) s e sample_memtable = Panic.
Proof.
  destruct (memtable_flush_range 3 200 _ sample_memtable (sample_record 9) (sample_record 5)
    ltac:(lia) sample_memtable_reach eq_refl eq_refl) as (s & e & Hb & Hp & _).
  exists s, e. split; [exact Hb|]. by apply Hp.
Defined.

Lemma memtable_full_range_complete_witness :
  memtable_full_range (E := Error) sample_memtable = Ok [sample_record 5; sample_record 9].
Proof.
  apply (memtable_full_range_complete 3 200 _ sample_memtable ltac:(lia) sample_memtable_reach).
  repeat constructor; done.
Defined.
