(* ===== verification/Label.v ===== *)
(** * Labels: logregator-tsdb/src/label.rs

    Label maps and their wire format, and the stream registry with its two
    derived indexes. [Arc<str>] is the list of the string's bytes; hash maps
    and sets are [gmap] and [gset]. *)
From stdpp Require Import gmap.
From S2P Require Import Prelude Std Ext Codec Record.

Definition str := list byte.
#[global] Instance str_cmp : Cmp str := bytes_cmp.
#[global] Instance str_total_cmp : TotalCmp str := bytes_total_cmp.
#[global] Instance str_leibniz_cmp : LeibnizCmp str := bytes_leibniz_cmp.

(** ** [Label] and [LabelMap] *)

Definition Label : Type := str * str.

Record LabelMap := { lm_inner : list (str * str); lm_fingerprint : Z }.
#[global] Instance LabelMap_eq_dec : EqDecision LabelMap.
Proof. solve_decision. Defined.
#[global] Program Instance LabelMap_countable : Countable LabelMap :=
  inj_countable' (fun m => (lm_inner m, lm_fingerprint m)) (fun p => {| lm_inner := p.1; lm_fingerprint := p.2 |}) _.
Next Obligation. by intros []. Qed.

(** [PartialEq for LabelMap]: fingerprints first, then the maps. *)
Definition labelmap_eqb (a b : LabelMap) : bool :=
  if negb (lm_fingerprint a =? lm_fingerprint b) then false
  else bool_decide (lm_inner a = lm_inner b).

Definition labelmap_len (m : LabelMap) : Z := blen (lm_inner m).
Definition labelmap_iter (m : LabelMap) : list (str * str) := lm_inner m.

Fixpoint pairs_wire_len (l : list (str * str)) : Z :=
  match l with
  | [] => 0
  | (k, v) :: t => SZ_U8 * 2 + (blen k + blen v) + pairs_wire_len t
  end.
#[global] Instance labelmap_wire_len : WireLen LabelMap := fun m => SZ_U8 + pairs_wire_len (lm_inner m).

Definition labelmap_new `{DefaultHasher} (map : list (str * str)) : LabelMap :=
  {| lm_inner := map; lm_fingerprint := hash_strs map |}.

(** ** [LabelMapCodec] *)

Definition MIN_STR_SIZE : Z := 1.
Definition MAX_STR_SIZE : Z := u8_max.
Definition MAX_LABEL_COUNT : Z := u8_max.
#[export] Hint Unfold MIN_STR_SIZE MAX_STR_SIZE MAX_LABEL_COUNT u8_max : sizes.

(** [(MIN_STR_SIZE..MAX_STR_SIZE).contains(&n)]: the end is excluded. *)
Definition str_size_ok (n : Z) : bool := (MIN_STR_SIZE <=? n) && (n <? MAX_STR_SIZE).

Section label_codec.
Context `{Nom, DefaultHasher}.

(** [None] is any nom error: the callers only format it. *)
Definition take_lp_str (src : list byte) : option (list byte * str) :=
  match nom_be_u8 src with
  | None => None
  | Some (input, len) =>
      match nom_take len input with
      | None => None
      | Some (input, str_bs) => if utf8_valid str_bs then Some (input, str_bs) else None
      end
  end.

Fixpoint parse_pairs (count : nat) (map : list (str * str)) (remainder : list byte)
    : option (list byte * list (str * str)) :=
  match count with
  | O => Some (remainder, map)
  | S count =>
      match take_lp_str remainder with
      | None => None
      | Some (remainder, k) =>
          match take_lp_str remainder with
          | None => None
          | Some (remainder, v) => parse_pairs count (bmap_insert k v map) remainder
          end
      end
  end.

Definition parse_label_map (src : list byte) : option (list byte * LabelMap) :=
  match nom_be_u8 src with
  | None => None
  | Some (input, label_count) =>
      match parse_pairs (Z.to_nat label_count) [] input with
      | None => None
      | Some (remainder, map) => Some (remainder, labelmap_new map)
      end
  end.

Definition labelmap_decode (src : list byte) : outcome CodecError (option (LabelMap * Z)) :=
  match parse_label_map src with
  | None => Err (CodecOther "nom parsing error: failed to parse key-value pairs for label map")
  | Some (remaining, map) => Ok (Some (map, blen src - blen remaining))
  end.

(** the checks before anything is written *)
Fixpoint check_pairs (l : list (str * str)) : outcome CodecError unit :=
  match l with
  | [] => Ok tt
  | (k, v) :: t =>
      if negb (str_size_ok (blen k)) then Err (CodecOther "labelmaps key length is invalid")
      else if negb (str_size_ok (blen v)) then Err (CodecOther "labelmaps value length is invalid")
      else check_pairs t
  end.

Fixpoint write_pairs (l : list (str * str)) (start : Z) : st (list byte) CodecError Z :=
  match l with
  | [] => mret start
  | (k, v) :: t =>
      _ ← copy_into start (start + 1) [u8_of (blen k)];
      _ ← copy_into (start + 1) (start + 1 + blen k) k;
      let start := start + 1 + blen k in
      _ ← copy_into start (start + 1) [u8_of (blen v)];
      _ ← copy_into (start + 1) (start + 1 + blen v) v;
      write_pairs t (start + 1 + blen v)
  end.

Definition labelmap_encode (item : LabelMap) : st (list byte) CodecError Z := fun dst =>
  if MAX_LABEL_COUNT <? blen (lm_inner item) then (dst, Err (CodecOther "too many items in labelmap"))
  else
    match check_pairs (lm_inner item) with
    | Err e => (dst, Err e)
    | Panic => (dst, Panic)
    | Ok _ =>
        if blen dst <? wire_len item then (dst, Err (not_enough_bytes (blen dst) (wire_len item)))
        else (_ ← copy_into 0 1 [u8_of (blen (lm_inner item))]; write_pairs (lm_inner item) 1) dst
    end.

#[global] Instance LabelMap_codec : SpecCodec LabelMap :=
  {| encode := labelmap_encode; decode := labelmap_decode |}.
End label_codec.

(** ** [StreamRegistry] *)

Record StreamRegistry := {
  labelmap_by_stream : gmap Z LabelMap;
  stream_by_labelmap : gmap LabelMap Z;
  kv_index : gmap (str * str) (gset Z)
}.

Definition registry_default : StreamRegistry :=
  {| labelmap_by_stream := ∅; stream_by_labelmap := ∅; kv_index := ∅ |}.

(** one turn of the loop that both [insert] and [from] run over the labels *)
Definition index_label (sid : Z) (ix : gmap (str * str) (gset Z)) (kv : str * str)
    : gmap (str * str) (gset Z) :=
  match ix !! kv with
  | Some stream_ids => <[kv := {[sid]} ∪ stream_ids]> ix
  | None => <[kv := {[sid]}]> ix
  end.
Definition index_labels (sid : Z) (m : LabelMap) (ix : gmap (str * str) (gset Z))
    : gmap (str * str) (gset Z) := foldl (index_label sid) ix (labelmap_iter m).

Definition registry_insert (sid : Z) (m : LabelMap) (r : StreamRegistry) : StreamRegistry :=
  {| labelmap_by_stream := <[sid := m]> (labelmap_by_stream r);
     stream_by_labelmap := <[m := sid]> (stream_by_labelmap r);
     kv_index := index_labels sid m (kv_index r) |}.

(** [From<HashMap<..>>]: [entries] are the map's entries in the order its
    iterator yields them, which is unspecified. *)
Definition registry_from (by_stream : gmap Z LabelMap) (entries : list (Z * LabelMap)) : StreamRegistry :=
  let '(by_map, ix) :=
    foldl (fun '(by_map, ix) '(sid, m) => (<[m := sid]> by_map, index_labels sid m ix)) (∅, ∅) entries in
  {| labelmap_by_stream := by_stream; stream_by_labelmap := by_map; kv_index := ix |}.

Definition get_stream_id_by_labelmap (r : StreamRegistry) (m : LabelMap) : option Z :=
  stream_by_labelmap r !! m.
Definition get_labelmap_by_stream_ref (r : StreamRegistry) (sid : Z) : option LabelMap :=
  labelmap_by_stream r !! sid.
Definition get_labelmap_by_stream_cloned (r : StreamRegistry) (sid : Z) : option LabelMap :=
  labelmap_by_stream r !! sid.
Definition get_streams_by_kv (r : StreamRegistry) (kv : str * str) : option (gset Z) := kv_index r !! kv.

(** the loop over the remaining sets, which stops when nothing is left *)
Fixpoint retain_all (acc : gset Z) (sets : list (gset Z)) : gset Z :=
  match sets with
  | [] => acc
  | s :: sets =>
      let acc := filter (fun id => id ∈ s) acc in
      if decide (acc = ∅) then acc else retain_all acc sets
  end.

(** [sort_unstable_by_key(|s| s.len())] *)
Definition by_size (a b : gset Z) : Prop := (size a <= size b)%nat.
#[global] Instance by_size_dec a b : Decision (by_size a b) := Compare_dec.le_dec _ _.

Definition label_intersection (r : StreamRegistry) (labels : list (str * str)) : gset Z :=
  match omap (fun kv => kv_index r !! kv) labels with
  | [] => ∅
  | [s] => s
  | sets => match merge_sort by_size sets with
            | [] => ∅
            | acc :: rest => retain_all acc rest
            end
  end.

(** ** The wire format of label maps *)

Fixpoint pairs_wire (l : list (str * str)) : list byte :=
  match l with
  | [] => []
  | (k, v) :: t => ([u8_of (blen k)] ++ k) ++ ([u8_of (blen v)] ++ v) ++ pairs_wire t
  end.
Definition labelmap_wire (m : LabelMap) : list byte := [u8_of (blen (lm_inner m))] ++ pairs_wire (lm_inner m).

(** What decoding guarantees of a label, and what encoding wants of it. *)
Definition pair_decoded (kv : str * str) : Prop :=
  blen kv.1 <= u8_max /\ blen kv.2 <= u8_max /\ utf8_valid kv.1 = true /\ utf8_valid kv.2 = true.
Definition pair_sized (kv : str * str) : Prop :=
  str_size_ok (blen kv.1) = true /\ str_size_ok (blen kv.2) = true.

Record labelmap_wf `{DefaultHasher} (m : LabelMap) : Prop := {
  lw_sorted : bmap_sorted (lm_inner m);
  lw_count : blen (lm_inner m) <= MAX_LABEL_COUNT;
  lw_pairs : Forall pair_decoded (lm_inner m);
  lw_fingerprint : lm_fingerprint m = hash_strs (lm_inner m)
}.
Definition labelmap_valid `{DefaultHasher} (m : LabelMap) : Prop :=
  labelmap_wf m /\ Forall pair_sized (lm_inner m).

Lemma blen_pairs_wire l : blen (pairs_wire l) = pairs_wire_len l.
Proof. induction l as [|[k v] t IH]; cbn [pairs_wire pairs_wire_len]; [done|]. rewrite <- IH. zlia. Qed.
Lemma blen_labelmap_wire m : blen (labelmap_wire m) = wire_len m.
Proof. unfold labelmap_wire, wire_len, labelmap_wire_len. rewrite <- blen_pairs_wire. zlia. Qed.
#[export] Hint Rewrite blen_pairs_wire blen_labelmap_wire : blen.

Lemma check_pairs_ok l : Forall pair_sized l -> check_pairs l = Ok tt.
Proof. induction 1 as [|[k v] t [Hk Hv] _ IH]; cbn in *; [done|]. by rewrite Hk, Hv. Qed.

Lemma check_pairs_inv l : check_pairs l = Ok tt -> Forall pair_sized l.
Proof.
  induction l as [|[k v] t IH]; cbn; [constructor|].
  destruct (str_size_ok (blen k)) eqn:Ek; [|done]. destruct (str_size_ok (blen v)) eqn:Ev; [|done].
  cbn. intros Ht. constructor; [done|by apply IH].
Qed.

Lemma check_pairs_no_panic l : check_pairs l <> Panic.
Proof. induction l as [|[k v] t IH]; cbn; [done|]. by repeat case_if. Qed.

Lemma write_str (s done free : list byte) start :
  start = blen done -> 1 + blen s <= blen free ->
  (_ ← copy_into start (start + 1) [u8_of (blen s)];
   copy_into (start + 1) (start + 1 + blen s) s : st (list byte) CodecError unit) (done ++ free)
  = ((done ++ [u8_of (blen s)] ++ s) ++ drop (1 + length s) free, Ok tt).
Proof.
  intros -> Hle. rewrite st_bind_unfold, copy_into_next by zlia.
  cbn [length]. rewrite copy_into_next by zlia. by rewrite drop_drop, <- !app_assoc.
Qed.

Lemma write_pairs_wire l (done free : list byte) start :
  start = blen done -> pairs_wire_len l <= blen free ->
  write_pairs l start (done ++ free)
  = ((done ++ pairs_wire l) ++ drop (length (pairs_wire l)) free, Ok (start + pairs_wire_len l)).
Proof.
  revert start done free. induction l as [|[k v] t IH]; intros start done free Hs Hle.
  - cbn. by rewrite app_nil_r, Z.add_0_r.
  - cbn [write_pairs pairs_wire_len] in *.
    pose proof (blen_nonneg (pairs_wire t)) as Hp. rewrite blen_pairs_wire in Hp.
    pose proof (write_str k done free start Hs ltac:(zlia)) as Hk. rewrite st_bind_unfold in Hk.
    rewrite st_bind_unfold. destruct (copy_into start _ _ _) as [b1 [[]|e|]]; try done.
    rewrite st_bind_unfold, Hk.
    pose proof (write_str v (done ++ [u8_of (blen k)] ++ k) (drop (1 + length k) free)
      (start + 1 + blen k) ltac:(zlia)) as Hv.
    specialize (Hv ltac:(rewrite blen_drop; unfold blen in *; zlia)). rewrite st_bind_unfold in Hv.
    rewrite st_bind_unfold. destruct (copy_into _ _ [u8_of (blen v)] _) as [b2 [[]|e|]]; try done.
    rewrite st_bind_unfold, Hv.
    rewrite IH; [|zlia|rewrite !blen_drop; unfold blen in *; zlia].
    cbn [pairs_wire]. rewrite !drop_drop, !length_app. cbn [length]. f_equal.
    + rewrite <- !app_assoc. do 7 f_equal.
    + f_equal. zlia.
Qed.

Section label_codec_proofs.
Context `{NomLaws, DefaultHasher}.

Lemma nom_take_app n (s rest : list byte) : n = blen s -> nom_take n (s ++ rest) = Some (rest, s).
Proof.
  intros ->. rewrite nom_take_spec. if_false. by rewrite drop_app_blen, take_app_blen.
Qed.

Lemma take_lp_str_wire (s rest : list byte) :
  blen s <= u8_max -> utf8_valid s = true ->
  take_lp_str (([u8_of (blen s)] ++ s) ++ rest) = Some (rest, s).
Proof.
  intros Hs Hu. unfold take_lp_str. cbn. rewrite nom_be_u8_spec. cbn.
  rewrite u8_val_of by (split; [zlia|done]). by rewrite nom_take_app, Hu.
Qed.

(** the map built from pairs in the order they are read *)
Definition map_pairs (acc l : list (str * str)) : list (str * str) :=
  foldl (fun m kv => bmap_insert kv.1 kv.2 m) acc l.

Lemma parse_pairs_of l acc rest :
  Forall pair_decoded l ->
  parse_pairs (length l) acc (pairs_wire l ++ rest) = Some (rest, map_pairs acc l).
Proof.
  intros Hd. revert acc. induction Hd as [|[k v] t (Hk & Hv & Huk & Huv) Ht IH]; intros acc; [done|].
  cbn [length pairs_wire parse_pairs fst snd] in *.
  rewrite <- app_assoc, take_lp_str_wire by done.
  rewrite <- app_assoc, take_lp_str_wire by done. by rewrite IH.
Qed.

Lemma map_pairs_id l acc : bmap_sorted (acc ++ l) -> map_pairs acc l = acc ++ l.
Proof.
  revert acc. induction l as [|[k v] t IH]; intros acc Hs; [by rewrite app_nil_r|].
  unfold map_pairs. cbn [foldl fst snd]. fold (map_pairs (bmap_insert k v acc) t). rewrite bmap_insert_last.
  - rewrite (IH (acc ++ [(k, v)])); by rewrite <- app_assoc.
  - apply Forall_forall. intros kv Hkv. apply (StronglySorted_app_1_elem_of _ _ _ kv (k, v) Hs Hkv). left.
Qed.

(** What the parser accepts, it turns into a well-formed map. *)
Lemma take_lp_str_inv src rest s :
  take_lp_str src = Some (rest, s) ->
  blen s <= u8_max /\ utf8_valid s = true /\ src = ([u8_of (blen s)] ++ s) ++ rest.
Proof.
  unfold take_lp_str. rewrite nom_be_u8_spec. destruct src as [|b src]; [done|].
  rewrite nom_take_spec. pose proof (u8_val_range b) as [? ?]. case_if; [done|].
  destruct (utf8_valid _) eqn:Hu; [|done]. intros [= <- <-].
  assert (blen (take (Z.to_nat (u8_val b)) src) = u8_val b) as Hlen by zlia.
  split_and!; [lia|done|]. rewrite Hlen, u8_of_val. cbn. by rewrite take_drop.
Qed.

Lemma bmap_insert_Forall {K V} `{TotalCmp K, !LeibnizCmp K} (P : K * V -> Prop) k v m :
  P (k, v) -> Forall P m -> Forall P (bmap_insert k v m).
Proof.
  intros Hkv Hm. induction Hm as [|[k' v'] t Hx Ht IHm]; cbn; [by repeat constructor|].
  destruct (cmp k k') eqn:E; [|by repeat constructor..].
  apply cmp_eq in E as ->. by constructor.
Qed.

Lemma bmap_insert_length {K V} `{Cmp K} (k : K) (v : V) m :
  blen (bmap_insert k v m) <= 1 + blen m.
Proof. induction m as [|[k' v'] t IHm]; cbn; [done|]. destruct (cmp k k'); zlia. Qed.

Lemma parse_pairs_inv count acc src rest m :
  parse_pairs count acc src = Some (rest, m) ->
  exists l, length l = count /\ Forall pair_decoded l /\ src = pairs_wire l ++ rest /\ m = map_pairs acc l.
Proof.
  revert acc src. induction count as [|count IH]; intros acc src; cbn [parse_pairs].
  - intros [= <- <-]. by exists [].
  - destruct (take_lp_str src) as [[r1 k]|] eqn:E1; [|done].
    destruct (take_lp_str r1) as [[r2 v]|] eqn:E2; [|done]. intros Hp.
    apply take_lp_str_inv in E1 as (Hk & Huk & ->), E2 as (Hv & Huv & ->).
    destruct (IH _ _ Hp) as (l & Hlen & Hd & -> & ->). exists ((k, v) :: l). cbn [length pairs_wire].
    split_and!; [by rewrite Hlen|by constructor|by rewrite !app_assoc|done].
Qed.

Lemma map_pairs_wf acc l :
  bmap_sorted acc -> Forall pair_decoded acc -> Forall pair_decoded l ->
  bmap_sorted (map_pairs acc l) /\ Forall pair_decoded (map_pairs acc l) /\
  blen (map_pairs acc l) <= blen acc + blen l.
Proof.
  intros Hs Ha Hl. revert acc Hs Ha. induction Hl as [|[k v] l Hkv Hl IH]; intros acc Hs Ha; cbn; [split_and!; try done; zlia|].
  destruct (IH (bmap_insert k v acc)) as (? & ? & ?);
    [by apply bmap_insert_sorted|by apply bmap_insert_Forall|]. pose proof (bmap_insert_length k v acc).
  split_and!; [done|done|]. change (foldl _ _ l) with (map_pairs (bmap_insert k v acc) l). zlia.
Qed.

(** the value that counts for a key is that of its last pair *)
Definition last_pair (l : list (str * str)) (k v : str) : Prop :=
  exists pre post, l = pre ++ (k, v) :: post /\ k ∉ post.*1.

Lemma map_pairs_get l k v : bmap_get k (map_pairs [] l) = Some v <-> last_pair l k v.
Proof.
  induction l as [|[k' v'] l IH] using rev_ind; [split; [done|by intros (? & ? & ?%app_cons_not_nil & _)]|].
  unfold map_pairs. rewrite foldl_app. cbn [foldl fst snd]. fold (map_pairs [] l).
  destruct (decide (k' = k)) as [->|Hne].
  - rewrite bmap_get_insert. split.
    + intros [= ->]. exists l, []. split; [done|]. apply not_elem_of_nil.
    + intros (pre & post & Heq & Hk). destruct post as [|q post _] using rev_ind.
      * by apply app_inj_tail in Heq as [_ [= ->]].
      * rewrite app_comm_cons, app_assoc in Heq. apply app_inj_tail in Heq as [_ <-].
        rewrite fmap_app in Hk. cbn in Hk. set_solver.
  - rewrite bmap_get_insert_ne, IH by done. split.
    + intros (pre & post & -> & Hk). exists pre, (post ++ [(k', v')]). rewrite <- app_assoc.
      split; [done|]. rewrite fmap_app. cbn. set_solver.
    + intros (pre & post & Heq & Hk). destruct post as [|q post _] using rev_ind.
      * apply app_inj_tail in Heq as [_ [= -> _]]. done.
      * rewrite app_comm_cons, app_assoc in Heq. apply app_inj_tail in Heq as [-> _].
        exists pre, post. split; [done|]. rewrite fmap_app in Hk. set_solver.
Qed.
End label_codec_proofs.

#[global] Instance labelmap_lawful `{NomLaws, DefaultHasher} :
  LawfulCodec LabelMap labelmap_valid labelmap_wire.
Proof.
  split.
  - intros m _. unfold labelmap_wire. pose proof (blen_nonneg (pairs_wire (lm_inner m))). zlia.
  - intros m _. by rewrite blen_labelmap_wire.
  - intros m dst [Hwf Hsz] Hlen. cbn [encode LabelMap_codec]. unfold labelmap_encode.
    destruct Hwf as [_ Hc _ _]. if_false. rewrite check_pairs_ok by done. if_false.
    pose proof (blen_nonneg (pairs_wire (lm_inner m))).
    rewrite st_bind_unfold, <- (app_nil_l dst), copy_into_next by (unfold wire_len, labelmap_wire_len in *; zlia).
    cbn [length]. rewrite write_pairs_wire.
    + unfold labelmap_wire. rewrite !app_nil_l. cbn [length app]. by rewrite drop_drop.
    + done.
    + unfold wire_len, labelmap_wire_len in *. zlia.
  - intros m rest [[Hs Hc Hp Hf] _]. cbn [decode LabelMap_codec]. unfold labelmap_decode, parse_label_map.
    rewrite nom_be_u8_spec. unfold labelmap_wire. cbn [app].
    rewrite u8_val_of by (split; zlia). unfold blen at 1. rewrite Nat2Z.id.
    rewrite parse_pairs_of, map_pairs_id by done.
    unfold labelmap_new. cbn [app]. rewrite <- Hf. do 3 f_equal; [by destruct m|]. zlia.
Qed.

Section registry_proofs.
(** The three maps of the registry agree. *)
Record registry_wf (r : StreamRegistry) : Prop := {
  rw_map : forall m sid, stream_by_labelmap r !! m = Some sid <-> labelmap_by_stream r !! sid = Some m;
  rw_index : forall kv sid, (exists s, kv_index r !! kv = Some s /\ sid ∈ s) <->
    exists m, labelmap_by_stream r !! sid = Some m /\ kv ∈ lm_inner m;
  rw_nonempty : forall kv s, kv_index r !! kv = Some s -> s <> ∅
}.

Definition ix_has (ix : gmap (str * str) (gset Z)) (kv : str * str) (sid : Z) : Prop :=
  exists s, ix !! kv = Some s /\ sid ∈ s.

Lemma index_label_has sid ix kv kv' sid' :
  ix_has (index_label sid ix kv) kv' sid' <-> ix_has ix kv' sid' \/ (kv' = kv /\ sid' = sid).
Proof.
  unfold ix_has, index_label. destruct (ix !! kv) as [s|] eqn:E.
  - destruct (decide (kv' = kv)) as [->|Hne].
    + rewrite lookup_insert_eq, E. split.
      * intros (? & [= <-] & [->%elem_of_singleton|?]%elem_of_union); eauto.
      * intros [(? & [= <-] & ?)|[_ ->]]; eexists; (split; [done|]); set_solver.
    + rewrite lookup_insert_ne by done. intuition congruence.
  - destruct (decide (kv' = kv)) as [->|Hne].
    + rewrite lookup_insert_eq, E. split.
      * intros (? & [= <-] & ->%elem_of_singleton); eauto.
      * intros [(? & [=] & ?)|[_ ->]]. eexists; (split; [done|]); set_solver.
    + rewrite lookup_insert_ne by done. intuition congruence.
Qed.

Lemma index_labels_has sid m ix kv' sid' :
  ix_has (index_labels sid m ix) kv' sid' <-> ix_has ix kv' sid' \/ (kv' ∈ lm_inner m /\ sid' = sid).
Proof.
  unfold index_labels, labelmap_iter. generalize (lm_inner m) as l. intros l. revert ix.
  induction l as [|kv l IH]; intros ix; cbn.
  - split; [by left|]. by intros [?|[?%not_elem_of_nil _]].
  - rewrite IH, index_label_has, elem_of_cons. tauto.
Qed.

Definition ix_nonempty (ix : gmap (str * str) (gset Z)) : Prop :=
  forall kv s, ix !! kv = Some s -> s <> ∅.

Lemma index_labels_nonempty sid m ix : ix_nonempty ix -> ix_nonempty (index_labels sid m ix).
Proof.
  unfold index_labels, labelmap_iter. generalize (lm_inner m) as l. intros l. revert ix.
  induction l as [|kv l IH]; intros ix Hix; cbn; [done|]. apply IH.
  intros kv' s. unfold index_label.
  destruct (ix !! kv) as [s0|] eqn:E; (destruct (decide (kv' = kv)) as [->|Hne];
    [rewrite lookup_insert_eq; intros [= <-]; set_solver|rewrite lookup_insert_ne by done; apply Hix]).
Qed.

Lemma registry_default_wf : registry_wf registry_default.
Proof.
  split; cbn.
  - intros m sid. by rewrite !lookup_empty.
  - intros kv sid. split.
    + intros (s & Hs & _). by rewrite lookup_empty in Hs.
    + intros (m & Hm & _). by rewrite lookup_empty in Hm.
  - intros kv s. by rewrite lookup_empty.
Qed.

Lemma registry_insert_fresh_wf sid m r :
  registry_wf r -> labelmap_by_stream r !! sid = None -> stream_by_labelmap r !! m = None ->
  registry_wf (registry_insert sid m r).
Proof.
  intros [Hm Hi Hn] Hsid Hmap. split; cbn.
  - intros m' sid'. destruct (decide (m' = m)) as [->|Hne], (decide (sid' = sid)) as [->|Hne'].
    + by rewrite !lookup_insert_eq.
    + rewrite lookup_insert_eq, lookup_insert_ne by done. rewrite <- Hm, Hmap. intuition congruence.
    + rewrite lookup_insert_eq, lookup_insert_ne by done. rewrite Hm, Hsid. intuition congruence.
    + rewrite !lookup_insert_ne by done. apply Hm.
  - intros kv sid'. change (ix_has (index_labels sid m (kv_index r)) kv sid' <->
      exists m', <[sid:=m]> (labelmap_by_stream r) !! sid' = Some m' /\ kv ∈ lm_inner m').
    rewrite index_labels_has. unfold ix_has. rewrite Hi.
    destruct (decide (sid' = sid)) as [->|Hne].
    + rewrite lookup_insert_eq, Hsid. split.
      * intros [(? & [=] & _)|[Hkv _]]. eauto.
      * intros (? & [= <-] & Hkv). by right.
    + rewrite lookup_insert_ne by done. intuition congruence.
  - by apply index_labels_nonempty.
Qed.
End registry_proofs.

Section registry_claims.
(** ** [from]: rebuilding the indexes, in whatever order the map iterates *)

Lemma registry_from_fold (entries : list (Z * LabelMap)) (by_map : gmap LabelMap Z) (ix : gmap (str * str) (gset Z)) :
  let '(by_map', ix') := foldl (fun '(bm, ix) '(sid, m) => (<[m := sid]> bm, index_labels sid m ix))
                           (by_map, ix) entries in
  (ix_nonempty ix -> ix_nonempty ix') /\
  (forall kv sid, ix_has ix' kv sid <->
     ix_has ix kv sid \/ exists m, (sid, m) ∈ entries /\ kv ∈ lm_inner m) /\
  (NoDup entries.*2 -> (forall m, m ∈ entries.*2 -> by_map !! m = None) ->
   forall m sid, by_map' !! m = Some sid <-> by_map !! m = Some sid \/ (sid, m) ∈ entries).
Proof.
  revert by_map ix. induction entries as [|[sid0 m0] entries IH]; intros by_map ix; cbn [foldl].
  - split_and!; [done| |].
    + intros kv sid. split; [by left|]. by intros [?|(? & ?%not_elem_of_nil & _)].
    + intros _ _ m sid. split; [by left|]. by intros [?|?%not_elem_of_nil].
  - specialize (IH (<[m0:=sid0]> by_map) (index_labels sid0 m0 ix)).
    destruct (foldl _ _ entries) as [by_map' ix']. destruct IH as (Hn & Hi & Hm). split_and!.
    + intros Hix. by apply Hn, index_labels_nonempty.
    + intros kv sid. rewrite Hi, index_labels_has. setoid_rewrite elem_of_cons. split.
      * intros [[?|[? ->]]|(m & ? & ?)]; [by left|right; exists m0; auto|right; exists m; auto].
      * intros [?|(m & [[= -> ->]|?] & ?)]; [by left; left|by left; right|right; eauto].
    + intros Hnd Hfresh m sid. cbn in Hnd. apply NoDup_cons in Hnd as [Hm0 Hnd].
      rewrite Hm; [| done |].
      * rewrite elem_of_cons. destruct (decide (m = m0)) as [->|Hne].
        -- rewrite lookup_insert_eq, (Hfresh m0) by (cbn; left). split.
           ++ intros [[= ->]|Hin]; [by right; left|]. by right; right.
           ++ intros [[=]|[[= ->]|Hin]]; [by left|]. by right.
        -- rewrite lookup_insert_ne by done. intuition congruence.
      * intros m' Hm'. rewrite lookup_insert_ne by (intros <-; done).
        apply Hfresh. cbn. by right.
Qed.

Lemma registry_from_wf (by_stream : gmap Z LabelMap) (entries : list (Z * LabelMap)) :
  entries ≡ₚ map_to_list by_stream ->
  (forall s1 s2 m, by_stream !! s1 = Some m -> by_stream !! s2 = Some m -> s1 = s2) ->
  registry_wf (registry_from by_stream entries).
Proof.
  intros Hp Hinj. unfold registry_from. pose proof (registry_from_fold entries ∅ ∅) as Hfold.
  destruct (foldl _ _ entries) as [by_map ix]. destruct Hfold as (Hn & Hi & Hm).
  assert (forall sid m, (sid, m) ∈ entries <-> by_stream !! sid = Some m) as Hent
    by (intros; by rewrite Hp, elem_of_map_to_list).
  split; cbn.
  - intros m sid. rewrite Hm; [|clear Hi Hm Hn|].
    + rewrite lookup_empty, Hent. intuition congruence.
    + apply NoDup_fmap_2_strong; [|rewrite Hp; apply NoDup_map_to_list].
      intros [s1 m1] [s2 m2] H1 H2. cbn. intros ->. f_equal.
      apply Hent in H1, H2. by eapply Hinj.
    + intros m' _. apply lookup_empty.
  - intros kv sid. change (ix_has ix kv sid <-> exists m, by_stream !! sid = Some m /\ kv ∈ lm_inner m).
    rewrite Hi. setoid_rewrite Hent. split; [|by right].
    intros [(s & Hs & _)|?]; [by rewrite lookup_empty in Hs|done].
  - apply Hn. intros kv s. by rewrite lookup_empty.
Qed.

(** ** [label_intersection] *)

Lemma retain_all_spec acc sets id :
  id ∈ retain_all acc sets <-> id ∈ acc /\ Forall (fun s => id ∈ s) sets.
Proof.
  revert acc. induction sets as [|s sets IH]; intros acc; cbn; [intuition constructor|].
  destruct (decide (filter (fun id => id ∈ s) acc = ∅)) as [Heq|_].
  - rewrite Heq, Forall_cons. split; [set_solver|]. intros (Ha & Hs & _).
    rewrite <- Heq. by apply elem_of_filter.
  - rewrite IH, elem_of_filter, Forall_cons. tauto.
Qed.

(** in the order of [sort_unstable_by_key] or in any other *)
Lemma label_intersection_elem r labels id :
  id ∈ label_intersection r labels <->
  let sets := omap (fun kv => kv_index r !! kv) labels in
  sets <> [] /\ Forall (fun s => id ∈ s) sets.
Proof.
  unfold label_intersection. cbv zeta.
  destruct (omap _ labels) as [|s [|s' sets]].
  - set_solver.
  - rewrite Forall_singleton. intuition done.
  - set (l := s :: s' :: sets). pose proof (merge_sort_Permutation by_size l) as Hp.
    destruct (merge_sort by_size l) as [|acc rest] eqn:E; [by apply Permutation_nil_l in Hp|].
    rewrite retain_all_spec, <- Forall_cons, Hp. intuition done.
Qed.
End registry_claims.

(** the bytes of label pairs on the wire: their number, then the pairs *)
Definition labels_wire (l : list (str * str)) : list byte := [u8_of (blen l)] ++ pairs_wire l.
Definition labels_ok (l : list (str * str)) : Prop := blen l <= MAX_LABEL_COUNT /\ Forall pair_decoded l.

(** the label map that pairs in wire order stand for *)
Record map_of_labels `{DefaultHasher} (l : list (str * str)) (m : LabelMap) : Prop := {
  mol_sorted : bmap_sorted (lm_inner m);
  mol_pairs : forall k v, (k, v) ∈ lm_inner m <-> last_pair l k v;
  mol_fingerprint : lm_fingerprint m = hash_strs (lm_inner m)
}.

Section decode_facts.
Context `{NomLaws, DefaultHasher}.

Lemma blen_labels_wire l : blen (labels_wire l) = 1 + pairs_wire_len l.
Proof. unfold labels_wire. zlia. Qed.

Lemma labelmap_decode_of l rest :
  labels_ok l -> labelmap_decode (labels_wire l ++ rest) =
                 Ok (Some (labelmap_new (map_pairs [] l), blen (labels_wire l))).
Proof.
  intros [Hc Hl]. unfold labelmap_decode, parse_label_map. rewrite nom_be_u8_spec. unfold labels_wire at 1. cbn [app].
  rewrite u8_val_of by (split; zlia). unfold blen at 1. rewrite Nat2Z.id, parse_pairs_of by done.
  do 3 f_equal. zlia.
Qed.

Lemma labelmap_decode_some src m n :
  labelmap_decode src = Ok (Some (m, n)) ->
  exists l rest, labels_ok l /\ src = labels_wire l ++ rest /\ n = blen (labels_wire l) /\
    m = labelmap_new (map_pairs [] l).
Proof.
  intros Hd. pose proof Hd as Hd'. unfold labelmap_decode, parse_label_map in Hd. rewrite nom_be_u8_spec in Hd.
  destruct src as [|b src]; [done|].
  destruct (parse_pairs _ [] src) as [[rest m']|] eqn:E; [|done].
  destruct (parse_pairs_inv _ _ _ _ _ E) as (l & Hlen & Hl & -> & ->). pose proof (u8_val_range b) as [? Hb].
  assert (blen l = u8_val b) as Hbl by (unfold blen; lia).
  assert (b :: pairs_wire l ++ rest = labels_wire l ++ rest) as Heq
    by (unfold labels_wire; by rewrite Hbl, u8_of_val).
  rewrite Heq, labelmap_decode_of in Hd' by (split; zlia || done). injection Hd' as <- <-.
  exists l, rest. split_and!; try done. split; [zlia|done].
Qed.

Lemma map_of_labels_new l : labels_ok l -> map_of_labels l (labelmap_new (map_pairs [] l)).
Proof.
  intros [_ Hl]. destruct (map_pairs_wf [] l) as (Hs & _ & _); [constructor|constructor|done|].
  split; [done| |done]. intros k v. cbn. by rewrite bmap_get_elem, map_pairs_get.
Qed.

Lemma labelmap_decode_inv src m n :
  labelmap_decode src = Ok (Some (m, n)) -> labelmap_wf m /\ 0 < n <= blen src.
Proof.
  intros (l & rest & [Hc Hl] & -> & -> & ->)%labelmap_decode_some.
  destruct (map_pairs_wf [] l) as (Hs & Hp & Hlen); [constructor|constructor|done|].
  pose proof (blen_labels_wire l). pose proof (blen_nonneg (pairs_wire l)). rewrite blen_pairs_wire in *.
  split; [split; cbn; try done; zlia|zlia].
Qed.
(** a label map that is cut short is an error *)
Lemma labelmap_decode_cut m pre :
  labelmap_wf m -> pre `prefix_of` labelmap_wire m -> pre <> labelmap_wire m ->
  exists e, labelmap_decode pre = Err e.
Proof.
  intros [_ Hc Hp _] [more Hmore] Hne. assert (more <> []) as Hpos%blen_pos
    by (intros ->; rewrite app_nil_r in Hmore; congruence).
  destruct (labelmap_decode pre) as [[[m' n]|]|e|] eqn:E; [|exfalso; revert E|by eexists|exfalso; revert E].
  2,3: unfold labelmap_decode; by destruct (parse_label_map pre) as [[? ?]|].
  destruct (labelmap_decode_some _ _ _ E) as (l & rest & Hl & -> & _ & _).
  pose proof (labelmap_decode_of (lm_inner m) [] (conj Hc Hp)) as Hd. rewrite app_nil_r in Hd.
  change (labels_wire (lm_inner m)) with (labelmap_wire m) in Hd.
  rewrite Hmore, <- !app_assoc, labelmap_decode_of in Hd by done.
  apply (f_equal (fun o => match o with Ok (Some (_, n)) => n | _ => 0 end)) in Hd. zlia.
Qed.
End decode_facts.

(** ** Claims *)

(** A label map whose labels are 1 to 254 bytes long (and at most 255 of
    them) survives encoding: [encode] writes [wire_len] bytes, and [decode]
    of these bytes, whatever follows them, returns the same map, fingerprint
    included, and the number of bytes read. *)
Theorem labelmap_roundtrip `{NomLaws, DefaultHasher} (m : LabelMap) (dst : list byte)
    (Hm : labelmap_valid m) (Hdst : wire_len m <= blen dst) :
  exists buf, labelmap_encode m dst = (buf, Ok (wire_len m)) /\ blen buf = blen dst /\
    forall rest, labelmap_decode (take (Z.to_nat (wire_len m)) buf ++ rest) = Ok (Some (m, wire_len m)).
Proof.
  pose proof (encode_wire m dst Hm Hdst) as Henc. cbn [encode LabelMap_codec] in Henc.
  eexists. split; [exact Henc|]. split.
  - pose proof (blen_labelmap_wire m). unfold blen in *. rewrite length_app, length_drop. lia.
  - intros rest. rewrite take_app_blen by (by rewrite blen_labelmap_wire).
    pose proof (decode_wire m rest Hm) as Hdec. cbn [decode LabelMap_codec] in Hdec.
    by rewrite Hdec, blen_labelmap_wire.
Qed.

(** C34: what [decode] does with any bytes (log payloads come from clients). It
    accepts exactly the inputs that start with the wire form of some pairs: a
    count byte, then for each pair a length byte and the key, a length byte
    and the value, all valid UTF-8. It then reports the length of that wire
    form and returns the map of these pairs: sorted by key, holding for each
    key the value of its last pair, with the hash of its contents as
    fingerprint. Every other input is an error, never a request for more. *)
Theorem labelmap_decode_sound `{NomLaws, DefaultHasher} (src : list byte) :
  match labelmap_decode src with
  | Ok (Some (m, n)) =>
      exists l rest, src = labels_wire l ++ rest /\ n = blen (labels_wire l) /\ labels_ok l /\ map_of_labels l m
  | Err _ => forall l rest, labels_ok l -> src <> labels_wire l ++ rest
  | Ok None | Panic => False
  end.
Proof.
  destruct (labelmap_decode src) as [[[m n]|]|e|] eqn:E.
  - destruct (labelmap_decode_some src m n E) as (l & rest & Hl & -> & -> & ->).
    exists l, rest. split_and!; try apply Hl; [done|done|by apply map_of_labels_new].
  - revert E. unfold labelmap_decode. by destruct (parse_label_map src) as [[? ?]|].
  - intros l rest Hl ->. by rewrite labelmap_decode_of in E.
  - revert E. unfold labelmap_decode. by destruct (parse_label_map src) as [[? ?]|].
Qed.

(** C29: the registry's three maps agree (label map to stream, stream to label
    map, and label to streams) in a new registry, after every [insert] of a
    fresh stream for a label map not seen before (the way [append_batch]
    inserts), and after rebuilding it from the stream table with [from], in
    whatever order that table is iterated. *)
Theorem registry_consistent (sid : Z) (m : LabelMap) (r : StreamRegistry)
    (by_stream : gmap Z LabelMap) (entries : list (Z * LabelMap))
    (Hr : registry_wf r) (Hsid : get_labelmap_by_stream_ref r sid = None)
    (Hm : get_stream_id_by_labelmap r m = None)
    (Hentries : entries ≡ₚ map_to_list by_stream)
    (Hinj : forall s1 s2 m, by_stream !! s1 = Some m -> by_stream !! s2 = Some m -> s1 = s2) :
  registry_wf registry_default /\ registry_wf (registry_insert sid m r) /\
  registry_wf (registry_from by_stream entries).
Proof.
  split_and!; [apply registry_default_wf|by apply registry_insert_fresh_wf|by apply registry_from_wf].
Qed.

(** [label_intersection] returns the streams that carry every requested
    label that some stream carries, provided there is at least one such
    label. A requested label that no stream carries is ignored: it does not
    make the result empty. *)
Theorem label_intersection_spec (r : StreamRegistry) (labels : list (str * str)) (id : Z)
    (Hr : registry_wf r) :
  id ∈ label_intersection r labels <->
  (exists kv, kv ∈ labels /\ is_Some (get_streams_by_kv r kv)) /\
  forall kv, kv ∈ labels -> is_Some (get_streams_by_kv r kv) ->
    exists m, get_labelmap_by_stream_ref r id = Some m /\ kv ∈ lm_inner m.
Proof.
  rewrite label_intersection_elem. cbv zeta. unfold get_streams_by_kv, get_labelmap_by_stream_ref.
  setoid_rewrite <- (rw_index r Hr). rewrite Forall_forall. setoid_rewrite list_elem_of_omap.
  split.
  - intros [Hne Hall]. split.
    + destruct (omap _ labels) as [|s sets] eqn:E; [done|].
      assert (s ∈ omap (fun kv => kv_index r !! kv) labels) as Hs by (rewrite E; left).
      apply list_elem_of_omap in Hs as (kv & Hkv & Hs). by exists kv.
    + intros kv Hkv [s Hs]. exists s. split; [done|]. apply Hall. eauto.
  - intros [(kv & Hkv & [s Hs]) Hall]. split.
    + intros Heq. assert (s ∈ omap (fun kv => kv_index r !! kv) labels) as Hin
        by (apply list_elem_of_omap; eauto).
      rewrite Heq in Hin. by apply not_elem_of_nil in Hin.
    + intros s' (kv' & Hkv' & Hs'). destruct (Hall kv' Hkv') as (s'' & Hs'' & ?); [by eexists|congruence].
Qed.

(** ** Witnesses *)

Definition sample_labelmap : LabelMap :=
  @labelmap_new sum_hasher [([u8_of 97], [u8_of 98]); ([u8_of 99], [u8_of 100; u8_of 101])].

Lemma sample_labelmap_valid : @labelmap_valid sum_hasher sample_labelmap.
Proof. split; [split|]; [by repeat constructor|done|by repeat constructor|done|by repeat constructor]. Qed.

Lemma labelmap_roundtrip_witness :
  exists buf, labelmap_encode sample_labelmap (replicate 12 zero_byte) = (buf, Ok 10) /\
    blen buf = 12 /\
    forall rest, @labelmap_decode ref_nom sum_hasher (take 10 buf ++ rest) = Ok (Some (sample_labelmap, 10)).
Proof.
  apply (@labelmap_roundtrip ref_nom ref_nom_laws sum_hasher sample_labelmap (replicate 12 zero_byte)).
  - exact sample_labelmap_valid.
  - vm_compute. congruence.
Defined.

(** a key that occurs twice, and a byte after the map *)
Lemma labelmap_decode_sound_witness :
  let src := labels_wire [([u8_of 97], [u8_of 98]); ([u8_of 97], [u8_of 99])] ++ [u8_of 7] in
  labelmap_decode (H := ref_nom) (H0 := sum_hasher) src
    = Ok (Some (@labelmap_new sum_hasher [([u8_of 97], [u8_of 99])], 9)) /\
  exists l rest, src = labels_wire l ++ rest /\ 9 = blen (labels_wire l) /\ labels_ok l /\
    @map_of_labels sum_hasher l (@labelmap_new sum_hasher [([u8_of 97], [u8_of 99])]).
Proof.
  intros src. split; [vm_compute; reflexivity|].
  exact (@labelmap_decode_sound ref_nom ref_nom_laws sum_hasher src).
Defined.

Lemma registry_consistent_witness :
  registry_wf registry_default /\ registry_wf (registry_insert 0 sample_labelmap registry_default) /\
  registry_wf (registry_from {[3 := sample_labelmap]} [(3, sample_labelmap)]).
Proof.
  apply (registry_consistent 0 sample_labelmap registry_default {[3 := sample_labelmap]} [(3, sample_labelmap)]).
  - apply registry_default_wf.
  - reflexivity.
  - reflexivity.
  - by rewrite map_to_list_singleton.
  - intros s1 s2 m [<- _]%lookup_singleton_Some [<- _]%lookup_singleton_Some. reflexivity.
Defined.

(** a request for a known and an unknown label still finds the stream *)
Lemma label_intersection_spec_witness :
  4 ∈ label_intersection (registry_insert 4 sample_labelmap registry_default)
        [([u8_of 97], [u8_of 98]); ([u8_of 122], [u8_of 122])].
Proof.
  apply (label_intersection_spec (registry_insert 4 sample_labelmap registry_default)).
  - by apply registry_insert_fresh_wf; [apply registry_default_wf|..].
  - split.
    + exists ([u8_of 97], [u8_of 98]). split; [left|]. by eexists.
    + intros kv [->|[->|[]%not_elem_of_nil]%elem_of_cons]%elem_of_cons [s Hs].
      * exists sample_labelmap. split; [reflexivity|]. left.
      * exfalso. revert Hs. vm_compute. discriminate.
Defined.
