(* ===== verification/Block.v ===== *)
(** * SST blocks: logregator-tsdb/src/block.rs

    A block is the encodings of its records, one after the other, with the
    offset of each; [BlockWriter] builds one, [encode_block] and
    [decode_block] add and check the trailer, [BlockCursor] reads it. The
    record codec, a type parameter in the source, is [RecordCodec], its only
    implementation. A [Result] kept in a field is [inl] for [Ok], [inr] for
    [Err]. *)
From S2P Require Import Prelude Std Ext Codec Errors Record.

Definition DEFAULT_BLOCK_SIZE : Z := 16 * 1024.
Definition MAX_BLOCK_SIZE : Z := u16_max.
#[export] Hint Unfold DEFAULT_BLOCK_SIZE MAX_BLOCK_SIZE u16_max : sizes.

Record Block := { blk_data : list byte; blk_offsets : list Z }.

Definition num_of_records (b : Block) : Z := blen (blk_offsets b).
Definition offset_segment_start (b : Block) : Z := blen (blk_data b).
Definition offset_segment_len (b : Block) : Z := blen (blk_offsets b) * SZ_U16.
Definition offset_segment_end (b : Block) : Z := offset_segment_start b + offset_segment_len b.

(** the end of the record whose offset is followed by the offsets [t] *)
Definition next_offset (t : list Z) (seg_start : Z) : Z :=
  match t with e :: _ => e | [] => seg_start end.

(** ** [encode_block] *)

Fixpoint encode_offsets (offs : list Z) (seg_start : Z) (data : list byte)
    : outcome BlockCodecError (list byte) :=
  match offs with
  | [] => Ok data
  | start :: t =>
      let end_ := next_offset t seg_start in
      if end_ <=? start then Err (invalid_offsets start end_)
      else encode_offsets t seg_start (data ++ be_bytes 2 (wrap16 start))
  end.

Definition encode_block `{Crc32} (b : Block) : outcome BlockCodecError (list byte) :=
  if u16_max <? blen (blk_offsets b) then Err (too_many_records (blen (blk_offsets b)))
  else if offset_segment_len b =? 0 then Err (corrupted_meta "offset segment length is 0")
  else
    let total_size := blen (blk_data b) + offset_segment_len b + SZ_U16 in
    if MAX_BLOCK_SIZE <? total_size then Err (max_size_exceeded total_size)
    else if u16_max - MIN_RECORD_WIRE_LENGTH <? blen (blk_data b) then Panic (* todo! *)
    else
      data ← encode_offsets (blk_offsets b) (offset_segment_start b) (blk_data b);
      let data := data ++ be_bytes 2 (wrap16 (blen (blk_offsets b))) in
      Ok (data ++ be_bytes 4 (crc32 data)).

(** ** [decode_block] *)

(** [as_chunks::<2>().0] mapped with [u16::from_be_bytes] *)
Fixpoint u16_chunks (bs : list byte) : list Z :=
  match bs with
  | a :: b :: t => be_val [a; b] :: u16_chunks t
  | _ => []
  end.

Fixpoint check_offsets (offs : list Z) (seg_start : Z) : outcome BlockCodecError unit :=
  match offs with
  | [] => Ok tt
  | start :: t =>
      let end_ := next_offset t seg_start in
      if end_ <=? start then Err (invalid_offsets start end_)
      else
        let record_wire_len := end_ - start in
        if negb ((MIN_RECORD_WIRE_LENGTH <=? record_wire_len) && (record_wire_len <=? MAX_RECORD_WIRE_LENGTH))
        then Err (BceInvalidPayloadSize
                    {| is_got := record_wire_len; is_max := MAX_RECORD_WIRE_LENGTH;
                       is_min := MIN_RECORD_WIRE_LENGTH |})
        else check_offsets t seg_start
  end.

Definition decode_block `{Crc32} (src0 : list byte) : outcome BlockCodecError Block :=
  if blen src0 <? SZ_U32 then Err (unexpected_size (blen src0) SZ_U32)
  else
    src ← slice src0 0 (blen src0 - SZ_U32);
    checksum_bs ← slice src0 (blen src0 - SZ_U32) (blen src0);
    let stored := crc32 src in
    let computed := be_val checksum_bs in
    if negb (stored =? computed) then Err (checksum_mismatch stored computed)
    else if blen src <? SZ_U16 then Err (unexpected_size (blen src) SZ_U16)
    else
      buf ← slice src (blen src - SZ_U16) (blen src);
      let num_of_records := be_val buf in
      let offset_segment_len := num_of_records * SZ_U16 in
      let offset_segment_end := blen src - SZ_U16 in
      if offset_segment_end <? offset_segment_len
      then Err (BceInvalidOffsetSegment None (Some offset_segment_end) (Some offset_segment_len))
      else
        let offset_segment_start := offset_segment_end - offset_segment_len in
        data ← slice src 0 offset_segment_start;
        seg ← slice src offset_segment_start offset_segment_end;
        let offsets := u16_chunks seg in
        _ ← check_offsets offsets offset_segment_start;
        Ok {| blk_data := data; blk_offsets := offsets |}.

(** ** [BlockWriter] *)

Record BlockWriter := {
  bwr_buffer : list byte;
  bwr_offsets : list Z;
  bwr_size : Z;
  bwr_limit : Z;
  bwr_record_count : Z;
  bwr_first_key : option Key;
  bwr_last_key : option Key
}.

Inductive WriteOutput := Written | Full.

Definition block_writer_new (block_size_limit : option Z) : outcome InvalidBlockLimit BlockWriter :=
  limit ← match block_size_limit with
          | Some l => if MAX_BLOCK_SIZE <? l then Err {| ibl_got := l |} else Ok l
          | None => Ok DEFAULT_BLOCK_SIZE
          end;
  Ok {| bwr_buffer := []; bwr_offsets := []; bwr_size := 0; bwr_limit := limit;
        bwr_record_count := 0; bwr_first_key := None; bwr_last_key := None |}.

Definition into_block (w : BlockWriter) : Block * option Key * option Key :=
  ({| blk_data := bwr_buffer w; blk_offsets := bwr_offsets w |}, bwr_first_key w, bwr_last_key w).

Definition bwr_set_buffer (buf : list byte) (w : BlockWriter) : BlockWriter :=
  {| bwr_buffer := buf; bwr_offsets := bwr_offsets w; bwr_size := bwr_size w; bwr_limit := bwr_limit w;
     bwr_record_count := bwr_record_count w; bwr_first_key := bwr_first_key w; bwr_last_key := bwr_last_key w |}.

Definition est_total_size (w : BlockWriter) (rec : LogRecord) : Z :=
  bwr_size w + wire_len rec + (blen (bwr_offsets w) + 1) * SZ_U16 + SZ_U16.

Definition block_writer_write (rec : LogRecord) : st BlockWriter CodecError WriteOutput := fun w =>
  if negb (blen (bwr_offsets w) =? 0) && (bwr_limit w <? est_total_size w rec) then (w, Ok Full)
  else if MAX_BLOCK_SIZE <? est_total_size w rec then (w, Ok Full)
  else
    let orig_len := blen (bwr_buffer w) in
    let resized := bwr_buffer w ++ replicate (Z.to_nat (wire_len rec)) zero_byte in
    match on_subslice orig_len (orig_len + wire_len rec) (encode_record rec) resized with
    | (buf, Ok _) =>
        ({| bwr_buffer := buf;
            bwr_offsets := bwr_offsets w ++ [wrap16 (bwr_size w)];
            bwr_size := bwr_size w + wire_len rec;
            bwr_limit := bwr_limit w;
            bwr_record_count := bwr_record_count w + 1;
            bwr_first_key := match bwr_first_key w with None => Some (rec_key rec) | Some k => Some k end;
            bwr_last_key := Some (rec_key rec) |}, Ok Written)
    | (buf, Err e) => (bwr_set_buffer buf w, Err e)
    | (buf, Panic) => (bwr_set_buffer buf w, Panic)
    end.

(** ** [BlockCursor] *)

Record BlockCursor := {
  bc_block : Block;
  bc_offset_idx : Z;
  bc_record : option LogRecord + CodecError
}.

Definition block_cursor_new (b : Block) : BlockCursor :=
  {| bc_block := b; bc_offset_idx := 0; bc_record := inl None |}.

Definition bc_with (c : BlockCursor) (idx : Z) (r : option LogRecord + CodecError) : BlockCursor :=
  {| bc_block := bc_block c; bc_offset_idx := idx; bc_record := r |}.

Definition block_cursor_current_record (c : BlockCursor) : option LogRecord :=
  match bc_record c with inl o => o | inr _ => None end.
Definition block_cursor_is_record (c : BlockCursor) : bool :=
  match block_cursor_current_record c with Some _ => true | None => false end.
Definition block_cursor_is_error (c : BlockCursor) : bool :=
  match bc_record c with inl _ => false | inr _ => true end.
Definition block_cursor_get_error (c : BlockCursor) : option CodecError :=
  match bc_record c with inl _ => None | inr e => Some e end.
Definition block_cursor_unwrap_record {E} (c : BlockCursor) : outcome E LogRecord :=
  match bc_record c with inl (Some r) => Ok r | _ => Panic end.
Definition block_cursor_peek (c : BlockCursor) : option LogRecord :=
  match bc_record c with inl o => o | inr _ => None end.
Definition block_cursor_peek_key (c : BlockCursor) : option Key := rec_key <$> block_cursor_peek c.

(** [take_current]: an error is dropped with the record *)
Definition block_cursor_take_current (c : BlockCursor) : BlockCursor * option LogRecord :=
  (bc_with c (bc_offset_idx c) (inl None), block_cursor_current_record c).

Definition update_current {E} : st BlockCursor E unit := fun c =>
  let idx := bc_offset_idx c in
  let offs := blk_offsets (bc_block c) in
  if blen offs <=? idx then (bc_with c idx (inl None), Ok tt)
  else
    match (start ← index offs idx;
           end_ ← (if idx + 1 <? blen offs then index offs (idx + 1)
                   else Ok (offset_segment_start (bc_block c)));
           slice (blk_data (bc_block c)) start end_) with
    | Ok record_bs =>
        match decode_record record_bs with
        | Ok (Some (rec, _)) => (bc_with c idx (inl (Some rec)), Ok tt)
        | Ok None => (bc_with c idx (inl None), Ok tt)
        | Err e => (bc_with c idx (inr e), Ok tt)
        | Panic => (c, Panic)
        end
    | Err e => (c, Err e)
    | Panic => (c, Panic)
    end.

Definition block_cursor_next {E} : st BlockCursor E unit := fun c =>
  update_current (bc_with c (bc_offset_idx c + 1) (bc_record c)).

Definition block_cursor_seek_to_first {E} : st BlockCursor E unit := fun c =>
  update_current (bc_with c 0 (bc_record c)).

(** the closure of the binary search; its first error ends the search *)
Definition seek_compare (data : list byte) (seek_key : Key) (o : Z) : outcome CodecError comparison :=
  key_bs ← slice data o (o + KEY_SIZE);
  ko ← decode_key key_bs;
  match ko with
  | Some (key, _) => Ok (cmp key seek_key)
  | None => Err (codec_other "failed to decode key from block")
  end.

Definition block_cursor_seek {E} (seek_key : Key) : st BlockCursor E unit := fun c =>
  match binary_search_by (seek_compare (blk_data (bc_block c)) seek_key) (blk_offsets (bc_block c)) with
  | Err e => (bc_with c (bc_offset_idx c) (inr e), Ok tt)
  | Ok (inl i) => update_current (bc_with c i (bc_record c))
  | Ok (inr i) => update_current (bc_with c i (bc_record c))
  | Panic => (c, Panic)
  end.

(** ** The layout of a block *)

Definition offsets_bytes (offs : list Z) : list byte := concat (map (be_bytes 2) offs).
Definition block_body (b : Block) : list byte :=
  blk_data b ++ offsets_bytes (blk_offsets b) ++ be_bytes 2 (blen (blk_offsets b)).
Definition block_bytes `{Crc32} (b : Block) : list byte :=
  block_body b ++ be_bytes 4 (crc32 (block_body b)).

Lemma blen_offsets_bytes offs : blen (offsets_bytes offs) = 2 * blen offs.
Proof.
  unfold offsets_bytes. induction offs as [|o t IH]; cbn [map concat]; [done|]. zlia.
Qed.
#[export] Hint Rewrite blen_offsets_bytes : blen.

Lemma wrap16_small z : in_u16 z -> wrap16 z = z.
Proof. unfold in_u16, u16_max, wrap16. intros. apply Z.mod_small. lia. Qed.

Lemma check_encode_offsets offs seg data :
  check_offsets offs seg = Ok tt -> Forall in_u16 offs ->
  encode_offsets offs seg data = Ok (data ++ offsets_bytes offs).
Proof.
  revert data. induction offs as [|o t IH]; intros data; cbn [check_offsets encode_offsets].
  - intros _ _. by rewrite app_nil_r.
  - case_if; [done|]. case_if; [done|]. intros Hc [Ho Ht]%Forall_cons.
    rewrite IH by done. f_equal. unfold offsets_bytes. cbn.
    by rewrite wrap16_small, <- app_assoc.
Qed.

Lemma u16_chunks_bytes offs : Forall in_u16 offs -> u16_chunks (offsets_bytes offs) = offs.
Proof.
  unfold offsets_bytes. induction 1 as [|o t Ho _ IH]; cbn [map concat]; [done|].
  destruct (be_bytes 2 o) as [|a [|b [|c q]]] eqn:E;
    try (apply (f_equal length) in E; by rewrite length_be_bytes in E).
  cbn. by rewrite <- E, be_val_u16, IH.
Qed.

Lemma offsets_bytes_chunks n bs :
  blen bs = 2 * Z.of_nat n ->
  offsets_bytes (u16_chunks bs) = bs /\ blen (u16_chunks bs) = Z.of_nat n /\ Forall in_u16 (u16_chunks bs).
Proof.
  revert bs. induction n as [|n IH]; intros bs Hlen.
  - by apply blen_0_nil in Hlen as ->.
  - destruct bs as [|a [|b t]]; [zlia..|]. cbn [u16_chunks].
    destruct (IH t) as (H1 & H2 & H3); [zlia|]. split_and!.
    + unfold offsets_bytes in *. cbn [map concat]. by rewrite H1, be_bytes_be_val_n.
    + zlia.
    + constructor; [by apply be_val_in_u16|done].
Qed.

(** ** Blocks that hold records *)

Fixpoint records_offsets (base : Z) (rs : list LogRecord) : list Z :=
  match rs with
  | [] => []
  | r :: t => base :: records_offsets (base + record_wire_len r) t
  end.
Definition records_data (rs : list LogRecord) : list byte := concat (map record_wire rs).
Definition block_of (rs : list LogRecord) : Block :=
  {| blk_data := records_data rs; blk_offsets := records_offsets 0 rs |}.

Lemma blen_records_offsets base rs : blen (records_offsets base rs) = blen rs.
Proof. revert base. induction rs as [|r t IH]; intros base; cbn; [done|]. rewrite !blen_cons. by rewrite IH. Qed.
#[export] Hint Rewrite blen_records_offsets : blen.
Lemma records_data_cons r t : records_data (r :: t) = record_wire r ++ records_data t.
Proof. done. Qed.
Lemma records_data_app rs qs : records_data (rs ++ qs) = records_data rs ++ records_data qs.
Proof. unfold records_data. by rewrite map_app, concat_app. Qed.

Lemma records_offsets_app base rs qs :
  records_offsets base (rs ++ qs) = records_offsets base rs ++ records_offsets (base + blen (records_data rs)) qs.
Proof.
  revert base. induction rs as [|r t IH]; intros base; cbn [app records_offsets].
  - cbn. by rewrite Z.add_0_r.
  - rewrite IH, records_data_cons, blen_app, blen_record_wire. do 3 f_equal. lia.
Qed.

Lemma record_wire_len_range r :
  record_valid r -> MIN_RECORD_WIRE_LENGTH <= record_wire_len r <= MAX_RECORD_WIRE_LENGTH.
Proof. intros [_ ?]. unfold record_wire_len, key_wire_len. zlia. Qed.

Lemma next_offset_records base rs :
  next_offset (records_offsets base rs) (base + blen (records_data rs)) = base.
Proof. destruct rs as [|r t]; [|done]. apply Z.add_0_r. Qed.

Lemma check_offsets_records base rs :
  Forall record_valid rs ->
  check_offsets (records_offsets base rs) (base + blen (records_data rs)) = Ok tt.
Proof.
  intros Hrs. revert base. induction Hrs as [|r t Hr Ht IH]; intros base; [done|].
  cbn [records_offsets check_offsets]. rewrite records_data_cons, blen_app, blen_record_wire, Z.add_assoc.
  rewrite next_offset_records. pose proof (record_wire_len_range r Hr).
  if_false. if_false. apply IH.
Qed.

Lemma records_offsets_range base rs :
  0 <= base -> Forall record_valid rs ->
  Forall (fun o => base <= o <= base + blen (records_data rs)) (records_offsets base rs).
Proof.
  intros Hb Hrs. revert base Hb. induction Hrs as [|r t Hr Ht IH]; intros base Hb; cbn [records_offsets]; [done|].
  pose proof (record_wire_len_range r Hr). rewrite records_data_cons. constructor; [zlia|].
  eapply Forall_impl; [apply IH; zlia|]. cbn. intros o. zlia.
Qed.

(** ** Encoding and decoding *)

Lemma encode_block_ok `{Crc32} (b : Block) :
  check_offsets (blk_offsets b) (blen (blk_data b)) = Ok tt -> Forall in_u16 (blk_offsets b) ->
  blk_offsets b <> [] -> blen (blk_data b) + 2 * blen (blk_offsets b) + 2 <= MAX_BLOCK_SIZE ->
  blen (blk_data b) <= u16_max - MIN_RECORD_WIRE_LENGTH ->
  encode_block b = Ok (block_bytes b).
Proof.
  intros Hc Hu Hne Hsz Hdata. unfold encode_block, offset_segment_len.
  pose proof (blen_pos _ Hne).
  do 4 (if_false). rewrite check_encode_offsets by done. rewrite ok_bind.
  rewrite wrap16_small by (unfold in_u16; zlia). unfold block_bytes, block_body. by rewrite !(app_assoc (blk_data b)).
Qed.

Lemma decode_block_bytes `{Crc32} (b : Block) :
  check_offsets (blk_offsets b) (blen (blk_data b)) = Ok tt -> Forall in_u16 (blk_offsets b) ->
  blen (blk_offsets b) <= u16_max ->
  decode_block (block_bytes b) = Ok b.
Proof.
  intros Hc Hu Hn. unfold decode_block, block_bytes.
  assert (blen (block_body b) = blen (blk_data b) + 2 * blen (blk_offsets b) + 2) as Hbody
    by (unfold block_body; zlia).
  if_false. rewrite slice_prefix by zlia. rewrite ok_bind, slice_suffix by zlia. rewrite ok_bind.
  rewrite be_val_u32 by apply crc32_range. rewrite Z.eqb_refl. cbn [negb]. if_false.
  assert (forall E, slice (block_body b) (blen (block_body b) - SZ_U16) (blen (block_body b))
                    = @Ok E _ (be_bytes 2 (blen (blk_offsets b)))) as ->.
  { intros E. rewrite Hbody. unfold block_body. rewrite app_assoc, slice_suffix by zlia. done. }
  rewrite ok_bind, be_val_u16 by (unfold in_u16; zlia). if_false.
  replace (blen (block_body b) - SZ_U16 - blen (blk_offsets b) * SZ_U16) with (blen (blk_data b)) by zlia.
  assert (forall E, slice (block_body b) 0 (blen (blk_data b)) = @Ok E _ (blk_data b)) as ->
    by (intros E; unfold block_body; by rewrite slice_prefix).
  assert (forall E, slice (block_body b) (blen (blk_data b)) (blen (block_body b) - SZ_U16)
                    = @Ok E _ (offsets_bytes (blk_offsets b))) as ->
    by (intros E; rewrite Hbody; unfold block_body; apply slice_app; zlia).
  rewrite !ok_bind, u16_chunks_bytes, Hc, ok_bind by done. by destruct b.
Qed.

Lemma check_offsets_no_panic offs seg : check_offsets offs seg <> Panic.
Proof. induction offs as [|o t IH]; cbn; [done|]. by repeat case_if. Qed.

Lemma decode_block_inv `{Crc32} (src : list byte) :
  match decode_block src with
  | Ok b => src = block_bytes b /\ check_offsets (blk_offsets b) (blen (blk_data b)) = Ok tt /\
            Forall in_u16 (blk_offsets b) /\ blen (blk_offsets b) <= u16_max
  | Err _ => True
  | Panic => False
  end.
Proof.
  unfold decode_block. destruct (blen src <? SZ_U32) eqn:E0; gsplit; [done|].
  destruct (split_at_blen src (blen src - 4) 4) as (body & crc & -> & Hbl & Hcl); [zlia..|].
  rewrite slice_prefix by zlia. rewrite ok_bind, slice_suffix by zlia. rewrite ok_bind.
  destruct (crc32 body =? be_val crc) eqn:Ecrc; gsplit; [|done]. cbn [negb].
  destruct (blen body <? SZ_U16) eqn:E1; gsplit; [done|].
  destruct (split_at_blen body (blen body - 2) 2) as (pre & nb & -> & Hpl & Hnl); [zlia..|].
  rewrite slice_suffix by zlia. rewrite ok_bind.
  pose proof (be_val_bound nb) as Hnb. pose proof (be_val_in_u16 nb Hnl) as [_ Hn16].
  destruct (_ <? be_val nb * SZ_U16) eqn:E2; gsplit; [done|].
  destruct (split_at_blen pre (blen pre - 2 * be_val nb) (2 * be_val nb)) as (data & seg & -> & Hdl & Hsl);
    [zlia..|].
  rewrite <- (app_assoc data), slice_prefix by zlia. rewrite ok_bind, slice_app by zlia. rewrite ok_bind.
  destruct (offsets_bytes_chunks (Z.to_nat (be_val nb)) seg) as (Hseg & Hlen & Hu); [lia|].
  replace (_ - _ - _) with (blen data) by zlia.
  destruct (check_offsets (u16_chunks seg) (blen data)) as [[]|e|] eqn:Ec;
    rewrite ?ok_bind, ?err_bind, ?panic_bind; cbn [blk_data blk_offsets].
  - split_and!; [|done|done|lia]. unfold block_bytes, block_body. cbn [blk_data blk_offsets].
    rewrite Hseg, Hlen, Z2Nat.id, be_bytes_be_val_n by (done || lia).
    rewrite <- (app_assoc data) in Ecrc. by rewrite Ecrc, be_bytes_be_val_n.
  - done.
  - by apply check_offsets_no_panic in Ec.
Qed.

(** ** The writer *)

Record bwr_inv (limit : Z) (rs : list LogRecord) (w : BlockWriter) : Prop := {
  bi_valid : Forall record_valid rs;
  bi_block : {| blk_data := bwr_buffer w; blk_offsets := bwr_offsets w |} = block_of rs;
  bi_size : bwr_size w = blen (records_data rs);
  bi_limit : bwr_limit w = limit;
  bi_count : bwr_record_count w = blen rs;
  bi_first : bwr_first_key w = rec_key <$> head rs;
  bi_last : bwr_last_key w = rec_key <$> last rs;
  bi_max : blen (records_data rs) + 2 * blen rs + 2 <= MAX_BLOCK_SIZE;
  bi_soft : blen rs <= 1 \/ blen (records_data rs) + 2 * blen rs + 2 <= limit
}.

Lemma block_writer_new_inv l w :
  block_writer_new l = Ok w -> bwr_inv (default DEFAULT_BLOCK_SIZE l) [] w /\ default DEFAULT_BLOCK_SIZE l <= MAX_BLOCK_SIZE.
Proof.
  unfold block_writer_new. destruct l as [l|]; cbn.
  - case_if; [done|]. intros [= <-]. split; [|done]. split; cbn; try done. zlia.
  - intros [= <-]. split; [|done]. split; cbn; try done. zlia.
Qed.

Lemma block_writer_write_written limit rs w r :
  bwr_inv limit rs w -> record_valid r ->
  ((rs = [] \/ est_total_size w r <= limit) /\ est_total_size w r <= MAX_BLOCK_SIZE) ->
  exists w', block_writer_write r w = (w', Ok Written) /\ bwr_inv limit (rs ++ [r]) w'.
Proof.
  intros [Hv Hb Hs Hl Hc Hf Hla Hm Hso] Hr [Hlim Hmax]. injection Hb as Hdata Hoffs.
  unfold block_writer_write. rewrite Hoffs, blen_records_offsets, Hl.
  assert (negb (blen rs =? 0) && (limit <? est_total_size w r) = false) as ->.
  { apply andb_false_iff. destruct Hlim as [->|Hlim]; [by left|right]. by apply Z.ltb_ge. }
  if_false. unfold est_total_size in *. rewrite Hs, Hoffs, blen_records_offsets in *.
  rewrite <- (app_nil_r (bwr_buffer w ++ _)), <- app_assoc, on_subslice_middle;
    [|done|rewrite blen_replicate; pose proof (record_wire_len_range r Hr);
           unfold wire_len, LogRecord_wire_len; zlia].
  change (encode_record r) with (encode (I := LogRecord) r).
  rewrite (encode_fresh r Hr). eexists. split; [reflexivity|].
  assert (wire_len r = record_wire_len r) as Hw by done. rewrite app_nil_r.
  assert (blen (records_data (rs ++ [r])) = blen (records_data rs) + record_wire_len r) as Hlen.
  { rewrite records_data_app. unfold records_data at 2. cbn. rewrite app_nil_r. zlia. }
  rewrite Hw in *. split; cbn [bwr_buffer bwr_offsets bwr_size bwr_limit bwr_record_count bwr_first_key bwr_last_key].
  - by apply Forall_app_2, Forall_singleton.
  - unfold block_of. rewrite records_data_app, records_offsets_app, Hdata.
    rewrite wrap16_small by (unfold in_u16; zlia). unfold records_data at 3. cbn. by rewrite app_nil_r.
  - lia.
  - done.
  - zlia.
  - rewrite Hf. by destruct rs.
  - by rewrite last_snoc.
  - zlia.
  - destruct Hlim as [->|?]; [by left|]. right. zlia.
Qed.

(** ** The cursor *)

Lemma records_offsets_lookup base pre r post :
  records_offsets base (pre ++ r :: post) !! length pre = Some (base + blen (records_data pre)).
Proof.
  rewrite records_offsets_app. replace (length pre) with (length (records_offsets base pre)).
  - cbn [records_offsets]. by apply list_lookup_middle.
  - pose proof (blen_records_offsets base pre). unfold blen in *. lia.
Qed.

Lemma block_slice_at pre r post {E} :
  slice (records_data (pre ++ r :: post)) (blen (records_data pre))
    (blen (records_data pre) + record_wire_len r) = @Ok E _ (record_wire r).
Proof.
  rewrite records_data_app, records_data_cons. apply slice_app; [done|zlia].
Qed.

(** positioned anywhere, the cursor shows the record at its index *)
Lemma update_current_at {E} rs i c :
  Forall record_valid rs -> bc_block c = block_of rs -> bc_offset_idx c = Z.of_nat i ->
  @update_current E c = (bc_with c (Z.of_nat i) (inl (rs !! i)), Ok tt).
Proof.
  intros Hrs Hb Hi. unfold update_current. rewrite Hi, Hb.
  cbn [block_of blk_offsets blk_data]. rewrite blen_records_offsets.
  destruct (blen rs <=? Z.of_nat i) eqn:E1; gsplit.
  { rewrite lookup_ge_None_2 by (unfold blen in *; lia). done. }
  destruct (lookup_lt_is_Some_2 rs i) as [r Hr]; [unfold blen in *; lia|]. rewrite Hr.
  destruct (list_elem_of_split_length rs i r Hr) as (pre & post & -> & ->).
  assert (record_valid r) as Hv by (rewrite Forall_forall in Hrs; apply Hrs, elem_of_app; right; left).
  rewrite (index_ok (records_offsets 0 (pre ++ r :: post)) (Z.of_nat (length pre)) (0 + blen (records_data pre)));
    [|lia|rewrite Nat2Z.id; apply records_offsets_lookup].
  rewrite ok_bind.
  assert ((if Z.of_nat (length pre) + 1 <? blen (pre ++ r :: post)
           then index (records_offsets 0 (pre ++ r :: post)) (Z.of_nat (length pre) + 1)
           else Ok (offset_segment_start (block_of (pre ++ r :: post))))
          = @Ok E _ (blen (records_data pre) + record_wire_len r)) as ->.
  { change (Z.of_nat (length pre)) with (blen pre). destruct post as [|q post].
    - if_false.
      unfold offset_segment_start. cbn [block_of blk_data].
      rewrite records_data_app, records_data_cons. unfold records_data at 2. cbn. f_equal. rewrite app_nil_r. zlia.
    - if_true. apply index_ok; [zlia|]. replace (pre ++ r :: q :: post) with ((pre ++ [r]) ++ q :: post) by (by rewrite <- app_assoc).
      replace (Z.to_nat _) with (length (pre ++ [r])) by (unfold blen; rewrite length_app; cbn; lia).
      rewrite records_offsets_lookup, records_data_app. unfold records_data at 2. cbn. rewrite app_nil_r. f_equal. zlia. }
  rewrite ok_bind, Z.add_0_l, block_slice_at.
  unfold decode_record. cbn [decode LogRecord_codec].
  rewrite <- (app_nil_r (record_wire r)), record_decode_wire by done. done.
Qed.

Lemma block_cursor_first_at {E} rs c :
  Forall record_valid rs -> bc_block c = block_of rs ->
  @block_cursor_seek_to_first E c = (bc_with c 0 (inl (rs !! 0%nat)), Ok tt).
Proof. intros Hrs Hb. unfold block_cursor_seek_to_first. by rewrite (update_current_at rs 0). Qed.

Lemma block_cursor_next_at {E} rs i c :
  Forall record_valid rs -> bc_block c = block_of rs -> bc_offset_idx c = Z.of_nat i ->
  @block_cursor_next E c = (bc_with c (Z.of_nat (S i)) (inl (rs !! S i)), Ok tt).
Proof.
  intros Hrs Hb Hi. unfold block_cursor_next. rewrite (update_current_at rs (S i)); [done|done|done|].
  cbn. lia.
Qed.

Lemma seek_compare_at rs k j o :
  Forall record_valid rs -> records_offsets 0 rs !! j = Some o ->
  exists r, rs !! j = Some r /\ seek_compare (records_data rs) k o = Ok (cmp (rec_key r) k).
Proof.
  intros Hrs Ho. destruct (lookup_lt_is_Some_2 rs j) as [r Hr].
  { apply lookup_lt_Some in Ho. pose proof (blen_records_offsets 0 rs). unfold blen in *. lia. }
  exists r. split; [done|].
  destruct (list_elem_of_split_length rs j r Hr) as (pre & post & -> & ->).
  rewrite records_offsets_lookup in Ho. injection Ho as <-.
  assert (record_valid r) as [Hk _] by (rewrite Forall_forall in Hrs; apply Hrs, elem_of_app; right; left).
  unfold seek_compare. rewrite records_data_app, records_data_cons. unfold record_wire.
  rewrite <- app_assoc, slice_app by zlia. rewrite ok_bind. unfold decode_key. cbn [decode Key_codec].
  by rewrite <- (app_nil_r (key_to_be_bytes _)), key_decode_app.
Qed.

(** sortedness by positions *)
Lemma bset_sorted_lookup rs i j r q :
  bset_sorted rec_key rs -> (i < j)%nat -> rs !! i = Some r -> rs !! j = Some q ->
  cmp (rec_key r) (rec_key q) = Lt.
Proof.
  intros Hs Hij Hr Hq. destruct (list_elem_of_split_length rs i r Hr) as (pre & post & -> & ->).
  rewrite lookup_app_r in Hq by lia. replace (j - length pre)%nat with (S (j - length pre - 1)) in Hq by lia.
  cbn in Hq. apply StronglySorted_app_1_r, StronglySorted_inv in Hs as [_ Hall].
  rewrite Forall_forall in Hall. apply Hall. by eapply list_elem_of_lookup_2.
Qed.

Lemma block_seek_at {E} rs k c :
  Forall record_valid rs -> bset_sorted rec_key rs -> bc_block c = block_of rs ->
  exists i, (i <= length rs)%nat /\
    @block_cursor_seek E k c = (bc_with c (Z.of_nat i) (inl (rs !! i)), Ok tt) /\
    (forall j r, (j < i)%nat -> rs !! j = Some r -> cmp (rec_key r) k = Lt) /\
    (forall j r, (i <= j)%nat -> rs !! j = Some r -> cmp (rec_key r) k <> Lt).
Proof.
  intros Hrs Hs Hb. unfold block_cursor_seek. rewrite Hb. cbn [block_of blk_data blk_offsets].
  set (offs := records_offsets 0 rs). set (f := seek_compare (records_data rs) k).
  set (g := fun o => match f o with Ok c => c | _ => Eq end).
  assert (forall j o, offs !! j = Some o -> exists r, rs !! j = Some r /\ f o = Ok (cmp (rec_key r) k)) as Hat
    by (intros j o; by apply seek_compare_at).
  assert (length offs = length rs) as Hlen
    by (pose proof (blen_records_offsets 0 rs); unfold offs; unfold blen in *; lia).
  assert (forall j r, rs !! j = Some r -> exists o, offs !! j = Some o /\ g o = cmp (rec_key r) k) as Hat'.
  { intros j r Hr. destruct (lookup_lt_is_Some_2 offs j) as [o Ho];
      [apply lookup_lt_Some in Hr; lia|]. exists o. split; [done|].
    destruct (Hat j o Ho) as (r' & Hr' & Hf). unfold g. rewrite Hf. congruence. }
  destruct (binary_search_by_spec f g offs) as (res & Hres & Hspec).
  - intros o [j Ho]%list_elem_of_lookup. destruct (Hat j o Ho) as (r & _ & Hf). unfold g. by rewrite Hf.
  - intros i j x y Hij Hx Hy. destruct (Hat i x Hx) as (r & Hr & Hfx), (Hat j y Hy) as (q & Hq & Hfy).
    unfold g. rewrite Hfx, Hfy. pose proof (bset_sorted_lookup rs i j r q Hs Hij Hr Hq) as Hlt. split.
    + intros Hgt. apply cmp_gt_lt in Hgt. apply cmp_gt_lt. by apply cmp_trans with (rec_key r).
    + intros Hl. by apply cmp_trans with (rec_key q).
  - rewrite Hres. assert (exists i, res = inl (Z.of_nat i) \/ res = inr (Z.of_nat i)) as [i Hi].
    { destruct res as [z|z]; [destruct Hspec as (? & ? & _)|destruct Hspec as (? & _)];
        exists (Z.to_nat z); rewrite Z2Nat.id by lia; auto. }
    exists i. destruct Hi as [->| ->].
    + destruct Hspec as (o & Hi & Ho & Hg). rewrite Nat2Z.id in Ho.
      destruct (Hat i o Ho) as (r & Hr & Hf). unfold g in Hg. rewrite Hf in Hg.
      apply cmp_eq in Hg as Heq. subst k. split; [apply lookup_lt_Some in Hr; lia|].
      split; [by rewrite (update_current_at rs i)|]. split.
      * intros j q Hj Hq. by apply (bset_sorted_lookup rs j i).
      * intros j q Hj Hq. destruct (decide (j = i)) as [->|Hne]; [congruence|].
        assert (cmp (rec_key r) (rec_key q) = Lt) as Hl by (apply (bset_sorted_lookup rs i j); (done || lia)).
        apply cmp_gt_lt in Hl. by rewrite Hl.
    + destruct Hspec as (Hi & Hlt & Hgt). split; [unfold blen in Hi; lia|].
      split; [by rewrite (update_current_at rs i)|]. split.
      * intros j r Hj Hr. destruct (Hat' j r Hr) as (o & Ho & <-). apply (Hlt j); [lia|done].
      * intros j r Hj Hr. destruct (Hat' j r Hr) as (o & Ho & <-). rewrite (Hgt j o); [done|lia|done].
Qed.

(** Reading a block from the start: the records up to the first position
    without one. *)
Fixpoint block_cursor_collect (fuel : nat) (c : BlockCursor) : option (list LogRecord) :=
  match fuel with
  | O => None
  | S fuel =>
      match block_cursor_current_record c with
      | None => Some []
      | Some r => match @block_cursor_next CodecError c with
                  | (c', Ok _) => cons r <$> block_cursor_collect fuel c'
                  | _ => None
                  end
      end
  end.

Lemma block_cursor_collect_at rs i c :
  Forall record_valid rs -> bc_block c = block_of rs -> bc_offset_idx c = Z.of_nat i ->
  bc_record c = inl (rs !! i) -> (i <= length rs)%nat ->
  block_cursor_collect (S (length rs - i)) c = Some (drop i rs).
Proof.
  intros Hrs Hb. remember (length rs - i)%nat as n eqn:Hn.
  revert i c Hb Hn. induction n as [|n IH]; intros i c Hb Hn Hi Hr Hle.
  - unfold block_cursor_collect, block_cursor_current_record. rewrite Hr.
    rewrite lookup_ge_None_2, drop_ge by lia. done.
  - destruct (lookup_lt_is_Some_2 rs i) as [r Hri]; [lia|].
    change (block_cursor_collect (S (S n)) c) with
      (match block_cursor_current_record c with
       | None => Some []
       | Some r => match @block_cursor_next CodecError c with
                   | (c', Ok _) => cons r <$> block_cursor_collect (S n) c'
                   | _ => None
                   end
       end).
    unfold block_cursor_current_record. rewrite Hr, Hri, (block_cursor_next_at rs i) by done.
    rewrite (IH (S i)); [|done|lia|done|done|lia]. cbn. by rewrite (drop_S rs r i).
Qed.

(** ** Claims *)

(** Offsets that cut [seg] bytes into records: from each offset to the next,
    and from the last one to the end, there are as many bytes as a record
    may have. *)
Definition offsets_cut (offs : list Z) (seg : Z) : Prop :=
  forall i start, offs !! i = Some start ->
    MIN_RECORD_WIRE_LENGTH <= default seg (offs !! S i) - start <= MAX_RECORD_WIRE_LENGTH.

Lemma check_offsets_cut offs seg : check_offsets offs seg = Ok tt <-> offsets_cut offs seg.
Proof.
  induction offs as [|o t IH]; cbn [check_offsets]; [split; [by intros _ i start|done]|].
  assert (next_offset t seg = default seg ((o :: t) !! 1%nat)) as -> by (by destruct t).
  assert (offsets_cut (o :: t) seg <->
    MIN_RECORD_WIRE_LENGTH <= default seg ((o :: t) !! 1%nat) - o <= MAX_RECORD_WIRE_LENGTH /\ offsets_cut t seg) as ->.
  { split; [|intros [Ho Ht] [|i] start Hi; [by injection Hi as <-|by apply Ht]].
    intros Hc. split; [by apply (Hc 0%nat)|]. intros i start Hi. by apply (Hc (S i)). }
  rewrite <- IH. set (e := default _ _). clearbody e. case_if; [|case_if].
  - split; [done|]. unfold_sizes. lia.
  - split; [done|]. intros [Hr _]. rewrite andb_false_iff, !Z.leb_gt in *. lia.
  - split; [|tauto]. intros Hc. split; [lia|done].
Qed.
Lemma offsets_cut_ascending offs seg : offsets_cut offs seg -> StronglySorted Z.lt (offs ++ [seg]).
Proof.
  assert (1 <= MIN_RECORD_WIRE_LENGTH) as Hmin by by vm_compute.
  induction offs as [|o t IH]; intros Hc; cbn [app]; [by repeat constructor|].
  assert (offsets_cut t seg) as Ht by (intros i start Hi; by apply (Hc (S i))). specialize (IH Ht). constructor; [done|].
  pose proof (Hc 0%nat o eq_refl) as Ho. destruct t as [|x t]; cbn in Ho |- *; [repeat constructor; lia|].
  apply StronglySorted_inv in IH as [_ IH]. constructor; [lia|]. eapply Forall_impl; [exact IH|]. cbn. lia.
Qed.

(** C26: [decode_block] accepts exactly the canonical byte strings: it
    returns the block [b] if and only if the input is [b]'s data, offsets,
    record count and matching checksum, each offset being as far from the
    next one, and the last from the end of the data, as a record is long;
    the offsets are then strictly increasing and below the size of the data.
    On any other input it returns an error, and it never panics, however
    malformed the input. *)
Theorem decode_block_spec `{Crc32} (src : list byte) :
  (forall b, decode_block src = Ok b <->
     src = block_bytes b /\ offsets_cut (blk_offsets b) (blen (blk_data b)) /\
     Forall in_u16 (blk_offsets b) /\ blen (blk_offsets b) <= u16_max) /\
  (forall b, decode_block src = Ok b -> StronglySorted Z.lt (blk_offsets b ++ [blen (blk_data b)])) /\
  decode_block src <> Panic.
Proof.
  pose proof (decode_block_inv src) as Hinv. split_and!.
  - intros b. rewrite <- check_offsets_cut. split; [intros Heq; by rewrite Heq in Hinv|].
    intros (-> & Hc & Hu & Hn). by apply decode_block_bytes.
  - intros b Heq. rewrite Heq in Hinv. destruct Hinv as (_ & Hc & _). by apply offsets_cut_ascending, check_offsets_cut.
  - intros Heq. by rewrite Heq in Hinv.
Qed.

(** C31: the block writer. After writing the records [rs], the buffer is
    their encodings one after the other and the offsets their positions, and
    the total stays within the hard limit and, from the second record on,
    within the configured one. Writing a further valid record answers [Full]
    and changes nothing exactly when the block is not empty and the record
    would exceed the configured limit, or would exceed the hard limit; the
    first record of a block is always accepted. *)
Theorem block_writer_write_spec (limit : Z) (rs : list LogRecord) (w : BlockWriter) (r : LogRecord)
    (Hw : bwr_inv limit rs w) (Hr : record_valid r) :
  let total := blen (records_data rs) + record_wire_len r + 2 * (blen rs + 1) + 2 in
  if (bool_decide (rs <> []) && (limit <? total)) || (MAX_BLOCK_SIZE <? total)
  then block_writer_write r w = (w, Ok Full) /\ rs <> []
  else exists w', block_writer_write r w = (w', Ok Written) /\ bwr_inv limit (rs ++ [r]) w'.
Proof.
  cbv zeta. pose proof Hw as [Hv Hb Hs Hl Hc Hf Hla Hm Hso]. injection Hb as Hdata Hoffs.
  assert (est_total_size w r = blen (records_data rs) + record_wire_len r + 2 * (blen rs + 1) + 2) as Htot
    by (unfold est_total_size, wire_len, LogRecord_wire_len; rewrite Hs, Hoffs; zlia).
  rewrite <- Htot. pose proof (record_wire_len_range r Hr) as Hrange.
  assert (negb (blen (bwr_offsets w) =? 0) = bool_decide (rs <> [])) as Hne.
  { rewrite Hoffs, blen_records_offsets. destruct rs as [|q qs]; [done|].
    rewrite bool_decide_true by done. apply negb_true_iff, Z.eqb_neq. zlia. }
  destruct (_ || _) eqn:E.
  - split.
    + unfold block_writer_write. rewrite Hne, Hl.
      apply orb_true_iff in E as [->| ->]; [done|]. by destruct (_ && _).
    + intros ->. cbn in E. rewrite Htot in E. apply Z.ltb_lt in E. cbn in E. zlia.
  - apply orb_false_iff in E as [E1 E2]. gsplit. apply block_writer_write_written; try done.
    split; [|done]. apply andb_false_iff in E1 as [E1|E1]; gsplit; [left|by right].
    apply bool_decide_eq_false in E1. destruct rs; [done|by destruct E1].
Qed.

(** C9: a block that a writer has filled with the records [rs] is encoded
    without an error as long as its data leaves room for the last offset;
    decoding the bytes gives a block whose cursor, from the first position,
    yields exactly [rs] in order, and the keys handed to the SST index are
    those of the first and the last record. *)
Theorem block_write_read `{Crc32} (limit : Z) (rs : list LogRecord) (w : BlockWriter)
    (Hw : bwr_inv limit rs w) (Hne : rs <> [])
    (Hroom : blen (records_data rs) <= u16_max - MIN_RECORD_WIRE_LENGTH) :
  let '(b, first, last_) := into_block w in
  first = rec_key <$> head rs /\ last_ = rec_key <$> last rs /\
  exists bs b', encode_block b = Ok bs /\ decode_block bs = Ok b' /\ num_of_records b' = blen rs /\
    exists c, @block_cursor_seek_to_first CodecError (block_cursor_new b') = (c, Ok tt) /\
      block_cursor_collect (S (length rs)) c = Some rs.
Proof.
  destruct Hw as [Hv Hb Hs Hl Hc Hf Hla Hm Hso]. unfold into_block. rewrite Hb.
  split_and!; [done|done|].
  pose proof (check_offsets_records 0 rs Hv) as Hck. rewrite Z.add_0_l in Hck.
  assert (Forall in_u16 (records_offsets 0 rs)) as Hu.
  { eapply Forall_impl; [by apply records_offsets_range|]. cbn. unfold in_u16. intros o. zlia. }
  exists (block_bytes (block_of rs)), (block_of rs). split_and!.
  - apply encode_block_ok; cbn [block_of blk_data blk_offsets]; try done; [by destruct rs|zlia].
  - apply decode_block_bytes; cbn [block_of blk_data blk_offsets]; try done. zlia.
  - unfold num_of_records. cbn [block_of blk_offsets]. zlia.
  - eexists. split; [by apply (block_cursor_first_at rs)|].
    pose proof (block_cursor_collect_at rs 0) as Hcol. rewrite Nat.sub_0_r in Hcol.
    apply Hcol; (done || lia).
Qed.

(** [BlockCursor::seek] on a block of records sorted by key stops at
    the first record whose key is not smaller than the sought one (past the
    end when there is none), never reports an error and never panics. *)
Theorem block_cursor_seek_spec (rs : list LogRecord) (k : Key) (c : BlockCursor)
    (Hrs : Forall record_valid rs) (Hs : bset_sorted rec_key rs) (Hb : bc_block c = block_of rs) :
  exists i c', (i <= length rs)%nat /\ @block_cursor_seek CodecError k c = (c', Ok tt) /\
    bc_offset_idx c' = Z.of_nat i /\ bc_record c' = inl (rs !! i) /\
    Forall (fun r => cmp (rec_key r) k = Lt) (take i rs) /\
    Forall (fun r => cmp (rec_key r) k <> Lt) (drop i rs).
Proof.
  destruct (block_seek_at (E := CodecError) rs k c Hrs Hs Hb) as (i & Hi & Hseek & Hbefore & Hafter).
  exists i. eexists. split_and!; [done|exact Hseek|done|done| |].
  - apply Forall_lookup. intros j r Hj. rewrite lookup_take_Some in Hj. apply (Hbefore j); tauto.
  - apply Forall_lookup. intros j r Hj. rewrite lookup_drop in Hj. apply (Hafter (i + j)%nat); [lia|done].
Qed.

(** The writer may fill a block beyond what [encode_block] handles: when
    the data is within the block size but larger than 65535 less the minimal
    record length, [encode_block] reaches its [todo!] and panics. *)
Theorem encode_block_overfull_panics `{Crc32} (limit : Z) (rs : list LogRecord) (w : BlockWriter)
    (Hw : bwr_inv limit rs w) (Hdata : u16_max - MIN_RECORD_WIRE_LENGTH < blen (records_data rs)) :
  encode_block (into_block w).1.1 = Panic.
Proof.
  destruct Hw as [Hv Hb Hs Hl Hc Hf Hla Hm Hso]. cbn [into_block fst]. rewrite Hb.
  assert (rs <> []) as Hne%blen_pos by (intros ->; by vm_compute in Hdata).
  unfold encode_block, offset_segment_len. cbn [block_of blk_data blk_offsets].
  do 3 (if_false). by if_true.
Qed.

(** ** Witnesses *)

Definition sample_block : list LogRecord := [sample_record 5; sample_record 6; sample_record 9].

Definition writer_of (limit : Z) (rs : list LogRecord) : BlockWriter :=
  {| bwr_buffer := records_data rs; bwr_offsets := records_offsets 0 rs;
     bwr_size := blen (records_data rs); bwr_limit := limit; bwr_record_count := blen rs;
     bwr_first_key := rec_key <$> head rs; bwr_last_key := rec_key <$> last rs |}.

Lemma sample_block_valid : Forall record_valid sample_block.
Proof. repeat constructor; by apply sample_record_valid. Qed.

Lemma sample_writer_inv : bwr_inv 4096 sample_block (writer_of 4096 sample_block).
Proof.
  split; try reflexivity; [exact sample_block_valid|by vm_compute|right; by vm_compute].
Qed.

Lemma decode_block_spec_witness :
  @decode_block sum_crc32 (@block_bytes sum_crc32 (block_of sample_block)) = Ok (block_of sample_block).
Proof.
  apply (proj1 (@decode_block_spec sum_crc32 (@block_bytes sum_crc32 (block_of sample_block)))).
  split_and!; [reflexivity|apply check_offsets_cut; by vm_compute|by repeat constructor|by vm_compute].
Defined.

Lemma block_writer_write_spec_witness :
  exists w', block_writer_write (sample_record 11) (writer_of 4096 sample_block) = (w', Ok Written) /\
    bwr_inv 4096 (sample_block ++ [sample_record 11]) w'.
Proof.
  exact (block_writer_write_spec 4096 sample_block _ (sample_record 11) sample_writer_inv
    (sample_record_valid 11 ltac:(by split))).
Defined.

Lemma block_write_read_witness :
  exists bs b', @encode_block sum_crc32 (into_block (writer_of 4096 sample_block)).1.1 = Ok bs /\
    @decode_block sum_crc32 bs = Ok b' /\ num_of_records b' = 3 /\
    exists c, @block_cursor_seek_to_first CodecError (block_cursor_new b') = (c, Ok tt) /\
      block_cursor_collect 4 c = Some sample_block.
Proof.
  apply (@block_write_read sum_crc32 4096 sample_block _ sample_writer_inv).
  - discriminate.
  - by vm_compute.
Defined.

Lemma block_cursor_seek_spec_witness :
  exists i c', (i <= 3)%nat /\
    @block_cursor_seek CodecError (rec_key (sample_record 7)) (block_cursor_new (block_of sample_block)) = (c', Ok tt) /\
    bc_offset_idx c' = Z.of_nat i /\ bc_record c' = inl (sample_block !! i) /\
    Forall (fun r => cmp (rec_key r) (rec_key (sample_record 7)) = Lt) (take i sample_block) /\
    Forall (fun r => cmp (rec_key r) (rec_key (sample_record 7)) <> Lt) (drop i sample_block).
Proof.
  apply (block_cursor_seek_spec sample_block (rec_key (sample_record 7))).
  - exact sample_block_valid.
  - by repeat constructor.
  - reflexivity.
Defined.

(** sixteen records, 65498 bytes of data and 65532 in all *)
Definition overfull_block : list LogRecord :=
  replicate 15 {| rec_key := rec_key (sample_record 5); rec_payload := replicate 4096 zero_byte |}
  ++ [{| rec_key := rec_key (sample_record 5); rec_payload := replicate 3482 zero_byte |}].

Lemma overfull_writer_inv : bwr_inv MAX_BLOCK_SIZE overfull_block (writer_of MAX_BLOCK_SIZE overfull_block).
Proof.
  split; try reflexivity; [|by vm_compute|right; by vm_compute].
  apply Forall_app_2; [apply Forall_replicate|apply Forall_singleton]; (split; [by split|by vm_compute]).
Qed.

Lemma encode_block_overfull_panics_witness :
  @encode_block sum_crc32 (into_block (writer_of MAX_BLOCK_SIZE overfull_block)).1.1 = Panic.
Proof.
  apply (@encode_block_overfull_panics sum_crc32 MAX_BLOCK_SIZE overfull_block _ overfull_writer_inv).
  by vm_compute.
Defined.
