(* ===== verification/Bloom.v ===== *)
(** * The bloom filter: logregator-tsdb/src/bloom.rs

    The filter over stream ids that every SST carries. Its dimensions are
    computed with [f64::ln], whose precision the standard library leaves
    unspecified, so they are a parameter ([BloomSizing]). *)
From S2P Require Import Prelude Std Ext Codec.

Definition MAX_BITMAP_SIZE : Z := u32_max.
#[export] Hint Unfold MAX_BITMAP_SIZE u32_max : sizes.

(** [n_bits] and [n_hashes] (before [max(1)]) for [n] items and the false
    positive rate the callers use. *)
Class BloomSizing := {
  bloom_bits : Z -> Z;
  bloom_hashes : Z -> Z;
  bloom_bits_range n : 1 <= n -> 1 <= bloom_bits n <= u64_max;
  bloom_hashes_range n : 0 <= bloom_hashes n <= u64_max
}.

Definition bytes_of_Zs (l : list Z) : list byte := map u8_of l.
(** b"bloom_salt_1" and b"bloom_salt_2" *)
Definition SALT1 : list byte := bytes_of_Zs [98; 108; 111; 111; 109; 95; 115; 97; 108; 116; 95; 49].
Definition SALT2 : list byte := bytes_of_Zs [98; 108; 111; 111; 109; 95; 115; 97; 108; 116; 95; 50].

Definition hash_with_salt `{Fnv} (data salt : list byte) : Z := fnv_finish (data ++ salt).

Record BloomFilter := { bf_bitmap : list byte; bf_n_bits : Z; bf_n_hashes : Z }.

(** [m.div_ceil(8)] *)
Definition div_ceil8 (m : Z) : Z := (m + 7) / 8.

Definition bloom_new `{BloomSizing} (n : Z) : BloomFilter :=
  let m := bloom_bits n in
  {| bf_bitmap := replicate (Z.to_nat (div_ceil8 m)) zero_byte;
     bf_n_bits := m;
     bf_n_hashes := Z.max (bloom_hashes n) 1 |}.

Section bloom.
Context `{Fnv} {E : Type}.

Definition position (n_bits h1 h2 i : Z) : Z := wrap64 (h1 + wrap64 (i * h2)) mod n_bits.

(** [% self.n_bits] panics on zero *)
Definition positions (f : BloomFilter) (stream_id : Z) : outcome E (list Z) :=
  let bytes := be_bytes 8 stream_id in
  let h1 := hash_with_salt bytes SALT1 in
  let h2 := hash_with_salt bytes SALT2 in
  if (bf_n_bits f =? 0) && (0 <? bf_n_hashes f) then Panic
  else Ok (map (fun i => position (bf_n_bits f) h1 h2 (Z.of_nat i)) (seq 0 (Z.to_nat (bf_n_hashes f)))).

Definition set_bit (pos : Z) : st (list byte) E unit := fun bitmap =>
  match index bitmap (Z.shiftr pos 3) with
  | Ok b => (<[Z.to_nat (Z.shiftr pos 3) := u8_of (Z.lor (u8_val b) (Z.shiftl 1 (Z.land pos 7)))]> bitmap, Ok tt)
  | Err e => (bitmap, Err e)
  | Panic => (bitmap, Panic)
  end.

Definition get_bit (bitmap : list byte) (pos : Z) : outcome E bool :=
  b ← index bitmap (Z.shiftr pos 3);
  Ok (Z.land (Z.shiftr (u8_val b) (Z.land pos 7)) 1 =? 1).

(** [.all(..)] stops at the first clear bit *)
Fixpoint all_bits (bitmap : list byte) (ps : list Z) : outcome E bool :=
  match ps with
  | [] => Ok true
  | p :: ps => b ← get_bit bitmap p; if b : bool then all_bits bitmap ps else Ok false
  end.

Fixpoint set_bits (ps : list Z) : st (list byte) E unit :=
  match ps with
  | [] => mret tt
  | p :: ps => _ ← set_bit p; set_bits ps
  end.

Definition may_contain (f : BloomFilter) (stream_id : Z) : outcome E bool :=
  ps ← positions f stream_id;
  all_bits (bf_bitmap f) ps.

Definition bloom_with (f : BloomFilter) (bitmap : list byte) : BloomFilter :=
  {| bf_bitmap := bitmap; bf_n_bits := bf_n_bits f; bf_n_hashes := bf_n_hashes f |}.

Definition bloom_insert (stream_id : Z) : st BloomFilter E unit := fun f =>
  match positions f stream_id with
  | Ok ps => let '(bitmap, o) := set_bits ps (bf_bitmap f) in (bloom_with f bitmap, o)
  | Err e => (f, Err e)
  | Panic => (f, Panic)
  end.

(** inserting a sequence of ids *)
Fixpoint bloom_insert_all (ids : list Z) : st BloomFilter E unit :=
  match ids with
  | [] => mret tt
  | id :: ids => _ ← bloom_insert id; bloom_insert_all ids
  end.
End bloom.

#[global] Instance bloom_wire_len : WireLen BloomFilter := fun f => 8 + 8 + 4 + blen (bf_bitmap f).

(** ** [BloomFilterCodec] *)

(** [dst.copy_from_slice(src)] on the whole buffer *)
Definition copy_whole {E} (src : list byte) : st (list byte) E unit := fun dst =>
  copy_into 0 (blen dst) src dst.

Definition bloom_encode (item : BloomFilter) : st (list byte) CodecError Z := fun dst =>
  if blen dst <? wire_len item then (dst, Err (not_enough_bytes (blen dst) (wire_len item)))
  else
    (_ ← copy_whole (be_bytes 8 (bf_n_bits item));
     _ ← copy_whole (be_bytes 8 (bf_n_hashes item));
     _ ← (if MAX_BITMAP_SIZE <? blen (bf_bitmap item)
          then st_err (invalid_payload_sz (blen (bf_bitmap item)) MAX_BITMAP_SIZE 0)
          else mret tt);
     _ ← copy_whole (be_bytes 4 (wrap32 (blen (bf_bitmap item))));
     _ ← copy_whole (bf_bitmap item);
     mret (wire_len item) : st (list byte) CodecError Z) dst.

Definition bloom_nom_decode `{Nom} (input : list byte) : option (list byte * BloomFilter) :=
  match nom_be_u64 input with
  | None => None
  | Some (input, n_bits) =>
      match nom_be_u64 input with
      | None => None
      | Some (input, n_hashes) =>
          match nom_be_u32 input with
          | None => None
          | Some (input, bitmap_len) =>
              match nom_take bitmap_len input with
              | None => None
              | Some (input, bitmap) =>
                  Some (input, {| bf_bitmap := bitmap; bf_n_bits := n_bits; bf_n_hashes := n_hashes |})
              end
          end
      end
  end.

Definition bloom_decode `{Nom} (src : list byte) : outcome CodecError (option (BloomFilter * Z)) :=
  match bloom_nom_decode src with
  | None => Err (codec_other "nom parsing error: failed to decode bloom filter")
  | Some (remaining, bloom) => Ok (Some (bloom, blen src - blen remaining))
  end.

#[global] Instance bloom_codec `{Nom} : SpecCodec BloomFilter :=
  {| encode := bloom_encode; decode := bloom_decode |}.

(** [BloomFilter::encode(w)] *)
Definition bloom_encode_to {W} `{Write W} (f : BloomFilter) : st W CodecError unit := fun w =>
  match bloom_encode f (replicate (Z.to_nat (wire_len f)) zero_byte) with
  | (buf, Ok _) => match w_write_all buf w with
                   | (w, Ok _) => (w, Ok tt)
                   | (w, Err e) => (w, Err (CodecIo e))
                   | (w, Panic) => (w, Panic)
                   end
  | (_, Err e) => (w, Err e)
  | (_, Panic) => (w, Panic)
  end.

(** ** Bits *)

Definition bit_at (bitmap : list byte) (pos : Z) : bool :=
  match bitmap !! Z.to_nat (pos / 8) with
  | Some b => Z.testbit (u8_val b) (pos mod 8)
  | None => false
  end.

Lemma land_7 z : Z.land z 7 = z mod 8.
Proof. change 7 with (Z.ones 3). rewrite Z.land_ones by lia. done. Qed.
Lemma shiftr_3 z : Z.shiftr z 3 = z / 8.
Proof. by rewrite Z.shiftr_div_pow2 by lia. Qed.

Lemma u8_set_bit b i j :
  0 <= i < 8 -> 0 <= j < 8 ->
  Z.testbit (u8_val (u8_of (Z.lor (u8_val b) (Z.shiftl 1 i)))) j
  = (Z.testbit (u8_val b) j || (i =? j)).
Proof.
  intros Hi Hj. unfold u8_val, u8_of. rewrite byte.unsigned_of_Z. unfold byte.wrap.
  rewrite Z.mod_pow2_bits_low, Z.lor_spec by lia. f_equal.
  rewrite Z.shiftl_1_l, Z.pow2_bits_eqb by lia. done.
Qed.

Lemma get_bit_at {E} bitmap pos :
  0 <= pos < 8 * blen bitmap -> @get_bit E bitmap pos = Ok (bit_at bitmap pos).
Proof.
  intros Hpos. unfold get_bit, bit_at. rewrite shiftr_3, land_7.
  assert (0 <= pos / 8 < blen bitmap) as Hq by (split; [apply Z.div_pos|apply Z.div_lt_upper_bound]; lia).
  destruct (lookup_lt_is_Some_2 bitmap (Z.to_nat (pos / 8))) as [b Hb]; [unfold blen in Hq; lia|].
  rewrite (index_ok _ _ b) by (lia || done). rewrite ok_bind, Hb. f_equal.
  pose proof (Z.mod_pos_bound pos 8 ltac:(lia)).
  change 1 with (Z.ones 1) at 1. rewrite Z.land_ones, Z.pow_1_r, Z.shiftr_div_pow2 by lia.
  by rewrite Z.testbit_eqb by lia.
Qed.

Lemma set_bit_at {E} bitmap pos :
  0 <= pos < 8 * blen bitmap ->
  exists bitmap', @set_bit E pos bitmap = (bitmap', Ok tt) /\ blen bitmap' = blen bitmap /\
    forall q, 0 <= q -> bit_at bitmap' q = bit_at bitmap q || (q =? pos).
Proof.
  intros Hpos. unfold set_bit. rewrite shiftr_3, land_7.
  assert (0 <= pos / 8 < blen bitmap) as Hq by (split; [apply Z.div_pos|apply Z.div_lt_upper_bound]; lia).
  destruct (lookup_lt_is_Some_2 bitmap (Z.to_nat (pos / 8))) as [b Hb]; [unfold blen in Hq; lia|].
  rewrite (index_ok _ _ b) by (lia || done). eexists. split; [reflexivity|].
  split; [unfold blen; by rewrite length_insert|]. intros q Hq0. unfold bit_at.
  pose proof (Z.mod_pos_bound pos 8 ltac:(lia)). pose proof (Z.mod_pos_bound q 8 ltac:(lia)).
  pose proof (Z.div_mod pos 8 ltac:(lia)). pose proof (Z.div_mod q 8 ltac:(lia)).
  destruct (decide (q / 8 = pos / 8)) as [Heq|Hne].
  - rewrite Heq, list_lookup_insert_eq, Hb by (unfold blen in Hq; lia). rewrite u8_set_bit by lia. f_equal.
    destruct (Z.eqb_spec (pos mod 8) (q mod 8)), (Z.eqb_spec q pos); lia || congruence.
  - rewrite list_lookup_insert_ne by (pose proof (Z.div_pos q 8); lia).
    destruct (Z.eqb_spec q pos); [congruence|]. by rewrite orb_false_r.
Qed.

Lemma set_bits_at {E} ps bitmap :
  Forall (fun p => 0 <= p < 8 * blen bitmap) ps ->
  exists bitmap', @set_bits E ps bitmap = (bitmap', Ok tt) /\ blen bitmap' = blen bitmap /\
    forall q, 0 <= q -> bit_at bitmap' q = true <-> bit_at bitmap q = true \/ q ∈ ps.
Proof.
  revert bitmap. induction ps as [|p ps IH]; intros bitmap Hps; cbn [set_bits].
  - eexists. split_and!; [reflexivity|done|]. intros q _. split; [by left|]. by intros [?|?%not_elem_of_nil].
  - apply Forall_cons in Hps as [Hp Hps]. rewrite st_bind_unfold.
    destruct (set_bit_at (E := E) bitmap p Hp) as (b1 & -> & Hlen & Hbit).
    destruct (IH b1) as (b2 & -> & Hlen' & Hbit'); [by rewrite Hlen|].
    eexists. split_and!; [reflexivity|lia|]. intros q Hq.
    rewrite Hbit', Hbit, orb_true_iff, Z.eqb_eq, elem_of_cons by done. tauto.
Qed.

Lemma all_bits_true {E} ps bitmap :
  Forall (fun p => 0 <= p < 8 * blen bitmap) ps ->
  exists b, @all_bits E bitmap ps = Ok b /\ (b = true <-> forall p, p ∈ ps -> bit_at bitmap p = true).
Proof.
  induction ps as [|p ps IH]; intros Hps; cbn [all_bits].
  - exists true. split; [done|]. split; [|done]. by intros _ p ?%not_elem_of_nil.
  - apply Forall_cons in Hps as [Hp Hps]. rewrite get_bit_at, ok_bind by done.
    destruct (IH Hps) as (b & Hb & Hiff). destruct (bit_at bitmap p) eqn:E1.
    + exists b. split; [done|]. rewrite Hiff. setoid_rewrite elem_of_cons. split.
      * intros Hall q [->|Hq]; auto.
      * intros Hall q Hq. auto.
    + exists false. split; [done|]. split; [done|]. intros Hall. rewrite <- E1. apply Hall. left.
Qed.

Record bloom_wf (f : BloomFilter) : Prop := {
  bf_bits : 0 < bf_n_bits f;
  bf_room : bf_n_bits f <= 8 * blen (bf_bitmap f)
}.

Lemma bloom_new_wf `{BloomSizing} n : 1 <= n -> bloom_wf (bloom_new n).
Proof.
  intros Hn. pose proof (bloom_bits_range n Hn). unfold bloom_new, div_ceil8.
  pose proof (Z.div_mod (bloom_bits n + 7) 8 ltac:(lia)).
  pose proof (Z.mod_pos_bound (bloom_bits n + 7) 8 ltac:(lia)).
  split; cbn; [lia|]. zlia.
Qed.

Section bloom_proofs.
Context `{Fnv} {E : Type}.

Lemma positions_ok f id :
  bloom_wf f -> exists ps, @positions _ E f id = Ok ps /\
    Forall (fun p => 0 <= p < 8 * blen (bf_bitmap f)) ps.
Proof.
  intros [Hb Hr]. unfold positions. replace (bf_n_bits f =? 0) with false by (symmetry; bdecide).
  eexists. split; [reflexivity|]. apply Forall_forall. intros p (i & -> & _)%list_elem_of_fmap.
  unfold position. pose proof (Z.mod_pos_bound
    (wrap64 (hash_with_salt (be_bytes 8 id) SALT1 + wrap64 (Z.of_nat i * hash_with_salt (be_bytes 8 id) SALT2)))
    (bf_n_bits f)). lia.
Qed.

(** the set bits that answer for [id] *)
Definition answers (f : BloomFilter) (id : Z) : Prop := @may_contain _ E f id = Ok true.

Lemma bloom_insert_ok f id :
  bloom_wf f -> exists f', @bloom_insert _ E id f = (f', Ok tt) /\ bloom_wf f' /\
    bf_n_bits f' = bf_n_bits f /\ bf_n_hashes f' = bf_n_hashes f /\
    answers f' id /\ (forall id', answers f id' -> answers f' id').
Proof.
  intros Hwf. pose proof Hwf as [Hb Hr]. unfold bloom_insert.
  destruct (positions_ok f id Hwf) as (ps & Hps & Hrange). rewrite Hps.
  destruct (set_bits_at (E := E) ps (bf_bitmap f) Hrange) as (bm & -> & Hlen & Hbit).
  eexists. split; [reflexivity|].
  assert (forall id', @positions _ E (bloom_with f bm) id' = positions f id') as Hsame by done.
  split_and!; [split; cbn; [done|by rewrite Hlen]|done|done| |].
  - unfold answers, may_contain. rewrite Hsame, Hps, ok_bind. cbn [bf_bitmap bloom_with].
    destruct (all_bits_true (E := E) ps bm) as (b & -> & Hiff); [by rewrite Hlen|].
    f_equal. apply Hiff. intros p Hp. rewrite Forall_forall in Hrange.
    apply Hbit; [by apply Hrange|by right].
  - intros id'. unfold answers, may_contain. rewrite Hsame.
    destruct (positions_ok f id' Hwf) as (qs & -> & Hqs). rewrite !ok_bind. cbn [bf_bitmap bloom_with].
    destruct (all_bits_true (E := E) qs bm) as (b & -> & Hiff); [by rewrite Hlen|].
    destruct (all_bits_true (E := E) qs (bf_bitmap f)) as (b' & -> & Hiff'); [done|].
    intros [= ->]. f_equal. apply Hiff. intros p Hp. rewrite Forall_forall in Hqs.
    apply Hbit; [by apply Hqs|]. left. by apply Hiff'.
Qed.

Lemma may_contain_total f id : bloom_wf f -> exists b, @may_contain _ E f id = Ok b.
Proof.
  intros Hwf. destruct (positions_ok f id Hwf) as (ps & Hps & Hrange). unfold may_contain. rewrite Hps, ok_bind.
  destruct (all_bits_true (E := E) ps (bf_bitmap f) Hrange) as (b & -> & _). by exists b.
Qed.

Lemma bloom_insert_all_ok ids f :
  bloom_wf f -> exists f', @bloom_insert_all _ E ids f = (f', Ok tt) /\ bloom_wf f' /\
    Forall (answers f') ids /\ (forall id', answers f id' -> answers f' id').
Proof.
  revert f. induction ids as [|id ids IH]; intros f Hwf; cbn [bloom_insert_all].
  - eexists. by split_and!; [reflexivity|..].
  - rewrite st_bind_unfold. destruct (bloom_insert_ok f id Hwf) as (f1 & -> & Hwf1 & _ & _ & Hid & Hmono).
    destruct (IH f1 Hwf1) as (f2 & -> & Hwf2 & Hall & Hmono2). eexists.
    split_and!; [reflexivity|done|constructor; auto|auto].
Qed.
End bloom_proofs.

Lemma bloom_decode_gen `{NomLaws} (f : BloomFilter) (rest : list byte) :
  in_u64 (bf_n_bits f) -> in_u64 (bf_n_hashes f) -> blen (bf_bitmap f) <= MAX_BITMAP_SIZE ->
  bloom_decode (be_bytes 8 (bf_n_bits f) ++ be_bytes 8 (bf_n_hashes f)
                ++ be_bytes 4 (blen (bf_bitmap f)) ++ bf_bitmap f ++ rest)
  = Ok (Some (f, wire_len f)).
Proof.
  intros Hb Hh Hl.
  unfold bloom_decode, bloom_nom_decode.
  rewrite nom_be_u64_spec. if_false. rewrite (drop_app_blen (be_bytes 8 _) _ 8), (take_app_blen (be_bytes 8 _) _ 8), be_val_u64 by done.
  rewrite nom_be_u64_spec. if_false. rewrite (drop_app_blen (be_bytes 8 _) _ 8), (take_app_blen (be_bytes 8 _) _ 8), be_val_u64 by done.
  rewrite nom_be_u32_spec. if_false. rewrite (drop_app_blen (be_bytes 4 _) _ 4), (take_app_blen (be_bytes 4 _) _ 4), be_val_u32 by (done || split; zlia).
  rewrite nom_take_spec. if_false. rewrite drop_app_blen, take_app_blen by done.
  do 3 f_equal; [by destruct f|]. unfold wire_len, bloom_wire_len. zlia.
Qed.

Lemma bloom_encode_result (f : BloomFilter) (dst : list byte) :
  (bloom_encode f dst).2 = if blen dst <? wire_len f then Err (not_enough_bytes (blen dst) (wire_len f)) else Panic.
Proof.
  unfold bloom_encode. destruct (blen dst <? wire_len f) eqn:E1; gsplit; [done|].
  unfold wire_len, bloom_wire_len in E1.
  rewrite st_bind_unfold. unfold copy_whole, copy_into. by if_false.
Qed.

(** ** Claims *)

(** C30: no false negatives. A filter made for at least one record and
    filled with any stream ids answers [true] for every one of them, and
    neither inserting nor asking ever panics, for any id and any hash. *)
Theorem bloom_no_false_negatives `{Fnv, BloomSizing} (n : Z) (ids : list Z) (id : Z) (Hn : 1 <= n) :
  exists f, @bloom_insert_all _ CodecError ids (bloom_new n) = (f, Ok tt) /\
    (id ∈ ids -> @may_contain _ CodecError f id = Ok true) /\
    exists b, @may_contain _ CodecError f id = Ok b.
Proof.
  destruct (bloom_insert_all_ok (E := CodecError) ids (bloom_new n) (bloom_new_wf n Hn)) as (f & Hf & Hwf & Hall & _).
  exists f. split_and!; [done| |by apply may_contain_total].
  intros Hid. rewrite Forall_forall in Hall. by apply Hall.
Qed.

(** [BloomFilterCodec::decode] reads the layout [n_bits: u64], [n_hashes:
    u64], [bitmap_len: u32], bitmap, whatever follows it. *)
Theorem bloom_decode_layout `{NomLaws} (f : BloomFilter) (rest : list byte)
    (Hb : in_u64 (bf_n_bits f)) (Hh : in_u64 (bf_n_hashes f)) (Hl : blen (bf_bitmap f) <= MAX_BITMAP_SIZE) :
  bloom_decode (be_bytes 8 (bf_n_bits f) ++ be_bytes 8 (bf_n_hashes f)
                ++ be_bytes 4 (blen (bf_bitmap f)) ++ bf_bitmap f ++ rest)
  = Ok (Some (f, wire_len f)).
Proof. by apply bloom_decode_gen. Qed.

(** ** Witnesses *)

Program Definition ref_sizing : BloomSizing :=
  {| bloom_bits n := Z.min (10 * n) u64_max; bloom_hashes n := 7 |}.
Next Obligation. intros n Hn. unfold u64_max. lia. Qed.
Next Obligation. intros n. unfold u64_max. lia. Qed.

Lemma bloom_no_false_negatives_witness :
  exists f, @bloom_insert_all sum_fnv CodecError [3; 8; 21] (@bloom_new ref_sizing 4) = (f, Ok tt) /\
    (8 ∈ [3; 8; 21] -> @may_contain sum_fnv CodecError f 8 = Ok true) /\
    exists b, @may_contain sum_fnv CodecError f 8 = Ok b.
Proof. apply (@bloom_no_false_negatives sum_fnv ref_sizing 4 [3; 8; 21] 8). lia. Defined.

Definition sample_bloom : BloomFilter :=
  {| bf_bitmap := [u8_of 5; u8_of 64]; bf_n_bits := 14; bf_n_hashes := 3 |}.

Lemma bloom_decode_layout_witness :
  @bloom_decode ref_nom (be_bytes 8 14 ++ be_bytes 8 3 ++ be_bytes 4 2 ++ [u8_of 5; u8_of 64] ++ [u8_of 1])
  = Ok (Some (sample_bloom, 22)).
Proof. apply (@bloom_decode_layout ref_nom ref_nom_laws sample_bloom [u8_of 1]); by split || done. Defined.
