(* ===== verification/Manifest.v ===== *)
(** * The manifest: logregator-tsdb/src/manifest.rs

    The log of memtable flushes, compactions and new streams, its codec, and
    the snapshot it is folded into. The manifest file is abstract ([File]
    with its operations, which may fail); the snapshot file holds JSON, whose
    reader and writer (serde_json) are a parameter. *)
From stdpp Require Import gmap.
From S2P Require Import Prelude Std Ext Codec Errors Record Label.

Definition MAINFEST_DEFAULT_MAX_FILE_SIZE : Z := 20 * 1028.
Definition MANIFEST_ENTRY_TAG_SZ : Z := 1.
#[export] Hint Unfold MANIFEST_ENTRY_TAG_SZ : sizes.

(** ** Entries *)

Inductive ManifestEntry :=
| MemtableFlush (id : Z)
| Compaction (ids : list Z)
| StreamUpdate (sid : Z) (labelmap : LabelMap).

#[global] Instance manifest_entry_wire_len : WireLen ManifestEntry := fun e =>
  1 + match e with
      | MemtableFlush _ => SZ_U64
      | Compaction v => SZ_U32 + blen v * SZ_U64
      | StreamUpdate _ labelmap => SZ_U64 + wire_len labelmap
      end.

Definition entry_tag (e : ManifestEntry) : Z :=
  match e with MemtableFlush _ => 1 | Compaction _ => 2 | StreamUpdate _ _ => 3 end.

Definition sst_flush (id : Z) : ManifestEntry := MemtableFlush id.

Definition compaction (ids : list Z) : option ManifestEntry :=
  if u32_max <? blen ids then None else Some (Compaction ids).

Definition stream_update (sid : Z) (labelmap : LabelMap) : option ManifestEntry :=
  if MAX_LABEL_COUNT <? labelmap_len labelmap then None
  else if forallb (fun kv => str_size_ok (blen kv.1) && str_size_ok (blen kv.2)) (labelmap_iter labelmap)
  then Some (StreamUpdate sid labelmap)
  else None.

(** ** [ManifestCodec] *)

(** [dst[i] = b] *)
Definition set_byte {E} (i : Z) (b : byte) : st (list byte) E unit := copy_into i (i + 1) [b].

Fixpoint encode_ids (ids : list Z) (n : Z) : st (list byte) CodecError Z :=
  match ids with
  | [] => mret n
  | id :: t => _ ← copy_into n (n + SZ_U64) (be_bytes 8 id); encode_ids t (n + SZ_U64)
  end.

Section manifest_codec.
Context `{Nom, DefaultHasher}.

Definition manifest_encode_body (item : ManifestEntry) : st (list byte) CodecError unit :=
  match item with
  | MemtableFlush id => copy_into 1 (1 + SZ_U64) (be_bytes 8 id)
  | Compaction ids =>
      _ ← copy_into 1 (1 + SZ_U32) (be_bytes 4 (wrap32 (blen ids)));
      n ← encode_ids ids (1 + SZ_U32);
      if negb (n =? wire_len item) then st_err (CodecOther "failed to encode Sstable ids") else mret tt
  | StreamUpdate sid labelmap =>
      _ ← copy_into 1 (1 + SZ_U64) (be_bytes 8 sid);
      n ← on_subslice (1 + SZ_U64) (1 + SZ_U64 + wire_len labelmap) (encode (I := LabelMap) labelmap);
      if negb (n =? wire_len labelmap)
      then st_err (CodecOther "failed to encode labelmap field of ManifestEntry") else mret tt
  end.

Definition manifest_encode (item : ManifestEntry) : st (list byte) CodecError Z := fun dst =>
  if blen dst <? wire_len item then (dst, Err (not_enough_bytes (blen dst) (wire_len item)))
  else (_ ← set_byte 0 (u8_of (entry_tag item));
        _ ← manifest_encode_body item;
        mret (wire_len item) : st (list byte) CodecError Z) dst.

(** the loop that reads the ids: its index [n] is never advanced *)
Fixpoint decode_ids (len : nat) (n : Z) (src : list byte) : outcome CodecError (list Z) :=
  match len with
  | O => Ok []
  | S len =>
      sst_id ← array_at 8 src n;
      v ← decode_ids len n src;
      Ok (be_val sst_id :: v)
  end.

Definition manifest_decode (src : list byte) : outcome CodecError (option (ManifestEntry * Z)) :=
  if blen src <? MANIFEST_ENTRY_TAG_SZ then Ok None
  else
    tag ← index src 0;
    me ← (if u8_val tag =? 1 then
            if blen src <? MANIFEST_ENTRY_TAG_SZ + SZ_U64
            then Err (not_enough_bytes (blen src) (MANIFEST_ENTRY_TAG_SZ + SZ_U64))
            else id ← array_at 8 src 1; Ok (Some (MemtableFlush (be_val id)))
          else if u8_val tag =? 2 then
            if blen src <? MANIFEST_ENTRY_TAG_SZ + SZ_U32
            then Err (not_enough_bytes (blen src) (MANIFEST_ENTRY_TAG_SZ + SZ_U32))
            else
              lenb ← array_at 4 src 1;
              let len := be_val lenb in
              if blen src <? MANIFEST_ENTRY_TAG_SZ + SZ_U32 + len * SZ_U64
              then Err (not_enough_bytes (blen src) (MANIFEST_ENTRY_TAG_SZ + SZ_U32 + len * SZ_U64))
              else v ← decode_ids (Z.to_nat len) (MANIFEST_ENTRY_TAG_SZ + SZ_U32) src;
                   Ok (Some (Compaction v))
          else if u8_val tag =? 3 then
            if blen src <? MANIFEST_ENTRY_TAG_SZ + SZ_U64
            then Err (not_enough_bytes (blen src) (MANIFEST_ENTRY_TAG_SZ + SZ_U64))
            else
              sid ← array_at 8 src 1;
              rest ← slice src (MANIFEST_ENTRY_TAG_SZ + SZ_U64) (blen src);
              lo ← decode (I := LabelMap) rest;
              Ok (match lo with
                  | Some (labelmap, _) => Some (StreamUpdate (be_val sid) labelmap)
                  | None => None
                  end)
          else Err (CodecOther "unknown ManifestEntry variant"));
    Ok (match me with Some me => Some (me, wire_len me) | None => None end).

#[global] Instance ManifestEntry_codec : SpecCodec ManifestEntry :=
  {| encode := manifest_encode; decode := manifest_decode |}.
End manifest_codec.

(** ** [Snapshot] *)

Inductive SstState := Live | Removed.
#[global] Instance SstState_eq_dec : EqDecision SstState.
Proof. solve_decision. Defined.

Record Snapshot := { sstable_state : gmap Z SstState; labelmaps : gmap Z LabelMap }.
Definition snapshot_default : Snapshot := {| sstable_state := ∅; labelmaps := ∅ |}.

(** one turn of the loop of [from_manifest] *)
Definition apply_entry (s : Snapshot) (e : ManifestEntry) : Snapshot :=
  match e with
  | MemtableFlush id =>
      {| sstable_state := <[id := Live]> (sstable_state s); labelmaps := labelmaps s |}
  | Compaction ids =>
      {| sstable_state := foldl (fun m id => <[id := Removed]> m) (sstable_state s) ids;
         labelmaps := labelmaps s |}
  | StreamUpdate sid labelmap =>
      {| sstable_state := sstable_state s; labelmaps := <[sid := labelmap]> (labelmaps s) |}
  end.

(** [retain(|_, v| matches!(v, Live))] *)
Definition retain_live (m : gmap Z SstState) : gmap Z SstState :=
  filter (fun kv => kv.2 = Live) m.

Definition snapshot_merge (older delta : Snapshot) : Snapshot :=
  {| sstable_state :=
       foldl (fun ssts '(id, state) => match state with
                                       | Live => <[id := state]> ssts
                                       | Removed => delete id ssts
                                       end)
         (retain_live (sstable_state older)) (map_to_list (sstable_state delta));
     labelmaps :=
       foldl (fun ls '(sid, labelmap) => <[sid := labelmap]> ls)
         (labelmaps older) (map_to_list (labelmaps delta)) |}.

(** [serde_json] on snapshots *)
Class Json := {
  to_json : Snapshot -> list byte;
  from_json : list byte -> option Snapshot;
  json_roundtrip s : from_json (to_json s) = Some s
}.

(** ** [Manifest] *)

(** What the manifest asks of its file besides [Write]: truncation, sync,
    and reading from the start (as the sequence of [read] results). *)
Class FileOps (W : Type) `{Write W} := {
  f_set_len0 : st W io_error unit;
  f_sync_all : st W io_error unit;
  f_read_events : W -> list read_event
}.

Record Manifest (W : Type) := {
  mf_framed : FramedWriter W;
  mf_max_file_size : Z;
  mf_snapshot_file : option (list byte)
}.
Arguments mf_framed {W} m.
Arguments mf_max_file_size {W} m.
Arguments mf_snapshot_file {W} m.

Section manifest.
Context {W : Type} `{FileOps W, Nom, DefaultHasher, Json}.

Definition mf_with (m : Manifest W) (fw : FramedWriter W) (snap : option (list byte)) : Manifest W :=
  {| mf_framed := fw; mf_max_file_size := mf_max_file_size m; mf_snapshot_file := snap |}.

Definition manifest_file (m : Manifest W) : W := bw_inner (fw_inner (mf_framed m)).

Definition manifest_open (file : W) (snapshot : option (list byte)) (max_file_size : option Z) : Manifest W :=
  {| mf_framed := framed_writer_new file;
     mf_max_file_size := default MAINFEST_DEFAULT_MAX_FILE_SIZE max_file_size;
     mf_snapshot_file := snapshot |}.

Definition manifest_as_reader (m : Manifest W) : FramedReader :=
  framed_reader_new (f_read_events (manifest_file m)).

(** The fuel is one more than the number of bytes in the file: every entry
    takes at least one, and so does every read. *)
Definition snapshot_from_manifest (m : Manifest W) : outcome CodecError Snapshot :=
  let fuel := S (length (source_bytes (f_read_events (manifest_file m)))) in
  match framed_reader_collect fuel fuel (manifest_as_reader m) with
  | None => Panic
  | Some (es, o) => _ ← o; Ok (foldl apply_entry snapshot_default es)
  end.

(** [write_to]: the new contents of the snapshot file *)
Definition snapshot_write_to (snap : Snapshot) (file : option (list byte)) : outcome io_error (list byte) :=
  match file with
  | Some bytes => match from_json bytes with
                  | Some old => Ok (to_json (snapshot_merge old snap))
                  | None => Err (IoError InvalidData)
                  end
  | None => Ok (to_json snap)
  end.

Definition on_file (op : st W io_error unit) : st (Manifest W) CodecError unit := fun m =>
  let fw := mf_framed m in
  let '(w, o) := op (bw_inner (fw_inner fw)) in
  (mf_with m {| fw_inner := {| bw_inner := w; bw_buf := bw_buf (fw_inner fw) |};
                fw_buf := fw_buf fw; fw_bytes_written := fw_bytes_written fw |} (mf_snapshot_file m),
   map_err CodecIo o).

Definition manifest_flush : st (Manifest W) CodecError unit := fun m =>
  let '(fw, o) := framed_writer_flush (mf_framed m) in
  (mf_with m fw (mf_snapshot_file m), map_err CodecIo o).

Definition manifest_snapshot : st (Manifest W) CodecError unit := fun m =>
  match snapshot_from_manifest m with
  | Ok snap => match snapshot_write_to snap (mf_snapshot_file m) with
               | Ok bytes => (mf_with m (mf_framed m) (Some bytes), Ok tt)
               | Err e => (m, Err (CodecIo e))
               | Panic => (m, Panic)
               end
  | Err e => (m, Err e)
  | Panic => (m, Panic)
  end.

Definition snapshot_truncate : st (Manifest W) CodecError unit :=
  _ ← manifest_flush;
  _ ← manifest_snapshot;
  _ ← on_file f_set_len0;
  on_file f_sync_all.

Definition manifest_write (e : ManifestEntry) : st (Manifest W) CodecError unit := fun m =>
  let '(fw, o) := framed_writer_write e (mf_framed m) in
  (mf_with m fw (mf_snapshot_file m), o).

Definition manifest_append (e : ManifestEntry) : st (Manifest W) CodecError bool :=
  _ ← manifest_write e;
  m ← st_get;
  if mf_max_file_size m <? framed_writer_size_hint (mf_framed m)
  then _ ← snapshot_truncate; mret true
  else mret false.

Fixpoint manifest_append_many_from (es : list ManifestEntry) (flushed : bool) : st (Manifest W) CodecError bool :=
  match es with
  | [] => mret flushed
  | e :: es => flushed ← manifest_append e; manifest_append_many_from es flushed
  end.
Definition manifest_append_many (es : list ManifestEntry) : st (Manifest W) CodecError bool :=
  manifest_append_many_from es false.

Definition open_snapshotted (file : W) (snapshot : option (list byte)) (max_file_size : option Z)
    : Manifest W * outcome CodecError unit :=
  snapshot_truncate (manifest_open file snapshot max_file_size).
End manifest.

(** ** The wire format of entries *)

Definition ids_wire (ids : list Z) : list byte := concat (map (be_bytes 8) ids).
Definition entry_wire (e : ManifestEntry) : list byte :=
  [u8_of (entry_tag e)] ++
  match e with
  | MemtableFlush id => be_bytes 8 id
  | Compaction ids => be_bytes 4 (blen ids) ++ ids_wire ids
  | StreamUpdate sid m => be_bytes 8 sid ++ labelmap_wire m
  end.

Lemma blen_ids_wire ids : blen (ids_wire ids) = 8 * blen ids.
Proof. unfold ids_wire. induction ids as [|i t IH]; cbn [map concat]; [done|]. zlia. Qed.
#[export] Hint Rewrite blen_ids_wire : blen.

Lemma blen_entry_wire e : blen (entry_wire e) = wire_len e.
Proof.
  unfold entry_wire, wire_len, manifest_entry_wire_len.
  destruct e; autorewrite with blen; unfold wire_len in *; zlia.
Qed.
#[export] Hint Rewrite blen_entry_wire : blen.

(** entries whose fields fit their width; the label maps are encodable *)
Definition entry_fits `{DefaultHasher} (e : ManifestEntry) : Prop :=
  match e with
  | MemtableFlush id => in_u64 id
  | Compaction ids => Forall in_u64 ids /\ blen ids <= u32_max
  | StreamUpdate sid m => in_u64 sid /\ labelmap_valid m
  end.
(** those that also survive decoding: the ids of a compaction are all equal *)
Definition entry_valid `{DefaultHasher} (e : ManifestEntry) : Prop :=
  entry_fits e /\ match e with Compaction ids => Forall (fun i => Some i = head ids) ids | _ => True end.

Lemma encode_ids_wire ids (done free : list byte) n :
  n = blen done -> 8 * blen ids <= blen free ->
  encode_ids ids n (done ++ free)
  = ((done ++ ids_wire ids) ++ drop (length (ids_wire ids)) free, Ok (n + 8 * blen ids)).
Proof.
  revert n done free. induction ids as [|i t IH]; intros n done free Hn Hle; cbn [encode_ids].
  - cbn. by rewrite app_nil_r, Z.add_0_r.
  - rewrite st_bind_unfold, copy_into_next by zlia. rewrite IH by zlia.
    unfold ids_wire. cbn [map concat]. rewrite <- !app_assoc, drop_drop, length_app. f_equal. f_equal. zlia.
Qed.

Definition entry_body (e : ManifestEntry) : list byte :=
  match e with
  | MemtableFlush id => be_bytes 8 id
  | Compaction ids => be_bytes 4 (blen ids) ++ ids_wire ids
  | StreamUpdate sid m => be_bytes 8 sid ++ labelmap_wire m
  end.
Lemma entry_wire_body e : entry_wire e = [u8_of (entry_tag e)] ++ entry_body e.
Proof. by destruct e. Qed.
Lemma blen_entry_body e : blen (entry_body e) = wire_len e - 1.
Proof. rewrite <- blen_entry_wire, entry_wire_body. zlia. Qed.

Section manifest_codec_proofs.
Context `{NomLaws, DefaultHasher}.

Lemma manifest_encode_body_wire e b (free : list byte) :
  entry_fits e -> blen (entry_body e) <= blen free ->
  manifest_encode_body e ([b] ++ free)
  = (([b] ++ entry_body e) ++ drop (length (entry_body e)) free, Ok tt).
Proof.
  intros He Hlen. destruct e as [id|ids|sid m]; cbn [manifest_encode_body entry_body entry_fits] in *.
  - by rewrite copy_into_next by zlia.
  - destruct He as [_ Hn]. rewrite st_bind_unfold, copy_into_next by zlia.
    rewrite wrap32_small by (split; zlia).
    rewrite st_bind_unfold, encode_ids_wire by zlia.
    assert ((1 + SZ_U32 + 8 * blen ids =? wire_len (Compaction ids)) = true) as ->
      by (apply Z.eqb_eq; unfold wire_len, manifest_entry_wire_len; zlia).
    cbn [negb mret st_ret]. by rewrite drop_drop, <- !app_assoc, length_app.
  - destruct He as [_ Hm]. rewrite blen_app, blen_labelmap_wire, blen_be_bytes in Hlen.
    pose proof (blen_nonneg (labelmap_wire m)) as Hpos. rewrite blen_labelmap_wire in Hpos.
    rewrite st_bind_unfold, copy_into_next by zlia.
    destruct (split_at_blen (drop (length (be_bytes 8 sid)) free) (wire_len m)
      (blen free - 8 - wire_len m)) as (x & y & Hxy & Hx & Hy); [zlia..|]. rewrite Hxy.
    rewrite st_bind_unfold, (app_assoc [b]), (on_subslice_middle _ ([b] ++ be_bytes 8 sid) x y) by zlia.
    rewrite (encode_wire (LawfulCodec := labelmap_lawful) m x Hm) by lia.
    rewrite Z.eqb_refl. cbn [negb mret st_ret].
    rewrite (drop_ge x), app_nil_r by (pose proof (blen_labelmap_wire m); unfold blen in *; lia).
    rewrite <- !app_assoc, length_app, <- drop_drop, Hxy.
    rewrite <- (Nat2Z.id (length (labelmap_wire m))), drop_app_blen; [done|].
    fold (blen (labelmap_wire m)). rewrite blen_labelmap_wire. lia.
Qed.

Lemma manifest_encode_wire e dst :
  entry_fits e -> wire_len e <= blen dst ->
  manifest_encode e dst = (entry_wire e ++ drop (length (entry_wire e)) dst, Ok (wire_len e)).
Proof.
  intros He Hlen. unfold manifest_encode. if_false.
  pose proof (blen_nonneg (entry_body e)) as Hb. rewrite blen_entry_body in Hb.
  rewrite st_bind_unfold. unfold set_byte. rewrite <- (app_nil_l dst) at 1.
  rewrite copy_into_next by zlia. rewrite app_nil_l. cbn [length]. rewrite st_bind_unfold.
  rewrite manifest_encode_body_wire by (done || rewrite blen_entry_body; zlia).
  rewrite drop_drop, entry_wire_body. reflexivity.
Qed.

Lemma decode_ids_repeats len n src id :
  array_at (E := CodecError) 8 src n = Ok id -> decode_ids len n src = Ok (replicate len (be_val id)).
Proof. intros Hid. induction len as [|len IH]; cbn; [done|]. by rewrite Hid, IH. Qed.

(** decoding an entry, whatever follows it *)
Definition as_decoded (e : ManifestEntry) : ManifestEntry :=
  match e with
  | Compaction (id :: ids) => Compaction (replicate (S (length ids)) id)
  | e => e
  end.

Lemma manifest_decode_wire e rest :
  entry_fits e -> manifest_decode (entry_wire e ++ rest) = Ok (Some (as_decoded e, wire_len e)).
Proof.
  intros He. unfold manifest_decode, entry_wire. pose proof (blen_entry_wire e) as Hw.
  unfold entry_wire in Hw. if_false. rewrite <- app_assoc. change (index _ 0) with (@Ok CodecError _ (u8_of (entry_tag e))).
  rewrite ok_bind. destruct e as [id|ids|sid m]; cbn [entry_tag entry_fits] in *.
  - rewrite u8_val_of by done. cbn [Z.eqb Pos.eqb]. if_false.
    unfold array_at. rewrite (slice_app [_] (be_bytes 8 id)) by zlia. rewrite !ok_bind, be_val_u64 by done. done.
  - destruct He as [Hids Hn]. rewrite u8_val_of by done. cbn [Z.eqb Pos.eqb]. if_false.
    rewrite <- app_assoc. unfold array_at at 1.
    rewrite (slice_app [_] (be_bytes 4 (blen ids))) by zlia. rewrite ok_bind, be_val_u32 by (split; zlia).
    if_false. destruct ids as [|id ids].
    + reflexivity.
    + apply Forall_cons in Hids as [Hid _].
      rewrite (decode_ids_repeats _ _ _ (be_bytes 8 id)).
      * rewrite !ok_bind, be_val_u64 by done. unfold blen. rewrite Nat2Z.id. cbn [length as_decoded].
        unfold wire_len, manifest_entry_wire_len. rewrite blen_replicate, blen_cons. unfold blen.
        do 5 f_equal. lia.
      * unfold array_at, ids_wire. cbn [map concat]. rewrite <- app_assoc.
        rewrite (app_assoc [_]). apply slice_app; zlia.
  - destruct He as [Hs Hm]. pose proof (blen_nonneg (labelmap_wire m)).
    rewrite u8_val_of by done. cbn [Z.eqb Pos.eqb]. if_false.
    rewrite <- app_assoc. unfold array_at. rewrite (slice_app [_] (be_bytes 8 sid) _ 1) by zlia. rewrite ok_bind.
    rewrite (app_assoc [_]), slice_suffix by zlia. rewrite ok_bind.
    rewrite (decode_wire (LawfulCodec := labelmap_lawful) m rest Hm), !ok_bind, be_val_u64 by done. done.
Qed.

(** an entry that is cut short is an error, unless nothing of it is there *)
Lemma manifest_decode_cut e pre :
  entry_fits e -> pre `prefix_of` entry_wire e -> pre <> entry_wire e -> pre <> [] ->
  exists err, manifest_decode pre = Err err.
Proof.
  intros He Hpre Hne Hnil. rewrite entry_wire_body in Hpre, Hne. destruct pre as [|b pre]; [done|].
  apply prefix_cons_inv_1 in Hpre as Hb. apply prefix_cons_inv_2 in Hpre as Hq. subst b.
  assert (pre <> entry_body e) as Hne' by (by intros ->). clear Hpre Hne Hnil.
  destruct Hq as [more Hmore]. assert (0 < blen more) as Hpos
    by (apply blen_pos; intros ->; rewrite app_nil_r in Hmore; congruence).
  pose proof (blen_entry_body e) as Hlen. rewrite Hmore, blen_app in Hlen.
  change (u8_of (entry_tag e) :: pre) with ([u8_of (entry_tag e)] ++ pre).
  unfold manifest_decode. if_false. change (index _ 0) with (@Ok CodecError _ (u8_of (entry_tag e))). rewrite ok_bind.
  destruct e as [id|ids|sid m]; cbn [entry_tag entry_fits entry_body] in *; rewrite u8_val_of by done;
    cbn [Z.eqb Pos.eqb]; unfold wire_len, manifest_entry_wire_len in Hlen.
  - if_true. by eexists.
  - destruct (_ <? MANIFEST_ENTRY_TAG_SZ + SZ_U32) eqn:E; gsplit; [by eexists|].
    destruct (prefix_or_extends _ _ _ _ (eq_sym Hmore)) as [(k & -> & _)|[Hp Hp_ne]].
    + unfold array_at at 1. rewrite (slice_app [_] (be_bytes 4 (blen ids))) by zlia.
      rewrite ok_bind, be_val_u32 by (split; zlia). if_true. by eexists.
    + exfalso. apply Hp_ne, prefix_length_eq; [done|]. rewrite length_be_bytes. unfold blen in *; cbn in *. zlia.
  - destruct (_ <? MANIFEST_ENTRY_TAG_SZ + SZ_U64) eqn:E; gsplit; [by eexists|].
    destruct (prefix_or_extends _ _ _ _ (eq_sym Hmore)) as [(k & -> & Hk)|[Hp Hp_ne]].
    + unfold array_at. rewrite (slice_app [_] (be_bytes 8 sid) _ 1) by zlia. rewrite ok_bind.
      rewrite (app_assoc [_]), slice_suffix by zlia. rewrite ok_bind.
      destruct (labelmap_decode_cut m k) as [err Herr]; [apply He|by exists more| |].
      * intros ->. apply Hne'. done.
      * cbn [decode LabelMap_codec]. rewrite Herr. by eexists.
    + exfalso. apply Hp_ne, prefix_length_eq; [done|]. rewrite length_be_bytes. unfold blen in *; cbn in *. zlia.
Qed.
End manifest_codec_proofs.

#[global] Instance manifest_lawful `{NomLaws, DefaultHasher} : LawfulCodec ManifestEntry entry_valid entry_wire.
Proof.
  split.
  - intros e _. rewrite blen_entry_wire. pose proof (blen_nonneg (entry_body e)) as Hb.
    rewrite blen_entry_body in Hb. lia.
  - intros e _. by rewrite blen_entry_wire.
  - intros e dst [He _]. by apply manifest_encode_wire.
  - intros e rest [He Hv]. rewrite blen_entry_wire. cbn [decode ManifestEntry_codec].
    rewrite manifest_decode_wire by done. do 3 f_equal. destruct e as [|[|id ids]|]; try done.
    cbn [as_decoded]. f_equal. apply Forall_cons in Hv as [_ Hv]. cbn [replicate]. f_equal.
    clear He. induction Hv as [|i t [= ->] _ IH]; [done|]. cbn. by rewrite IH.
Qed.

(** ** The catalogue: what the manifest promises

    The live SST ids and the label map of every stream. *)

Record Catalog := { cat_live : gset Z; cat_labels : gmap Z LabelMap }.

Definition catalog_apply (c : Catalog) (e : ManifestEntry) : Catalog :=
  match e with
  | MemtableFlush id => {| cat_live := {[id]} ∪ cat_live c; cat_labels := cat_labels c |}
  | Compaction ids => {| cat_live := cat_live c ∖ list_to_set ids; cat_labels := cat_labels c |}
  | StreamUpdate sid m => {| cat_live := cat_live c; cat_labels := <[sid := m]> (cat_labels c) |}
  end.

Definition catalog_of (s : Snapshot) : Catalog :=
  {| cat_live := dom (retain_live (sstable_state s)); cat_labels := labelmaps s |}.

Lemma elem_of_live (m : gmap Z SstState) id : id ∈ dom (retain_live m) <-> m !! id = Some Live.
Proof.
  unfold retain_live. rewrite elem_of_dom. split.
  - intros [s Hs]. apply map_lookup_filter_Some in Hs as [Hs Heq]. cbn in Heq. by subst.
  - intros Hs. exists Live. by apply map_lookup_filter_Some.
Qed.

Lemma foldl_removed ids (m : gmap Z SstState) id :
  foldl (fun m id => <[id := Removed]> m) m ids !! id
  = if decide (id ∈ ids) then Some Removed else m !! id.
Proof.
  revert m. induction ids as [|i ids IH]; intros m; cbn [foldl]; [done|]. rewrite IH.
  destruct (decide (id = i)) as [->|Hne].
  - rewrite lookup_insert_eq, (decide_True (P := i ∈ i :: ids)) by left. by destruct (decide _).
  - rewrite lookup_insert_ne by done. apply decide_ext. rewrite elem_of_cons. tauto.
Qed.

Lemma foldl_merge_states l (m : gmap Z SstState) id :
  NoDup l.*1 ->
  foldl (fun ssts '(id, state) => match state with
                                  | Live => <[id := state]> ssts
                                  | Removed => delete id ssts
                                  end) m l !! id
  = match (list_to_map l : gmap Z SstState) !! id with
    | Some Live => Some Live
    | Some Removed => None
    | None => m !! id
    end.
Proof.
  revert m. induction l as [|[i s] l IH]; intros m Hnd; cbn [foldl list_to_map foldr]; [by rewrite lookup_empty|].
  cbn in Hnd. apply NoDup_cons in Hnd as [Hi Hnd]. rewrite (IH _ Hnd). cbn [uncurry].
  destruct (decide (id = i)) as [->|Hne].
  - rewrite lookup_insert_eq, (not_elem_of_list_to_map_1 l i Hi).
    destruct s; [by rewrite lookup_insert_eq|by rewrite lookup_delete_eq].
  - rewrite lookup_insert_ne by done. fold (list_to_map (M := gmap Z SstState) l).
    destruct (_ !! id) as [[]|]; [done|done|].
    destruct s; [by rewrite lookup_insert_ne|by rewrite lookup_delete_ne].
Qed.

Lemma foldl_insert_labels l (m : gmap Z LabelMap) :
  NoDup l.*1 -> foldl (fun ls '(sid, lm) => <[sid := lm]> ls) m l = (list_to_map l : gmap Z LabelMap) ∪ m.
Proof.
  revert m. induction l as [|[i s] l IH]; intros m Hnd; cbn [foldl list_to_map foldr];
    [by rewrite (left_id_L ∅ (∪))|].
  cbn in Hnd. apply NoDup_cons in Hnd as [Hi Hnd]. rewrite (IH _ Hnd). cbn [uncurry].
  rewrite <- insert_union_l. rewrite insert_union_r; [done|]. by apply not_elem_of_list_to_map_1.
Qed.

Lemma merge_live older delta id :
  id ∈ cat_live (catalog_of (snapshot_merge older delta)) <->
  match sstable_state delta !! id with
  | Some Live => True
  | Some Removed => False
  | None => id ∈ cat_live (catalog_of older)
  end.
Proof.
  unfold catalog_of, snapshot_merge. cbn [cat_live sstable_state]. rewrite elem_of_live.
  rewrite foldl_merge_states by apply NoDup_fst_map_to_list. rewrite list_to_map_to_list.
  destruct (sstable_state delta !! id) as [[]|]; [done|done|].
  rewrite elem_of_live. unfold retain_live. rewrite map_lookup_filter_Some. cbn. tauto.
Qed.

Lemma merge_labels older delta :
  cat_labels (catalog_of (snapshot_merge older delta)) = labelmaps delta ∪ labelmaps older.
Proof.
  unfold catalog_of, snapshot_merge. cbn. rewrite foldl_insert_labels by apply NoDup_fst_map_to_list.
  by rewrite list_to_map_to_list.
Qed.

Lemma delta_live c es id :
  id ∈ cat_live (foldl catalog_apply c es) <->
  match sstable_state (foldl apply_entry snapshot_default es) !! id with
  | Some Live => True
  | Some Removed => False
  | None => id ∈ cat_live c
  end.
Proof.
  induction es as [|e es IH] using rev_ind; [cbn; by rewrite lookup_empty|].
  rewrite !foldl_app. cbn [foldl]. destruct e as [i|ids|sid m]; cbn [catalog_apply cat_live apply_entry sstable_state].
  - destruct (decide (id = i)) as [->|Hne].
    + rewrite lookup_insert_eq. set_solver.
    + rewrite lookup_insert_ne by done. rewrite <- IH. set_solver.
  - rewrite foldl_removed. destruct (decide (id ∈ ids)) as [Hin|Hni].
    + rewrite elem_of_difference, elem_of_list_to_set. tauto.
    + rewrite elem_of_difference, elem_of_list_to_set, <- IH. tauto.
  - exact IH.
Qed.

Lemma delta_labels c es :
  cat_labels (foldl catalog_apply c es)
  = labelmaps (foldl apply_entry snapshot_default es) ∪ cat_labels c.
Proof.
  induction es as [|e es IH] using rev_ind; [cbn; by rewrite (left_id_L ∅ (∪))|].
  rewrite !foldl_app. cbn [foldl]. destruct e as [i|ids|sid m]; cbn [catalog_apply cat_labels apply_entry labelmaps]; try exact IH.
  by rewrite IH, insert_union_l.
Qed.

Lemma catalog_ext c1 c2 :
  (forall id, id ∈ cat_live c1 <-> id ∈ cat_live c2) -> cat_labels c1 = cat_labels c2 -> c1 = c2.
Proof. intros Hl Hm. destruct c1, c2. cbn in *. f_equal; [set_solver|done]. Qed.

Lemma merge_refines older es :
  catalog_of (snapshot_merge older (foldl apply_entry snapshot_default es))
  = foldl catalog_apply (catalog_of older) es.
Proof.
  apply catalog_ext.
  - intros id. by rewrite merge_live, delta_live.
  - by rewrite merge_labels, delta_labels.
Qed.

(** ** A manifest on a file that does not fail *)

#[global] Instance vec_file : FileOps (list byte) := {|
  f_set_len0 w := ([], Ok tt);
  f_sync_all w := (w, Ok tt);
  f_read_events w := match w with [] => [] | _ => [ReadData w] end
|}.

Lemma vec_file_bytes (w : list byte) : source_bytes (f_read_events w) = w.
Proof. destruct w; [done|]. unfold source_bytes. cbn. by rewrite app_nil_r. Qed.

Section manifest_proofs.
Context `{NomLaws, DefaultHasher, Json}.

(** [es] is the log (in the file or still buffered), [s] the snapshot *)
Record mf_inv (m : Manifest (list byte)) (es : list ManifestEntry) (s : Snapshot) : Prop := {
  mi_log : bw_total (fw_inner (mf_framed m)) = concat (map entry_wire es);
  mi_ok : bw_ok (fw_inner (mf_framed m));
  mi_valid : Forall entry_valid es;
  mi_snapshot : match mf_snapshot_file m with
                | None => s = snapshot_default
                | Some bytes => from_json bytes = Some s
                end
}.
Definition mf_catalog (es : list ManifestEntry) (s : Snapshot) : Catalog :=
  foldl catalog_apply (catalog_of s) es.

Lemma manifest_decode_nil : decode (I := ManifestEntry) [] = Ok None.
Proof. done. Qed.

Lemma entries_fit_fuel es :
  Forall entry_valid es -> (length es <= length (concat (map entry_wire es)))%nat.
Proof.
  induction 1 as [|e es He _ IH]; cbn; [done|]. rewrite length_app.
  pose proof (wire_nonempty e He). unfold blen in *. lia.
Qed.

(** The log lies in the reader's pages of 4096 bytes without an entry being
    cut by the end of a page. *)
Definition log_readable (es : list ManifestEntry) : bool := paged 0 (map wire_len es).

Lemma lens_of_entries es : lens_of (wire := entry_wire) es = map wire_len es.
Proof. apply list_fmap_ext. intros i e _. apply blen_entry_wire. Qed.

Lemma entry_valid_cut x pre :
  entry_valid x -> pre `prefix_of` entry_wire x -> pre <> entry_wire x -> pre <> [] ->
  exists e, decode (I := ManifestEntry) pre = Err e.
Proof. intros [He _]. by apply manifest_decode_cut. Qed.

Lemma snapshot_from_manifest_spec (m : Manifest (list byte)) es :
  Forall entry_valid es -> manifest_file m = concat (map entry_wire es) ->
  if log_readable es then snapshot_from_manifest m = Ok (foldl apply_entry snapshot_default es)
  else exists e, snapshot_from_manifest m = Err e.
Proof.
  intros Hes Hfile. unfold snapshot_from_manifest, manifest_as_reader, log_readable. rewrite vec_file_bytes, Hfile.
  destruct es as [|e es]; [reflexivity|].
  pose proof (entries_fit_fuel _ Hes) as Hfuel.
  destruct (concat (map entry_wire (e :: es))) as [|b bs] eqn:Ebs; [done|].
  cbn [f_read_events vec_file length] in *.
  pose proof (collect_file manifest_decode_nil entry_valid_cut (e :: es) (b :: bs) (length bs) (S (S (length bs)))
    Hes (eq_sym Ebs) ltac:(done) ltac:(cbn [length]; lia)) as Hc.
  rewrite lens_of_entries in Hc. unfold collects in Hc. destruct (paged _ _); [by rewrite Hc|].
  destruct Hc as (ys & err & ->). by exists err.
Qed.

Lemma vec_flush (m : Manifest (list byte)) :
  exists m', manifest_flush m = (m', Ok tt) /\
    manifest_file m' = bw_total (fw_inner (mf_framed m)) /\ bw_buf (fw_inner (mf_framed m')) = [] /\
    mf_snapshot_file m' = mf_snapshot_file m /\ mf_max_file_size m' = mf_max_file_size m /\
    fw_bytes_written (mf_framed m') = fw_bytes_written (mf_framed m).
Proof. by eexists. Qed.

(** the snapshot file after a snapshot of a log that can be read *)
Lemma snapshot_write_to_ok es file s :
  match file with None => s = snapshot_default | Some bytes => from_json bytes = Some s end ->
  exists bytes s', snapshot_write_to (foldl apply_entry snapshot_default es) file = Ok bytes /\
    from_json bytes = Some s' /\ catalog_of s' = mf_catalog es s.
Proof.
  intros Hsnap. set (d := foldl apply_entry snapshot_default es). unfold snapshot_write_to. destruct file as [old|].
  - rewrite Hsnap. eexists _, _. split_and!; [done|apply json_roundtrip|]. apply merge_refines.
  - eexists _, _. split_and!; [done|apply json_roundtrip|]. subst s. unfold mf_catalog.
    apply catalog_ext.
    + intros id. rewrite delta_live. unfold catalog_of. cbn [cat_live sstable_state snapshot_default].
      fold d. rewrite elem_of_live.
      destruct (sstable_state d !! id) as [[]|]; [done|done|]. by rewrite elem_of_live, lookup_empty.
    + rewrite delta_labels. cbn. by rewrite (right_id_L ∅ (∪)).
Qed.

(** A snapshot of a log that can be read empties it and keeps the catalogue;
    of one that cannot, it leaves log and snapshot as they are. *)
Lemma snapshot_truncate_spec (m : Manifest (list byte)) es s :
  mf_inv m es s ->
  exists m' es' s' o, snapshot_truncate m = (m', o) /\ mf_inv m' es' s' /\
    mf_catalog es' s' = mf_catalog es s /\
    mf_max_file_size m' = mf_max_file_size m /\
    fw_bytes_written (mf_framed m') = fw_bytes_written (mf_framed m) /\
    if log_readable es then o = Ok tt /\ es' = []
    else (exists e, o = Err e) /\ es' = es /\ mf_snapshot_file m' = mf_snapshot_file m.
Proof.
  intros [Hlog Hok Hes Hsnap]. unfold snapshot_truncate. rewrite st_bind_unfold.
  destruct (vec_flush m) as (m1 & -> & Hfile & Hbuf & Hs1 & Hmax & Hbw).
  rewrite st_bind_unfold. unfold manifest_snapshot.
  pose proof (snapshot_from_manifest_spec m1 es Hes ltac:(congruence)) as Hread.
  destruct (log_readable es); [rewrite Hread|destruct Hread as [e ->]].
  - rewrite Hs1. destruct (snapshot_write_to_ok es (mf_snapshot_file m) s Hsnap) as (bytes & s' & -> & Hj & Hcat).
    rewrite st_bind_unfold. eexists _, [], s', _. split; [reflexivity|].
    split_and!; try done. split; cbn; try done. by rewrite Hbuf.
  - exists m1, es, s, (Err e). split_and!; try done; [|by eexists].
    split; try done; [|by unfold bw_ok; rewrite Hbuf|by rewrite Hs1].
    unfold bw_total. rewrite Hbuf, app_nil_r. unfold manifest_file in Hfile. cbn. by rewrite Hfile.
Qed.

Lemma manifest_write_ok (m : Manifest (list byte)) es s e :
  mf_inv m es s -> entry_valid e ->
  exists m', manifest_write e m = (m', Ok tt) /\ mf_inv m' (es ++ [e]) s /\
    mf_max_file_size m' = mf_max_file_size m /\
    fw_bytes_written (mf_framed m') = fw_bytes_written (mf_framed m) + wire_len e /\
    mf_snapshot_file m' = mf_snapshot_file m.
Proof.
  intros [Hlog Hok Hes Hsnap] He. unfold manifest_write.
  destruct (framed_writer_write e (mf_framed m)) as [fw o] eqn:E.
  assert (o = Ok tt) as ->.
  { unfold framed_writer_write in E. rewrite encode_fresh in E by done.
    destruct (bufwriter_write_all_vec (entry_wire e) (fw_inner (mf_framed m))) as [b' Hb'].
    rewrite Hb' in E. by injection E. }
  destruct (framed_writer_write_ok e _ _ He Hok E) as (Ht & Hok' & Hn).
  eexists. split; [reflexivity|]. split_and!; [|done|cbn; by rewrite Hn, blen_entry_wire|done].
  split; cbn [mf_framed mf_snapshot_file mf_with]; try done.
  - by rewrite Ht, Hlog, map_app, concat_app; cbn; rewrite app_nil_r.
  - by apply Forall_app_2, Forall_singleton.
Qed.

Lemma log_unreadable_app es es2 : log_readable es = false -> log_readable (es ++ es2) = false.
Proof.
  unfold log_readable. rewrite map_app. intros Hf. apply not_true_is_false. intros Ht%paged_app. congruence.
Qed.

Lemma append_spec (m : Manifest (list byte)) es s e :
  mf_inv m es s -> entry_valid e ->
  exists m' es' s' o, manifest_append e m = (m', o) /\ mf_inv m' es' s' /\
    mf_catalog es' s' = mf_catalog (es ++ [e]) s /\ mf_max_file_size m' = mf_max_file_size m /\
    fw_bytes_written (mf_framed m') = fw_bytes_written (mf_framed m) + wire_len e /\
    if mf_max_file_size m <? fw_bytes_written (mf_framed m) + wire_len e then
      if log_readable (es ++ [e]) then o = Ok true /\ es' = []
      else (exists err, o = Err err) /\ es' = es ++ [e] /\ mf_snapshot_file m' = mf_snapshot_file m
    else o = Ok false /\ es' = es ++ [e] /\ mf_snapshot_file m' = mf_snapshot_file m.
Proof.
  intros Hm He. unfold manifest_append. rewrite st_bind_unfold.
  destruct (manifest_write_ok m es s e Hm He) as (m1 & -> & Hm1 & Hmax & Hbw & Hs1).
  rewrite st_bind_unfold. cbn [st_get]. unfold framed_writer_size_hint. rewrite Hmax, Hbw.
  destruct (mf_max_file_size m <? _); [|by exists m1, (es ++ [e]), s, (Ok false)].
  rewrite st_bind_unfold.
  destruct (snapshot_truncate_spec m1 (es ++ [e]) s Hm1) as (m2 & es2 & s2 & o & -> & Hm2 & Hc & Hmax2 & Hbw2 & Hcase).
  destruct (log_readable _).
  - destruct Hcase as [-> ->]. exists m2, [], s2, (Ok true). split_and!; try done; congruence.
  - destruct Hcase as ([err ->] & -> & Hs2). exists m2, (es ++ [e]), s2, (Err err).
    split_and!; try done; try congruence. by eexists.
Qed.
End manifest_proofs.

(** ** Claims *)

(** Encoding a manifest entry and decoding it, whatever follows it,
    gives the entry and its length back for flushes, stream updates and
    compactions of a single table. For a compaction of several, the decoder's
    index is never advanced, so it returns the first id repeated: the entry
    survives exactly when all its ids are equal. *)
Theorem manifest_entry_roundtrip `{NomLaws, DefaultHasher} (e : ManifestEntry) (dst rest : list byte)
    (He : entry_fits e) (Hdst : wire_len e <= blen dst) :
  exists buf, manifest_encode e dst = (buf, Ok (wire_len e)) /\
    manifest_decode (take (Z.to_nat (wire_len e)) buf ++ rest) = Ok (Some (as_decoded e, wire_len e)) /\
    (as_decoded e = e <-> entry_valid e).
Proof.
  eexists. split; [by apply manifest_encode_wire|]. split.
  - rewrite take_app_blen by (by rewrite blen_entry_wire). by apply manifest_decode_wire.
  - unfold entry_valid. destruct e as [|[|id ids]|]; cbn [as_decoded];
      try (split; [intros _; by split|done]).
    + cbn [replicate]. split.
      * intros [= Heq]. split; [done|]. constructor; [done|]. rewrite <- Heq.
        by apply Forall_replicate.
      * intros [_ [_ Hall]%Forall_cons]. do 2 f_equal. clear He Hdst.
        induction Hall as [|i t [= ->] _ IH]; [done|]. cbn. by rewrite IH.
Qed.

(** Folding the log into a snapshot and merging it into the previous one
    gives the same catalogue (live tables and label maps) as applying the
    entries one by one, whatever the log; so a log may be cut into snapshots
    at any points. *)
Theorem snapshot_merge_refines (older : Snapshot) (es1 es2 : list ManifestEntry) :
  let snap es := foldl apply_entry snapshot_default es in
  catalog_of (snapshot_merge older (snap es1)) = foldl catalog_apply (catalog_of older) es1 /\
  catalog_of (snapshot_merge (snapshot_merge older (snap es1)) (snap es2))
  = catalog_of (snapshot_merge older (snap (es1 ++ es2))).
Proof.
  cbv zeta. split; [apply merge_refines|]. by rewrite !merge_refines, foldl_app.
Qed.

(** C13: [Manifest::append] refines the catalogue, for a log of any size whose
    entries survive decoding (the ids of a compaction are all equal). The
    entry is written in every case, and what log and snapshot stand for
    together changes by that entry and nothing else. As long as the number of
    bytes ever written is within the limit, the log grows and [append] says
    so. Beyond the limit (a snapshot does not reset the number, so from then
    on at every append) it folds the log into the snapshot and empties it,
    exactly when no entry is cut by the end of one of the reader's pages of
    4096 bytes. If one is, [append] fails, log and snapshot stay as they are,
    and so does every later append. *)
Theorem manifest_append_refines `{NomLaws, DefaultHasher, Json} (m : Manifest (list byte))
    (es : list ManifestEntry) (s : Snapshot) (e : ManifestEntry)
    (Hm : mf_inv m es s) (He : entry_valid e) :
  exists m' es' s' o,
    manifest_append e m = (m', o) /\
    mf_inv m' es' s' /\ mf_catalog es' s' = catalog_apply (mf_catalog es s) e /\
    fw_bytes_written (mf_framed m') = fw_bytes_written (mf_framed m) + wire_len e /\
    if mf_max_file_size m <? fw_bytes_written (mf_framed m) + wire_len e then
      if log_readable (es ++ [e]) then o = Ok true /\ es' = []
      else (exists err, o = Err err) /\ es' = es ++ [e] /\ mf_snapshot_file m' = mf_snapshot_file m /\
           forall e2, entry_valid e2 -> exists m2 err, manifest_append e2 m' = (m2, Err err)
    else o = Ok false /\ es' = es ++ [e] /\ mf_snapshot_file m' = mf_snapshot_file m.
Proof.
  assert (mf_catalog (es ++ [e]) s = catalog_apply (mf_catalog es s) e) as Hcat
    by (unfold mf_catalog; by rewrite foldl_app).
  destruct (append_spec m es s e Hm He) as (m' & es' & s' & o & Ha & Hm' & Hc & Hmax & Hbw & Hcase).
  exists m', es', s', o. rewrite Hc. split_and!; try done.
  destruct (_ <? _) eqn:El; gsplit; [|done]. destruct (log_readable (es ++ [e])) eqn:Er; [done|].
  destruct Hcase as (Ho & -> & Hs). split_and!; try done. intros e2 He2.
  destruct (append_spec m' _ s' e2 Hm' He2) as (m2 & es2 & s2 & o2 & Ha2 & _ & _ & _ & _ & Hcase2).
  pose proof (blen_nonneg (entry_wire e2)) as Hn. rewrite blen_entry_wire in Hn.
  destruct (_ <? _) eqn:El2; gsplit; [|lia]. rewrite (log_unreadable_app _ [e2] Er) in Hcase2.
  destruct Hcase2 as ([err ->] & _). by eauto.
Qed.

(** A manifest larger than the reader's buffer cannot be read back. An
    entry that is cut by the end of the buffer is reported as an error
    instead of "read more", so reading 456 flush entries (4104 bytes, a fifth
    of the default limit) yields 455 of them and then [NotEnoughBytes]. *)
Theorem manifest_straddling_entry_fails `{Nom, DefaultHasher} :
  let es := map (fun i => MemtableFlush (Z.of_nat i)) (seq 0 456) in
  framed_reader_collect (I := ManifestEntry) 457 4105
    (framed_reader_new [ReadData (concat (map entry_wire es))])
  = Some (take 455 es, Err (not_enough_bytes 1 9)).
Proof. vm_compute. reflexivity. Qed.

(** ** Witnesses *)

(** Any injective serialisation can play the part of JSON. *)
#[global] Program Instance SstState_countable : Countable SstState :=
  inj_countable' (fun s => match s with Live => true | Removed => false end)
    (fun b : bool => if b then Live else Removed) _.
Next Obligation. by intros []. Qed.

Fixpoint pos_to_bytes (p : positive) : list byte :=
  match p with
  | xI p => u8_of 1 :: pos_to_bytes p
  | xO p => u8_of 0 :: pos_to_bytes p
  | xH => []
  end.
Fixpoint pos_of_bytes (bs : list byte) : positive :=
  match bs with
  | [] => xH
  | b :: bs => if u8_val b =? 1 then xI (pos_of_bytes bs) else xO (pos_of_bytes bs)
  end.
Lemma pos_of_to_bytes p : pos_of_bytes (pos_to_bytes p) = p.
Proof. induction p as [p IH|p IH|]; cbn; [by rewrite IH..|done]. Qed.

Program Definition ref_json : Json := {|
  to_json s := pos_to_bytes (countable.encode (sstable_state s, labelmaps s));
  from_json bs := (fun p => {| sstable_state := p.1; labelmaps := p.2 |})
                    <$> countable.decode (A := gmap Z SstState * gmap Z LabelMap) (pos_of_bytes bs)
|}.
Next Obligation. intros [? ?]. cbv beta. rewrite pos_of_to_bytes, decode_encode. reflexivity. Qed.

Lemma manifest_entry_roundtrip_witness :
  exists buf, @manifest_encode ref_nom sum_hasher (Compaction [4; 5]) (replicate 21 zero_byte) = (buf, Ok 21) /\
    @manifest_decode ref_nom sum_hasher (take 21 buf ++ []) = Ok (Some (Compaction [4; 4], 21)) /\
    (Compaction [4; 4] = Compaction [4; 5] <-> @entry_valid sum_hasher (Compaction [4; 5])).
Proof.
  apply (@manifest_entry_roundtrip ref_nom ref_nom_laws sum_hasher (Compaction [4; 5]) (replicate 21 zero_byte) []).
  - split; [by repeat constructor|done].
  - by vm_compute.
Defined.

(** a manifest whose limit is passed by its first entry *)
Lemma manifest_append_refines_witness :
  let m := manifest_open ([] : list byte) None (Some 5) in
  exists m' es' s' o,
    @manifest_append (list byte) _ _ ref_nom sum_hasher ref_json (MemtableFlush 3) m = (m', o) /\
    @mf_inv sum_hasher ref_json m' es' s' /\
    mf_catalog es' s' = catalog_apply (mf_catalog [] snapshot_default) (MemtableFlush 3) /\
    fw_bytes_written (mf_framed m') = 9 /\ o = Ok true /\ es' = [].
Proof.
  apply (@manifest_append_refines ref_nom ref_nom_laws sum_hasher ref_json
    (manifest_open ([] : list byte) None (Some 5)) [] snapshot_default (MemtableFlush 3)).
  - by split; cbn.
  - by split.
Defined.
