(* ===== verification/Wal.v ===== *)
(** * The write-ahead log: logregator-tsdb/src/wal.rs

    Appending records to a file with a running checksum. The functions that
    end in [todo!] or [panic!] in the source are modelled as they are. *)
From S2P Require Import Prelude Std Ext Codec Errors Record.

(** The [Hasher] variant is the bytes fed to the hasher so far. *)
Inductive Crc32State :=
| Crc32Checksum (sum : Z)
| Crc32Hasher (fed : list byte).
Definition new_hasher : Crc32State := Crc32Hasher [].

Record Wal (W : Type) := {
  wal_framed : FramedWriter W;
  wal_id : Z;
  wal_crc32_state : Crc32State
}.
Arguments wal_framed {W} w.
Arguments wal_id {W} w.
Arguments wal_crc32_state {W} w.

Section wal.
Context {W : Type} `{Write W}.

Definition wal_with (w : Wal W) (fw : FramedWriter W) (crc : Crc32State) : Wal W :=
  {| wal_framed := fw; wal_id := wal_id w; wal_crc32_state := crc |}.

(** [open_active]: [todo!] *)
Definition wal_open_active (file : W) : outcome Error (Wal W) := Panic.
(** [new]: [panic!] *)
Definition wal_new (file : W) : outcome io_error (Wal W) := Panic.

Definition wal_open_empty (file : W) (memtable_id : Z) : Wal W :=
  {| wal_framed := framed_writer_new file; wal_id := memtable_id; wal_crc32_state := new_hasher |}.

(** the hook passed to [write_with] *)
Definition wal_hook (_ : LogRecord) (record_bytes : list byte) (s : Crc32State) : Crc32State :=
  match s with
  | Crc32Hasher fed => Crc32Hasher (fed ++ record_bytes)
  | Crc32Checksum c => Crc32Checksum c
  end.

Definition wal_append (rec : LogRecord) : st (Wal W) CodecError unit := fun w =>
  let '((fw, crc), o) := framed_writer_write_with rec wal_hook (wal_framed w, wal_crc32_state w) in
  (wal_with w fw crc, o).

(** [flush]: flushes the writer, then [todo!] *)
Definition wal_flush : st (Wal W) io_error unit := fun w =>
  let '(fw, o) := framed_writer_flush (wal_framed w) in
  (wal_with w fw (wal_crc32_state w),
   match o with Ok _ => Panic | Err e => Err e | Panic => Panic end).

(** [self.f.sync_data()] *)
Definition wal_sync_data (sync : st W io_error unit) : st (Wal W) io_error unit := fun w =>
  let fw := wal_framed w in
  let '(f, o) := sync (bw_inner (fw_inner fw)) in
  (wal_with w {| fw_inner := {| bw_inner := f; bw_buf := bw_buf (fw_inner fw) |};
                 fw_buf := fw_buf fw; fw_bytes_written := fw_bytes_written fw |} (wal_crc32_state w), o).

Definition wal_fsyncdata (sync : st W io_error unit) : st (Wal W) io_error unit :=
  _ ← wal_flush; wal_sync_data sync.

(** [as_reader]: [reads] is how the file's contents are cut into reads *)
Definition wal_as_reader (reads : W -> list read_event) (w : Wal W) : FramedReader :=
  framed_reader_new (reads (bw_inner (fw_inner (wal_framed w)))).

Fixpoint wal_append_all (rs : list LogRecord) : st (Wal W) CodecError unit :=
  match rs with
  | [] => mret tt
  | r :: rs => _ ← wal_append r; wal_append_all rs
  end.
End wal.

(** ** [WalEntry] *)
Inductive WalEntry :=
| WalRecord (r : LogRecord)
| WalChecksum (c : Z).
#[global] Instance wal_entry_wire_len : WireLen WalEntry := fun e =>
  1 + match e with WalRecord r => wire_len r | WalChecksum _ => 4 end.

(** ** Proofs *)

(** what a WAL holds: the bytes its file had when it was opened, followed by
    the records appended, and a hasher fed with the appended bytes only *)
Record wal_inv (old : list byte) (w : Wal (list byte)) (rs : list LogRecord) : Prop := {
  wi_valid : Forall record_valid rs;
  wi_total : bw_total (fw_inner (wal_framed w)) = old ++ concat (map record_wire rs);
  wi_ok : bw_ok (fw_inner (wal_framed w));
  wi_crc : wal_crc32_state w = Crc32Hasher (concat (map record_wire rs))
}.

Lemma wal_append_ok old (w : Wal (list byte)) rs r :
  wal_inv old w rs -> record_valid r ->
  exists w', wal_append r w = (w', Ok tt) /\ wal_inv old w' (rs ++ [r]) /\ wal_id w' = wal_id w.
Proof.
  intros [Hv Ht Hok Hc] Hr. unfold wal_append, framed_writer_write_with. rewrite encode_fresh by done.
  destruct (bufwriter_write_all (record_wire r) (fw_inner (wal_framed w))) as [b' o] eqn:E.
  destruct (bufwriter_write_all_vec (record_wire r) (fw_inner (wal_framed w))) as [b'' E'].
  rewrite E in E'. injection E' as <- ->.
  apply bufwriter_write_all_ok in E as [Ht' Hok']; [|done].
  eexists. split; [reflexivity|]. split; [|done].
  split; cbn [wal_with wal_framed wal_crc32_state fw_inner].
  - by apply Forall_app_2, Forall_singleton.
  - rewrite Ht', Ht, map_app, concat_app. cbn. by rewrite app_nil_r, app_assoc.
  - done.
  - rewrite Hc, map_app, concat_app. cbn. by rewrite app_nil_r.
Qed.

Lemma wal_append_all_ok old (w : Wal (list byte)) rs qs :
  wal_inv old w rs -> Forall record_valid qs ->
  exists w', wal_append_all qs w = (w', Ok tt) /\ wal_inv old w' (rs ++ qs) /\ wal_id w' = wal_id w.
Proof.
  intros Hw Hqs. revert w rs Hw. induction Hqs as [|q qs Hq Hqs IH]; intros w rs Hw; cbn [wal_append_all].
  - exists w. by rewrite app_nil_r.
  - rewrite st_bind_unfold. destruct (wal_append_ok old w rs q Hw Hq) as (w1 & -> & Hw1 & Hid1).
    destruct (IH w1 _ Hw1) as (w2 & -> & Hw2 & Hid2). exists w2. rewrite <- app_assoc in Hw2. by rewrite Hid2.
Qed.

(** the file as [flush] and [fsyncdata] leave it: nothing stays buffered *)
Definition wal_file (w : Wal (list byte)) : list byte := bw_inner (fw_inner (wal_framed w)).
Definition wal_buffered (w : Wal (list byte)) : list byte := bw_buf (fw_inner (wal_framed w)).

(** A reader of a file that holds whole records finds exactly them. *)
Lemma wal_read_back (w : Wal (list byte)) rs reads :
  Forall record_valid rs -> wal_file w = concat (map record_wire rs) ->
  good_source (reads (wal_file w)) -> source_bytes (reads (wal_file w)) = wal_file w ->
  framed_reader_collect (S (length rs)) (S (length (wal_file w))) (wal_as_reader reads w) = Some (rs, Ok tt).
Proof.
  intros Hv Hf Hg Hsrc. unfold wal_as_reader. fold (wal_file w).
  apply (collect_wires _ rs [] (sample_record 5)).
  - by apply framed_reader_new_wf.
  - done.
  - by apply sample_record_valid.
  - apply prefix_nil.
  - done.
  - rewrite framed_reader_new_pending, app_nil_r. by rewrite Hsrc.
  - apply Nat2Z.inj_lt, Nat.lt_succ_r, Nat.eq_le_incl. exact (f_equal length Hsrc).
Qed.

(** ** Claims *)

(** C28: [open_empty] opens the log's fixed file name for appending, so the
    file may hold bytes [old]. It then accepts any valid records. [flush]
    writes them all: the file is [old] followed by the records' bytes and
    nothing stays buffered. But it never returns normally, it reaches its
    [todo!]; and [fsyncdata], which calls it, leaves the very same state and
    panics whatever [sync_data] would do, which is never reached. The running
    checksum covers the appended bytes and never the old ones. When the old
    bytes are whole records, reading the file back gives them and then the
    new ones in order, however the file is cut into reads. *)
Theorem wal_append_flush_read (old : list byte) (memtable_id : Z) (rs : list LogRecord)
    (Hrs : Forall record_valid rs) :
  exists w w', wal_append_all rs (wal_open_empty old memtable_id) = (w, Ok tt) /\
    wal_flush w = (w', Panic) /\
    (forall sync, wal_fsyncdata sync w = (w', Panic)) /\
    wal_id w' = memtable_id /\
    wal_file w' = old ++ concat (map record_wire rs) /\
    wal_buffered w' = [] /\
    wal_crc32_state w' = Crc32Hasher (concat (map record_wire rs)) /\
    forall rs0, Forall record_valid rs0 -> old = concat (map record_wire rs0) ->
      forall reads, good_source (reads (wal_file w')) ->
        source_bytes (reads (wal_file w')) = wal_file w' ->
        framed_reader_collect (S (length (rs0 ++ rs))) (S (length (wal_file w'))) (wal_as_reader reads w')
          = Some (rs0 ++ rs, Ok tt).
Proof.
  assert (wal_inv old (wal_open_empty old memtable_id) []) as H0 by (by split; cbn; rewrite ?app_nil_r).
  destruct (wal_append_all_ok _ _ [] rs H0 Hrs) as (w & Hw & [Hv Ht Hok Hc] & Hid). cbn [app] in *.
  exists w, (wal_flush w).1. split_and!; try done.
  intros rs0 Hv0 -> reads. apply wal_read_back; [by apply Forall_app_2|].
  rewrite map_app, concat_app. exact Ht.
Qed.

Lemma wal_append_flush_read_witness :
  exists w w', wal_append_all [sample_record 3] (wal_open_empty (record_wire (sample_record 5)) 9) = (w, Ok tt) /\
    wal_flush w = (w', Panic) /\
    wal_file w' = record_wire (sample_record 5) ++ record_wire (sample_record 3) /\
    framed_reader_collect 3 (S (length (wal_file w'))) (wal_as_reader (fun bs => [ReadData bs]) w')
      = Some ([sample_record 5; sample_record 3], Ok tt).
Proof.
  destruct (wal_append_flush_read (record_wire (sample_record 5)) 9 [sample_record 3])
    as (w & w' & Hw & Hf & _ & _ & Hfile & _ & _ & Hread).
  - repeat constructor; by apply sample_record_valid.
  - exists w, w'. split_and!; [exact Hw|exact Hf| |].
    + rewrite Hfile. reflexivity.
    + apply (Hread [sample_record 5]).
      * repeat constructor; by apply sample_record_valid.
      * reflexivity.
      * rewrite Hfile. apply Forall_singleton. discriminate.
      * rewrite Hfile. reflexivity.
Defined.
