(* ===== verification/Sst.v ===== *)
(** * SSTables: logregator-tsdb/src/sst.rs

    Writing an SST (blocks, block index, bloom filter, footer), opening one,
    and the cursor over it. A file is its contents; reads at an offset fail
    with [UnexpectedEof] past the end. Arithmetic that would underflow in an
    allocation size panics (in a release build the wrapped size exceeds the
    capacity of a vector); [debug_assert] is not modelled. *)
From S2P Require Import Prelude Std Ext Codec Errors Record Block Bloom.

Definition MAX_SST_SIZE : Z := u32_max / 2.
Definition SST_FOOTER_SIZE : Z := 4 * 3.
Definition MIN_SST_SIZE : Z := SST_FOOTER_SIZE.
#[export] Hint Unfold SST_FOOTER_SIZE MIN_SST_SIZE : sizes.

(** ** [BlockMetadata] *)

Record BlockMetadata := { bm_offset : Z; bm_first_key : Key; bm_last_key : Key }.

Definition BLOCK_META_SIZE : Z := 4 + 2 * KEY_SIZE.
#[export] Hint Unfold BLOCK_META_SIZE : sizes.
#[global] Instance block_metadata_wire_len : WireLen BlockMetadata := fun _ => BLOCK_META_SIZE.

(** the closure [encode_key], which encodes into a 32-byte array *)
Definition meta_encode_key (k : Key) : outcome CodecError (list byte) :=
  match encode (I := Key) k (replicate 32 zero_byte) with
  | (bs, Ok _) => Ok bs
  | (_, Err e) => Err e
  | (_, Panic) => Panic
  end.

Fixpoint encode_metas_from (metas : list BlockMetadata) (data : list byte) : outcome CodecError (list byte) :=
  match metas with
  | [] => Ok data
  | m :: t =>
      first ← meta_encode_key (bm_first_key m);
      last_ ← meta_encode_key (bm_last_key m);
      encode_metas_from t (data ++ be_bytes 4 (bm_offset m) ++ first ++ last_)
  end.

Definition encode_metas `{Crc32} (metas : list BlockMetadata) : outcome CodecError (list byte) :=
  data ← encode_metas_from metas (be_bytes 4 (wrap32 (blen metas)));
  Ok (data ++ be_bytes 4 (crc32 data)).

Definition meta_decode_key (src : list byte) : outcome CodecError Key :=
  ko ← decode (I := Key) src;
  match ko with
  | Some (key, _) => Ok key
  | None => Err (codec_other "BlockMetadata::decode_metas(): failed to decode key from raw bytes")
  end.

Fixpoint decode_metas_from (len : nat) (consumed : Z) (src : list byte)
    : outcome CodecError (list BlockMetadata * Z) :=
  match len with
  | O => Ok ([], consumed)
  | S len =>
      offset ← array_at 4 src consumed;
      let consumed := consumed + SZ_U32 in
      fb ← slice src consumed (consumed + KEY_SIZE);
      first ← meta_decode_key fb;
      let consumed := consumed + KEY_SIZE in
      lb ← slice src consumed (consumed + KEY_SIZE);
      last_ ← meta_decode_key lb;
      let consumed := consumed + KEY_SIZE in
      r ← decode_metas_from len consumed src;
      Ok ({| bm_offset := be_val offset; bm_first_key := first; bm_last_key := last_ |} :: r.1, r.2)
  end.

Definition decode_metas `{Crc32} (src : list byte) : outcome CodecError (list BlockMetadata) :=
  if blen src <? SZ_U32 then Err (not_enough_bytes (blen src) SZ_U32)
  else
    lenb ← array_at 4 src 0;
    let metas_len := be_val lenb in
    let want_total_size := SZ_U32 + metas_len * BLOCK_META_SIZE + SZ_U32 in
    if blen src <? want_total_size then Err (not_enough_bytes (blen src) want_total_size)
    else
      r ← decode_metas_from (Z.to_nat metas_len) SZ_U32 src;
      let '(data, consumed) := r in
      hashed ← slice src 0 consumed;
      stored ← array_at 4 src consumed;
      if negb (be_val stored =? crc32 hashed) then Err (codec_other "checksum mismatch")
      else Ok data.

(** ** The writer: [WriterState] and [HashedWriterState] *)

Record SstWriter (W : Type) := {
  sw_writer : W;
  sw_block_bytes_written : Z;
  sw_block_writer : BlockWriter;
  sw_block_limit : Z;
  sw_block_meta : list BlockMetadata;
  sw_record_count : Z;
  sw_first_key : option Key;
  sw_last_key : option Key;
  sw_bloom : BloomFilter;
  sw_hasher : list byte
}.
Arguments sw_writer {W} s.
Arguments sw_block_bytes_written {W} s.
Arguments sw_block_writer {W} s.
Arguments sw_block_limit {W} s.
Arguments sw_block_meta {W} s.
Arguments sw_record_count {W} s.
Arguments sw_first_key {W} s.
Arguments sw_last_key {W} s.
Arguments sw_bloom {W} s.
Arguments sw_hasher {W} s.

Section sst_writer.
Context {W : Type} `{Write W, Crc32, Fnv, BloomSizing}.

Definition sst_writer_new (writer : W) (block_limit : option Z) (record_count : Z)
    : outcome InvalidBlockLimit (SstWriter W) :=
  bw ← block_writer_new block_limit;
  Ok {| sw_writer := writer; sw_block_bytes_written := 0; sw_block_writer := bw;
        sw_block_limit := bwr_limit bw; sw_block_meta := []; sw_record_count := 0;
        sw_first_key := None; sw_last_key := None; sw_bloom := bloom_new record_count;
        sw_hasher := [] |}.

Definition sw_set_block_writer (bw : BlockWriter) (s : SstWriter W) : SstWriter W :=
  {| sw_writer := sw_writer s; sw_block_bytes_written := sw_block_bytes_written s; sw_block_writer := bw;
     sw_block_limit := sw_block_limit s; sw_block_meta := sw_block_meta s;
     sw_record_count := sw_record_count s; sw_first_key := sw_first_key s; sw_last_key := sw_last_key s;
     sw_bloom := sw_bloom s; sw_hasher := sw_hasher s |}.
Definition sw_set_bloom (b : BloomFilter) (s : SstWriter W) : SstWriter W :=
  {| sw_writer := sw_writer s; sw_block_bytes_written := sw_block_bytes_written s;
     sw_block_writer := sw_block_writer s;
     sw_block_limit := sw_block_limit s; sw_block_meta := sw_block_meta s;
     sw_record_count := sw_record_count s; sw_first_key := sw_first_key s; sw_last_key := sw_last_key s;
     sw_bloom := b; sw_hasher := sw_hasher s |}.
Definition sw_set_writer (w : W) (fed : list byte) (s : SstWriter W) : SstWriter W :=
  {| sw_writer := w; sw_block_bytes_written := sw_block_bytes_written s;
     sw_block_writer := sw_block_writer s;
     sw_block_limit := sw_block_limit s; sw_block_meta := sw_block_meta s;
     sw_record_count := sw_record_count s; sw_first_key := sw_first_key s; sw_last_key := sw_last_key s;
     sw_bloom := sw_bloom s; sw_hasher := sw_hasher s ++ fed |}.

(** [writer.write_all(bs)?; hasher.update(bs)] *)
Definition sw_emit (bs : list byte) : st (SstWriter W) SstError unit := fun s =>
  match w_write_all bs (sw_writer s) with
  | (w, Ok _) => (sw_set_writer w bs s, Ok tt)
  | (w, Err e) => (sw_set_writer w [] s, Err (SstIo e))
  | (w, Panic) => (sw_set_writer w [] s, Panic)
  end.

(** the bookkeeping after a block has been written *)
Definition sw_push_block (block : Block) (block_len : Z) (first_key last_key : Key) (s : SstWriter W)
    : SstWriter W :=
  {| sw_writer := sw_writer s;
     sw_block_bytes_written := sw_block_bytes_written s + block_len;
     sw_block_writer := sw_block_writer s;
     sw_block_limit := sw_block_limit s;
     sw_block_meta := sw_block_meta s ++
       [{| bm_offset := wrap32 (sw_block_bytes_written s); bm_first_key := first_key; bm_last_key := last_key |}];
     sw_record_count := sw_record_count s + num_of_records block;
     sw_first_key := match sw_first_key s with None => Some first_key | Some k => Some k end;
     sw_last_key := Some last_key;
     sw_bloom := sw_bloom s; sw_hasher := sw_hasher s |}.

Definition flush_blocks : st (SstWriter W) SstError unit := fun s =>
  if MAX_SST_SIZE <=? sw_block_bytes_written s then (s, Err SstFilledUp)
  else
    let estimated_bytes := sw_block_bytes_written s + bwr_size (sw_block_writer s) in
    if MAX_SST_SIZE <? estimated_bytes
    then (s, Err (SstInvalidSstSize MIN_SST_SIZE MAX_SST_SIZE estimated_bytes))
    else
      match block_writer_new (Some (sw_block_limit s)) with
      | Err e => (s, Err (SstInvalidBlockLimit e))
      | Panic => (s, Panic)
      | Ok fresh =>
          let '(block, first_key, last_key) := into_block (sw_block_writer s) in
          let s := sw_set_block_writer fresh s in
          match encode_block block with
          | Err e => (s, Err (SstBlockCodecError e))
          | Panic => (s, Panic)
          | Ok block_bytes =>
              match sw_emit block_bytes s with
              | (s, Ok _) =>
                  match first_key, last_key with
                  | Some fk, Some lk => (sw_push_block block (blen block_bytes) fk lk s, Ok tt)
                  | _, _ => (s, Panic)
                  end
              | (s, o) => (s, o)
              end
          end
      end.

(** [write] calls itself after flushing a full block; the second call
    finds an empty block, so two levels are enough (proved below). *)
Fixpoint sst_write (fuel : nat) (rec : LogRecord) : st (SstWriter W) SstError unit := fun s =>
  match fuel with
  | O => (s, Panic)
  | S fuel =>
      if MAX_SST_SIZE <=? sw_block_bytes_written s then (s, Err SstFilledUp)
      else
        match block_writer_write rec (sw_block_writer s) with
        | (bw, Ok Written) =>
            let s := sw_set_block_writer bw s in
            let '(bloom, o) := bloom_insert (stream_id (rec_key rec)) (sw_bloom s) in
            (sw_set_bloom bloom s, o)
        | (bw, Ok Full) =>
            match flush_blocks (sw_set_block_writer bw s) with
            | (s, Ok _) => sst_write fuel rec s
            | (s, o) => (s, o)
            end
        | (bw, Err e) => (sw_set_block_writer bw s, Err (SstCodecError e))
        | (bw, Panic) => (sw_set_block_writer bw s, Panic)
        end
  end.

(** the pending block, if any *)
Definition sst_flush_pending : st (SstWriter W) SstError unit := fun s =>
  if 0 <? bwr_size (sw_block_writer s) then flush_blocks s else (s, Ok tt).

(** what [finalize] writes after the blocks; the offsets are returned *)
Definition sst_write_trailer : st (SstWriter W) SstError (Z * Z) := fun s =>
  match sw_first_key s, sw_last_key s with
  | Some _, Some _ =>
      let block_meta_start := wrap32 (sw_block_bytes_written s) in
      match encode_metas (sw_block_meta s) with
      | Err e => (s, Err (SstCodecError e))
      | Panic => (s, Panic)
      | Ok meta_bytes =>
          let bloom_filter_start := wrap32 (block_meta_start + wrap32 (blen meta_bytes)) in
          (_ ← sw_emit meta_bytes;
           bloom_buf ← st_lift
             match bloom_encode (sw_bloom s) (replicate (Z.to_nat (wire_len (sw_bloom s))) zero_byte) with
             | (buf, Ok _) => Ok buf
             | (_, Err e) => Err (SstCodecError e)
             | (_, Panic) => Panic
             end;
           _ ← sw_emit bloom_buf;
           _ ← sw_emit (be_bytes 4 block_meta_start);
           _ ← sw_emit (be_bytes 4 bloom_filter_start);
           s ← st_get;
           _ ← sw_emit (be_bytes 4 (crc32 (sw_hasher s)));
           mret (block_meta_start, bloom_filter_start) : st (SstWriter W) SstError (Z * Z)) s
      end
  | _, _ => (s, Err SstFinalizeMissingKeys)
  end.

Definition sst_finalize : st (SstWriter W) SstError (Z * Z) :=
  _ ← sst_flush_pending; sst_write_trailer.

Fixpoint sst_write_all (rs : list LogRecord) : st (SstWriter W) SstError unit :=
  match rs with
  | [] => mret tt
  | r :: rs => _ ← sst_write 2 r; sst_write_all rs
  end.
End sst_writer.

(** ** [SstFileHandle]: an id and the file's contents *)

Record SstFileHandle := { sfh_id : Z; sfh_content : list byte }.

#[global] Instance sst_file_write : Write SstFileHandle := {|
  w_write_all bs h := ({| sfh_id := sfh_id h; sfh_content := sfh_content h ++ bs |}, Ok tt);
  w_flush h := (h, Ok tt);
  w_contents := sfh_content
|}.
#[global] Instance sst_file_write_laws : WriteLaws SstFileHandle.
Proof. split; cbn; intros; by simplify_eq/=. Qed.

(** [read_exact_at(&mut buf[..len], offset)] *)
Definition read_exact_at (h : SstFileHandle) (len offset : Z) : outcome io_error (list byte) :=
  if offset + len <=? blen (sfh_content h)
  then Ok (take (Z.to_nat len) (drop (Z.to_nat offset) (sfh_content h)))
  else Err (IoError UnexpectedEof).

(** file names: [format!("{id:020}.sst")] *)
Fixpoint dec_digits (n : nat) (z : Z) : list byte :=
  match n with
  | O => []
  | S n => dec_digits n (z / 10) ++ [u8_of (48 + z mod 10)]
  end.
Definition sst_suffix : list byte := map u8_of [46; 115; 115; 116].
(** a [u64] has at most twenty digits, so the padded number has exactly twenty *)
Definition format_sst_filename (id : Z) : list byte := dec_digits 20 id ++ sst_suffix.

Definition is_digit (b : byte) : bool := between 48 57 b.
(** [str::parse::<u64>]: an optional plus sign, digits, no overflow *)
Fixpoint parse_digits (acc : Z) (bs : list byte) : option Z :=
  match bs with
  | [] => Some acc
  | b :: t =>
      if is_digit b then
        let acc := acc * 10 + (u8_val b - 48) in
        if u64_max <? acc then None else parse_digits acc t
      else None
  end.
Definition parse_u64 (bs : list byte) : option Z :=
  match bs with
  | [] => None
  | b :: t => if u8_val b =? 43 then match t with [] => None | _ => parse_digits 0 t end
              else parse_digits 0 bs
  end.
Definition ends_with (s suffix : list byte) : bool :=
  bool_decide (drop (length s - length suffix) s = suffix) && (length suffix <=? length s)%nat.

(** [open_from_path]: the id in the file name; [fs] is the directory *)
Definition open_from_path (fs : list byte -> option (list byte)) (fname : list byte)
    : outcome io_error SstFileHandle :=
  if negb (ends_with fname sst_suffix) then Err (IoError InvalidInput)
  else
    match parse_u64 (take (length fname - length sst_suffix) fname) with
    | None => Err (IoError InvalidData)
    | Some id => match fs fname with
                 | Some content => Ok {| sfh_id := id; sfh_content := content |}
                 | None => Err (IoError OtherIo)
                 end
    end.

(** [open] with [create_new]: [exists_] tells whether the file is there *)
Definition sst_file_create (id : Z) (exists_ : bool) : outcome io_error SstFileHandle :=
  if exists_ then Err (IoError AlreadyExists) else Ok {| sfh_id := id; sfh_content := [] |}.

(** ** [SstHandle] *)

Record SstHandle := {
  sh_fh : SstFileHandle;
  sh_block_metadata : list BlockMetadata;
  sh_block_metadata_start_offset : Z;
  sh_bloom : BloomFilter
}.
Definition sst_handle_id (h : SstHandle) : Z := sfh_id (sh_fh h).

Section sst_handle.
Context `{Crc32, Fnv, BloomSizing, Nom}.

(** ** [SstFileWriter] *)
Definition sst_file_writer_new (id : Z) (exists_ : bool) (block_limit : option Z) (record_count : Z)
    : outcome SstError (SstWriter SstFileHandle) :=
  fh ← map_err SstIo (sst_file_create id exists_);
  map_err SstInvalidBlockLimit (sst_writer_new fh block_limit record_count).

Definition finalize_file (s : SstWriter SstFileHandle) : outcome SstError SstHandle :=
  match sst_finalize s with
  | (s, Ok (block_meta_start, _)) =>
      Ok {| sh_fh := sw_writer s; sh_block_metadata := sw_block_meta s;
            sh_block_metadata_start_offset := block_meta_start; sh_bloom := sw_bloom s |}
  | (_, Err e) => Err e
  | (_, Panic) => Panic
  end.

Definition open_file_handle (fh : SstFileHandle) : outcome SstError SstHandle :=
  let fsize := blen (sfh_content fh) in
  if fsize <? MIN_SST_SIZE then Err (SstInvalidSstSize MIN_SST_SIZE MAX_SST_SIZE fsize)
  else if MAX_SST_SIZE <? fsize then Err (SstOther "sst file too large")
  else
    footer ← map_err (fun _ => SstOther "footer") (read_exact_at fh SST_FOOTER_SIZE (fsize - SST_FOOTER_SIZE));
    b0 ← array_at 4 footer 0;
    b1 ← array_at 4 footer 4;
    b2 ← array_at 4 footer 8;
    let blockmeta_offset := be_val b0 in
    let bloom_offset := be_val b1 in
    let orig_checksum := be_val b2 in
    if fsize <? blockmeta_offset
    then Err (SstOther "block metadata start offset points past the size of the file")
    else if fsize <? bloom_offset
    then Err (SstOther "bloom filter start offset points past the size of the file")
    else if bloom_offset <=? blockmeta_offset
    then Err (SstOther "block metadata start offset is greater than bloom filter start offset")
    else
      let bloom_segment_len := fsize - SST_FOOTER_SIZE - bloom_offset in
      let blockmeta_segment_len := bloom_offset - blockmeta_offset in
      metabuf ← map_err SstIo (read_exact_at fh blockmeta_segment_len blockmeta_offset);
      block_metadata ← map_err SstCodecError (decode_metas metabuf);
      if bloom_segment_len <? 0 then Panic
      else
        bloombuf ← map_err SstIo (read_exact_at fh bloom_segment_len bloom_offset);
        bo ← map_err SstCodecError (bloom_decode bloombuf);
        match bo with
        | None => Err (SstOther "failed to decode bloom filter: not enough bytes in buffer")
        | Some (bloom, n) =>
            hashed ← slice bloombuf 0 n;
            let computed_checksum := crc32 (metabuf ++ hashed) in
            if negb (orig_checksum =? computed_checksum)
            then Err (SstChecksumMismatch {| cm_original := orig_checksum; cm_computed := computed_checksum |})
            else Ok {| sh_fh := fh; sh_block_metadata := block_metadata;
                       sh_block_metadata_start_offset := blockmeta_offset; sh_bloom := bloom |}
        end.

Definition open_path (fs : list byte -> option (list byte)) (fname : list byte) : outcome SstError SstHandle :=
  fh ← map_err SstIo (open_from_path fs fname);
  open_file_handle fh.

Definition read_block (h : SstHandle) (block_idx : Z) : outcome SstError Block :=
  let metas := sh_block_metadata h in
  m ← ok_or (get_opt metas block_idx) (SstBlockIdxOutOfBounds block_idx (blen metas));
  let block_start := bm_offset m in
  block_end ← (if block_idx =? blen metas - 1 then Ok (sh_block_metadata_start_offset h)
               else next ← index metas (block_idx + 1); Ok (bm_offset next));
  if block_end <? block_start then Panic
  else
    buf ← map_err SstIo (read_exact_at (sh_fh h) (block_end - block_start) block_start);
    map_err SstBlockCodecError (decode_block buf).

Definition may_contain_stream_id (h : SstHandle) (stream_id : Z) : outcome SstError bool :=
  may_contain (sh_bloom h) stream_id.

Fixpoint any_may_contain (h : SstHandle) (ids : list Z) : outcome SstError bool :=
  match ids with
  | [] => Ok false
  | id :: ids => b ← may_contain_stream_id h id; if b : bool then Ok true else any_may_contain h ids
  end.
Definition may_contain_stream_id_bounds (h : SstHandle) (lo hi : Z) : outcome SstError bool :=
  any_may_contain h (map (fun i => lo + Z.of_nat i) (seq 0 (Z.to_nat (hi - lo)))).

Definition block_idx_for_stream_id (h : SstHandle) (sid : Z) : outcome SstError Z :=
  b ← may_contain_stream_id h sid;
  if negb b then Err (SstStreamIdNotFound sid BkNone)
  else
    r ← binary_search_by (fun m => Ok (cmp (stream_id (bm_last_key m)) sid)) (sh_block_metadata h);
    match r with
    | inl i => Ok i
    | inr i => if i <=? blen (sh_block_metadata h) then Ok i else Err (SstStreamIdNotFound sid BkNone)
    end.
End sst_handle.

(** ** [SstCursor] *)

Record SstCursor := {
  sc_sst : SstHandle;
  sc_block_cursor : BlockCursor + SstError;
  sc_block_idx : Z;
  sc_start_bound : bound Key;
  sc_end_bound : bound Key
}.

Definition sc_with (c : SstCursor) (bc : BlockCursor + SstError) (idx : Z) : SstCursor :=
  {| sc_sst := sc_sst c; sc_block_cursor := bc; sc_block_idx := idx;
     sc_start_bound := sc_start_bound c; sc_end_bound := sc_end_bound c |}.

Section sst_cursor.
Context `{Crc32, Fnv, BloomSizing, Nom}.

(** positions the block cursor according to the start bound *)
Definition cursor_position (start : bound Key) (bc : BlockCursor) : BlockCursor * outcome SstError unit :=
  match start with
  | Included k => block_cursor_seek k bc
  | Excluded k =>
      match block_cursor_seek k bc with
      | (bc, Ok _) => if decide (Some k = rec_key <$> block_cursor_current_record bc)
                      then block_cursor_next bc else (bc, Ok tt)
      | (bc, o) => (bc, o)
      end
  | Unbounded => block_cursor_seek_to_first bc
  end.

Definition sst_cursor_new (sst : SstHandle) (start end_ : bound Key) : outcome SstError (option SstCursor) :=
  start_block_idx ← match start with
                    | Included k | Excluded k => block_idx_for_stream_id sst (stream_id k)
                    | Unbounded => Ok 0
                    end;
  block ← read_block sst start_block_idx;
  match cursor_position start (block_cursor_new block) with
  | (bc, Ok _) => Ok (Some {| sc_sst := sst; sc_block_cursor := inl bc; sc_block_idx := start_block_idx;
                              sc_start_bound := start; sc_end_bound := end_ |})
  | (_, Err e) => Err e
  | (_, Panic) => Panic
  end.

(** [SstHandle::cursor] *)
Definition sst_cursor (sst : SstHandle) (bounds : option (bound Key * bound Key)) : outcome SstError (option SstCursor) :=
  let '(s, e) := default (Unbounded, Unbounded) bounds in sst_cursor_new sst s e.

(** [_is_in_bounds] *)
Definition sst_is_in_bounds (c : SstCursor) (key : Key) : bool :=
  in_bounds (sc_start_bound c) (sc_end_bound c) key.

Definition sst_cursor_is_record (c : SstCursor) : bool :=
  match sc_block_cursor c with inl bc => block_cursor_is_record bc | inr _ => false end.
Definition sst_cursor_is_error (c : SstCursor) : bool :=
  match sc_block_cursor c with inl bc => block_cursor_is_error bc | inr _ => true end.
Definition sst_cursor_get_error (c : SstCursor) : option (SstError + CodecError) :=
  match sc_block_cursor c with
  | inr e => Some (inl e)
  | inl bc => match block_cursor_get_error bc with Some e => Some (inr e) | None => None end
  end.
Definition sst_cursor_current_record (c : SstCursor) : option LogRecord :=
  match sc_block_cursor c with inl bc => block_cursor_current_record bc | inr _ => None end.

Definition sst_cursor_take_current (c : SstCursor) : SstCursor * option LogRecord :=
  match sc_block_cursor c with
  | inl bc => let '(bc, r) := block_cursor_take_current bc in (sc_with c (inl bc) (sc_block_idx c), r)
  | inr _ => (c, None)
  end.

Definition next_block_may_be_in_bounds (c : SstCursor) : bool :=
  match get_opt (sh_block_metadata (sc_sst c)) (sc_block_idx c) with
  | None => false
  | Some meta =>
      match sc_end_bound c with
      | Included e => match cmp (bm_first_key meta) e with Gt => false | _ => true end
      | Excluded e => match cmp (bm_first_key meta) e with Lt => true | _ => false end
      | Unbounded => true
      end
  end.

Definition sst_update_current : st SstCursor SstError unit := fun c =>
  let len := blen (sh_block_metadata (sc_sst c)) in
  if len <=? sc_block_idx c
  then (sc_with c (inr (SstBlockIdxOutOfBounds (sc_block_idx c) len)) (sc_block_idx c), Ok tt)
  else
    match read_block (sc_sst c) (sc_block_idx c) with
    | Err e => (sc_with c (inr e) (sc_block_idx c), Ok tt)
    | Panic => (c, Panic)
    | Ok block =>
        let '(bc, o) := block_cursor_seek_to_first (block_cursor_new block) in
        (sc_with c (inl bc) (sc_block_idx c), o)
    end.

(** the second half of [next]: on to the next block *)
Definition sst_next_block : st SstCursor SstError unit := fun c =>
  if sst_cursor_is_error c then (c, Ok tt)
  else
    let c := sc_with c (sc_block_cursor c) (sc_block_idx c + 1) in
    if negb (next_block_may_be_in_bounds c)
    then (sc_with c (inr SstBlockCursorExhausted) (sc_block_idx c), Ok tt)
    else sst_update_current c.

Definition sst_cursor_next : st SstCursor SstError unit := fun c =>
  match sc_block_cursor c with
  | inr _ => sst_next_block c
  | inl bc =>
      match block_cursor_next bc with
      | (bc, Ok _) =>
          let c := sc_with c (inl bc) (sc_block_idx c) in
          match bc_record bc with
          | inl (Some _) => (c, Ok tt)
          | inl None => sst_next_block c
          | inr _ => (c, Panic) (* todo! *)
          end
      | (bc, o) => (sc_with c (inl bc) (sc_block_idx c), o)
      end
  end.

Definition sst_cursor_seek_to_first : st SstCursor SstError unit := fun c =>
  sst_update_current (sc_with c (sc_block_cursor c) 0).

(** the closure of the binary search in [seek] *)
Definition sst_seek_compare (seek_key : Key) (b : BlockMetadata) : outcome SstError comparison :=
  match cmp seek_key (bm_first_key b), cmp seek_key (bm_last_key b) with
  | Lt, Gt => Err SstInvalidBlockNotSorted
  | Eq, _ => Ok Eq
  | _, Eq => Ok Eq
  | Gt, Lt => Ok Eq
  | Lt, _ => Ok Lt
  | _, Gt => Ok Gt
  end.

Definition sst_cursor_seek (seek_key : Key) : st SstCursor SstError unit := fun c =>
  match binary_search_by (sst_seek_compare seek_key) (sh_block_metadata (sc_sst c)) with
  | Err e => (sc_with c (inr e) (sc_block_idx c), Ok tt)
  | Panic => (c, Panic)
  | Ok (inl i) | Ok (inr i) =>
      match sst_update_current (sc_with c (sc_block_cursor c) i) with
      | (c, Ok _) =>
          match sc_block_cursor c with
          | inl bc => let '(bc, o) := block_cursor_seek seek_key bc in
                      (sc_with c (inl bc) (sc_block_idx c), o)
          | inr _ => (c, Ok tt)
          end
      | (c, o) => (c, o)
      end
  end.
End sst_cursor.

(** ** File names *)

Lemma parse_digits_app acc xs ys :
  parse_digits acc (xs ++ ys) = match parse_digits acc xs with Some a => parse_digits a ys | None => None end.
Proof.
  revert acc. induction xs as [|b xs IH]; intros acc; cbn [app parse_digits]; [done|].
  destruct (is_digit b); [|done]. cbv zeta. case_if; [done|]. apply IH.
Qed.

Lemma digit_byte d : 0 <= d < 10 -> u8_val (u8_of (48 + d)) = 48 + d /\ is_digit (u8_of (48 + d)) = true.
Proof.
  intros Hd. assert (u8_val (u8_of (48 + d)) = 48 + d) as Hv by (apply u8_val_of; unfold in_u8, u8_max; lia).
  split; [done|]. unfold is_digit, between. rewrite Hv. bdecide.
Qed.

Lemma parse_dec_digits n z acc :
  0 <= acc -> 0 <= z < 10 ^ Z.of_nat n -> acc * 10 ^ Z.of_nat n + z <= u64_max ->
  parse_digits acc (dec_digits n z) = Some (acc * 10 ^ Z.of_nat n + z).
Proof.
  revert z. induction n as [|n IH]; intros z Ha Hz Hm.
  - cbn. f_equal. cbn in Hz. lia.
  - cbn [dec_digits]. rewrite Nat2Z.inj_succ, Z.pow_succ_r in * by lia.
    pose proof (Z.div_mod z 10 ltac:(lia)) as Hdm. pose proof (Z.mod_pos_bound z 10 ltac:(lia)) as Hmod.
    pose proof (Z.div_pos z 10 ltac:(lia) ltac:(lia)).
    assert (z / 10 < 10 ^ Z.of_nat n) by (apply Z.div_lt_upper_bound; lia).
    rewrite parse_digits_app, IH by nia.
    destruct (digit_byte (z mod 10) Hmod) as [Hv Hd]. cbn [parse_digits]. rewrite Hd, Hv. cbv zeta.
    if_false. f_equal. nia.
Qed.

Lemma length_dec_digits n z : length (dec_digits n z) = n.
Proof. revert z. induction n as [|n IH]; intros z; cbn; [done|]. rewrite length_app, IH. cbn. lia. Qed.

Lemma dec_digits_head n z b t : dec_digits (S n) z = b :: t -> is_digit b = true.
Proof.
  revert z b t. induction n as [|n IH]; intros z b t Heq.
  - cbn in Heq. injection Heq as <- _. by apply digit_byte, Z.mod_pos_bound.
  - change (dec_digits (S n) (z / 10) ++ [u8_of (48 + z mod 10)] = b :: t) in Heq.
    destruct (dec_digits (S n) (z / 10)) as [|b' t'] eqn:E.
    + apply (f_equal length) in E. by rewrite length_dec_digits in E.
    + injection Heq as <- _. by eapply IH.
Qed.

(** ** Finalization *)

Lemma finalize_never {W : Type} `{Write W, Crc32} (s : SstWriter W) (r : Z * Z) : (sst_finalize s).2 <> Ok r.
Proof.
  unfold sst_finalize. rewrite st_bind_unfold. destruct (sst_flush_pending s) as [s1 [[]|e|]]; [|done..].
  unfold sst_write_trailer. destruct (sw_first_key s1), (sw_last_key s1); try done.
  destruct (encode_metas _) as [mb|e|]; [|done..]. rewrite st_bind_unfold.
  destruct (sw_emit mb s1) as [s2 [[]|e|]]; [|done..]. rewrite st_bind_unfold. unfold st_lift.
  pose proof (bloom_encode_result (sw_bloom s1) (replicate (Z.to_nat (wire_len (sw_bloom s1))) zero_byte)) as Hb.
  destruct (bloom_encode _ _) as [buf o]. cbn [snd] in Hb. subst o. by case_if.
Qed.

Lemma finalize_file_never `{Crc32} (s : SstWriter SstFileHandle) (h : SstHandle) : finalize_file s <> Ok h.
Proof.
  unfold finalize_file. destruct (sst_finalize s) as [s' [[a b]|e|]] eqn:E; [|done..].
  pose proof (finalize_never s (a, b)) as Hn. by rewrite E in Hn.
Qed.

(** ** Claims *)

(** No SST is ever finalized. Whatever has been written, [finalize] does
    not return [Ok] (nor does [finalize_file]): encoding the bloom filter
    panics. *)
Theorem sst_finalize_never_ok {W : Type} `{Write W, Crc32} (s : SstWriter W) (r : Z * Z)
    (fs : SstWriter SstFileHandle) (h : SstHandle) :
  (sst_finalize s).2 <> Ok r /\ finalize_file fs <> Ok h.
Proof. split; [apply finalize_never|apply finalize_file_never]. Qed.

(** The file name of an SST determines its id: opening the file that
    [format_sst_filename] names yields a handle with that id, for every u64. *)
Theorem sst_filename_roundtrip (id : Z) (content : list byte) (fs : list byte -> option (list byte))
    (Hid : in_u64 id) (Hfs : fs (format_sst_filename id) = Some content) :
  open_from_path fs (format_sst_filename id) = Ok {| sfh_id := id; sfh_content := content |}.
Proof.
  unfold open_from_path. unfold format_sst_filename at 1 2 3.
  assert (length (dec_digits 20 id ++ sst_suffix) - length sst_suffix = length (dec_digits 20 id))%nat as Hlen
    by (rewrite length_app; lia).
  unfold ends_with. rewrite Hlen, drop_app_length, take_app_length, bool_decide_true by done.
  assert ((length sst_suffix <=? length (dec_digits 20 id ++ sst_suffix))%nat = true) as ->
    by (rewrite length_app; apply Nat.leb_le; lia).
  cbn [andb negb]. rewrite Hfs.
  assert (parse_u64 (dec_digits 20 id) = Some id) as ->; [|done].
  destruct Hid as [Hlo Hhi]. pose proof (parse_dec_digits 20 id 0 ltac:(lia)) as Hp.
  rewrite Z.mul_0_l, Z.add_0_l in Hp. specialize (Hp ltac:(unfold u64_max in Hhi; split; [done|]; cbn; lia) Hhi).
  unfold parse_u64. destruct (dec_digits 20 id) as [|b t] eqn:E; [by apply (f_equal length) in E|].
  pose proof (dec_digits_head 19 id b t E) as Hd. unfold is_digit, between in Hd. gsplit. by if_false.
Qed.

(** ** Witness *)

Lemma sst_filename_roundtrip_witness :
  open_from_path (fun _ => Some [u8_of 1]) (format_sst_filename 42)
  = Ok {| sfh_id := 42; sfh_content := [u8_of 1] |}.
Proof. apply (sst_filename_roundtrip 42 [u8_of 1] (fun _ => Some [u8_of 1])); [by split|reflexivity]. Defined.
