(* ===== verification/SstFacts.v ===== *)
(** * Properties of SSTables

    The block index survives encoding; the writer lays the blocks out in
    order; a cursor without bounds reads back exactly what was written; and
    which files [open_file_handle] opens. *)
From S2P Require Import Prelude Std Ext Codec Errors Record Block Bloom Sst.

(** ** The block index *)

Record meta_ok (m : BlockMetadata) : Prop := {
  mo_offset : in_u32 (bm_offset m);
  mo_first : key_wf (bm_first_key m);
  mo_last : key_wf (bm_last_key m)
}.

Definition meta_wire (m : BlockMetadata) : list byte :=
  be_bytes 4 (bm_offset m) ++ key_to_be_bytes (bm_first_key m) ++ key_to_be_bytes (bm_last_key m).
Definition metas_wire (ms : list BlockMetadata) : list byte := concat (map meta_wire ms).

Lemma blen_meta_wire m : blen (meta_wire m) = 68.
Proof. unfold meta_wire. zlia. Qed.
Lemma blen_metas_wire ms : blen (metas_wire ms) = 68 * blen ms.
Proof.
  unfold metas_wire. induction ms as [|m ms IH]; cbn [map concat]; [done|].
  rewrite blen_app, blen_meta_wire, IH. zlia.
Qed.
#[export] Hint Rewrite blen_meta_wire blen_metas_wire : blen.

Lemma meta_encode_key_ok k : meta_encode_key k = Ok (key_to_be_bytes k).
Proof. reflexivity. Qed.

Lemma encode_metas_from_ok ms data : encode_metas_from ms data = Ok (data ++ metas_wire ms).
Proof.
  revert data. induction ms as [|m ms IH]; intros data; cbn [encode_metas_from].
  - by rewrite app_nil_r.
  - rewrite !meta_encode_key_ok, !ok_bind, IH. unfold metas_wire. cbn [map concat].
    unfold meta_wire. by rewrite <- !app_assoc.
Qed.

Lemma meta_decode_key_ok k : key_wf k -> meta_decode_key (key_to_be_bytes k) = Ok k.
Proof.
  intros Hk. unfold meta_decode_key. cbn [decode Key_codec].
  by rewrite <- (app_nil_r (key_to_be_bytes k)), key_decode_app.
Qed.

Lemma decode_metas_from_ok ms (pre post : list byte) consumed :
  Forall meta_ok ms -> consumed = blen pre ->
  decode_metas_from (length ms) consumed (pre ++ metas_wire ms ++ post)
  = Ok (ms, consumed + BLOCK_META_SIZE * blen ms).
Proof.
  intros Hms. revert pre consumed. induction Hms as [|m ms [Ho Hf Hl] _ IH]; intros pre consumed Hc.
  - cbn [length decode_metas_from]. by rewrite Z.mul_0_r, Z.add_0_r.
  - cbn [length decode_metas_from]. unfold metas_wire. cbn [map concat].
    fold (metas_wire ms). unfold meta_wire. rewrite <- !app_assoc. unfold array_at.
    rewrite (slice_app pre (be_bytes 4 (bm_offset m)) _ consumed) by zlia. rewrite ok_bind.
    rewrite (app_assoc pre), (slice_app (pre ++ _) (key_to_be_bytes (bm_first_key m)) _ (consumed + SZ_U32)) by zlia.
    rewrite ok_bind, meta_decode_key_ok, ok_bind by done.
    rewrite (app_assoc (pre ++ _)),
      (slice_app ((pre ++ _) ++ _) (key_to_be_bytes (bm_last_key m)) _ (consumed + SZ_U32 + KEY_SIZE)) by zlia.
    rewrite ok_bind, meta_decode_key_ok, ok_bind by done.
    rewrite (app_assoc ((pre ++ _) ++ _)), IH by zlia. rewrite ok_bind. cbn [fst snd].
    rewrite be_val_u32 by done. f_equal. f_equal; [by destruct m|]. zlia.
Qed.

Lemma encode_metas_ok `{Crc32} ms :
  blen ms <= u32_max ->
  encode_metas ms = Ok ((be_bytes 4 (blen ms) ++ metas_wire ms)
                        ++ be_bytes 4 (crc32 (be_bytes 4 (blen ms) ++ metas_wire ms))).
Proof.
  intros Hn. unfold encode_metas. rewrite encode_metas_from_ok, ok_bind, wrap32_small by (split; zlia). done.
Qed.

Lemma decode_metas_ok `{Crc32} ms (post : list byte) :
  Forall meta_ok ms -> blen ms <= u32_max ->
  decode_metas (be_bytes 4 (blen ms) ++ metas_wire ms
                ++ be_bytes 4 (crc32 (be_bytes 4 (blen ms) ++ metas_wire ms)) ++ post) = Ok ms.
Proof.
  intros Hms Hn. unfold decode_metas. pose proof (blen_nonneg ms). if_false.
  unfold array_at. rewrite (slice_prefix (be_bytes 4 (blen ms))) by zlia. rewrite ok_bind, be_val_u32 by (split; zlia).
  if_false. replace (Z.to_nat (blen ms)) with (length ms) by (unfold blen; lia).
  rewrite decode_metas_from_ok by (done || zlia). rewrite ok_bind.
  rewrite (app_assoc (be_bytes 4 (blen ms))). rewrite slice_prefix by zlia. rewrite ok_bind.
  rewrite slice_app by zlia. rewrite ok_bind, be_val_u32 by apply crc32_range. by rewrite Z.eqb_refl.
Qed.

(** ** The layout of the data segment *)

Definition block_image `{Crc32} (rs : list LogRecord) : list byte := block_bytes (block_of rs).
Definition blocks_image `{Crc32} (bl : list (list LogRecord)) : list byte := concat (map block_image bl).

Fixpoint metas_of `{Crc32} (base : Z) (bl : list (list LogRecord)) : list BlockMetadata :=
  match bl with
  | [] => []
  | rs :: bl =>
      match head rs, last rs with
      | Some f, Some l => [{| bm_offset := base; bm_first_key := rec_key f; bm_last_key := rec_key l |}]
      | _, _ => []
      end ++ metas_of (base + blen (block_image rs)) bl
  end.

(** what every written block satisfies *)
Record block_good (rs : list LogRecord) : Prop := {
  bg_valid : Forall record_valid rs;
  bg_nonempty : rs <> [];
  bg_data : blen (records_data rs) <= u16_max - MIN_RECORD_WIRE_LENGTH;
  bg_total : blen (records_data rs) + 2 * blen rs + 2 <= MAX_BLOCK_SIZE
}.

Section layout.
Context `{Crc32}.

Lemma blen_block_image rs : blen (block_image rs) = blen (records_data rs) + 2 * blen rs + 6.
Proof. unfold block_image, block_bytes, block_body. cbn [block_of blk_data blk_offsets]. zlia. Qed.

Lemma block_good_offsets rs :
  block_good rs -> check_offsets (records_offsets 0 rs) (blen (records_data rs)) = Ok tt /\
    Forall in_u16 (records_offsets 0 rs).
Proof.
  intros [Hv Hne Hd Ht]. pose proof (check_offsets_records 0 rs Hv) as Hck. rewrite Z.add_0_l in Hck.
  split; [done|]. eapply Forall_impl; [by apply records_offsets_range|]. cbn. unfold in_u16. intros o. zlia.
Qed.

Lemma block_good_encode rs : block_good rs -> encode_block (block_of rs) = Ok (block_image rs).
Proof.
  intros Hg. destruct (block_good_offsets rs Hg) as [Hck Hu]. destruct Hg as [Hv Hne Hd Ht].
  apply encode_block_ok; cbn [block_of blk_data blk_offsets]; try done; [by destruct rs|zlia].
Qed.

Lemma block_good_decode rs : block_good rs -> decode_block (block_image rs) = Ok (block_of rs).
Proof.
  intros Hg. destruct (block_good_offsets rs Hg) as [Hck Hu]. destruct Hg as [Hv Hne Hd Ht].
  apply decode_block_bytes; cbn [block_of blk_data blk_offsets]; try done. zlia.
Qed.

Lemma blocks_image_app bl cl : blocks_image (bl ++ cl) = blocks_image bl ++ blocks_image cl.
Proof. unfold blocks_image. by rewrite map_app, concat_app. Qed.

Lemma head_last_some {A} (l : list A) : l <> [] -> exists f g, head l = Some f /\ last l = Some g.
Proof.
  intros Hne. destruct l as [|x l]; [done|]. exists x. cbn [head].
  destruct (last (x :: l)) as [g|] eqn:E; [by exists g|]. by apply last_None in E.
Qed.

Lemma metas_of_app base bl cl :
  metas_of base (bl ++ cl) = metas_of base bl ++ metas_of (base + blen (blocks_image bl)) cl.
Proof.
  revert base. induction bl as [|rs bl IH]; intros base; cbn [app metas_of].
  - cbn. by rewrite Z.add_0_r.
  - rewrite IH, <- app_assoc. unfold blocks_image. cbn [map concat]. rewrite blen_app. do 3 f_equal. lia.
Qed.

Lemma metas_of_cons base rs bl :
  rs <> [] -> exists f l, head rs = Some f /\ last rs = Some l /\
    metas_of base (rs :: bl)
    = {| bm_offset := base; bm_first_key := rec_key f; bm_last_key := rec_key l |}
      :: metas_of (base + blen (block_image rs)) bl.
Proof.
  intros Hne. destruct (head_last_some rs Hne) as (f & l & Hf & Hl). exists f, l.
  split_and!; [done|done|]. cbn [metas_of]. by rewrite Hf, Hl.
Qed.

Lemma blen_metas_of base bl : Forall block_good bl -> blen (metas_of base bl) = blen bl.
Proof.
  intros Hbl. revert base. induction Hbl as [|rs bl Hg _ IH]; intros base; [done|].
  destruct (metas_of_cons base rs bl (bg_nonempty _ Hg)) as (f & l & _ & _ & ->).
  rewrite !blen_cons. by rewrite IH.
Qed.

Lemma metas_of_lookup pre rs post base :
  Forall block_good pre -> rs <> [] ->
  exists f l, metas_of base (pre ++ rs :: post) !! length pre
    = Some {| bm_offset := base + blen (blocks_image pre); bm_first_key := rec_key f; bm_last_key := rec_key l |}
    /\ head rs = Some f /\ last rs = Some l.
Proof.
  intros Hpre Hne. rewrite metas_of_app.
  destruct (metas_of_cons (base + blen (blocks_image pre)) rs post Hne) as (f & l & Hf & Hl & ->).
  exists f, l. split; [|done].
  replace (length pre) with (length (metas_of base pre)).
  - by apply list_lookup_middle.
  - pose proof (blen_metas_of base pre Hpre). unfold blen in *. lia.
Qed.
End layout.

(** ** The writer *)

(** an upper bound of the bytes the blocks of [rs] take *)
Definition sst_bound (rs : list LogRecord) : Z := blen (records_data rs) + 8 * blen rs.

Lemma sst_bound_app rs qs : sst_bound (rs ++ qs) = sst_bound rs + sst_bound qs.
Proof. unfold sst_bound. rewrite records_data_app. zlia. Qed.
Lemma sst_bound_nonneg rs : 0 <= sst_bound rs.
Proof. unfold sst_bound. zlia. Qed.

(** block limits with which a full block can always be encoded *)
Definition limit_ok (limit : Z) : Prop := limit <= u16_max - MIN_RECORD_WIRE_LENGTH.

Section writer_facts.
Context `{Crc32, Fnv, BloomSizing}.

Record sst_inv (limit : Z) (bl : list (list LogRecord)) (pending : list LogRecord)
    (s : SstWriter SstFileHandle) : Prop := {
  si_content : sfh_content (sw_writer s) = blocks_image bl;
  si_written : sw_block_bytes_written s = blen (blocks_image bl);
  si_metas : sw_block_meta s = metas_of 0 bl;
  si_good : Forall block_good bl;
  si_size : blen (blocks_image bl) <= sst_bound (concat bl);
  si_pending : bwr_inv limit pending (sw_block_writer s);
  si_limit : sw_block_limit s = limit;
  si_bloom : bloom_wf (sw_bloom s);
  si_answers : Forall (fun r => answers (E := SstError) (sw_bloom s) (stream_id (rec_key r))) (concat bl ++ pending);
  si_first : sw_first_key s = rec_key <$> head (concat bl);
  si_last : sw_last_key s = rec_key <$> last (concat bl);
  si_hasher : sw_hasher s = blocks_image bl;
  si_dims : in_u64 (bf_n_bits (sw_bloom s)) /\ in_u64 (bf_n_hashes (sw_bloom s))
}.

Lemma pending_good limit pending w :
  limit_ok limit -> bwr_inv limit pending w -> pending <> [] -> block_good pending.
Proof.
  intros Hlim [Hv _ _ _ _ _ _ Hm Hso] Hne. split; [done|done| |done].
  unfold limit_ok in Hlim. destruct Hso as [Hone|Hsoft]; [|zlia].
  destruct pending as [|r [|q t]]; [done| |zlia].
  apply Forall_inv in Hv. pose proof (record_wire_len_range r Hv).
  unfold records_data. cbn [map concat]. rewrite app_nil_r. zlia.
Qed.

Lemma head_concat_snoc {A} (bl : list (list A)) p :
  Forall (fun l => l <> []) bl -> p <> [] ->
  head (concat (bl ++ [p])) = match head (concat bl) with Some x => Some x | None => head p end /\
  last (concat (bl ++ [p])) = last p.
Proof.
  intros Hbl Hp. rewrite concat_app. cbn. rewrite app_nil_r. split.
  - destruct Hbl as [|l bl Hl _]; [done|]. by destruct l.
  - destruct (last_is_Some p) as [_ Hlast]. destruct (Hlast Hp) as [x Hx]. rewrite Hx.
    rewrite last_app, Hx. done.
Qed.

Lemma flush_blocks_ok limit bl pending s :
  limit_ok limit -> limit <= MAX_BLOCK_SIZE -> sst_inv limit bl pending s -> pending <> [] ->
  sst_bound (concat bl ++ pending) < MAX_SST_SIZE ->
  exists s', flush_blocks s = (s', Ok tt) /\ sst_inv limit (bl ++ [pending]) [] s'.
Proof.
  intros Hlim Hmax [Hc Hw Hme Hg Hsz Hp Hl Hb Ha Hf Hla Hh Hd] Hne Hbound.
  pose proof (pending_good _ _ _ Hlim Hp Hne) as Hpg. pose proof Hp as [Hv Hblk Hsize _ _ Hpf Hpl _ _].
  rewrite sst_bound_app in Hbound. pose proof (sst_bound_nonneg pending) as Hpos.
  unfold flush_blocks. rewrite Hw.
  assert (blen (records_data pending) <= sst_bound pending) by (unfold sst_bound; zlia).
  if_false. rewrite Hsize. if_false. rewrite Hl. unfold block_writer_new. if_false. rewrite ok_bind.
  unfold into_block. rewrite Hblk, (block_good_encode _ Hpg).
  unfold sw_emit. cbn [w_write_all sst_file_write sw_writer sw_set_block_writer].
  rewrite Hpf, Hpl. destruct (head_last_some pending Hne) as (f & l & Hhf & Hhl). rewrite Hhf, Hhl. cbn [fmap option_fmap option_map].
  assert (Forall (fun l : list LogRecord => l <> []) bl) as Hbne
    by (eapply Forall_impl; [exact Hg|]; intros ? [? ? ? ?]; done).
  destruct (head_concat_snoc bl pending Hbne Hne) as [Hhead Hlast].
  assert (blen (block_image pending) <= sst_bound pending) as Hpi.
  { rewrite blen_block_image. unfold sst_bound. apply blen_pos in Hne. lia. }
  assert (blocks_image (bl ++ [pending]) = blocks_image bl ++ block_image pending) as Himg
    by (rewrite blocks_image_app; unfold blocks_image at 2; cbn; by rewrite app_nil_r).
  eexists. split; [reflexivity|]. unfold sw_push_block, sw_set_writer, sw_set_block_writer. split;
    cbn [sfh_content sw_writer sw_block_bytes_written sw_block_meta sw_block_writer sw_block_limit sw_bloom sw_first_key sw_last_key sw_hasher].
  - by rewrite Hc, Himg.
  - rewrite Himg, blen_app. lia.
  - rewrite Hme, metas_of_app. f_equal. cbn [metas_of]. rewrite Hhf, Hhl, app_nil_r.
    rewrite wrap32_small; [f_equal; f_equal; lia|]. rewrite Hw. split; [zlia|].
    unfold MAX_SST_SIZE in Hbound. change (u32_max / 2) with 2147483647 in Hbound. unfold u32_max. lia.
  - by apply Forall_app_2, Forall_singleton.
  - rewrite Himg, blen_app, concat_app, sst_bound_app. cbn [concat]. rewrite app_nil_r. lia.
  - split; cbn; try done. zlia.
  - done.
  - done.
  - by rewrite concat_app; cbn; rewrite !app_nil_r.
  - rewrite Hhead, Hf. destruct (head (concat bl)); [done|]. by rewrite Hhf.
  - by rewrite Hlast, Hhl.
  - by rewrite Hh, Himg.
  - done.
Qed.
End writer_facts.

Section writer_claims.
Context `{Crc32, Fnv, BloomSizing}.

(** a record that the pending block accepts *)
Lemma sst_write_accept limit bl pending s r fuel bw :
  sst_inv limit bl pending s -> record_valid r ->
  sst_bound (concat bl ++ pending ++ [r]) < MAX_SST_SIZE ->
  block_writer_write r (sw_block_writer s) = (bw, Ok Written) -> bwr_inv limit (pending ++ [r]) bw ->
  exists s', sst_write (S fuel) r s = (s', Ok tt) /\ sst_inv limit bl (pending ++ [r]) s'.
Proof.
  intros [Hc Hw Hme Hg Hsz Hp Hl Hb Ha Hf Hla Hh Hd] Hr Hbound Hwrite Hbw.
  cbn [sst_write]. rewrite Hw. rewrite sst_bound_app in Hbound.
  pose proof (sst_bound_nonneg (pending ++ [r])). if_false. rewrite Hwrite.
  cbn [sw_bloom sw_set_block_writer].
  destruct (bloom_insert_ok (E := SstError) (sw_bloom s) (stream_id (rec_key r)) Hb)
    as (bf & -> & Hbf & Hbits & Hhashes & Hans & Hmono).
  eexists. split; [reflexivity|]. split; cbn; rewrite ?Hbits, ?Hhashes; try done.
  rewrite app_assoc. apply Forall_app_2; [|by apply Forall_singleton].
  eapply Forall_impl; [exact Ha|]. cbn. intros q. apply Hmono.
Qed.

Lemma sst_write_ok limit bl pending s r :
  limit_ok limit -> limit <= MAX_BLOCK_SIZE -> sst_inv limit bl pending s -> record_valid r ->
  sst_bound (concat bl ++ pending ++ [r]) < MAX_SST_SIZE ->
  exists s' bl' pending', sst_write 2 r s = (s', Ok tt) /\ sst_inv limit bl' pending' s' /\
    concat bl' ++ pending' = (concat bl ++ pending) ++ [r].
Proof.
  intros Hlim Hmax Hs Hr Hbound.
  pose proof (block_writer_write_spec limit pending _ r (si_pending _ _ _ _ Hs) Hr) as Hspec. cbv zeta in Hspec.
  destruct (_ || _).
  - destruct Hspec as [Hfull Hne].
    assert (sst_bound (concat bl ++ pending) < MAX_SST_SIZE) as Hb1.
    { rewrite app_assoc, sst_bound_app in Hbound. pose proof (sst_bound_nonneg [r]). lia. }
    pose proof Hs as [_ Hw _ _ Hsz _ _ _ _ _ _ _ _].
    change (sst_write 2 r s) with
      (if MAX_SST_SIZE <=? sw_block_bytes_written s then (s, Err SstFilledUp)
       else match block_writer_write r (sw_block_writer s) with
            | (bw, Ok Written) =>
                let s := sw_set_block_writer bw s in
                let '(bloom, o) := bloom_insert (stream_id (rec_key r)) (sw_bloom s) in
                (sw_set_bloom bloom s, o)
            | (bw, Ok Full) => match flush_blocks (sw_set_block_writer bw s) with
                               | (s, Ok _) => sst_write 1 r s
                               | (s, o) => (s, o)
                               end
            | (bw, Err e) => (sw_set_block_writer bw s, Err (SstCodecError e))
            | (bw, Panic) => (sw_set_block_writer bw s, Panic)
            end).
    pose proof (sst_bound_nonneg pending). rewrite sst_bound_app in Hb1. if_false. rewrite Hfull.
    replace (sw_set_block_writer (sw_block_writer s) s) with s by (by destruct s).
    rewrite <- sst_bound_app in Hb1.
    destruct (flush_blocks_ok limit bl pending s Hlim Hmax Hs Hne Hb1) as (s1 & -> & Hs1).
    pose proof (block_writer_write_spec limit [] _ r (si_pending _ _ _ _ Hs1) Hr) as Hspec. cbv zeta in Hspec.
    destruct (_ || _); [by destruct Hspec as [_ ?]|]. destruct Hspec as (bw & Hwr & Hbw).
    destruct (sst_write_accept limit (bl ++ [pending]) [] s1 r 0 bw Hs1 Hr) as (s2 & -> & Hs2).
    + rewrite concat_app. cbn [concat app]. by rewrite app_nil_r, <- app_assoc.
    + done.
    + done.
    + eexists _, _, _. split_and!; [reflexivity|exact Hs2|].
      rewrite concat_app. cbn [concat app]. by rewrite app_nil_r.
  - destruct Hspec as (bw & Hwr & Hbw).
    destruct (sst_write_accept limit bl pending s r 1 bw Hs Hr Hbound Hwr Hbw) as (s2 & -> & Hs2).
    eexists _, _, _. split_and!; [reflexivity|exact Hs2|]. by rewrite app_assoc.
Qed.

Lemma sst_write_all_ok limit bl pending s rs :
  limit_ok limit -> limit <= MAX_BLOCK_SIZE -> sst_inv limit bl pending s -> Forall record_valid rs ->
  sst_bound (concat bl ++ pending ++ rs) < MAX_SST_SIZE ->
  exists s' bl' pending', sst_write_all rs s = (s', Ok tt) /\ sst_inv limit bl' pending' s' /\
    concat bl' ++ pending' = (concat bl ++ pending) ++ rs.
Proof.
  intros Hlim Hmax Hs Hrs. revert bl pending s Hs. induction Hrs as [|r rs Hr Hrs IH]; intros bl pending s Hs Hbound.
  - exists s, bl, pending. by rewrite app_nil_r.
  - cbn [sst_write_all]. rewrite st_bind_unfold.
    assert (sst_bound (concat bl ++ pending ++ [r]) < MAX_SST_SIZE) as Hb1.
    { replace (r :: rs) with ([r] ++ rs) in Hbound by done. rewrite !sst_bound_app in *.
      pose proof (sst_bound_nonneg rs). lia. }
    destruct (sst_write_ok limit bl pending s r Hlim Hmax Hs Hr Hb1) as (s1 & bl1 & p1 & -> & Hs1 & Heq).
    destruct (IH bl1 p1 s1 Hs1) as (s2 & bl2 & p2 & -> & Hs2 & Heq2).
    + rewrite app_assoc, Heq, <- app_assoc, <- app_assoc. exact Hbound.
    + exists s2, bl2, p2. split_and!; [done|done|]. by rewrite Heq2, Heq, <- app_assoc.
Qed.

Lemma sst_writer_new_inv fh limit n s :
  sfh_content fh = [] -> 1 <= n -> sst_writer_new fh limit n = Ok s ->
  sst_inv (default DEFAULT_BLOCK_SIZE limit) [] [] s /\ default DEFAULT_BLOCK_SIZE limit <= MAX_BLOCK_SIZE.
Proof.
  intros Hfh Hn. unfold sst_writer_new. destruct (block_writer_new limit) as [bw|e|] eqn:E; [|done..].
  rewrite ok_bind. intros [= <-]. destruct (block_writer_new_inv limit bw E) as [Hbw Hmax].
  pose proof (bloom_bits_range n Hn). pose proof (bloom_hashes_range n).
  split; [|done]. split; cbn; try done; [|by apply bloom_new_wf|split; unfold in_u64; lia]. destruct Hbw. done.
Qed.
End writer_claims.

(** ** Reading *)

Fixpoint sst_cursor_collect `{Crc32} (fuel : nat) (c : SstCursor) : option (list LogRecord) :=
  match fuel with
  | O => None
  | S fuel =>
      match sst_cursor_current_record c with
      | None => Some []
      | Some r => match sst_cursor_next c with
                  | (c', Ok _) => cons r <$> sst_cursor_collect fuel c'
                  | _ => None
                  end
      end
  end.

Record handle_ok `{Crc32} (h : SstHandle) (bl : list (list LogRecord)) : Prop := {
  ho_content : exists rest, sfh_content (sh_fh h) = blocks_image bl ++ rest;
  ho_metas : sh_block_metadata h = metas_of 0 bl;
  ho_start : sh_block_metadata_start_offset h = blen (blocks_image bl);
  ho_good : Forall block_good bl
}.

Section reader_facts.
Context `{Crc32}.

Lemma get_opt_nat {A} (l : list A) i : get_opt l (Z.of_nat i) = l !! i.
Proof. unfold get_opt. if_true. by rewrite Nat2Z.id. Qed.

Lemma read_block_ok h pre rs post :
  handle_ok h (pre ++ rs :: post) -> read_block h (Z.of_nat (length pre)) = Ok (block_of rs).
Proof.
  intros [[rest Hc] Hm Hs Hg]. unfold read_block. rewrite Hm, Hs.
  apply Forall_app in Hg as [Hpre [Hrs Hpost]%Forall_cons].
  destruct (metas_of_lookup pre rs post 0 Hpre (bg_nonempty _ Hrs)) as (f & l & Hlk & _ & _).
  rewrite get_opt_nat, Hlk. cbn [ok_or]. rewrite ok_bind. cbn [bm_offset]. rewrite Z.add_0_l.
  rewrite blen_metas_of by (by apply Forall_app_2; [|constructor]).
  assert ((if Z.of_nat (length pre) =? blen (pre ++ rs :: post) - 1
           then Ok (blen (blocks_image (pre ++ rs :: post)))
           else next ← index (metas_of 0 (pre ++ rs :: post)) (Z.of_nat (length pre) + 1); Ok (bm_offset next))
          = @Ok SstError _ (blen (blocks_image pre) + blen (block_image rs))) as ->.
  { change (Z.of_nat (length pre)) with (blen pre). destruct post as [|qs post].
    - if_true. rewrite blocks_image_app, blen_app. unfold blocks_image at 2. cbn [map concat]. by rewrite app_nil_r.
    - if_false. replace (pre ++ rs :: qs :: post) with ((pre ++ [rs]) ++ qs :: post) by (by rewrite <- app_assoc).
      destruct (metas_of_lookup (pre ++ [rs]) qs post 0) as (f' & l' & Hlk' & _ & _).
      + by apply Forall_app_2, Forall_singleton.
      + by apply Forall_inv in Hpost as [? ? ? ?].
      + rewrite (index_ok _ (blen pre + 1) {| bm_offset := 0 + blen (blocks_image (pre ++ [rs]));
           bm_first_key := rec_key f'; bm_last_key := rec_key l' |}); [|zlia|].
        * rewrite ok_bind. cbn [bm_offset]. rewrite blocks_image_app, blen_app. unfold blocks_image at 2.
          cbn [map concat]. by rewrite app_nil_r.
        * rewrite <- Hlk'. f_equal. rewrite length_app. unfold blen. cbn. lia. }
  rewrite ok_bind. pose proof (blen_nonneg (block_image rs)). if_false.
  assert (sfh_content (sh_fh h) = blocks_image pre ++ block_image rs ++ blocks_image post ++ rest) as Hc'
    by (rewrite Hc, blocks_image_app; unfold blocks_image at 2; cbn [map concat]; by rewrite <- !app_assoc).
  unfold read_exact_at. rewrite Hc'. pose proof (blen_nonneg (blocks_image pre)). if_true.
  cbn [map_err]. rewrite ok_bind, drop_app_blen, take_app_blen by lia.
  by rewrite (block_good_decode _ Hrs).
Qed.

(** the cursor stands at position [j] of block [rs], after [pre] *)
Record cursor_pos (c : SstCursor) (pre : list (list LogRecord)) (rs : list LogRecord) (j : nat)
    (post : list (list LogRecord)) : Prop := {
  ca_handle : handle_ok (sc_sst c) (pre ++ rs :: post);
  ca_idx : sc_block_idx c = Z.of_nat (length pre);
  ca_block : exists bc, sc_block_cursor c = inl bc /\ bc_block bc = block_of rs /\
               bc_offset_idx bc = Z.of_nat j
}.
(** ... and shows the record there (it has not been taken) *)
Definition cursor_at (c : SstCursor) (pre : list (list LogRecord)) (rs : list LogRecord) (j : nat)
    (post : list (list LogRecord)) : Prop :=
  cursor_pos c pre rs j post /\ sst_cursor_current_record c = rs !! j.

Lemma sst_update_current_ok c pre rs post :
  handle_ok (sc_sst c) (pre ++ rs :: post) -> sc_block_idx c = Z.of_nat (length pre) ->
  exists c', sst_update_current c = (c', Ok tt) /\ cursor_at c' pre rs 0 post /\
    sc_end_bound c' = sc_end_bound c.
Proof.
  intros Hh Hi. unfold sst_update_current. pose proof Hh as [_ Hm _ Hg].
  rewrite Hm, Hi, blen_metas_of by done. change (Z.of_nat (length pre)) with (blen pre).
  if_false. change (blen pre) with (Z.of_nat (length pre)). rewrite (read_block_ok _ _ _ _ Hh).
  apply Forall_app in Hg as [_ [Hrs _]%Forall_cons].
  rewrite (block_cursor_first_at rs) by (done || by destruct Hrs).
  eexists. split; [reflexivity|]. split; [|done]. split; [|done]. split; cbn; [done|done|].
  eexists. split; [reflexivity|]. done.
Qed.

Lemma cursor_next_ok c pre rs j post :
  cursor_pos c pre rs j post -> sc_end_bound c = Unbounded -> (j < length rs)%nat ->
  exists c', sst_cursor_next c = (c', Ok tt) /\ sc_end_bound c' = Unbounded /\
    ((S j < length rs)%nat -> cursor_at c' pre rs (S j) post) /\
    ((S j = length rs)%nat -> match post with
                              | [] => sst_cursor_current_record c' = None
                              | qs :: post => cursor_at c' (pre ++ [rs]) qs 0 post
                              end).
Proof.
  intros [Hh Hi (bc & Hbc & Hblk & Hidx)] Hend Hj. unfold sst_cursor_next. rewrite Hbc.
  pose proof Hh as [_ Hm _ Hg]. apply Forall_app in Hg as [Hpre [Hrs Hpost]%Forall_cons].
  rewrite (block_cursor_next_at rs j) by (done || by destruct Hrs). cbn [bc_record bc_with].
  destruct (rs !! S j) as [r|] eqn:Er.
  - eexists. split; [reflexivity|]. split; [done|]. split.
    + intros _. split; [|by rewrite Er]. split; cbn; [done|done|]. eexists. split; [reflexivity|]. done.
    + intros Heq. apply lookup_lt_Some in Er. lia.
  - apply lookup_ge_None in Er. unfold sst_next_block. cbn [sst_cursor_is_error sc_block_cursor sc_with].
    cbn [block_cursor_is_error bc_record bc_with].
    unfold next_block_may_be_in_bounds. cbn [sc_sst sc_with sc_block_idx sc_end_bound sc_block_cursor].
    rewrite Hm, Hi, Hend. replace (Z.of_nat (length pre) + 1) with (Z.of_nat (length (pre ++ [rs])))
      by (rewrite length_app; cbn; lia).
    rewrite get_opt_nat. replace (pre ++ rs :: post) with ((pre ++ [rs]) ++ post) in * by (by rewrite <- app_assoc).
    destruct post as [|qs post].
    + rewrite app_nil_r, lookup_ge_None_2.
      * cbn [negb]. eexists. split; [reflexivity|]. split; [done|]. split; [lia|done].
      * assert (Forall block_good (pre ++ [rs])) as Hgg by (by apply Forall_app_2, Forall_singleton).
        pose proof (blen_metas_of 0 _ Hgg). unfold blen in *. lia.
    + destruct (metas_of_lookup (pre ++ [rs]) qs post 0) as (f & l & -> & _ & _).
      * by apply Forall_app_2, Forall_singleton.
      * by apply Forall_inv in Hpost as [? ? ? ?].
      * cbn [negb].
        match goal with |- context [sst_update_current ?c1] =>
          destruct (sst_update_current_ok c1 (pre ++ [rs]) qs post Hh) as (c' & -> & Hat & He) end; [done|].
        eexists. split; [reflexivity|]. split; [by rewrite He|]. split; [lia|done].
Qed.

Lemma cursor_collect_ok c pre rs j post n :
  cursor_at c pre rs j post -> sc_end_bound c = Unbounded -> (j < length rs)%nat ->
  (length (drop j rs ++ concat post) < n)%nat ->
  sst_cursor_collect n c = Some (drop j rs ++ concat post).
Proof.
  revert c pre rs j post. induction n as [|n IH]; intros c pre rs j post Hat Hend Hj Hn; [lia|].
  destruct (lookup_lt_is_Some_2 rs j Hj) as [r Hr].
  destruct Hat as [Hat Hcur]. cbn [sst_cursor_collect]. rewrite Hcur, Hr.
  destruct (cursor_next_ok c pre rs j post Hat Hend Hj) as (c' & -> & Hend' & Hsame & Hcross).
  rewrite (drop_S rs r j Hr) in *. cbn [app] in *.
  destruct (decide (S j < length rs)%nat) as [Hlt|Hge].
  - rewrite (IH c' pre rs (S j) post); [done|by apply Hsame|done|done|cbn in Hn; lia].
  - assert (S j = length rs) as Heq by lia. specialize (Hcross Heq).
    rewrite (drop_ge rs (S j)) in * by lia. cbn [app length] in *.
    pose proof Hat as [Hh _ _]. pose proof Hh as [_ _ _ Hg]. apply Forall_app in Hg as [_ [_ Hpost]%Forall_cons].
    destruct post as [|qs post].
    + destruct n; [lia|]. cbn [sst_cursor_collect]. by rewrite Hcross.
    + apply Forall_inv in Hpost as [_ Hne _ _].
      rewrite (IH c' (pre ++ [rs]) qs 0%nat post); [done|done|done|destruct qs; [done|cbn; lia]|].
      rewrite drop_0. cbn in Hn. lia.
Qed.
End reader_facts.

(** ** Opening a file *)

Definition metas_segment `{Crc32} (ms : list BlockMetadata) : list byte :=
  be_bytes 4 (blen ms) ++ metas_wire ms ++ be_bytes 4 (crc32 (be_bytes 4 (blen ms) ++ metas_wire ms)).
Definition bloom_segment (f : BloomFilter) : list byte :=
  be_bytes 8 (bf_n_bits f) ++ be_bytes 8 (bf_n_hashes f) ++ be_bytes 4 (blen (bf_bitmap f)) ++ bf_bitmap f.

(** the documented layout of an SST file, with [checksum] in its footer *)
Definition sst_image `{Crc32} (bl : list (list LogRecord)) (f : BloomFilter) (checksum : Z) : list byte :=
  let metas := metas_segment (metas_of 0 bl) in
  let meta_start := blen (blocks_image bl) in
  blocks_image bl ++ metas ++ bloom_segment f ++
  be_bytes 4 meta_start ++ be_bytes 4 (meta_start + blen metas) ++ be_bytes 4 checksum.

Lemma blen_metas_segment `{Crc32} ms : blen (metas_segment ms) = 8 + 68 * blen ms.
Proof. unfold metas_segment. zlia. Qed.
Lemma blen_bloom_segment f : blen (bloom_segment f) = 20 + blen (bf_bitmap f).
Proof. unfold bloom_segment. zlia. Qed.
#[export] Hint Rewrite @blen_metas_segment blen_bloom_segment : blen.

Lemma read_at_middle fh (x y z : list byte) len off :
  sfh_content fh = x ++ y ++ z -> off = blen x -> len = blen y -> read_exact_at fh len off = Ok y.
Proof.
  intros Hc -> ->. unfold read_exact_at. rewrite Hc. if_true. by rewrite drop_app_blen, take_app_blen.
Qed.

Lemma metas_of_ok `{Crc32} base bl :
  Forall block_good bl -> 0 <= base -> base + blen (blocks_image bl) <= u32_max ->
  Forall meta_ok (metas_of base bl).
Proof.
  intros Hbl. revert base. induction Hbl as [|rs bl Hg _ IH]; intros base Hb Hle; [constructor|].
  destruct (metas_of_cons base rs bl (bg_nonempty _ Hg)) as (f & l & Hf & Hl & ->).
  unfold blocks_image in Hle. cbn [map concat] in Hle. fold (blocks_image bl) in Hle.
  rewrite blen_app in Hle. pose proof (blen_nonneg (block_image rs)). pose proof (blen_nonneg (blocks_image bl)).
  destruct Hg as [Hv _ _ _]. rewrite Forall_forall in Hv. constructor; [|apply IH; lia].
  split; cbn; [split; lia| |].
  - apply Hv. destruct rs; [done|]. injection Hf as ->. left.
  - apply Hv. by apply last_Some_elem_of.
Qed.

Section open_facts.
Context `{Crc32, NomLaws}.

Lemma open_layout (bl : list (list LogRecord)) (f : BloomFilter) (checksum id : Z) :
  Forall block_good bl -> in_u64 (bf_n_bits f) -> in_u64 (bf_n_hashes f) -> in_u32 checksum ->
  blen (sst_image bl f checksum) <= MAX_SST_SIZE ->
  open_file_handle {| sfh_id := id; sfh_content := sst_image bl f checksum |} =
  let computed := crc32 (metas_segment (metas_of 0 bl) ++ bloom_segment f) in
  if checksum =? computed
  then Ok {| sh_fh := {| sfh_id := id; sfh_content := sst_image bl f checksum |};
             sh_block_metadata := metas_of 0 bl;
             sh_block_metadata_start_offset := blen (blocks_image bl);
             sh_bloom := f |}
  else Err (SstChecksumMismatch {| cm_original := checksum; cm_computed := computed |}).
Proof.
  intros Hbl Hb Hh Hck Hmax. unfold open_file_handle.
  set (fh := {| sfh_id := id; sfh_content := sst_image bl f checksum |}).
  set (D := blocks_image bl) in *. set (M := metas_segment (metas_of 0 bl)) in *. set (B := bloom_segment f) in *.
  assert (sfh_content fh = D ++ M ++ B ++ be_bytes 4 (blen D) ++ be_bytes 4 (blen D + blen M) ++ be_bytes 4 checksum) as Hc
    by done.
  assert (blen (sfh_content fh) = blen D + blen M + blen B + 12) as Hsize by (rewrite Hc; zlia).
  assert (blen (sst_image bl f checksum) = blen D + blen M + blen B + 12) as Hsize' by exact Hsize.
  rewrite Hsize' in Hmax. rewrite Hsize.
  assert (MAX_SST_SIZE = 2147483647) as HM by done.
  pose proof (blen_nonneg D). pose proof (blen_nonneg M). pose proof (blen_nonneg B).
  assert (8 <= blen M) as HM8 by (subst M; rewrite blen_metas_segment; zlia).
  if_false. if_false.
  rewrite (read_at_middle fh (D ++ M ++ B) (be_bytes 4 (blen D) ++ be_bytes 4 (blen D + blen M) ++ be_bytes 4 checksum) []);
    [|rewrite Hc, app_nil_r, <- !app_assoc; done|zlia|zlia].
  cbn [map_err]. rewrite ok_bind. unfold array_at.
  rewrite (slice_prefix (be_bytes 4 (blen D))), ok_bind by zlia.
  rewrite (slice_app (be_bytes 4 (blen D)) (be_bytes 4 (blen D + blen M)) _ 4), ok_bind by zlia.
  rewrite (app_assoc (be_bytes 4 (blen D))), (slice_suffix (be_bytes 4 (blen D) ++ _) (be_bytes 4 checksum)), ok_bind by zlia.
  rewrite !be_val_u32 by (done || split; unfold u32_max; lia).
  if_false. if_false. if_false.
  rewrite (read_at_middle fh D M (B ++ be_bytes 4 (blen D) ++ be_bytes 4 (blen D + blen M) ++ be_bytes 4 checksum)
    (blen D + blen M - blen D) (blen D)); [|done|done|lia].
  cbn [map_err]. rewrite ok_bind.
  assert (decode_metas M = Ok (metas_of 0 bl)) as ->.
  { unfold M, metas_segment. rewrite <- (app_nil_r (be_bytes 4 (crc32 _))). apply decode_metas_ok.
    - apply metas_of_ok; [done|lia|]. fold D. unfold u32_max. lia.
    - subst M. rewrite blen_metas_segment in *. unfold u32_max. lia. }
  cbn [map_err]. rewrite ok_bind. if_false.
  rewrite (read_at_middle fh (D ++ M) B (be_bytes 4 (blen D) ++ be_bytes 4 (blen D + blen M) ++ be_bytes 4 checksum));
    [|by rewrite <- app_assoc|zlia|zlia].
  cbn [map_err]. rewrite ok_bind.
  assert (bloom_decode B = Ok (Some (f, blen B))) as ->.
  { pose proof (bloom_decode_gen f [] Hb Hh) as Hd. rewrite app_nil_r in Hd.
    assert (blen B = 20 + blen (bf_bitmap f)) as HB by (subst B; apply blen_bloom_segment).
    unfold B at 1, bloom_segment. rewrite Hd by zlia. do 3 f_equal. rewrite HB. unfold wire_len, bloom_wire_len. lia. }
  cbn [map_err]. rewrite ok_bind, slice_ok by zlia. rewrite ok_bind.
  rewrite Z.sub_0_r, drop_0. replace (take (Z.to_nat (blen B)) B) with B
    by (symmetry; apply take_ge; unfold blen; lia).
  cbv zeta. by destruct (checksum =? _).
Qed.
End open_facts.

(** ** From the writer to an open handle *)

Section writer_to_reader.
Context `{Crc32, Fnv, BloomSizing}.

(** a handle's cursor without bounds reads every block *)
Lemma handle_scan h bl :
  handle_ok h bl -> bl <> [] ->
  exists c, sst_cursor h None = Ok (Some c) /\
    sst_cursor_collect (S (length (concat bl))) c = Some (concat bl).
Proof.
  intros Hh Hne. destruct bl as [|b bl]; [done|]. unfold sst_cursor. cbn [default]. unfold sst_cursor_new.
  rewrite ok_bind. pose proof (read_block_ok h [] b bl Hh) as Hread. change (Z.of_nat (length [])) with 0 in Hread.
  rewrite Hread, ok_bind. cbn [cursor_position].
  pose proof (ho_good _ _ Hh) as [Hgb Hg]%Forall_cons. pose proof Hgb as [Hbv Hbne _ _].
  rewrite (block_cursor_first_at b) by done. eexists. split; [reflexivity|].
  rewrite (cursor_collect_ok _ [] b 0 bl); [by rewrite drop_0| |done| |].
  - split; [|done]. split; [done|done|]. eexists. split; [reflexivity|done].
  - destruct b; [done|cbn; lia].
  - rewrite drop_0. cbn. lia.
Qed.

Lemma flush_pending_ok limit bl pending s rs :
  limit_ok limit -> limit <= MAX_BLOCK_SIZE -> sst_inv limit bl pending s ->
  concat bl ++ pending = rs -> sst_bound rs < MAX_SST_SIZE ->
  exists s' bl', sst_flush_pending s = (s', Ok tt) /\ sst_inv limit bl' [] s' /\ concat bl' = rs.
Proof.
  intros Hlim Hmax Hs Heq Hsize. unfold sst_flush_pending. pose proof (si_pending _ _ _ _ Hs) as Hp.
  rewrite (bi_size _ _ _ Hp). destruct pending as [|q pending].
  - exists s, bl. rewrite app_nil_r in Heq. done.
  - pose proof (bi_valid _ _ _ Hp) as Hv. apply Forall_inv in Hv as Hq.
    pose proof (record_wire_len_range q Hq). rewrite records_data_cons. if_true.
    destruct (flush_blocks_ok _ bl (q :: pending) s Hlim Hmax Hs) as (s2 & Hf & Hs2); [done|by rewrite Heq|].
    exists s2, (bl ++ [q :: pending]). split_and!; [done|done|]. rewrite concat_app. cbn [concat].
    by rewrite app_nil_r.
Qed.

Lemma blen_blocks_image_ge bl : blen bl <= blen (blocks_image bl).
Proof.
  induction bl as [|b bl IH]; [done|]. unfold blocks_image. cbn [map concat]. fold (blocks_image bl).
  rewrite blen_app, blen_block_image. zlia.
Qed.

Lemma sst_metas_encode limit bl pending s :
  sst_inv limit bl pending s -> sst_bound (concat bl) < MAX_SST_SIZE ->
  encode_metas (sw_block_meta s) = Ok (metas_segment (metas_of 0 bl)).
Proof.
  intros Hs Hsize. rewrite (si_metas _ _ _ _ Hs). pose proof (si_size _ _ _ _ Hs).
  pose proof (blen_blocks_image_ge bl). change MAX_SST_SIZE with 2147483647 in Hsize.
  rewrite encode_metas_ok; [unfold metas_segment; by rewrite <- app_assoc|].
  rewrite blen_metas_of by apply (si_good _ _ _ _ Hs). unfold u32_max. lia.
Qed.

(** [finalize] panics once the block index is in the file *)
Lemma trailer_panics limit bl s :
  sst_inv limit bl [] s -> bl <> [] -> sst_bound (concat bl) < MAX_SST_SIZE ->
  exists s', sst_write_trailer s = (s', Panic) /\
    sfh_content (sw_writer s') = blocks_image bl ++ metas_segment (metas_of 0 bl) /\
    sw_block_meta s' = sw_block_meta s /\ sw_bloom s' = sw_bloom s.
Proof.
  intros Hs Hne Hsize. pose proof Hs as [Hc _ _ Hg _ _ _ _ _ Hf Hl _ _].
  assert (concat bl <> []) as Hcne.
  { destruct bl as [|b bl]; [done|]. apply Forall_inv in Hg as [_ Hb _ _]. destruct b; done. }
  destruct (head_last_some _ Hcne) as (f & l & Hhf & Hhl). rewrite Hhf in Hf. rewrite Hhl in Hl.
  unfold sst_write_trailer. rewrite Hf, Hl. cbn [fmap option_fmap option_map].
  rewrite (sst_metas_encode _ _ _ _ Hs Hsize), st_bind_unfold.
  unfold sw_emit at 1. cbn [w_write_all sst_file_write]. rewrite st_bind_unfold. unfold st_lift.
  pose proof (bloom_encode_result (sw_bloom s) (replicate (Z.to_nat (wire_len (sw_bloom s))) zero_byte)) as Hb.
  destruct (bloom_encode _ _) as [buf o]. cbn [snd] in Hb. subst o.
  rewrite blen_replicate. unfold wire_len, bloom_wire_len. pose proof (blen_nonneg (bf_bitmap (sw_bloom s))).
  if_false. eexists. split; [reflexivity|]. cbn. by rewrite Hc.
Qed.
End writer_to_reader.

(** ** Claims *)

(** The block index survives its encoding. [decode_metas] returns exactly
    the metadata [encode_metas] was given, and their checksum is verified. *)
Theorem block_metas_roundtrip `{Crc32} (ms : list BlockMetadata)
    (Hms : Forall meta_ok ms) (Hn : blen ms <= u32_max) :
  exists bs, encode_metas ms = Ok bs /\ blen bs = 8 + BLOCK_META_SIZE * blen ms /\ decode_metas bs = Ok ms.
Proof.
  eexists. split; [by apply encode_metas_ok|]. split; [zlia|].
  pose proof (decode_metas_ok ms [] Hms Hn) as Hd. rewrite app_nil_r in Hd. by rewrite <- app_assoc.
Qed.

(** C10: writing an SST and reading it back. With a block limit for which full
    blocks can be encoded and a total below the maximal size, writing any
    valid records succeeds (the recursion of [write] ends after one block
    flush). [finalize] then writes the pending block and the block index and
    panics in the bloom filter's [encode], so [finalize_file] never returns a
    handle; the file is left with the blocks and the index. That file,
    completed with the filter, the two offsets and a checksum as the layout
    of an SST says, is opened by [open_path] exactly when the checksum is that
    of the index and filter segments; the handle has the id of the file's
    name, a cursor without bounds reads exactly the records written, in order
    and across the blocks, and the bloom filter has every stream that occurs.
    With any other checksum opening is a checksum error. *)
Theorem sst_write_scan `{Crc32, Fnv, BloomSizing, NomLaws} (id : Z) (limit : option Z) (n : Z)
    (rs : list LogRecord) (s0 : SstWriter SstFileHandle) (Hid : in_u64 id)
    (Hnew : sst_file_writer_new id false limit n = Ok s0) (Hn : 1 <= n)
    (Hlim : limit_ok (default DEFAULT_BLOCK_SIZE limit))
    (Hrs : Forall record_valid rs) (Hne : rs <> []) (Hsize : sst_bound rs < MAX_SST_SIZE) :
  exists s1 s2 data metas, sst_write_all rs s0 = (s1, Ok tt) /\
    sst_finalize s1 = (s2, Panic) /\ finalize_file s1 = Panic /\
    sfh_content (sw_writer s2) = data ++ metas /\
    encode_metas (sw_block_meta s2) = Ok metas /\
    forall checksum fs,
      let bloom := bloom_segment (sw_bloom s2) in
      let image := data ++ metas ++ bloom ++
        be_bytes 4 (blen data) ++ be_bytes 4 (blen data + blen metas) ++ be_bytes 4 checksum in
      let computed := crc32 (metas ++ bloom) in
      in_u32 checksum -> blen image <= MAX_SST_SIZE -> fs (format_sst_filename id) = Some image ->
      if checksum =? computed
      then exists h c, open_path fs (format_sst_filename id) = Ok h /\ sst_handle_id h = id /\
             sst_cursor h None = Ok (Some c) /\ sst_cursor_collect (S (length rs)) c = Some rs /\
             Forall (fun r => may_contain_stream_id h (stream_id (rec_key r)) = Ok true) rs
      else open_path fs (format_sst_filename id)
           = Err (SstChecksumMismatch {| cm_original := checksum; cm_computed := computed |}).
Proof.
  unfold sst_file_writer_new, sst_file_create in Hnew. cbn [map_err] in Hnew. rewrite ok_bind in Hnew.
  destruct (sst_writer_new _ limit n) as [s|e|] eqn:E; [|done..]. injection Hnew as ->.
  destruct (sst_writer_new_inv {| sfh_id := id; sfh_content := [] |} limit n s0 eq_refl Hn E) as [Hs0 Hmax].
  destruct (sst_write_all_ok _ [] [] s0 rs Hlim Hmax Hs0 Hrs Hsize) as (s1 & bl & pending & Hw & Hs1 & Heq).
  cbn [app concat] in Heq.
  destruct (flush_pending_ok _ bl pending s1 rs Hlim Hmax Hs1 Heq Hsize) as (s' & bl2 & Hf & Hs2 & Hbl2).
  rewrite <- Hbl2 in Hsize. assert (bl2 <> []) as Hbne by (by intros ->).
  destruct (trailer_panics _ bl2 s' Hs2 Hbne Hsize) as (s2 & Ht & Hc & Hm & Hb).
  exists s1, s2, (blocks_image bl2), (metas_segment (metas_of 0 bl2)).
  assert (sst_finalize s1 = (s2, Panic)) as Hfin by (unfold sst_finalize; by rewrite st_bind_unfold, Hf).
  split_and!; [done|done|by unfold finalize_file; rewrite Hfin|done|rewrite Hm; by eapply sst_metas_encode|].
  intros checksum fs bloom image computed Hck Himg Hfs.
  unfold open_path. rewrite (sst_filename_roundtrip id image fs Hid Hfs). cbn [map_err]. rewrite ok_bind.
  destruct Hs2 as [_ _ _ Hg _ _ _ _ Ha _ _ _ [Hd1 Hd2]].
  change image with (sst_image bl2 (sw_bloom s2) checksum).
  rewrite (open_layout bl2 (sw_bloom s2) checksum id Hg) by (done || by rewrite Hb).
  cbv zeta. change (crc32 (metas_segment (metas_of 0 bl2) ++ bloom_segment (sw_bloom s2))) with computed.
  destruct (checksum =? computed); [|done].
  set (h := {| sh_fh := _ |}). exists h.
  destruct (handle_scan h bl2) as (c & Hcur & Hcol); [split; cbn; [by eexists|done..]|done|].
  exists c. rewrite Hbl2 in Hcol. rewrite app_nil_r, Hbl2 in Ha. rewrite <- Hb in Ha. by split_and!.
Qed.

(** Opening a file with the documented layout (blocks, block index, bloom
    filter, the two offsets, checksum). It succeeds, with the block index and
    the filter as written and the blocks readable, exactly when the footer's
    checksum is that of the index and filter segments; otherwise it is a
    checksum error. [finalize] computes its checksum over the blocks and the
    offsets as well, so the two agree only by coincidence. *)
Theorem sst_open_layout `{Crc32, NomLaws} (bl : list (list LogRecord)) (f : BloomFilter) (checksum id : Z)
    (Hbl : Forall block_good bl) (Hb : in_u64 (bf_n_bits f)) (Hh : in_u64 (bf_n_hashes f))
    (Hck : in_u32 checksum) (Hsize : blen (sst_image bl f checksum) <= MAX_SST_SIZE) :
  let computed := crc32 (metas_segment (metas_of 0 bl) ++ bloom_segment f) in
  let fh := {| sfh_id := id; sfh_content := sst_image bl f checksum |} in
  if checksum =? computed
  then exists h, open_file_handle fh = Ok h /\ handle_ok h bl /\ sh_bloom h = f /\ sst_handle_id h = id
  else open_file_handle fh
       = Err (SstChecksumMismatch {| cm_original := checksum; cm_computed := computed |}).
Proof.
  cbv zeta. rewrite (open_layout bl f checksum id Hbl Hb Hh Hck Hsize). cbv zeta.
  destruct (checksum =? _); [|done]. eexists. split; [reflexivity|]. split_and!; [|done|done].
  split; cbn; [by eexists|done|done|done].
Qed.

(** ** Witnesses *)

Definition sample_meta : BlockMetadata :=
  {| bm_offset := 7; bm_first_key := rec_key (sample_record 5); bm_last_key := rec_key (sample_record 9) |}.

Lemma block_metas_roundtrip_witness :
  exists bs, @encode_metas sum_crc32 [sample_meta; sample_meta] = Ok bs /\ blen bs = 144 /\
    @decode_metas sum_crc32 bs = Ok [sample_meta; sample_meta].
Proof.
  apply (@block_metas_roundtrip sum_crc32 [sample_meta; sample_meta]).
  - repeat constructor; done.
  - by vm_compute.
Defined.

(** a limit of 60 bytes, so that every record gets a block of its own *)
Definition sample_sst_writer : SstWriter SstFileHandle :=
  match @sst_file_writer_new ref_sizing 3 false (Some 60) 3 with
  | Ok s => s
  | _ => {| sw_writer := {| sfh_id := 0; sfh_content := [] |}; sw_block_bytes_written := 0;
            sw_block_writer := writer_of 0 []; sw_block_limit := 0; sw_block_meta := []; sw_record_count := 0;
            sw_first_key := None; sw_last_key := None; sw_bloom := sample_bloom; sw_hasher := [] |}
  end.

Lemma sst_write_scan_witness :
  exists s1 s2 data metas,
    @sst_write_all _ _ sum_crc32 sum_fnv sample_block sample_sst_writer = (s1, Ok tt) /\
    @sst_finalize _ _ sum_crc32 s1 = (s2, Panic) /\ sfh_content (sw_writer s2) = data ++ metas /\
    let bloom := bloom_segment (sw_bloom s2) in
    let image := data ++ metas ++ bloom ++
      be_bytes 4 (blen data) ++ be_bytes 4 (blen data + blen metas) ++ be_bytes 4 (@crc32 sum_crc32 (metas ++ bloom)) in
    exists h c, @open_path sum_crc32 ref_nom (fun _ => Some image) (format_sst_filename 3) = Ok h /\
      @sst_cursor sum_crc32 sum_fnv h None = Ok (Some c) /\
      @sst_cursor_collect sum_crc32 4 c = Some sample_block.
Proof.
  destruct (@sst_write_scan sum_crc32 sum_fnv ref_sizing ref_nom ref_nom_laws 3 (Some 60) 3 sample_block
    sample_sst_writer) as (s1 & s2 & data & metas & Hw & Hf & _ & Hc & Hm & Hopen).
  - by split.
  - reflexivity.
  - lia.
  - by vm_compute.
  - exact sample_block_valid.
  - discriminate.
  - by vm_compute.
  - exists s1, s2, data, metas. split_and!; [exact Hw|exact Hf|exact Hc|]. intros bloom image.
    specialize (Hopen (@crc32 sum_crc32 (metas ++ bloom)) (fun _ => Some image)). cbv zeta in Hopen.
    fold bloom in Hopen. rewrite Z.eqb_refl in Hopen.
    destruct Hopen as (h & c & Ho & _ & Hcur & Hcol & _).
    + apply crc32_range.
    + vm_compute in Hw. injection Hw as <-. vm_compute in Hf. injection Hf as <-.
      apply (f_equal blen) in Hc. rewrite blen_app in Hc.
      match type of Hc with ?n = _ => let m := eval vm_compute in n in change (m = blen data + blen metas) in Hc end.
      assert (blen bloom = 24) as Hb by reflexivity. change MAX_SST_SIZE with 2147483647.
      rewrite !blen_app, Hb, !blen_be_bytes. lia.
    + unfold image. reflexivity.
    + exists h, c. split; [exact Ho|]. split; [exact Hcur|exact Hcol].
Defined.

Lemma sample_block_good : block_good sample_block.
Proof. split; [exact sample_block_valid|done|by vm_compute|by vm_compute]. Qed.

Lemma sst_open_layout_witness :
  let checksum := @crc32 sum_crc32 (@metas_segment sum_crc32 (@metas_of sum_crc32 0 [sample_block]) ++ bloom_segment sample_bloom) in
  exists h, @open_file_handle sum_crc32 ref_nom
      {| sfh_id := 5; sfh_content := @sst_image sum_crc32 [sample_block] sample_bloom checksum |} = Ok h /\
    @handle_ok sum_crc32 h [sample_block] /\ sh_bloom h = sample_bloom /\ sst_handle_id h = 5.
Proof.
  intros checksum.
  pose proof (@sst_open_layout sum_crc32 ref_nom ref_nom_laws [sample_block] sample_bloom checksum 5) as Hs.
  cbv zeta in Hs. fold checksum in Hs. rewrite Z.eqb_refl in Hs. apply Hs.
  - apply Forall_singleton. exact sample_block_good.
  - by split.
  - by split.
  - apply crc32_range.
  - by vm_compute.
Defined.
