(* ===== verification/MergeIter.v ===== *)
(** * Merging memtables and SSTs: logregator-tsdb/src/merge_iter.rs

    A k-way merge over the ranges of the memtables and the cursors of the
    SSTs, with a binary heap. The heap is an interface ([MinHeap]): nothing
    is assumed about the order in which equal keys leave it. *)
From S2P Require Import Prelude Std Ext Codec Errors Record Memtable Block Bloom Sst SstFacts.

Inductive Source :=
| SrcMemtable (idx : nat)
| SrcSst (idx : nat).
#[global] Instance Source_eq_dec : EqDecision Source.
Proof. solve_decision. Defined.

Record HeapItem := { hi_inner : LogRecord; hi_source : Source }.
(** [Ord for HeapItem] compares the records, that is their keys. *)
#[global] Instance heap_item_cmp : Cmp HeapItem := fun a b => cmp (hi_inner a) (hi_inner b).
#[global] Instance heap_item_total_cmp : TotalCmp HeapItem.
Proof.
  split; unfold cmp, heap_item_cmp; intros.
  - apply cmp_refl.
  - apply cmp_flip.
  - by apply cmp_trans with (hi_inner y).
  - by apply cmp_eq_compat.
Qed.

Record MergeIter (H : Type) := {
  mi_memtables : list (list LogRecord);
  mi_cursors : list SstCursor;
  mi_minheap : H
}.
Arguments mi_memtables {H} m.
Arguments mi_cursors {H} m.
Arguments mi_minheap {H} m.

Section merge_iter.
Context {H : Type} `{!MinHeap HeapItem H, Crc32, Fnv}.

Definition fill_from_single (source : Source) : st (MergeIter H) SstError unit := fun m =>
  match source with
  | SrcMemtable idx =>
      match mi_memtables m !! idx with
      | None => (m, Panic)
      | Some [] => (m, Ok tt)
      | Some (rec :: rest) =>
          ({| mi_memtables := <[idx := rest]> (mi_memtables m); mi_cursors := mi_cursors m;
              mi_minheap := heap_push {| hi_inner := rec; hi_source := source |} (mi_minheap m) |}, Ok tt)
      end
  | SrcSst idx =>
      match mi_cursors m !! idx with
      | None => (m, Panic)
      | Some c =>
          match sst_cursor_next c with
          | (c, Ok _) =>
              let '(c, r) := sst_cursor_take_current c in
              ({| mi_memtables := mi_memtables m; mi_cursors := <[idx := c]> (mi_cursors m);
                  mi_minheap := match r with
                                | Some rec => heap_push {| hi_inner := rec; hi_source := source |} (mi_minheap m)
                                | None => mi_minheap m
                                end |}, Ok tt)
          | (c, o) =>
              ({| mi_memtables := mi_memtables m; mi_cursors := <[idx := c]> (mi_cursors m);
                  mi_minheap := mi_minheap m |}, o)
          end
      end
  end.

Fixpoint fill_from (sources : list Source) : st (MergeIter H) SstError unit :=
  match sources with
  | [] => mret tt
  | s :: ss => _ ← fill_from_single s; fill_from ss
  end.

Definition fill_from_all : st (MergeIter H) SstError unit := fun m =>
  fill_from (map SrcMemtable (seq 0 (length (mi_memtables m)))
             ++ map SrcSst (seq 0 (length (mi_cursors m)))) m.

(** the loop over the SST handles *)
Fixpoint open_cursors (handles : list SstHandle) (start end_ : bound Key) : outcome SstError (list SstCursor) :=
  match handles with
  | [] => Ok []
  | h :: hs =>
      contained ← match start with
                  | Included k | Excluded k => may_contain_stream_id h (stream_id k)
                  | Unbounded => Ok true
                  end;
      if negb contained then open_cursors hs start end_
      else
        co ← sst_cursor h (Some (start, end_));
        cs ← open_cursors hs start end_;
        Ok (match co with Some c => c :: cs | None => cs end)
  end.

Fixpoint ranges (ms : list MemtableInner) (start end_ : bound Key) : outcome SstError (list (list LogRecord)) :=
  match ms with
  | [] => Ok []
  | m :: ms => r ← memtable_range start end_ m; rs ← ranges ms start end_; Ok (r :: rs)
  end.

Definition merge_iter_new (active : MemtableInner) (frozen : list MemtableInner) (handles : list SstHandle)
    (start end_ : bound Key) : outcome SstError (MergeIter H) :=
  cursors ← open_cursors handles start end_;
  memtables ← ranges (active :: frozen) start end_;
  match fill_from_all {| mi_memtables := memtables; mi_cursors := cursors; mi_minheap := heap_new |} with
  | (m, Ok _) => Ok m
  | (_, Err e) => Err e
  | (_, Panic) => Panic
  end.

Definition merge_iter_next : st (MergeIter H) SstError (option LogRecord) := fun m =>
  match heap_pop (mi_minheap m) with
  | None => (m, Ok None)
  | Some (item, heap) =>
      match fill_from_single (hi_source item)
              {| mi_memtables := mi_memtables m; mi_cursors := mi_cursors m; mi_minheap := heap |} with
      | (m, Ok _) => (m, Ok (Some (hi_inner item)))
      | (m, Err e) => (m, Err e)
      | (m, Panic) => (m, Panic)
      end
  end.

(** the records the iterator yields until it is exhausted *)
Fixpoint merge_iter_collect (fuel : nat) (m : MergeIter H) : option (list LogRecord) :=
  match fuel with
  | O => None
  | S fuel =>
      match merge_iter_next m with
      | (_, Ok None) => Some []
      | (m, Ok (Some r)) => cons r <$> merge_iter_collect fuel m
      | _ => None
      end
  end.
End merge_iter.

(** ** What a cursor yields to the iterator

    [drains c l]: asked again and again, by [next] and then [take_current],
    the cursor hands out the records [l] and then nothing. *)
Inductive drains `{Crc32} : SstCursor -> list LogRecord -> Prop :=
| drains_end c c1 c2 :
    sst_cursor_next c = (c1, Ok tt) -> sst_cursor_take_current c1 = (c2, None) -> drains c []
| drains_more c c1 c2 r l :
    sst_cursor_next c = (c1, Ok tt) -> sst_cursor_take_current c1 = (c2, Some r) -> drains c2 l ->
    drains c (r :: l).

(** ** The merge *)

Definition key_le (a b : LogRecord) : Prop := cmp (rec_key a) (rec_key b) <> Gt.
Definition key_sorted : list LogRecord -> Prop := StronglySorted key_le.

Section merge_proofs.
Context {H : Type} `{!MinHeap HeapItem H, !MinHeapLaws HeapItem H, Crc32, Fnv}.

(** the records of a source that have not reached the heap; [ls] says what
    the cursors still yield *)
Definition remaining (m : MergeIter H) (ls : list (list LogRecord)) (s : Source) : option (list LogRecord) :=
  match s with
  | SrcMemtable i => mi_memtables m !! i
  | SrcSst i => ls !! i
  end.

Definition pending (m : MergeIter H) (ls : list (list LogRecord)) : list LogRecord :=
  map hi_inner (heap_elems (mi_minheap m)) ++ concat (mi_memtables m) ++ concat ls.

Definition sources_of (m : MergeIter H) : list Source := map hi_source (heap_elems (mi_minheap m)).

(** Every source in [filled] has its next record, if any, covered by an
    element of the heap; a cursor that has said it is exhausted is never
    asked again. *)
Record merge_inv (filled : Source -> Prop) (m : MergeIter H) (ls : list (list LogRecord)) : Prop := {
  mv_len : length (mi_cursors m) = length ls;
  mv_drains : forall i c l, mi_cursors m !! i = Some c -> ls !! i = Some l ->
    drains c l \/ (l = [] /\ filled (SrcSst i) /\ SrcSst i ∉ sources_of m);
  mv_sorted : forall s l, remaining m ls s = Some l -> key_sorted l;
  mv_nodup : NoDup (sources_of m);
  mv_filled : forall s, s ∈ sources_of m -> filled s /\ is_Some (remaining m ls s);
  mv_cover : forall s r t, filled s -> remaining m ls s = Some (r :: t) ->
    exists y, y ∈ heap_elems (mi_minheap m) /\ hi_source y = s /\ key_le (hi_inner y) r
}.

Lemma merge_inv_iff f g m ls : (forall s, f s <-> g s) -> merge_inv f m ls -> merge_inv g m ls.
Proof.
  intros Hfg [Hlen Hd Hs Hn Hf Hc]. split; try done.
  - intros i c l Hic Hil. rewrite <- Hfg. by apply (Hd i c l).
  - intros s. rewrite <- Hfg. apply Hf.
  - intros s r t. rewrite <- Hfg. apply Hc.
Qed.

Definition alive (m : MergeIter H) (ls : list (list LogRecord)) (s : Source) : Prop :=
  match s with
  | SrcMemtable i => is_Some (mi_memtables m !! i)
  | SrcSst i => exists c l, mi_cursors m !! i = Some c /\ ls !! i = Some l /\ drains c l
  end.

(** pushing the first remaining record of [s] *)
Lemma merge_inv_push filled m ls s r t m' ls' :
  merge_inv filled m ls -> ~ filled s -> remaining m ls s = Some (r :: t) ->
  mi_minheap m' = heap_push {| hi_inner := r; hi_source := s |} (mi_minheap m) ->
  (forall s', remaining m' ls' s' = if decide (s' = s) then Some t else remaining m ls s') ->
  length (mi_cursors m') = length ls' ->
  (forall i c l, mi_cursors m' !! i = Some c -> ls' !! i = Some l ->
     (SrcSst i = s /\ drains c l) \/
     (SrcSst i <> s /\ mi_cursors m !! i = Some c /\ ls !! i = Some l)) ->
  merge_inv (fun s' => filled s' \/ s' = s) m' ls'.
Proof.
  intros [Hlen Hd Hs Hn Hf Hc] Hns Hrem Hheap Hrem' Hlen' Hcur.
  pose proof (heap_push_elems {| hi_inner := r; hi_source := s |} (mi_minheap m)) as Hp.
  assert (sources_of m' ≡ₚ s :: sources_of m) as Hsrc by (unfold sources_of; by rewrite Hheap, Hp).
  assert (s ∉ sources_of m) as Hni by (intros Hin; by apply Hf in Hin as [? _]).
  assert (key_sorted (r :: t)) as Hrt by (by apply (Hs s)). apply StronglySorted_inv in Hrt as [Ht Hrt].
  split.
  - done.
  - intros i c l Hic Hil. destruct (Hcur i c l Hic Hil) as [[<- Hdr]|(Hne & Hic' & Hil')]; [by left|].
    destruct (Hd i c l Hic' Hil') as [?|(-> & Hfi & Hnin)]; [by left|right].
    split_and!; [done|by left|]. rewrite Hsrc, not_elem_of_cons. done.
  - intros s' l. rewrite Hrem'. case_decide; [by intros [= <-]|apply Hs].
  - rewrite Hsrc. by constructor.
  - intros s'. rewrite Hsrc, elem_of_cons, Hrem'. case_decide as Hdec; [by eauto|].
    intros [->|Hin]; [done|]. apply Hf in Hin as [? ?]. auto.
  - intros s' q u Hfill. rewrite Hrem'. case_decide as Hdec.
    + intros [= ->]. exists {| hi_inner := r; hi_source := s |}. rewrite Hheap, Hp. cbn.
      split_and!; [left|done|]. by apply Forall_inv in Hrt.
    + intros Hq. destruct Hfill as [Hfill|?]; [|done]. destruct (Hc s' q u Hfill Hq) as (y & Hy & Hys & Hle).
      exists y. rewrite Hheap, Hp. split_and!; [by right|done|done].
Qed.

(** a source with nothing left *)
Lemma merge_inv_exhausted filled m ls s m' :
  merge_inv filled m ls -> ~ filled s -> remaining m ls s = Some [] ->
  mi_minheap m' = mi_minheap m -> mi_memtables m' = mi_memtables m ->
  length (mi_cursors m') = length ls ->
  (forall i c, mi_cursors m' !! i = Some c -> SrcSst i = s \/ mi_cursors m !! i = Some c) ->
  merge_inv (fun s' => filled s' \/ s' = s) m' ls.
Proof.
  intros [Hlen Hd Hs Hn Hf Hc] Hns Hrem Hheap Hmem Hlen' Hcur.
  assert (sources_of m' = sources_of m) as Hsrc by (unfold sources_of; by rewrite Hheap).
  assert (forall s', remaining m' ls s' = remaining m ls s') as Hrem' by (intros [|]; cbn; by rewrite ?Hmem).
  assert (s ∉ sources_of m) as Hni by (intros Hin; by apply Hf in Hin as [? _]).
  split.
  - done.
  - intros i c l Hic Hil. destruct (Hcur i c Hic) as [Heq|Hic'].
    + right. rewrite Heq, Hsrc. subst s. cbn in Hrem. split_and!; [congruence|by right|done].
    + destruct (Hd i c l Hic' Hil) as [?|(-> & Hfi & Hnin)]; [by left|right]. rewrite Hsrc. auto.
  - intros s' l. rewrite Hrem'. apply Hs.
  - by rewrite Hsrc.
  - intros s'. rewrite Hsrc, Hrem'. intros Hin. apply Hf in Hin as [? ?]. auto.
  - intros s' r t Hfill. rewrite Hrem', Hheap. destruct (decide (s' = s)) as [->|Hne]; [congruence|].
    destruct Hfill; [by apply Hc|done].
Qed.

Lemma fill_ok filled m ls s :
  merge_inv filled m ls -> ~ filled s -> alive m ls s ->
  exists m' ls', fill_from_single s m = (m', Ok tt) /\
    merge_inv (fun s' => filled s' \/ s' = s) m' ls' /\ pending m' ls' ≡ₚ pending m ls /\
    length (mi_memtables m') = length (mi_memtables m) /\ length ls' = length ls.
Proof.
  intros Hinv Hns Hal. pose proof (mv_len _ _ _ Hinv) as Hlen. destruct s as [i|i]; cbn [alive] in Hal.
  - destruct Hal as [l Hl]. unfold fill_from_single. rewrite Hl. destruct l as [|r t].
    + exists m, ls. split_and!; try done. apply (merge_inv_exhausted filled m ls (SrcMemtable i) m); auto.
    + eexists _, ls. split; [reflexivity|]. split_and!; [| |cbn; by rewrite length_insert|done].
      * eapply (merge_inv_push filled m ls (SrcMemtable i) r t); cbn; try done.
        -- intros [j|j]; cbn; [|done]. destruct (decide (j = i)) as [->|Hne].
           ++ rewrite list_lookup_insert_eq by (by eapply lookup_lt_Some). by rewrite decide_True.
           ++ rewrite list_lookup_insert_ne by done. rewrite decide_False by congruence. done.
        -- intros j c l Hc Hj. right. done.
      * unfold pending. cbn. rewrite (Permutation_map hi_inner (heap_push_elems _ _)). cbn.
        rewrite (concat_insert_perm _ _ _ _ Hl). apply Permutation_middle.
  - destruct Hal as (c & l & Hc & Hl & Hdr). unfold fill_from_single. rewrite Hc.
    destruct Hdr as [c c1 c2 Hnext Htake|c c1 c2 r t Hnext Htake Hdr]; rewrite Hnext, Htake.
    + eexists _, ls. split; [reflexivity|]. split_and!; try done.
      apply (merge_inv_exhausted filled m ls (SrcSst i)); cbn; try done; [by rewrite length_insert|].
      intros j c' Hj. destruct (decide (j = i)) as [->|Hne]; [by left|right]. by rewrite list_lookup_insert_ne in Hj.
    + eexists _, (<[i := t]> ls). split; [reflexivity|]. split_and!; [| |done|by rewrite length_insert].
      * eapply (merge_inv_push filled m ls (SrcSst i) r t); cbn; try done; [|by rewrite !length_insert|].
        -- intros [j|j]; cbn; [done|]. destruct (decide (j = i)) as [->|Hne].
           ++ rewrite list_lookup_insert_eq by (by eapply lookup_lt_Some). by rewrite decide_True.
           ++ rewrite list_lookup_insert_ne by done. rewrite decide_False by congruence. done.
        -- intros j c' l' Hj Hj'. destruct (decide (j = i)) as [->|Hne].
           ++ rewrite list_lookup_insert_eq in Hj by (by eapply lookup_lt_Some).
              rewrite list_lookup_insert_eq in Hj' by (by eapply lookup_lt_Some). left. by simplify_eq.
           ++ rewrite list_lookup_insert_ne in Hj by done. rewrite list_lookup_insert_ne in Hj' by done.
              right. split; [congruence|done].
      * unfold pending. cbn. rewrite (Permutation_map hi_inner (heap_push_elems _ _)). cbn.
        rewrite (concat_insert_perm _ _ _ _ Hl). rewrite !app_assoc. apply Permutation_middle.
Qed.

Lemma merge_inv_all f m ls :
  (forall s, is_Some (remaining m ls s) -> f s) -> merge_inv f m ls -> merge_inv (fun _ => True) m ls.
Proof.
  intros Hall [Hlen Hd Hs Hn Hf Hc]. split; try done.
  - intros i c l Hic Hil. destruct (Hd i c l Hic Hil) as [?|(? & ? & ?)]; auto.
  - intros s Hin. split; [done|]. by apply Hf.
  - intros s r t _ Hr. apply Hc with t; [|done]. apply Hall. by eexists.
Qed.

Lemma alive_unfilled filled m ls s :
  merge_inv filled m ls -> ~ filled s -> is_Some (remaining m ls s) -> alive m ls s.
Proof.
  intros [Hlen Hd _ _ _ _] Hns [l Hl]. destruct s as [i|i]; cbn in *; [by eexists|].
  destruct (lookup_lt_is_Some_2 (mi_cursors m) i) as [c Hc]; [apply lookup_lt_Some in Hl; lia|].
  exists c, l. split_and!; [done|done|]. by destruct (Hd i c l Hc Hl) as [?|(_ & ? & _)].
Qed.

Lemma remaining_is_Some m ls s :
  is_Some (remaining m ls s) <->
  match s with SrcMemtable i => (i < length (mi_memtables m))%nat | SrcSst i => (i < length ls)%nat end.
Proof. destruct s; cbn; apply lookup_lt_is_Some. Qed.

Lemma fill_from_ok ss filled m ls :
  merge_inv filled m ls -> NoDup ss -> (forall s, s ∈ ss -> ~ filled s /\ is_Some (remaining m ls s)) ->
  exists m' ls', fill_from ss m = (m', Ok tt) /\
    merge_inv (fun s => filled s \/ s ∈ ss) m' ls' /\ pending m' ls' ≡ₚ pending m ls /\
    length (mi_memtables m') = length (mi_memtables m) /\ length ls' = length ls.
Proof.
  revert filled m ls. induction ss as [|s ss IH]; intros filled m ls Hinv Hnd Hss; cbn [fill_from].
  - exists m, ls. split_and!; try done. eapply merge_inv_iff; [|exact Hinv].
    intros s. split; [by left|]. by intros [?|?%not_elem_of_nil].
  - apply NoDup_cons in Hnd as [Hs Hnd]. destruct (Hss s) as [Hns Hsome]; [left|]. rewrite st_bind_unfold.
    destruct (fill_ok filled m ls s Hinv Hns) as (m1 & ls1 & -> & Hinv1 & Hp1 & Hm1 & Hl1);
      [by eapply alive_unfilled|].
    destruct (IH _ m1 ls1 Hinv1 Hnd) as (m2 & ls2 & -> & Hinv2 & Hp2 & Hm2 & Hl2).
    { intros s' Hs'. destruct (Hss s') as [Hns' Hsome']; [by right|]. split.
      - intros [?| ->]; done.
      - rewrite remaining_is_Some in *. by rewrite Hm1, Hl1. }
    exists m2, ls2. split_and!; [done| |by rewrite Hp2|lia|lia].
    eapply merge_inv_iff; [|exact Hinv2]. intros s'. cbn. rewrite elem_of_cons. tauto.
Qed.

Lemma fill_from_all_ok m ls :
  merge_inv (fun _ => False) m ls ->
  exists m' ls', fill_from_all m = (m', Ok tt) /\ merge_inv (fun _ => True) m' ls' /\
    pending m' ls' ≡ₚ pending m ls.
Proof.
  intros Hinv. pose proof (mv_len _ _ _ Hinv) as Hlen. unfold fill_from_all. rewrite Hlen.
  set (ss := map SrcMemtable (seq 0 (length (mi_memtables m))) ++ map SrcSst (seq 0 (length ls))).
  assert (forall s, s ∈ ss <-> is_Some (remaining m ls s)) as Hss.
  { intros s. rewrite remaining_is_Some. unfold ss. rewrite elem_of_app, !list_elem_of_fmap.
    setoid_rewrite elem_of_seq. destruct s as [i|i]; split.
    - intros [(j & [= ->] & ?)|(j & [=] & ?)]. lia.
    - intros Hi. left. exists i. split; [done|lia].
    - intros [(j & [=] & ?)|(j & [= ->] & ?)]. lia.
    - intros Hi. right. exists i. split; [done|lia]. }
  assert (NoDup ss) as Hnd.
  { apply NoDup_app. split_and!.
    - apply NoDup_fmap_2; [by intros ?? [=]|apply NoDup_seq].
    - intros s (j & -> & _)%list_elem_of_fmap (k & [=] & _)%list_elem_of_fmap.
    - apply NoDup_fmap_2; [by intros ?? [=]|apply NoDup_seq]. }
  destruct (fill_from_ok ss _ m ls Hinv Hnd) as (m' & ls' & Hf & Hinv' & Hp & Hm & Hl).
  { intros s Hs. split; [by intros []|by apply Hss]. }
  exists m', ls'. split_and!; [done| |done]. eapply merge_inv_all; [|exact Hinv'].
  intros s Hs. right. apply Hss. rewrite remaining_is_Some in *. by rewrite Hm, Hl in Hs.
Qed.

Lemma concat_all_nil {A} (L : list (list A)) : (forall i l, L !! i = Some l -> l = []) -> concat L = [].
Proof.
  induction L as [|l L IH]; intros Hall; cbn; [done|]. rewrite (Hall 0%nat l eq_refl). cbn.
  apply IH. intros i l' Hi. by apply (Hall (S i)).
Qed.

Lemma elem_of_concat {A} (L : list (list A)) x : x ∈ concat L -> exists i l, L !! i = Some l /\ x ∈ l.
Proof.
  induction L as [|l L IH]; cbn; [by intros ?%not_elem_of_nil|]. rewrite elem_of_app. intros [Hx|Hx].
  - exists 0%nat, l. done.
  - destruct (IH Hx) as (i & l' & Hi & Hx'). by exists (S i), l'.
Qed.

Lemma key_le_trans a b c : key_le a b -> key_le b c -> key_le a c.
Proof. unfold key_le. apply cmp_le_trans. Qed.

(** the popped record is smallest among everything still to come *)
Lemma popped_least m ls x h' r :
  merge_inv (fun _ => True) m ls -> heap_pop (mi_minheap m) = Some (x, h') -> r ∈ pending m ls ->
  key_le (hi_inner x) r.
Proof.
  intros [Hlen Hd Hs Hn Hf Hc] Hpop. unfold pending. rewrite !elem_of_app.
  assert (forall s l, remaining m ls s = Some l -> r ∈ l -> key_le (hi_inner x) r) as Hrem.
  { intros s l Hl Hr. destruct l as [|q t]; [by apply not_elem_of_nil in Hr|].
    destruct (Hc s q t I Hl) as (y & Hy & _ & Hyq). pose proof (heap_pop_min _ _ _ _ Hpop Hy) as Hxy.
    apply key_le_trans with (hi_inner y); [exact Hxy|]. apply key_le_trans with q; [done|].
    specialize (Hs s _ Hl). apply StronglySorted_inv in Hs as [_ Hq].
    apply elem_of_cons in Hr as [->|Hr]; [unfold key_le; by rewrite cmp_refl|].
    rewrite Forall_forall in Hq. by apply Hq. }
  intros [Hr|[Hr|Hr]].
  - apply list_elem_of_fmap in Hr as (y & -> & Hy). exact (heap_pop_min _ _ _ _ Hpop Hy).
  - apply elem_of_concat in Hr as (i & l & Hi & Hr). by apply (Hrem (SrcMemtable i) l).
  - apply elem_of_concat in Hr as (i & l & Hi & Hr). by apply (Hrem (SrcSst i) l).
Qed.

Lemma merge_next_ok m ls :
  merge_inv (fun _ => True) m ls ->
  (merge_iter_next m = (m, Ok None) /\ pending m ls = []) \/
  exists r m' ls', merge_iter_next m = (m', Ok (Some r)) /\ merge_inv (fun _ => True) m' ls' /\
    pending m ls ≡ₚ r :: pending m' ls' /\ forall q, q ∈ pending m ls -> key_le r q.
Proof.
  intros Hinv. unfold merge_iter_next. destruct (heap_pop (mi_minheap m)) as [[x h']|] eqn:Hpop.
  - right. pose proof (popped_least m ls x h') as Hleast.
    pose proof (heap_pop_elems _ _ _ Hpop) as Hp. pose proof Hinv as [Hlen Hd Hs Hn Hf Hc].
    set (m1 := {| mi_memtables := mi_memtables m; mi_cursors := mi_cursors m; mi_minheap := h' |}).
    assert (sources_of m ≡ₚ hi_source x :: sources_of m1) as Hsrc
      by (unfold sources_of; cbn; by rewrite Hp).
    rewrite Hsrc in Hn. apply NoDup_cons in Hn as [Hnx Hn].
    assert (forall s, remaining m1 ls s = remaining m ls s) as Hrem by (by intros []).
    destruct (Hf (hi_source x)) as [_ Hxsome]; [rewrite Hsrc; left|].
    assert (merge_inv (fun s => s <> hi_source x) m1 ls) as Hinv1.
    { split; try done.
      - intros i c l Hic Hil. destruct (Hd i c l Hic Hil) as [?|(-> & _ & Hni)]; [by left|right].
        rewrite Hsrc in Hni. apply not_elem_of_cons in Hni as [Hne Hni]. done.
      - intros s Hs'. rewrite Hrem. split; [by intros ->|]. apply Hf. rewrite Hsrc. by right.
      - intros s r t Hne. rewrite Hrem. intros Hr. destruct (Hc s r t I Hr) as (y & Hy & Hys & Hle).
        exists y. split_and!; [|done|done]. rewrite Hp in Hy.
        apply elem_of_cons in Hy as [->|Hy]; [congruence|done]. }
    destruct (fill_ok _ m1 ls (hi_source x) Hinv1) as (m2 & ls2 & -> & Hinv2 & Hp2 & _ & _).
    + intros Hne. by apply Hne.
    + destruct (hi_source x) as [i|i] eqn:Ex; cbn in *; [done|]. destruct Hxsome as [l Hl].
      destruct (lookup_lt_is_Some_2 (mi_cursors m) i) as [c Hci]; [apply lookup_lt_Some in Hl; lia|].
      exists c, l. split_and!; [done|done|]. destruct (Hd i c l Hci Hl) as [?|(_ & _ & Hni)]; [done|].
      destruct Hni. rewrite Hsrc. left.
    + exists (hi_inner x), m2, ls2. split_and!; [done| | |].
      * eapply merge_inv_iff; [|exact Hinv2]. intros s. cbn. destruct (decide (s = hi_source x)); tauto.
      * rewrite Hp2. unfold pending. cbn. by rewrite (Permutation_map hi_inner Hp).
      * intros q Hq. by apply Hleast.
  - left. split; [done|]. apply heap_pop_none in Hpop. destruct Hinv as [Hlen Hd Hs Hn Hf Hc].
    assert (forall s l, remaining m ls s = Some l -> l = []) as Hnil.
    { intros s l Hl. destruct l as [|r t]; [done|]. destruct (Hc s r t I Hl) as (y & Hy & _).
      rewrite Hpop in Hy. by apply not_elem_of_nil in Hy. }
    unfold pending. rewrite Hpop, (concat_all_nil (mi_memtables m)), (concat_all_nil ls); [done| |].
    + intros i l Hi. by apply (Hnil (SrcSst i)).
    + intros i l Hi. by apply (Hnil (SrcMemtable i)).
Qed.

Lemma merge_collect_ok n m ls :
  merge_inv (fun _ => True) m ls -> (length (pending m ls) < n)%nat ->
  exists out, merge_iter_collect n m = Some out /\ key_sorted out /\ out ≡ₚ pending m ls.
Proof.
  revert m ls. induction n as [|n IH]; intros m ls Hinv Hn; [lia|]. cbn [merge_iter_collect].
  destruct (merge_next_ok m ls Hinv) as [[-> Hp]|(r & m' & ls' & -> & Hinv' & Hp & Hle)].
  - exists []. split_and!; [done|constructor|by rewrite Hp].
  - pose proof (Permutation_length Hp) as Hlen. cbn in Hlen.
    destruct (IH m' ls' Hinv') as (out & -> & Hs & Ho); [lia|]. exists (r :: out). split_and!; [done| |by rewrite Ho].
    constructor; [done|]. apply Forall_forall. intros q Hq. apply Hle. rewrite Hp, Ho in *. by right.
Qed.
End merge_proofs.

(** ** From the memtables and handles to the iterator *)

Lemma bset_key_sorted (l : list LogRecord) : bset_sorted rec_key l -> key_sorted l.
Proof.
  induction 1 as [|x l Hs IH Hx]; constructor; [done|]. eapply Forall_impl; [exact Hx|].
  intros y Hy. unfold key_le, key_lt in *. by rewrite Hy.
Qed.

Lemma ranges_ok ms start end_ :
  range_panics start end_ = false ->
  ranges ms start end_
  = Ok (map (fun m => List.filter (fun r => in_bounds start end_ (rec_key r)) (mt_set m)) ms).
Proof.
  intros Hp. induction ms as [|m ms IH]; cbn [ranges]; [done|].
  unfold memtable_range. by rewrite bset_range_ok, IH.
Qed.

Lemma ranges_panic ms start end_ :
  range_panics start end_ = true -> (exists m, m ∈ ms /\ mt_set m <> []) -> ranges ms start end_ = Panic.
Proof.
  intros Hp. induction ms as [|m ms IH]; intros (q & Hq & Hne); [by apply not_elem_of_nil in Hq|].
  cbn [ranges]. unfold memtable_range. destruct (decide (mt_set m = [])) as [E|E].
  - rewrite E. cbn [bset_range]. rewrite ok_bind, IH; [done|]. exists q. split; [|done].
    apply elem_of_cons in Hq as [->|Hq]; done.
  - by rewrite bset_range_nonempty, Hp.
Qed.

Section drain_facts.
Context `{Crc32}.

Lemma take_current_none c : sst_cursor_current_record c = None -> exists c', sst_cursor_take_current c = (c', None).
Proof.
  unfold sst_cursor_current_record, sst_cursor_take_current. destruct (sc_block_cursor c); [|by eexists].
  unfold block_cursor_take_current. intros ->. by eexists.
Qed.

Lemma take_current_at c pre rs j post r :
  cursor_at c pre rs j post -> rs !! j = Some r ->
  exists c', sst_cursor_take_current c = (c', Some r) /\ cursor_pos c' pre rs j post /\
    sc_end_bound c' = sc_end_bound c.
Proof.
  intros [[Hh Hi (bc & Hbc & Hblk & Hidx)] Hcur] Hr.
  unfold sst_cursor_current_record, sst_cursor_take_current in *. rewrite Hbc in *.
  unfold block_cursor_take_current. rewrite Hcur, Hr. eexists. split; [reflexivity|]. split; [|done].
  split; cbn; [done|done|]. by eexists.
Qed.

(** A cursor on record [j] of a block hands the iterator what follows it. *)
Lemma cursor_drains n c pre rs j post :
  cursor_pos c pre rs j post -> sc_end_bound c = Unbounded -> (j < length rs)%nat ->
  (length (drop (S j) rs ++ concat post) <= n)%nat -> drains c (drop (S j) rs ++ concat post).
Proof.
  revert c pre rs j post. induction n as [|n IH]; intros c pre rs j post Hpos Hend Hj Hn;
    destruct (cursor_next_ok c pre rs j post Hpos Hend Hj) as (c1 & Hnext & Hend1 & Hsame & Hcross);
    destruct (decide (S j < length rs)%nat) as [Hlt|Hge].
  - rewrite length_app, length_drop in Hn. lia.
  - specialize (Hcross ltac:(lia)). rewrite drop_ge in * by lia. pose proof Hpos as [[_ _ _ Hg] _ _].
    apply Forall_app in Hg as [_ [_ Hg]%Forall_cons]. destruct post as [|qs post].
    + destruct (take_current_none c1 Hcross) as [c2 H2]. by eapply drains_end.
    + apply Forall_inv in Hg as [_ Hne _ _]. destruct qs; [done|]. cbn in Hn. lia.
  - destruct (lookup_lt_is_Some_2 rs (S j) Hlt) as [r Hr].
    destruct (take_current_at c1 _ _ _ _ r (Hsame Hlt) Hr) as (c2 & Htake & Hpos2 & Hend2).
    rewrite (drop_S rs r (S j) Hr) in *. cbn [app length] in *.
    eapply drains_more; [done..|]. apply (IH c2 pre rs (S j) post); [done|congruence|done|lia].
  - specialize (Hcross ltac:(lia)). rewrite drop_ge in * by lia. pose proof Hpos as [[_ _ _ Hg] _ _].
    apply Forall_app in Hg as [_ [_ Hg]%Forall_cons]. destruct post as [|qs post].
    + destruct (take_current_none c1 Hcross) as [c2 H2]. by eapply drains_end.
    + apply Forall_inv in Hg as [_ Hne _ _]. destruct qs as [|q qs]; [done|].
      destruct (take_current_at c1 _ _ _ _ q Hcross eq_refl) as (c2 & Htake & Hpos2 & Hend2).
      cbn [app concat length] in *. eapply drains_more; [done..|].
      apply (IH c2 (pre ++ [rs]) (q :: qs) 0%nat post); [done|congruence|cbn; lia|rewrite skipn_cons, drop_0; lia].
Qed.

Lemma fresh_cursor_drains `{Fnv} h b bl :
  handle_ok h (b :: bl) ->
  exists c, sst_cursor h (Some (Unbounded, Unbounded)) = Ok (Some c) /\ drains c (tail (concat (b :: bl))).
Proof.
  intros Hh. change (sst_cursor h _) with (sst_cursor_new h Unbounded Unbounded). unfold sst_cursor_new. rewrite ok_bind.
  pose proof (read_block_ok h [] b bl Hh) as Hread. change (Z.of_nat (length [])) with 0 in Hread.
  rewrite Hread, ok_bind. cbn [cursor_position]. pose proof Hh as [_ _ _ [Hgb Hg]%Forall_cons].
  pose proof Hgb as [Hbv Hbne _ _]. rewrite (block_cursor_first_at b) by done.
  eexists. split; [reflexivity|]. destruct b as [|r b]; [done|]. cbn [concat app tail].
  eapply (cursor_drains (length (b ++ concat bl)) _ [] (r :: b) 0%nat bl); [|done|cbn; lia|done].
  split; [done|done|]. eexists. split; [reflexivity|done].
Qed.
End drain_facts.

Section merge_new.
Context {H : Type} `{!MinHeap HeapItem H, !MinHeapLaws HeapItem H, Crc32, Fnv}.

Lemma merge_new_collect (active : MemtableInner) (frozen : list MemtableInner)
    (handles : list SstHandle) (start end_ : bound Key) (cursors : list SstCursor) (ls : list (list LogRecord))
    (Hopen : open_cursors handles start end_ = Ok cursors)
    (Hdrain : Forall2 drains cursors ls) (Hls : Forall key_sorted ls)
    (Hmem : Forall (fun m => bset_sorted rec_key (mt_set m)) (active :: frozen))
    (Hbounds : range_panics start end_ = false) :
  let expected := List.filter (fun r => in_bounds start end_ (rec_key r)) (concat (map mt_set (active :: frozen)))
                  ++ concat ls in
  exists (m : MergeIter H) out,
    merge_iter_new active frozen handles start end_ = Ok m /\
    merge_iter_collect (S (length expected)) m = Some out /\ key_sorted out /\ out ≡ₚ expected.
Proof.
  intros expected. unfold merge_iter_new. rewrite Hopen, ok_bind, ranges_ok, ok_bind by done.
  set (mems := map _ (active :: frozen)).
  set (m0 := {| mi_memtables := mems; mi_cursors := cursors; mi_minheap := heap_new |} : MergeIter H).
  assert (pending m0 ls = expected) as Hp0.
  { unfold pending, m0, expected. cbn [mi_minheap mi_memtables]. rewrite heap_new_elems. cbn [map app].
    f_equal. apply (concat_map_filter mt_set _ (active :: frozen)). }
  assert (merge_inv (fun _ => False) m0 ls) as Hinv.
  { assert (sources_of m0 = []) as Hsrc by (unfold sources_of, m0; cbn; by rewrite heap_new_elems).
    split; cbn [mi_cursors m0].
    - by eapply Forall2_length.
    - intros i c l Hc Hl. left. by eapply Forall2_lookup_lr.
    - intros [i|i] l Hl; cbn [remaining mi_memtables m0] in Hl.
      + change mems with ((fun m => List.filter (fun r => in_bounds start end_ (rec_key r)) (mt_set m)) <$> active :: frozen) in Hl.
        apply (list_lookup_fmap_Some _ (active :: frozen)) in Hl as (mt & -> & Hmt). apply bset_key_sorted, filter_sorted.
        exact (Forall_lookup_1 _ _ _ _ Hmem Hmt).
      + exact (Forall_lookup_1 _ _ _ _ Hls Hl).
    - rewrite Hsrc. constructor.
    - intros s. rewrite Hsrc. by intros ?%not_elem_of_nil.
    - done. }
  destruct (fill_from_all_ok m0 ls Hinv) as (m & ls' & -> & Hinv' & Hp).
  destruct (merge_collect_ok (S (length expected)) m ls' Hinv') as (out & Hc & Hs & Ho).
  { rewrite Hp, Hp0. lia. }
  exists m, out. split_and!; [done|done|done|]. by rewrite Ho, Hp, Hp0.
Qed.
End merge_new.

(** ** Claims *)

Section merge_claims.
Context {H : Type} `{!MinHeap HeapItem H, !MinHeapLaws HeapItem H, Crc32, Fnv}.

(** C11: the merge iterator terminates and yields a sorted permutation of
    its inputs. When the bounds do not make [BTreeSet::range] panic and each
    opened cursor drains to a sorted list [ls !! i], [MergeIter::new]
    succeeds and iterating it to the end yields, ordered by key and nothing
    lost or duplicated, the records of the memtables within the bounds and
    everything the cursors hand out. *)
Theorem merge_iter_sorted_complete (active : MemtableInner) (frozen : list MemtableInner)
    (handles : list SstHandle) (start end_ : bound Key) (cursors : list SstCursor) (ls : list (list LogRecord))
    (Hopen : open_cursors handles start end_ = Ok cursors)
    (Hdrain : Forall2 drains cursors ls) (Hls : Forall key_sorted ls)
    (Hmem : Forall (fun m => bset_sorted rec_key (mt_set m)) (active :: frozen))
    (Hbounds : range_panics start end_ = false) :
  let expected := List.filter (fun r => in_bounds start end_ (rec_key r)) (concat (map mt_set (active :: frozen)))
                  ++ concat ls in
  exists (m : MergeIter H) out,
    merge_iter_new active frozen handles start end_ = Ok m /\
    merge_iter_collect (S (length expected)) m = Some out /\ key_sorted out /\ out ≡ₚ expected.
Proof. by apply (merge_new_collect _ _ _ _ _ cursors ls). Qed.

(** A record that is only in an SST can be missed. The iterator calls
    [next] on a cursor before it takes the record the cursor already stands
    on, so over an SST with the sorted records [r :: rs] (and an empty
    memtable, without bounds) the merge yields [rs]: the smallest record of
    the SST is never returned. *)
Theorem merge_iter_skips_first_sst_record (id limit : Z) (h : SstHandle) (bl : list (list LogRecord))
    (r : LogRecord) (rs : list LogRecord)
    (Hh : handle_ok h bl) (Hbl : concat bl = r :: rs) (Hsorted : key_sorted (r :: rs)) :
  exists (m : MergeIter H) out,
    merge_iter_new (mut_memtable_new id (Some limit)) [] [h] Unbounded Unbounded = Ok m /\
    merge_iter_collect (S (length rs)) m = Some out /\ key_sorted out /\ out ≡ₚ rs.
Proof.
  destruct bl as [|b bl]; [done|]. destruct (fresh_cursor_drains h b bl Hh) as (c & Hc & Hd).
  rewrite Hbl in Hd. cbn [tail] in Hd. apply StronglySorted_inv in Hsorted as [Hrs _].
  pose proof (merge_new_collect (mut_memtable_new id (Some limit)) [] [h] Unbounded Unbounded [c] [rs]) as Hm.
  cbn [map mut_memtable_new with_size_limit mt_set concat List.filter app] in Hm. rewrite app_nil_r in Hm.
  apply Hm.
  - cbn [open_cursors]. rewrite ok_bind. cbn [negb]. by rewrite Hc.
  - by repeat constructor.
  - by apply Forall_singleton.
  - apply Forall_singleton. constructor.
  - done.
Qed.
End merge_claims.

(** ** Witnesses *)

Definition sample_handle : SstHandle :=
  {| sh_fh := {| sfh_id := 5; sfh_content := @blocks_image sum_crc32 [sample_block] |};
     sh_block_metadata := @metas_of sum_crc32 0 [sample_block];
     sh_block_metadata_start_offset := blen (@blocks_image sum_crc32 [sample_block]); sh_bloom := sample_bloom |}.

Lemma sample_handle_ok : @handle_ok sum_crc32 sample_handle [sample_block].
Proof.
  split; [|done|done|apply Forall_singleton; exact sample_block_good].
  exists []. by rewrite app_nil_r.
Qed.

Definition sample_mt (id ts : Z) : MemtableInner :=
  (memtable_append (sample_record ts) (mut_memtable_new id None)).1.

Lemma sample_block_sorted : key_sorted sample_block.
Proof. unfold sample_block. repeat constructor; unfold key_le; by vm_compute. Qed.

(** two memtables and an SST: four of their five records arrive, in order *)
Lemma merge_iter_sorted_complete_witness :
  exists (m : MergeIter (list_heap HeapItem)) out,
    @merge_iter_new (list_heap HeapItem) _ sum_crc32 sum_fnv (sample_mt 1 8) [sample_mt 0 4]
      [sample_handle] Unbounded Unbounded = Ok m /\
    @merge_iter_collect (list_heap HeapItem) _ sum_crc32 5 m = Some out /\ key_sorted out /\
    out ≡ₚ [sample_record 8; sample_record 4] ++ tail sample_block.
Proof.
  destruct (@fresh_cursor_drains sum_crc32 sum_fnv sample_handle sample_block [] sample_handle_ok) as (c & Hc & Hd).
  pose proof (@merge_iter_sorted_complete (list_heap HeapItem) _ _ sum_crc32 sum_fnv (sample_mt 1 8)
    [sample_mt 0 4] [sample_handle] Unbounded Unbounded [c] [tail sample_block]) as Hm.
  apply Hm.
  - cbn [open_cursors]. rewrite ok_bind. cbn [negb]. by rewrite Hc.
  - by repeat constructor.
  - apply Forall_singleton. pose proof sample_block_sorted as Hs. by apply StronglySorted_inv in Hs as [? _].
  - repeat constructor.
  - reflexivity.
Defined.

Lemma merge_iter_skips_first_sst_record_witness :
  exists (m : MergeIter (list_heap HeapItem)) out,
    @merge_iter_new (list_heap HeapItem) _ sum_crc32 sum_fnv (mut_memtable_new 1 (Some 100)) [] [sample_handle]
      Unbounded Unbounded = Ok m /\
    @merge_iter_collect (list_heap HeapItem) _ sum_crc32 3 m = Some out /\ key_sorted out /\
    out ≡ₚ tail sample_block.
Proof.
  apply (@merge_iter_skips_first_sst_record (list_heap HeapItem) _ _ sum_crc32 sum_fnv 1 100 sample_handle
    [sample_block] (sample_record 5) (tail sample_block)).
  - exact sample_handle_ok.
  - reflexivity.
  - exact sample_block_sorted.
Defined.
