(* ===== verification/Io.v ===== *)
(** * The background I/O jobs: logregator-tsdb/src/io.rs, counter.rs

    The events the LSM tree sends to the I/O worker, the channel they travel
    on, and the job that flushes a memtable to an SST. *)
From S2P Require Import Prelude Std Ext Codec Errors Record Memtable Label Block Bloom Manifest Sst SstFacts.

(** ** counter.rs *)

Record Counter := { counter_current : Z }.
Definition inc_and_get (c : Counter) : Counter * Z :=
  ({| counter_current := wrap64 (counter_current c + 1) |}, counter_current c).
Definition counter_from (current : Z) : Counter := {| counter_current := current |}.

(** ** Events *)

Record FlushMemtablePayload := {
  fp_memtable : FlushableMemtable;
  fp_manifest_entries : list ManifestEntry;
  fp_block_size_limit : option Z;
  fp_dir : list byte
}.

Inductive IoEvent :=
| AppendWal (r : LogRecord)
| FsyncWal
| EvFlushMemtable (p : FlushMemtablePayload).

(** ** [mpsc::Sender]

    What has been sent, oldest first; [send] fails once the receiver is
    gone. *)
Record Sender := { ch_sent : list IoEvent; ch_open : bool }.
Definition send (e : IoEvent) (ch : Sender) : Sender * outcome Error unit :=
  if ch_open ch then ({| ch_sent := ch_sent ch ++ [e]; ch_open := true |}, Ok tt)
  else (ch, Err (ErrMessage "sending on a closed channel")).

(** ** [flush_memtable]

    [exists_] tells whether the SST file is already there. *)
Section flush.
Context {W : Type} `{FileOps W, Nom, DefaultHasher, Json, Crc32, Fnv, BloomSizing}.

Definition flush_failed (e : SstError) : Error := ErrIoThread (IoMemtableFlushError (MfeSstError e)).

(** the part before the manifest is touched *)
Definition flush_to_sst (p : FlushMemtablePayload) (exists_ : bool) : outcome Error SstHandle :=
  let memtable := fm_inner (fp_memtable p) in
  bounds ← key_bounds_full memtable;
  sw ← map_err flush_failed
         (sst_file_writer_new (mt_id memtable) exists_ (fp_block_size_limit p) (memtable_count memtable));
  recs ← memtable_range bounds.1 bounds.2 memtable;
  match sst_write_all recs sw with
  | (sw, Ok _) => map_err flush_failed (finalize_file sw)
  | (_, Err e) => Err (flush_failed e)
  | (_, Panic) => Panic
  end.

Definition flush_memtable (p : FlushMemtablePayload) (exists_ : bool) : st (Manifest W) Error SstHandle := fun m =>
  match flush_to_sst p exists_ with
  | Err e => (m, Err e)
  | Panic => (m, Panic)
  | Ok handle =>
      match manifest_append (MemtableFlush (mt_id (fm_inner (fp_memtable p)))) m with
      | (m, Ok _) =>
          match manifest_append_many (fp_manifest_entries p) m with
          | (m, Ok _) => (m, Ok handle)
          | (m, Err e) => (m, Err (ErrCodec e))
          | (m, Panic) => (m, Panic)
          end
      | (m, Err e) => (m, Err (ErrCodec e))
      | (m, Panic) => (m, Panic)
      end
  end.
End flush.

(** ** Claims *)

(** Flushing a memtable never succeeds. Whatever the memtable, the file
    system and the manifest, [flush_memtable] does not return a handle, and
    the manifest is left exactly as it was: no flush is ever recorded. *)
Theorem flush_memtable_never_ok {W : Type} `{FileOps W, Nom, DefaultHasher, Json, Crc32, Fnv, BloomSizing}
    (p : FlushMemtablePayload) (exists_ : bool) (m : Manifest W) :
  (flush_memtable p exists_ m).1 = m /\ forall h, (flush_memtable p exists_ m).2 <> Ok h.
Proof.
  unfold flush_memtable. assert (forall h, flush_to_sst p exists_ <> Ok h) as Hnever.
  { intros h. unfold flush_to_sst. destruct (key_bounds_full _) as [[lo hi]|e|]; [|done..]. rewrite ok_bind.
    destruct (sst_file_writer_new _ _ _ _) as [sw|e|]; [|done..]. cbn [map_err]. rewrite ok_bind.
    destruct (memtable_range _ _ _) as [recs|e|]; [|done..]. rewrite ok_bind.
    destruct (sst_write_all recs sw) as [sw' [[]|e|]]; [|done..].
    destruct (finalize_file sw') as [h'|e|] eqn:E; [|done..]. by apply finalize_file_never in E. }
  destruct (flush_to_sst p exists_) as [h|e|]; [by destruct (Hnever h)|done..].
Qed.
