(* ===== verification/Lsm.v ===== *)
(** * The LSM tree: logregator-tsdb/src/lsm.rs, and [LabeledIter] of label.rs

    Appending batches of log payloads, freezing full memtables and handing
    them to the I/O worker, taking over finished SSTs, and range queries. *)
From S2P Require Import Prelude Std Ext Codec Errors Record Memtable Label Block Bloom Manifest Sst SstFacts MergeIter Io.

(** ** [LsmTree]

    The codecs of the configuration are the ones of record.rs and label.rs.
    The stream registry sits behind a lock that only the tree writes. *)

Record LsmConfig := {
  cfg_basepath : list byte;
  cfg_block_size_limit : option Z;
  cfg_retention_days : option Z
}.

Record LsmTree := {
  lsm_config : LsmConfig;
  next_memtable_id : Counter;
  next_stream_id : Counter;
  next_seq_num : Counter;
  lsm_memtable : MemtableInner;
  frozen_memtables : list MemtableInner;
  sst_handles : list SstHandle;
  stream_buffer : list ManifestEntry;
  stream_reg : StreamRegistry;
  io_tx : Sender
}.

Record LsmTreeOptions := {
  opt_basepath : list byte;
  opt_block_size_limit : option Z;
  opt_memtable : MemtableInner;
  opt_sst_handles : list SstHandle;
  opt_stream_reg : StreamRegistry;
  opt_next_stream_id : Z;
  opt_next_seq_num : Z;
  opt_retention_days : option Z;
  opt_io_tx : Sender
}.

(** [opts.memtable.id() + 1] wraps in a release build. *)
Definition lsm_new (opts : LsmTreeOptions) : LsmTree := {|
  lsm_config := {| cfg_basepath := opt_basepath opts; cfg_block_size_limit := opt_block_size_limit opts;
                   cfg_retention_days := opt_retention_days opts |};
  next_memtable_id := counter_from (wrap64 (mt_id (opt_memtable opts) + 1));
  next_stream_id := counter_from (opt_next_stream_id opts);
  next_seq_num := counter_from (opt_next_seq_num opts);
  lsm_memtable := opt_memtable opts;
  frozen_memtables := [];
  sst_handles := opt_sst_handles opts;
  stream_buffer := [];
  stream_reg := opt_stream_reg opts;
  io_tx := opt_io_tx opts
|}.

Definition new_uninit (basepath : list byte) (block_size_limit : option Z) (memtable : MemtableInner)
    (handles : list SstHandle) (reg : StreamRegistry) (stream seq : Z) (retention_days : option Z)
    (tx : Sender) : LsmTree :=
  let id := wrap64 (mt_id memtable + 1) in
  {| lsm_config := {| cfg_basepath := basepath; cfg_block_size_limit := block_size_limit;
                      cfg_retention_days := retention_days |};
     next_memtable_id := counter_from id;
     next_stream_id := counter_from stream;
     next_seq_num := counter_from seq;
     lsm_memtable := memtable;
     frozen_memtables := [];
     sst_handles := handles;
     stream_buffer := [];
     stream_reg := reg;
     io_tx := tx |}.

(** *** Field updates *)

Definition with_io_tx (t : LsmTree) (tx : Sender) : LsmTree := {|
  lsm_config := lsm_config t; next_memtable_id := next_memtable_id t; next_stream_id := next_stream_id t;
  next_seq_num := next_seq_num t; lsm_memtable := lsm_memtable t; frozen_memtables := frozen_memtables t;
  sst_handles := sst_handles t; stream_buffer := stream_buffer t; stream_reg := stream_reg t; io_tx := tx |}.
Definition with_streams (t : LsmTree) (c : Counter) (reg : StreamRegistry) (buf : list ManifestEntry) : LsmTree := {|
  lsm_config := lsm_config t; next_memtable_id := next_memtable_id t; next_stream_id := c;
  next_seq_num := next_seq_num t; lsm_memtable := lsm_memtable t; frozen_memtables := frozen_memtables t;
  sst_handles := sst_handles t; stream_buffer := buf; stream_reg := reg; io_tx := io_tx t |}.
Definition with_seq (t : LsmTree) (c : Counter) : LsmTree := {|
  lsm_config := lsm_config t; next_memtable_id := next_memtable_id t; next_stream_id := next_stream_id t;
  next_seq_num := c; lsm_memtable := lsm_memtable t; frozen_memtables := frozen_memtables t;
  sst_handles := sst_handles t; stream_buffer := stream_buffer t; stream_reg := stream_reg t; io_tx := io_tx t |}.
Definition with_memtables (t : LsmTree) (c : Counter) (m : MemtableInner) (frozen : list MemtableInner)
    (buf : list ManifestEntry) : LsmTree := {|
  lsm_config := lsm_config t; next_memtable_id := c; next_stream_id := next_stream_id t;
  next_seq_num := next_seq_num t; lsm_memtable := m; frozen_memtables := frozen;
  sst_handles := sst_handles t; stream_buffer := buf; stream_reg := stream_reg t; io_tx := io_tx t |}.
Definition with_tables (t : LsmTree) (frozen : list MemtableInner) (handles : list SstHandle) : LsmTree := {|
  lsm_config := lsm_config t; next_memtable_id := next_memtable_id t; next_stream_id := next_stream_id t;
  next_seq_num := next_seq_num t; lsm_memtable := lsm_memtable t; frozen_memtables := frozen;
  sst_handles := handles; stream_buffer := stream_buffer t; stream_reg := stream_reg t; io_tx := io_tx t |}.

(** [self.io_tx.send(..)?] *)
Definition lsm_send (e : IoEvent) : st LsmTree Error unit := fun t =>
  let '(tx, o) := send e (io_tx t) in (with_io_tx t tx, o).

(** *** [issue_flush] *)
Definition issue_flush : st LsmTree Error unit := fun t =>
  let '(c, new_id) := inc_and_get (next_memtable_id t) in
  let '(fresh, frozen) := memtable_freeze new_id (lsm_memtable t) in
  let payload := {| fp_memtable := flushable_from frozen; fp_manifest_entries := stream_buffer t;
                    fp_block_size_limit := cfg_block_size_limit (lsm_config t);
                    fp_dir := cfg_basepath (lsm_config t) |} in
  lsm_send (EvFlushMemtable payload) (with_memtables t c fresh (frozen_memtables t ++ [frozen]) []).

(** *** [append_batch] *)

Section append.
Context `{Nom, DefaultHasher}.

(** looks the label map up, or registers a new stream for it *)
Definition resolve_stream (labelmap : LabelMap) : st LsmTree Error Z := fun t =>
  let prev_stream_id := get_stream_id_by_labelmap (stream_reg t) labelmap in
  let '(c, sid) := match prev_stream_id with
                   | Some sid => (next_stream_id t, sid)
                   | None => inc_and_get (next_stream_id t)
                   end in
  match prev_stream_id with
  | Some _ =>
      (with_streams t c (stream_reg t) (stream_buffer t),
       match get_labelmap_by_stream_ref (stream_reg t) sid with
       | None => Err (ErrMessage "label state error: no label map for the stream")
       | Some existing_map => if negb (labelmap_eqb existing_map labelmap)
                              then Err (ErrMessage "label state error: hash collision occured")
                              else Ok sid
       end)
  | None =>
      let reg := registry_insert sid labelmap (stream_reg t) in
      match stream_update sid labelmap with
      | None => (with_streams t c reg (stream_buffer t), Panic) (* expect *)
      | Some e => (with_streams t c reg (stream_buffer t ++ [e]), Ok sid)
      end
  end.

(** puts a record into the memtable, which may have to be frozen first *)
Definition insert_record (rec : LogRecord) : st LsmTree Error unit := fun t =>
  let '(m, out) := memtable_append rec (lsm_memtable t) in
  let t := with_memtables t (next_memtable_id t) m (frozen_memtables t) (stream_buffer t) in
  match out with
  | AppendOk => (t, Ok tt)
  | AppendFull partial_rec =>
      match issue_flush t with
      | (t, Ok _) =>
          match partial_rec with
          | None => (t, Ok tt)
          | Some r =>
              let '(m, out) := memtable_append r (lsm_memtable t) in
              let t := with_memtables t (next_memtable_id t) m (frozen_memtables t) (stream_buffer t) in
              (t, if was_appended out then Ok tt else Panic) (* assert! *)
          end
      | (t, o) => (t, o)
      end
  end.

(** One payload. [now] is what the clock says, in nanoseconds since the
    epoch ([expect] when it is before). *)
Definition append_payload (source : Z) (now : Z) (payload : list byte) : st LsmTree Error unit := fun t =>
  match check_payload_size (blen payload) with
  | Err e => (t, Err (ErrCodec e))
  | Panic => (t, Panic)
  | Ok _ =>
      match labelmap_decode payload with
      | Err e => (t, Err (ErrCodec e))
      | Panic => (t, Panic)
      | Ok None => (t, Err (ErrCodec (CodecOther "label map codec returned Ok(None)")))
      | Ok (Some (labelmap, label_bytes_read)) =>
          match resolve_stream labelmap t with
          | (t, Err e) => (t, Err e)
          | (t, Panic) => (t, Panic)
          | (t, Ok sid) =>
              if now <? 0 then (t, Panic)
              else
                let '(c, seq) := inc_and_get (next_seq_num t) in
                let key := {| source_id := source; timestamp := wrap64 now; sequence_num := seq;
                              stream_id := sid |} in
                let t := with_seq t c in
                match slice (E := Error) payload label_bytes_read (blen payload) with
                | Ok body =>
                    let rec := {| rec_key := key; rec_payload := body |} in
                    match lsm_send (AppendWal rec) t with
                    | (t, Ok _) => insert_record rec t
                    | (t, o) => (t, o)
                    end
                | _ => (t, Panic)
                end
          end
      end
  end.

Fixpoint append_payloads (source : Z) (payloads : list (Z * list byte)) : st LsmTree Error unit :=
  match payloads with
  | [] => mret tt
  | (now, p) :: ps => _ ← append_payload source now p; append_payloads source ps
  end.

Definition append_batch (payloads : list (Z * list byte)) (source : Z) : st LsmTree Error unit :=
  _ ← append_payloads source payloads; lsm_send FsyncWal.

Definition append_single (now : Z) (payload : list byte) (source : Z) : st LsmTree Error unit :=
  append_batch [(now, payload)] source.
End append.

(** *** [drain_sst_queue] *)

Definition drain_one (t : LsmTree) (sst : SstHandle) : LsmTree :=
  let frozen := match frozen_memtables t with
                | f :: rest => if mt_id f =? sst_handle_id sst then rest else f :: rest
                | [] => []
                end in
  with_tables t frozen (sst_handles t ++ [sst]).
Definition drain_sst_queue (flush_results : list SstHandle) (t : LsmTree) : LsmTree :=
  foldl drain_one t flush_results.

Definition all_memtable_size_bytes (t : LsmTree) : Z :=
  foldl (fun acc f => acc + mt_size_bytes f) (mt_size_bytes (lsm_memtable t)) (frozen_memtables t).

(** ** [LabeledIter] (label.rs) *)

Record LabeledIter (H : Type) := {
  li_registry : StreamRegistry;
  li_iters : list (MergeIter H);
  li_current : option (MergeIter H)
}.
Arguments li_registry {H} l.
Arguments li_iters {H} l.
Arguments li_current {H} l.

(** ** [range] *)

Inductive RangeError :=
| RangeSstReadError (e : SstError)
| RangeLockError (msg : string).

(** The order in which a [HashSet] of stream ids is iterated is unspecified. *)
Class HashSetOrder := {
  hash_order : gset Z -> list Z;
  hash_order_perm s : hash_order s ≡ₚ elements s
}.

Section range.
Context {H : Type} `{!MinHeap HeapItem H, Crc32, Fnv, HashSetOrder}.

Definition labeled_iter_new (iters : list (MergeIter H)) (reg : StreamRegistry) : LabeledIter H :=
  {| li_registry := reg; li_iters := iters; li_current := None |}.

(** [mr.next()]: an error of the merge iterator panics there *)
Definition labeled_iter_next : st (LabeledIter H) SstError (option (option LabelMap * LogRecord)) := fun l =>
  let l := match li_current l with
           | Some _ => l
           | None => {| li_registry := li_registry l; li_iters := tail (li_iters l);
                        li_current := head (li_iters l) |}
           end in
  match li_current l with
  | None => (l, Ok None)
  | Some mr =>
      let '(mr, o) := merge_iter_next mr in
      ({| li_registry := li_registry l; li_iters := li_iters l; li_current := Some mr |},
       r ← o;
       Ok (match r with
           | Some rec => Some (get_labelmap_by_stream_cloned (li_registry l) (stream_id (rec_key rec)), rec)
           | None => None
           end))
  end.

Fixpoint labeled_iter_collect (fuel : nat) (l : LabeledIter H) : option (list (option LabelMap * LogRecord)) :=
  match fuel with
  | O => None
  | S fuel =>
      match labeled_iter_next l with
      | (_, Ok None) => Some []
      | (l, Ok (Some x)) => cons x <$> labeled_iter_collect fuel l
      | _ => None
      end
  end.

Definition stream_bounds (id start_t end_t : Z) : bound Key * bound Key :=
  (Included {| stream_id := id; timestamp := start_t; sequence_num := 0; source_id := 0 |},
   Included {| stream_id := id; timestamp := end_t; sequence_num := u64_max; source_id := u64_max |}).

(** [map(..).collect::<Result<Vec<_>, _>>()] *)
Fixpoint stream_iters (t : LsmTree) (ids : list Z) (start_t end_t : Z) : outcome SstError (list (MergeIter H)) :=
  match ids with
  | [] => Ok []
  | id :: ids =>
      let '(start, end_) := stream_bounds id start_t end_t in
      it ← merge_iter_new (lsm_memtable t) (frozen_memtables t) (sst_handles t) start end_;
      its ← stream_iters t ids start_t end_t;
      Ok (it :: its)
  end.

Definition lsm_range (labels : list (str * str)) (start_t end_t : option Z) (t : LsmTree)
    : outcome RangeError (LabeledIter H) :=
  let start_t := default 0 start_t in
  let end_t := default u64_max end_t in
  let stream_ids := hash_order (label_intersection (stream_reg t) labels) in
  its ← map_err RangeSstReadError (stream_iters t stream_ids start_t end_t);
  Ok (labeled_iter_new its (stream_reg t)).
End range.

(** ** Invariant and steps of [append_batch] *)

(** every record held in memory, and what has been sent to the I/O worker *)
Definition lsm_records (t : LsmTree) : list LogRecord :=
  mt_set (lsm_memtable t) ++ concat (map mt_set (frozen_memtables t)).
Definition wal_records (t : LsmTree) : list LogRecord :=
  omap (fun e => match e with AppendWal r => Some r | _ => None end) (ch_sent (io_tx t)).
Definition flushed_entries (e : IoEvent) : list ManifestEntry :=
  match e with EvFlushMemtable p => fp_manifest_entries p | _ => [] end.
(** manifest entries handed over or waiting for the next flush *)
Definition stream_updates (t : LsmTree) : list ManifestEntry :=
  concat (map flushed_entries (ch_sent (io_tx t))) ++ stream_buffer t.

Record lsm_inv (t : LsmTree) : Prop := {
  ln_reg : registry_wf (stream_reg t);
  ln_streams : forall sid m, labelmap_by_stream (stream_reg t) !! sid = Some m ->
    0 <= sid < counter_current (next_stream_id t);
  ln_sorted : Forall (fun m => bset_sorted rec_key (mt_set m)) (lsm_memtable t :: frozen_memtables t);
  ln_seq : Forall (fun r => sequence_num (rec_key r) < counter_current (next_seq_num t)) (lsm_records t);
  ln_labelled : Forall (fun r => is_Some (labelmap_by_stream (stream_reg t) !! stream_id (rec_key r))) (lsm_records t)
}.

(** the label maps of [ms] that are not in [known], each at its first place *)
Fixpoint first_new (known ms : list LabelMap) : list LabelMap :=
  match ms with
  | [] => []
  | m :: ms => if decide (m ∈ known) then first_new known ms else m :: first_new (m :: known) ms
  end.
Definition labels_of (reg : StreamRegistry) : list LabelMap := (map_to_list (labelmap_by_stream reg)).*2.
(** one manifest entry for each, with consecutive stream ids *)
Definition new_streams (next : Z) (news : list LabelMap) : list ManifestEntry :=
  zip_with StreamUpdate (seqZ next (blen news)) news.

Lemma first_new_ext k1 k2 ms : (forall m, m ∈ k1 <-> m ∈ k2) -> first_new k1 ms = first_new k2 ms.
Proof.
  revert k1 k2. induction ms as [|m ms IH]; intros k1 k2 Hk; cbn [first_new]; [done|].
  rewrite (decide_ext (m ∈ k1) (m ∈ k2)) by apply Hk. destruct (decide (m ∈ k2)); [by apply IH|]. f_equal. apply IH.
  intros x. by rewrite !elem_of_cons, Hk.
Qed.
Lemma first_new_app known ms ms' : first_new known (ms ++ ms') = first_new known ms ++ first_new (first_new known ms ++ known) ms'.
Proof.
  revert known. induction ms as [|m ms IH]; intros known; cbn [first_new app]; [done|].
  destruct (decide (m ∈ known)); [apply IH|]. cbn. rewrite IH. do 2 f_equal. apply first_new_ext. intros x. set_solver.
Qed.
Lemma first_new_elem known ms m : m ∈ first_new known ms <-> (m ∈ ms) /\ m ∉ known.
Proof.
  revert known. induction ms as [|x ms IH]; intros known; cbn [first_new]; [set_solver|].
  destruct (decide (x ∈ known)) as [Hx|Hx]; rewrite ?elem_of_cons, IH; [|destruct (decide (m = x))]; set_solver.
Qed.
Lemma elem_of_labels reg m : m ∈ labels_of reg <-> exists sid, labelmap_by_stream reg !! sid = Some m.
Proof.
  unfold labels_of. rewrite list_elem_of_fmap. split.
  - intros ([sid x] & -> & ?%elem_of_map_to_list). by exists sid.
  - intros (sid & Hs). exists (sid, m). by rewrite elem_of_map_to_list.
Qed.
Lemma new_streams_app next l k : new_streams next (l ++ k) = new_streams next l ++ new_streams (next + blen l) k.
Proof.
  unfold new_streams. rewrite blen_app, seqZ_app by apply blen_nonneg. rewrite zip_with_app; [done|]. rewrite length_seqZ. unfold blen. lia.
Qed.
Lemma elem_of_new_streams next news m : m ∈ news <-> exists sid, StreamUpdate sid m ∈ new_streams next news.
Proof.
  revert next. induction news as [|x news IH]; intros next.
  { split; [by intros ?%not_elem_of_nil|]. intros [sid Hs]. unfold new_streams in Hs. rewrite zip_with_nil_r in Hs. by apply not_elem_of_nil in Hs. }
  change (x :: news) with ([x] ++ news). rewrite elem_of_app, (IH (next + blen [x])). setoid_rewrite (new_streams_app next [x] news).
  setoid_rewrite elem_of_app. change (new_streams next [x]) with [StreamUpdate next x].
  setoid_rewrite list_elem_of_singleton. split.
  - intros [->|[sid Hs]]; [by exists next; left|by exists sid; right].
  - intros (sid & [[= _ ->]|Hs]); [by left|right; by exists sid].
Qed.

(** The tree [t'] is [t] after the records [rs] have been appended. *)
Record appended (t t' : LsmTree) (rs : list LogRecord) : Prop := {
  ap_inv : lsm_inv t';
  ap_open : ch_open (io_tx t') = true;
  ap_records : lsm_records t' ≡ₚ rs ++ lsm_records t;
  ap_wal : wal_records t' = wal_records t ++ rs;
  ap_seq : counter_current (next_seq_num t') = counter_current (next_seq_num t) + blen rs;
  ap_stream : counter_current (next_stream_id t) <= counter_current (next_stream_id t')
              <= counter_current (next_stream_id t) + blen rs;
  ap_updates : exists ms, Forall2 (fun r m => labelmap_by_stream (stream_reg t') !! stream_id (rec_key r) = Some m) rs ms /\
    let ups := new_streams (counter_current (next_stream_id t)) (first_new (labels_of (stream_reg t)) ms) in
    stream_updates t' = stream_updates t ++ ups /\
    counter_current (next_stream_id t') = counter_current (next_stream_id t) + blen (first_new (labels_of (stream_reg t)) ms) /\
    forall sid m, labelmap_by_stream (stream_reg t') !! sid = Some m <->
      labelmap_by_stream (stream_reg t) !! sid = Some m \/ StreamUpdate sid m ∈ ups;
  ap_handles : sst_handles t' = sst_handles t
}.

Lemma appended_refl t : lsm_inv t -> ch_open (io_tx t) = true -> appended t t [].
Proof.
  intros Hi Ho. split; rewrite ?app_nil_r; cbn; try done; try zlia.
  exists []. unfold new_streams. cbn. rewrite app_nil_r. split_and!; [constructor|done|zlia|]. intros sid m. rewrite elem_of_nil. tauto.
Qed.

Lemma appended_trans t1 t2 t3 rs qs : appended t1 t2 rs -> appended t2 t3 qs -> appended t1 t3 (rs ++ qs).
Proof.
  intros [_ _ Hr Hw Hs Hc (ms & Hms & Hu & Hn & Hul) Hh] [Hi Ho Hr' Hw' Hs' Hc' (ms' & Hms' & Hu' & Hn' & Hul') Hh'].
  split; try done.
  - rewrite Hr', Hr. rewrite !app_assoc. f_equiv. apply Permutation_app_comm.
  - by rewrite Hw', Hw, app_assoc.
  - zlia.
  - zlia.
  - exists (ms ++ ms'). rewrite first_new_app, new_streams_app, <- Hn.
    rewrite (first_new_ext (first_new _ ms ++ _) (labels_of (stream_reg t2))).
    2:{ intros m. rewrite elem_of_app, (elem_of_new_streams (counter_current (next_stream_id t1))), !elem_of_labels. setoid_rewrite Hul. clear. naive_solver. }
    cbv zeta. split_and!.
    + apply Forall2_app; [|done]. eapply Forall2_impl; [exact Hms|]. cbn. intros r m Hm. apply Hul'. by left.
    + by rewrite Hu', Hu, app_assoc.
    + rewrite Hn', Hn. zlia.
    + intros sid m. rewrite Hul', Hul, elem_of_app. tauto.
  - congruence.
Qed.

Section append_proofs.
Context `{NomLaws, DefaultHasher}.

(** the payloads that a batch takes without complaint *)
Definition payload_ok (p : Z * list byte) : Prop :=
  0 <= p.1 /\ payload_size_ok (blen p.2) = true /\
  exists m n, labelmap_decode p.2 = Ok (Some (m, n)) /\ Forall pair_sized (lm_inner m).

Lemma stream_update_sized sid m :
  labelmap_wf m -> Forall pair_sized (lm_inner m) -> stream_update sid m = Some (StreamUpdate sid m).
Proof.
  intros [_ Hc _ _] Hs. unfold stream_update, labelmap_len. if_false.
  replace (forallb _ _) with true; [done|]. symmetry. apply forallb_forall.
  intros kv Hkv. rewrite Forall_forall in Hs. apply list_elem_of_In in Hkv.
  destruct (Hs kv Hkv) as [Hk Hv]. by apply andb_true_intro.
Qed.

Lemma inc_and_get_small c : 0 <= counter_current c -> counter_current c + 1 < 2 ^ 64 ->
  inc_and_get c = (counter_from (counter_current c + 1), counter_current c).
Proof. intros. unfold inc_and_get, wrap64. by rewrite Z.mod_small by lia. Qed.

Lemma labelmap_eqb_refl m : labelmap_eqb m m = true.
Proof. unfold labelmap_eqb. rewrite Z.eqb_refl. by rewrite bool_decide_true. Qed.

(** registering or finding the stream of a label map *)
Lemma resolve_stream_ok t m :
  lsm_inv t -> ch_open (io_tx t) = true -> labelmap_wf m -> Forall pair_sized (lm_inner m) ->
  0 <= counter_current (next_stream_id t) -> counter_current (next_stream_id t) + 1 < 2 ^ 64 ->
  exists c reg buf sid, resolve_stream m t = (with_streams t c reg buf, Ok sid) /\
    registry_wf reg /\ labelmap_by_stream (stream_reg t) ⊆ labelmap_by_stream reg /\
    labelmap_by_stream reg !! sid = Some m /\
    (forall sid' m', labelmap_by_stream reg !! sid' = Some m' -> 0 <= sid' < counter_current c) /\
    counter_current (next_stream_id t) <= counter_current c <= counter_current (next_stream_id t) + 1 /\
    let news := first_new (labels_of (stream_reg t)) [m] in
    let ups := new_streams (counter_current (next_stream_id t)) news in
    buf = stream_buffer t ++ ups /\ counter_current c = counter_current (next_stream_id t) + blen news /\
      forall sid m, labelmap_by_stream reg !! sid = Some m <->
        labelmap_by_stream (stream_reg t) !! sid = Some m \/ StreamUpdate sid m ∈ ups.
Proof.
  intros [Hreg Hst _ _ _] Ho Hwf Hs Hc0 Hlt. unfold resolve_stream, get_stream_id_by_labelmap.
  destruct (stream_by_labelmap (stream_reg t) !! m) as [sid|] eqn:E.
  - pose proof E as E'. apply (rw_map _ Hreg) in E'. unfold get_labelmap_by_stream_ref.
    rewrite E', labelmap_eqb_refl. cbn [negb].
    eexists _, _, _, _. split; [reflexivity|]. cbn [first_new]. rewrite decide_True by (apply elem_of_labels; by exists sid).
    unfold new_streams. rewrite zip_with_nil_r, app_nil_r. split_and!; try done; [lia..|zlia|]. intros. rewrite elem_of_nil. tauto.
  - rewrite inc_and_get_small, stream_update_sized by done. set (sid := counter_current (next_stream_id t)).
    assert (labelmap_by_stream (stream_reg t) !! sid = None) as Hfresh.
    { destruct (labelmap_by_stream (stream_reg t) !! sid) eqn:E'; [|done]. apply Hst in E'. lia. }
    cbn [first_new]. rewrite decide_False.
    2:{ intros [sid' Hs']%elem_of_labels. apply (rw_map _ Hreg) in Hs'. by rewrite E in Hs'. }
    eexists _, _, _, _. split; [reflexivity|]. cbn [registry_insert labelmap_by_stream counter_from counter_current].
    change (new_streams sid [m]) with [StreamUpdate sid m]. fold sid.
    split_and!; try done; try lia.
    + by apply registry_insert_fresh_wf.
    + by apply insert_subseteq.
    + by rewrite lookup_insert_eq.
    + intros sid' m'. rewrite lookup_insert_Some. intros [[<- _]|[_ Hl%Hst]]; lia.
    + intros sid' m'.
      rewrite list_elem_of_singleton, lookup_insert_Some. split.
      * intros [[<- <-]|[_ ?]]; auto.
      * intros [Hl|[= -> ->]]; [right|by left]. split; [congruence|done].
Qed.

Lemma memtable_append_cases r m :
  bset_sorted rec_key (mt_set m) -> bset_fresh rec_key r (mt_set m) ->
  memtable_append r m = (m, AppendFull (Some r)) \/
  exists m' o, memtable_append r m = (m', o) /\ (o = AppendOk \/ o = AppendFull None) /\
    mt_set m' ≡ₚ r :: mt_set m /\ bset_sorted rec_key (mt_set m').
Proof.
  intros Hs Hf. unfold memtable_append. case_if; [by left|right]. eexists _, _. split; [reflexivity|].
  split_and!; [case_if; auto|by apply bset_insert_fresh|by apply bset_insert_sorted].
Qed.

Lemma issue_flush_ok t :
  ch_open (io_tx t) = true ->
  exists t', issue_flush t = (t', Ok tt) /\ frozen_memtables t' = frozen_memtables t ++ [lsm_memtable t] /\
    mt_set (lsm_memtable t') = [] /\ mt_size_bytes (lsm_memtable t') = 0 /\ ch_open (io_tx t') = true /\
    wal_records t' = wal_records t /\ stream_updates t' = stream_updates t /\
    stream_reg t' = stream_reg t /\ next_stream_id t' = next_stream_id t /\
    next_seq_num t' = next_seq_num t /\ sst_handles t' = sst_handles t.
Proof.
  intros Ho. unfold issue_flush. destruct (inc_and_get _) as [c id]. unfold memtable_freeze, lsm_send, send.
  cbn [io_tx with_memtables]. rewrite Ho. eexists. split; [reflexivity|]. split_and!; try done.
  - unfold wal_records. cbn. rewrite omap_app. cbn. by rewrite app_nil_r.
  - unfold stream_updates. cbn. rewrite map_app, concat_app. cbn. by rewrite !app_nil_r.
Qed.

Lemma insert_record_ok t r :
  ch_open (io_tx t) = true ->
  Forall (fun m => bset_sorted rec_key (mt_set m)) (lsm_memtable t :: frozen_memtables t) ->
  bset_fresh rec_key r (mt_set (lsm_memtable t)) ->
  exists t', insert_record r t = (t', Ok tt) /\ lsm_records t' ≡ₚ r :: lsm_records t /\
    Forall (fun m => bset_sorted rec_key (mt_set m)) (lsm_memtable t' :: frozen_memtables t') /\
    ch_open (io_tx t') = true /\ wal_records t' = wal_records t /\ stream_updates t' = stream_updates t /\
    stream_reg t' = stream_reg t /\ next_stream_id t' = next_stream_id t /\
    next_seq_num t' = next_seq_num t /\ sst_handles t' = sst_handles t.
Proof.
  intros Ho [Hs Hfs]%Forall_cons Hf. unfold insert_record.
  destruct (memtable_append_cases r _ Hs Hf) as [->|(m' & o & -> & Hout & Hp & Hs')].
  - set (t0 := with_memtables _ _ _ _ _).
    destruct (issue_flush_ok t0 Ho) as (t1 & -> & Hfr & Hset & Hsz & Ho1 & Hw1 & Hu1 & Hr1 & Hn1 & Hq1 & Hh1).
    unfold memtable_append. rewrite Hsz, Z.eqb_refl, andb_false_r, Hset.
    replace (was_appended _) with true by (by case_if). cbn [bset_insert].
    eexists. split; [reflexivity|]. unfold lsm_records. cbn [lsm_memtable with_memtables frozen_memtables mt_set].
    rewrite Hfr. cbn [frozen_memtables lsm_memtable with_memtables t0].
    split_and!; try done.
    + rewrite map_app, concat_app. cbn. rewrite app_nil_r. f_equiv. apply Permutation_app_comm.
    + apply Forall_cons. split; [by repeat constructor|]. by apply Forall_app_2, Forall_singleton.
  - destruct Hout as [-> | ->].
    + eexists. split; [reflexivity|]. unfold lsm_records. cbn. split_and!; try done.
      * by rewrite Hp.
      * by apply Forall_cons.
    + set (t0 := with_memtables _ _ _ _ _).
      destruct (issue_flush_ok t0 Ho) as (t1 & -> & Hfr & Hset & Hsz & Ho1 & Hw1 & Hu1 & Hr1 & Hn1 & Hq1 & Hh1).
      exists t1. split; [done|]. unfold lsm_records. rewrite Hfr, Hset. cbn [frozen_memtables lsm_memtable with_memtables t0].
      split_and!; try done.
      * rewrite map_app, concat_app. cbn. rewrite app_nil_r, Hp. apply (Permutation_app_comm _ (r :: mt_set (lsm_memtable t))).
      * apply Forall_cons. split; [rewrite Hset; constructor|]. by apply Forall_app_2, Forall_singleton.
Qed.

(** the record a payload becomes *)
Definition logged (t : LsmTree) (source : Z) (p : Z * list byte) (r : LogRecord) : Prop :=
  source_id (rec_key r) = source /\ timestamp (rec_key r) = wrap64 p.1 /\
  exists m n, labelmap_decode p.2 = Ok (Some (m, n)) /\ rec_payload r = drop (Z.to_nat n) p.2 /\
    get_labelmap_by_stream_ref (stream_reg t) (stream_id (rec_key r)) = Some m.

Lemma fresh_by_seq r (l : list LogRecord) :
  Forall (fun q => sequence_num (rec_key q) < sequence_num (rec_key r)) l -> bset_fresh rec_key r l.
Proof. intros Hl. eapply Forall_impl; [exact Hl|]. cbn. intros q Hq Heq%cmp_eq. rewrite Heq in Hq. lia. Qed.

Lemma append_payload_ok t source p :
  lsm_inv t -> ch_open (io_tx t) = true -> payload_ok p ->
  0 <= counter_current (next_seq_num t) -> counter_current (next_seq_num t) + 1 < 2 ^ 64 ->
  0 <= counter_current (next_stream_id t) -> counter_current (next_stream_id t) + 1 < 2 ^ 64 ->
  exists t' r, append_payload source p.1 p.2 t = (t', Ok tt) /\ appended t t' [r] /\ logged t' source p r /\
    sequence_num (rec_key r) = counter_current (next_seq_num t).
Proof.
  intros Hinv Ho (Hnow & Hsz & m & n & Hdec & Hsized) Hq0 Hq Hc0 Hc.
  destruct (labelmap_decode_inv _ _ _ Hdec) as [Hwf Hn].
  unfold append_payload, check_payload_size. rewrite Hsz, Hdec. cbn [negb].
  destruct (resolve_stream_ok t m Hinv Ho Hwf Hsized Hc0 Hc)
    as (c & reg & buf & sid & -> & Hreg & Hsub & Hsid & Hrange & Hcc & -> & Hcn & Hups).
  if_false. cbn [next_seq_num with_streams]. rewrite inc_and_get_small, slice_ok by lia.
  rewrite take_ge by (unfold blen in *; rewrite length_drop; lia).
  set (r := {| rec_key := _; rec_payload := _ |}). unfold lsm_send, send.
  cbn [io_tx with_seq with_streams]. rewrite Ho. set (t1 := with_io_tx _ _).
  destruct Hinv as [_ _ Hsorted Hseq Hlab].
  destruct (insert_record_ok t1 r eq_refl) as (t' & -> & Hrec & Hs' & Ho' & Hw & Hu & Hreg' & Hc' & Hq' & Hh').
  { exact Hsorted. }
  { apply fresh_by_seq. by apply Forall_app in Hseq as [? _]. }
  change (lsm_records t1) with (lsm_records t) in Hrec.
  exists t', r. split; [done|]. split; [|split; [|done]].
  - split; try done.
    + split; rewrite ?Hreg', ?Hc', ?Hq', ?Hrec; cbn -[lsm_records]; try done.
      * constructor; [cbn; lia|]. eapply Forall_impl; [exact Hseq|]. cbn. lia.
      * constructor; [by eexists|]. eapply Forall_impl; [exact Hlab|]. cbn. intros q [m' Hm'].
        exists m'. by eapply lookup_weaken.
    + rewrite Hw. unfold wal_records. cbn. rewrite omap_app. done.
    + by rewrite Hq'.
    + rewrite Hc'. cbn [t1 next_stream_id with_io_tx with_seq with_streams]. zlia.
    + exists [m]. rewrite Hu, Hreg', Hc'. cbv zeta. split_and!; [by constructor| |exact Hcn|exact Hups].
      unfold stream_updates. cbn -[first_new]. rewrite map_app, concat_app. cbn -[first_new]. rewrite app_nil_r. by rewrite app_assoc.
  - split_and!; [done|done|]. exists m, n. split_and!; [done|done|]. by rewrite Hreg'.
Qed.

Lemma logged_mono t t' source p r rs : appended t t' rs -> logged t source p r -> logged t' source p r.
Proof.
  intros [_ _ _ _ _ _ (ms & _ & _ & _ & Hups) _] (Hs & Ht & m & n & Hd & Hp & Hl).
  split_and!; [done|done|]. exists m, n. split_and!; [done|done|]. apply Hups. by left.
Qed.

Lemma append_payloads_ok t source ps :
  lsm_inv t -> ch_open (io_tx t) = true -> Forall payload_ok ps ->
  0 <= counter_current (next_seq_num t) -> counter_current (next_seq_num t) + blen ps < 2 ^ 64 ->
  0 <= counter_current (next_stream_id t) -> counter_current (next_stream_id t) + blen ps < 2 ^ 64 ->
  exists t' rs, append_payloads source ps t = (t', Ok tt) /\ appended t t' rs /\
    Forall2 (logged t' source) ps rs /\
    (fun r => sequence_num (rec_key r)) <$> rs = seqZ (counter_current (next_seq_num t)) (blen ps).
Proof.
  intros Hinv Ho Hps. revert t Hinv Ho. induction Hps as [|[now p] ps Hp Hps IH]; intros t Hinv Ho Hq0 Hq Hc0 Hc.
  - exists t, []. split_and!; [done|by apply appended_refl|constructor|done].
  - rewrite blen_cons in *. pose proof (blen_nonneg ps). cbn [append_payloads]. rewrite st_bind_unfold.
    destruct (append_payload_ok t source (now, p)) as (t1 & r & E & Ha & Hl & Hseq); [done|done|done|lia..|].
    cbn [fst snd] in E. rewrite E. pose proof Ha as [Hinv1 Ho1 _ _ Hs1 Hc1 _ _]. change (blen [r]) with 1 in *.
    destruct (IH t1) as (t2 & rs & -> & Ha2 & Hl2 & Hseq2); [done|done|lia..|].
    exists t2, (r :: rs). split_and!; [done| | |].
    + exact (appended_trans t t1 t2 [r] rs Ha Ha2).
    + constructor; [|done]. by eapply logged_mono.
    + cbn. rewrite Hseq2, Hs1, Hseq. rewrite (seqZ_cons _ (1 + blen ps)) by lia.
      f_equal. f_equal; lia.
Qed.
End append_proofs.

(** ** Ranges *)

Lemma stream_bounds_spec id s e (k : Key) :
  in_u64 (sequence_num k) -> in_u64 (source_id k) ->
  in_bounds (stream_bounds id s e).1 (stream_bounds id s e).2 k = true <->
  stream_id k = id /\ s <= timestamp k <= e.
Proof.
  intros [Hs0 Hs1] [Hr0 Hr1]. unfold stream_bounds. cbn [fst snd]. rewrite in_bounds_included.
  unfold cmp, key_cmp, key_tuple, cmp, pair_cmp, cmp, pair_cmp, cmp, pair_cmp, cmp, Z_cmp, ord_then.
  cbn -[Z.compare u64_max].
  destruct (Z.compare_spec id (stream_id k)) as [->|Hlt|Hgt].
  - rewrite Z.compare_refl. destruct (Z.compare_spec s (timestamp k)), (Z.compare_spec (timestamp k) e);
      destruct (Z.compare_spec 0 (sequence_num k)), (Z.compare_spec (sequence_num k) u64_max);
      destruct (Z.compare_spec 0 (source_id k)), (Z.compare_spec (source_id k) u64_max); try lia;
      (split; [intros [? ?]; first [congruence | lia] | intros (? & ? & ?); first [lia | by split]]).
  - destruct (Z.compare_spec (stream_id k) id); [lia|lia|]. split; [by intros [_ ?]|lia].
  - split; [by intros [? _]|lia].
Qed.

Section range_proofs.
Context {H : Type} `{!MinHeap HeapItem H, !MinHeapLaws HeapItem H, Crc32, Fnv, HashSetOrder}.

Definition labelled_by (reg : StreamRegistry) (r : LogRecord) : option LabelMap * LogRecord :=
  (get_labelmap_by_stream_cloned reg (stream_id (rec_key r)), r).

(** once on an iterator, [LabeledIter] labels what it yields and stays on it *)
Lemma labeled_collect_current n reg its (mr : MergeIter H) :
  labeled_iter_collect n {| li_registry := reg; li_iters := its; li_current := Some mr |}
  = map (labelled_by reg) <$> merge_iter_collect n mr.
Proof.
  revert mr. induction n as [|n IH]; intros mr; [done|]. cbn [labeled_iter_collect merge_iter_collect].
  unfold labeled_iter_next. cbn [li_current]. destruct (merge_iter_next mr) as [mr' [[r|]|e|]]; try done.
  cbn [li_registry li_iters]. rewrite ok_bind. cbv iota beta. rewrite IH.
  by destruct (merge_iter_collect n mr').
Qed.

Lemma labeled_collect_first n reg its (mr : MergeIter H) :
  labeled_iter_collect n (labeled_iter_new (mr :: its) reg) = map (labelled_by reg) <$> merge_iter_collect n mr.
Proof. rewrite <- (labeled_collect_current n reg its). by destruct n. Qed.

Definition in_window (id s e : Z) (r : LogRecord) : bool :=
  (stream_id (rec_key r) =? id) && (s <=? timestamp (rec_key r)) && (timestamp (rec_key r) <=? e).

Lemma window_filter id s e (rs : list LogRecord) :
  Forall (fun r => key_wf (rec_key r)) rs ->
  List.filter (fun r => in_bounds (stream_bounds id s e).1 (stream_bounds id s e).2 (rec_key r)) rs
  = List.filter (in_window id s e) rs.
Proof.
  induction 1 as [|r rs [_ _ Hseq Hsrc] _ IH]; cbn [List.filter]; [done|]. rewrite IH.
  replace (in_bounds _ _ (rec_key r)) with (in_window id s e r); [done|]. symmetry.
  apply Bool.eq_true_iff_eq. rewrite (stream_bounds_spec id s e _ Hseq Hsrc). unfold in_window.
  rewrite !andb_true_iff, Z.eqb_eq, !Z.leb_le. tauto.
Qed.

Lemma bounds_panic id s e : s <= e -> range_panics (stream_bounds id s e).1 (stream_bounds id s e).2 = false.
Proof.
  intros Hle. unfold stream_bounds, range_panics. cbn [fst snd].
  unfold cmp, key_cmp, key_tuple, cmp, pair_cmp, cmp, pair_cmp, cmp, pair_cmp, cmp, Z_cmp, ord_then.
  cbn -[Z.compare]. rewrite Z.compare_refl. by destruct (Z.compare_spec s e); [|done|lia].
Qed.

Lemma bounds_panic_gt id s e : e < s -> range_panics (stream_bounds id s e).1 (stream_bounds id s e).2 = true.
Proof.
  intros Hlt. unfold stream_bounds, range_panics. cbn [fst snd].
  unfold cmp, key_cmp, key_tuple, cmp, pair_cmp, cmp, pair_cmp, cmp, pair_cmp, cmp, Z_cmp, ord_then.
  cbn -[Z.compare]. rewrite Z.compare_refl. by destruct (Z.compare_spec s e); [lia|lia|].
Qed.

(** the iterator of one stream, when there are no SSTs *)
Lemma stream_iter_ok t id s e :
  lsm_inv t -> sst_handles t = [] -> Forall (fun r => key_wf (rec_key r)) (lsm_records t) -> s <= e ->
  exists (it : MergeIter H) out,
    merge_iter_new (lsm_memtable t) (frozen_memtables t) (sst_handles t)
      (stream_bounds id s e).1 (stream_bounds id s e).2 = Ok it /\
    merge_iter_collect (S (length (List.filter (in_window id s e) (lsm_records t)))) it = Some out /\
    key_sorted out /\ out ≡ₚ List.filter (in_window id s e) (lsm_records t).
Proof.
  intros [_ _ Hsorted _ _] Hh Hwf Hle. rewrite Hh.
  pose proof (merge_new_collect (lsm_memtable t) (frozen_memtables t) [] (stream_bounds id s e).1
    (stream_bounds id s e).2 [] [] eq_refl ltac:(constructor) ltac:(constructor) Hsorted (bounds_panic id s e Hle)) as Hm.
  cbv zeta in Hm. rewrite app_nil_r in Hm. cbn [map concat] in Hm.
  change (mt_set (lsm_memtable t) ++ _) with (lsm_records t) in Hm. by rewrite window_filter in Hm.
Qed.

Lemma stream_iters_ok t ids s e :
  lsm_inv t -> sst_handles t = [] -> Forall (fun r => key_wf (rec_key r)) (lsm_records t) -> s <= e ->
  exists its : list (MergeIter H), stream_iters t ids s e = Ok its /\
    Forall2 (fun id it => merge_iter_new (lsm_memtable t) (frozen_memtables t) (sst_handles t)
      (stream_bounds id s e).1 (stream_bounds id s e).2 = Ok it) ids its.
Proof.
  intros Hi Hh Hwf Hle. induction ids as [|id ids (its & Hits & Hall)]; cbn [stream_iters]; [by exists []|].
  destruct (stream_iter_ok t id s e Hi Hh Hwf Hle) as (it & _ & Hit & _).
  unfold stream_bounds in *. cbn [fst snd] in *. rewrite Hit, ok_bind, Hits. exists (it :: its). auto.
Qed.
End range_proofs.

(** sending the final fsync changes nothing else *)
Lemma appended_fsync t t' rs :
  appended t t' rs ->
  exists t'', lsm_send FsyncWal t' = (t'', Ok tt) /\ appended t t'' rs /\ stream_reg t'' = stream_reg t' /\
    last (ch_sent (io_tx t'')) = Some FsyncWal.
Proof.
  intros [[Hi1 Hi2 Hi3 Hi4 Hi5] Ho Hr Hw Hs Hc (ms & Hms & Hu & Hul) Hh]. unfold lsm_send, send. rewrite Ho.
  eexists. split; [reflexivity|]. split_and!; [|done|cbn; by rewrite last_snoc]. split; try done.
  - unfold wal_records in *. cbn. rewrite omap_app, Hw. cbn. by rewrite app_nil_r.
  - exists ms. split; [done|]. split; [|done]. rewrite <- Hu. unfold stream_updates. cbn.
    rewrite map_app, concat_app. cbn. by rewrite app_nil_r.
Qed.

(** ** Claims *)

(** the label maps of the payloads, by the records they became *)
Lemma logged_labels `{NomLaws, DefaultHasher} t source ps rs ms :
  Forall2 (logged t source) ps rs ->
  Forall2 (fun r m => labelmap_by_stream (stream_reg t) !! stream_id (rec_key r) = Some m) rs ms ->
  Forall2 (fun p m => exists n, labelmap_decode p.2 = Ok (Some (m, n))) ps ms.
Proof.
  intros Hl. revert ms. induction Hl as [|p r ps rs (_ & _ & m & n & Hd & _ & Hm) _ IH]; intros ms Hms.
  - inversion Hms. constructor.
  - inversion Hms as [|? m' ? ms' Hm' Hms']; subst. constructor; [|by apply IH]. exists n. rewrite Hd.
    unfold get_labelmap_by_stream_ref in Hm. congruence.
Qed.

(** C6: [append_batch] on an open channel, with payloads of the allowed size
    whose labels decode and are 1 to 254 bytes long: it succeeds and keeps the
    tree's invariant; every payload becomes one record, with consecutive
    sequence numbers, the clock's timestamp, the bytes after its labels and a
    stream registered for exactly its label map; the memtables hold these
    records and the earlier ones, none lost or duplicated by the freezing in
    between; they were all sent to the WAL in order, followed by an fsync; and
    the manifest entries buffered or handed over grow by exactly one for each
    label map of the batch that was not registered before, in the order in
    which they first occur and with consecutive stream ids. *)
Theorem append_batch_ok `{NomLaws, DefaultHasher} (t : LsmTree) (source : Z) (payloads : list (Z * list byte))
    (Hinv : lsm_inv t) (Hopen : ch_open (io_tx t) = true) (Hps : Forall payload_ok payloads)
    (Hseq0 : 0 <= counter_current (next_seq_num t))
    (Hseq : counter_current (next_seq_num t) + blen payloads < 2 ^ 64)
    (Hsid0 : 0 <= counter_current (next_stream_id t))
    (Hsid : counter_current (next_stream_id t) + blen payloads < 2 ^ 64) :
  exists t' rs ms, append_batch payloads source t = (t', Ok tt) /\ appended t t' rs /\
    Forall2 (logged t' source) payloads rs /\
    (fun r => sequence_num (rec_key r)) <$> rs = seqZ (counter_current (next_seq_num t)) (blen payloads) /\
    last (ch_sent (io_tx t')) = Some FsyncWal /\
    Forall2 (fun p m => exists n, labelmap_decode p.2 = Ok (Some (m, n))) payloads ms /\
    stream_updates t' = stream_updates t ++
      new_streams (counter_current (next_stream_id t)) (first_new (labels_of (stream_reg t)) ms).
Proof.
  destruct (append_payloads_ok t source payloads Hinv Hopen Hps Hseq0 Hseq Hsid0 Hsid)
    as (t1 & rs & E & Ha & Hl & Hq).
  unfold append_batch. rewrite st_bind_unfold, E.
  destruct (appended_fsync t t1 rs Ha) as (t2 & -> & Ha2 & Hreg & Hlast).
  destruct (ap_updates _ _ _ Ha2) as (ms & Hms & Hu & _).
  assert (Forall2 (logged t2 source) payloads rs) as Hl2.
  { eapply Forall2_impl; [exact Hl|]. intros p r. unfold logged. by rewrite Hreg. }
  exists t2, rs, ms. split_and!; try done. by eapply logged_labels.
Qed.

(** The first bad payload stops a batch. With [ps] accepted before it, a
    payload of the wrong size or whose labels do not decode makes
    [append_batch] return that error with the tree as it was after [ps] (the
    rest of the batch is not looked at and no fsync is sent). A payload whose
    labels decode to a new label map with a label of 0 or 255 bytes makes it
    panic, with the stream already registered but no manifest entry for it. *)
Theorem append_batch_rejects `{NomLaws, DefaultHasher} (t t1 : LsmTree) (source now : Z)
    (ps qs : list (Z * list byte)) (bad : list byte) (Hps : append_payloads source ps t = (t1, Ok tt)) :
  let batch := ps ++ (now, bad) :: qs in
  (payload_size_ok (blen bad) = false -> append_batch batch source t
     = (t1, Err (ErrCodec (invalid_payload_sz (blen bad) MAX_RECORD_WIRE_LENGTH MIN_RECORD_WIRE_LENGTH)))) /\
  (forall e, payload_size_ok (blen bad) = true -> labelmap_decode bad = Err e ->
     append_batch batch source t = (t1, Err (ErrCodec e))) /\
  (forall m n, payload_size_ok (blen bad) = true -> labelmap_decode bad = Ok (Some (m, n)) ->
     get_stream_id_by_labelmap (stream_reg t1) m = None -> ~ Forall pair_sized (lm_inner m) ->
     exists t2, append_batch batch source t = (t2, Panic) /\
       get_stream_id_by_labelmap (stream_reg t2) m = Some (counter_current (next_stream_id t1)) /\
       stream_updates t2 = stream_updates t1 /\ lsm_records t2 = lsm_records t1).
Proof.
  intros batch. assert (append_batch batch source t
    = (_ ← append_payload source now bad; _ ← append_payloads source qs; lsm_send FsyncWal) t1) as ->.
  { unfold append_batch, batch. revert t Hps. clear batch. induction ps as [|[now' p] ps IH]; intros t Hps.
    - cbn in Hps. injection Hps as ->. cbn [app append_payloads]. rewrite !st_bind_unfold.
      by destruct (append_payload source now bad t1) as [t2 [[]|e|]].
    - cbn [app append_payloads] in *. rewrite !st_bind_unfold in *.
      destruct (append_payload source now' p t) as [t2 [[]|e|]]; [|done..].
      rewrite <- (IH t2 Hps). by rewrite st_bind_unfold. }
  rewrite st_bind_unfold. unfold append_payload, check_payload_size. split_and!.
  - by intros ->.
  - by intros e -> ->.
  - intros m n -> Hdec Hnone Hbad. rewrite Hdec. cbn [negb]. unfold resolve_stream. rewrite Hnone.
    unfold inc_and_get. replace (stream_update _ m) with (@None ManifestEntry).
    + eexists. split; [reflexivity|]. split_and!; [|done|done].
      unfold get_stream_id_by_labelmap. cbn. by rewrite lookup_insert_eq.
    + unfold stream_update. case_if; [done|]. case_if; [|done]. destruct Hbad. apply Forall_forall.
      intros kv Hkv. rewrite forallb_forall in *. match goal with Hf : forall x, In x _ -> _ |- _ =>
        specialize (Hf kv (proj1 (list_elem_of_In _ _) Hkv)) end. gsplit. done.
Qed.

(** The size check is made before the labels are cut off, so a message
    of 0 or 1 bytes after its labels is accepted: the batch succeeds, and the
    record it adds to the memtable and sends to the WAL is one that
    [RecordCodec::encode] refuses, whatever the buffer. *)
Theorem append_batch_short_message `{NomLaws, DefaultHasher} (t : LsmTree) (source now : Z) (payload : list byte)
    (m : LabelMap) (n : Z)
    (Hinv : lsm_inv t) (Hopen : ch_open (io_tx t) = true) (Hok : payload_ok (now, payload))
    (Hdec : labelmap_decode payload = Ok (Some (m, n))) (Hshort : blen payload - n < MIN_PAYLOAD_LENGTH)
    (Hseq0 : 0 <= counter_current (next_seq_num t) < 2 ^ 64 - 1)
    (Hsid0 : 0 <= counter_current (next_stream_id t) < 2 ^ 64 - 1) :
  exists t' r, append_batch [(now, payload)] source t = (t', Ok tt) /\ appended t t' [r] /\
    forall dst k, (record_encode r dst).2 <> Ok k.
Proof.
  destruct (append_payload_ok t source (now, payload)) as (t1 & r & E & Ha & Hl & _); [done|done|done|lia..|].
  unfold append_batch. cbn [append_payloads fst snd] in *. rewrite !st_bind_unfold, E. cbn [mret st_ret].
  destruct (appended_fsync t t1 [r] Ha) as (t2 & -> & Ha2 & _ & _). exists t2, r. split_and!; [done|done|].
  destruct Hl as (_ & _ & m' & n' & Hdec' & Hp & _). cbn [snd] in *.
    rewrite Hdec in Hdec'. injection Hdec' as <- <-. destruct (labelmap_decode_inv _ _ _ Hdec) as [_ Hn].
    intros dst k. unfold record_encode. case_if; [done|]. rewrite st_bind_unfold.
    destruct (on_subslice _ _ _ dst) as [b [?|e|]]; [|done..].
    assert (payload_size_ok (blen (rec_payload r)) = false) as ->; [|done].
    unfold payload_size_ok. apply andb_false_iff. left. apply Z.leb_gt. rewrite Hp. zlia.
Qed.

Section range_claims.
Context {H : Type} `{!MinHeap HeapItem H, !MinHeapLaws HeapItem H, Crc32, Fnv, HashSetOrder}.

(** C19: a range query over a tree without SSTs, with a non-empty time window,
    succeeds, and iterating its result to the end yields the records, in the
    active and the frozen memtables, of the first matching stream within the
    window: all of them, sorted, each once and each with the stream's label
    map. When several streams match, the records of the others are never
    returned ([LabeledIter] stays on its first iterator). *)
Theorem lsm_range_spec (t : LsmTree) (labels : list (str * str)) (start_t end_t : option Z)
    (Hinv : lsm_inv t) (Hh : sst_handles t = [])
    (Hwf : Forall (fun r => key_wf (rec_key r)) (lsm_records t))
    (Hwin : default 0 start_t <= default u64_max end_t) :
  exists (it : LabeledIter H), lsm_range labels start_t end_t t = Ok it /\
  match hash_order (label_intersection (stream_reg t) labels) with
  | [] => labeled_iter_collect 1 it = Some []
  | id :: _ =>
      let matching := List.filter (in_window id (default 0 start_t) (default u64_max end_t)) (lsm_records t) in
      exists out, labeled_iter_collect (S (length matching)) it
        = Some (map (fun r => (get_labelmap_by_stream_ref (stream_reg t) id, r)) out) /\
        key_sorted out /\ out ≡ₚ matching
  end.
Proof.
  set (s := default 0 start_t) in *. set (e := default u64_max end_t) in *.
  set (ids := hash_order (label_intersection (stream_reg t) labels)).
  destruct (stream_iters_ok t ids s e Hinv Hh Hwf Hwin) as (its & Hits & Hall).
  exists (labeled_iter_new its (stream_reg t)). split; [unfold lsm_range; fold s e ids; by rewrite Hits|].
  destruct Hall as [|id it ids' its' Hit Hall]; [done|].
  destruct (stream_iter_ok (H := H) t id s e Hinv Hh Hwf Hwin) as (it' & out & Hit' & Hc & Hs & Hp).
  rewrite Hit in Hit'. injection Hit' as <-. cbv zeta. exists out. split_and!; [|done|done].
  rewrite labeled_collect_first, Hc. cbn [fmap option_fmap option_map]. f_equal.
  apply map_ext_in. intros r Hr. apply list_elem_of_In in Hr. unfold labelled_by.
  rewrite Hp in Hr. apply list_elem_of_In, filter_In in Hr as [_ Hr]. unfold in_window in Hr. gsplit.
  match goal with Heq : stream_id _ = id |- _ => by rewrite Heq end.
Qed.

(** A range query whose window is empty (start after end) panics as soon
    as some stream matches its labels and some memtable holds a record,
    instead of returning nothing. *)
Theorem lsm_range_empty_window_panics (t : LsmTree) (labels : list (str * str)) (start_t end_t : option Z)
    (Hh : sst_handles t = []) (Hsome : label_intersection (stream_reg t) labels <> ∅)
    (Hrec : exists m, m ∈ lsm_memtable t :: frozen_memtables t /\ mt_set m <> [])
    (Hwin : default u64_max end_t < default 0 start_t) :
  lsm_range (H := H) labels start_t end_t t = Panic.
Proof.
  unfold lsm_range. pose proof (hash_order_perm (label_intersection (stream_reg t) labels)) as Hp.
  destruct (hash_order _) as [|id ids]; [apply Permutation_nil_l in Hp; symmetry in Hp; by apply elements_empty_inv, leibniz_equiv in Hp|].
  cbn [stream_iters]. pose proof (bounds_panic_gt id _ _ Hwin) as Hb. unfold stream_bounds in *. cbn [fst snd] in *.
  unfold merge_iter_new. rewrite Hh. cbn [open_cursors]. rewrite ok_bind.
  by rewrite ranges_panic.
Qed.
End range_claims.

(** When the finished SSTs arrive in the order in which their memtables
    were frozen, [drain_sst_queue] replaces exactly those memtables by the
    SSTs. When two arrive in the other order, the memtable of the SST that
    came early is kept for good, next to its SST. *)
Theorem drain_sst_queue_spec (t : LsmTree) (hs : list SstHandle) (done rest : list MemtableInner)
    (Hfrozen : frozen_memtables t = done ++ rest)
    (Hids : map mt_id done = map sst_handle_id hs) :
  drain_sst_queue hs t = with_tables t rest (sst_handles t ++ hs) /\
  forall f1 f2 h1 h2, done = [f1; f2] -> hs = [h1; h2] -> mt_id f1 <> mt_id f2 ->
    drain_sst_queue [h2; h1] t = with_tables t (f2 :: rest) (sst_handles t ++ [h2; h1]).
Proof.
  unfold drain_sst_queue. split.
  - revert t done Hfrozen Hids. induction hs as [|h hs IH]; intros t done Hfrozen Hids.
    + destruct done; [|done]. cbn in *. rewrite app_nil_r. destruct t. cbn in *. by subst.
    + destruct done as [|f done]; [done|]. injection Hids as Hid Hids. cbn [foldl].
      assert (drain_one t h = with_tables t (done ++ rest) (sst_handles t ++ [h])) as ->
        by (unfold drain_one; rewrite Hfrozen; cbn [app]; by rewrite Hid, Z.eqb_refl).
      rewrite (IH _ done) by done. unfold with_tables. cbn. by rewrite <- app_assoc.
  - intros f1 f2 h1 h2 -> -> Hne. injection Hids as H1 H2. cbn [foldl]. unfold drain_one at 2. rewrite Hfrozen.
    cbn [app]. rewrite <- H2. replace (mt_id f1 =? mt_id f2) with false by (symmetry; by apply Z.eqb_neq).
    unfold drain_one. cbn [frozen_memtables with_tables sst_handles]. rewrite <- H1, Z.eqb_refl.
    unfold with_tables. cbn. by rewrite <- app_assoc.
Qed.

(** ** Witnesses *)

(** the label [a=b] and the message [hi]; then the same label and no message;
    then the empty label *)
Definition sample_payload : list byte := map u8_of [1; 1; 97; 1; 98; 104; 105].
Definition short_payload : list byte := map u8_of [1; 1; 97; 1; 98].
Definition empty_label_payload : list byte := map u8_of [1; 0; 0; 104; 105].

(** an empty tree whose memtable holds two records *)
Definition sample_tree : LsmTree := lsm_new {|
  opt_basepath := []; opt_block_size_limit := None; opt_memtable := mut_memtable_new 0 (Some 110);
  opt_sst_handles := []; opt_stream_reg := registry_default; opt_next_stream_id := 0; opt_next_seq_num := 0;
  opt_retention_days := None; opt_io_tx := {| ch_sent := []; ch_open := true |} |}.

Lemma sample_tree_inv : lsm_inv sample_tree.
Proof.
  split; cbn; [apply registry_default_wf| |repeat constructor|constructor|constructor].
  intros sid m. by rewrite lookup_empty.
Qed.

Lemma sample_payload_ok now : 0 <= now -> @payload_ok ref_nom sum_hasher (now, sample_payload).
Proof.
  intros Hnow. split_and!; [done|by vm_compute|]. eexists _, 5. split; [by vm_compute|].
  repeat constructor; by vm_compute.
Qed.

Definition sample_batch : list (Z * list byte) := [(10, sample_payload); (20, sample_payload); (15, sample_payload)].

Lemma sample_batch_ok : Forall (@payload_ok ref_nom sum_hasher) sample_batch.
Proof. repeat constructor; by apply sample_payload_ok. Qed.

Lemma append_batch_ok_witness :
  exists t' rs, @append_batch ref_nom sum_hasher sample_batch 7 sample_tree = (t', Ok tt) /\
    appended sample_tree t' rs /\ (fun r => sequence_num (rec_key r)) <$> rs = [0; 1; 2] /\
    length (frozen_memtables t') = 1%nat /\ length (stream_updates t') = 1%nat.
Proof.
  destruct (@append_batch_ok ref_nom ref_nom_laws sum_hasher sample_tree 7 sample_batch sample_tree_inv eq_refl
    sample_batch_ok) as (t' & rs & ms & E & Ha & _ & Hq & _); [by vm_compute..|].
  exists t', rs. split_and!; [exact E|exact Ha|exact Hq| |];
    change t' with ((t', @Ok Error unit tt).1); rewrite <- E; by vm_compute.
Defined.

Lemma append_batch_rejects_witness :
  (@append_batch ref_nom sum_hasher [(10, empty_label_payload)] 7 sample_tree).2 = Panic /\
  (@append_batch ref_nom sum_hasher [(10, [])] 7 sample_tree).1 = sample_tree.
Proof.
  split.
  - destruct (@append_batch_rejects ref_nom ref_nom_laws sum_hasher sample_tree sample_tree 7 10 [] []
      empty_label_payload eq_refl) as (_ & _ & Hp). cbn [app] in Hp.
    edestruct Hp as (t2 & -> & _); [by vm_compute|by vm_compute|by vm_compute| |reflexivity].
    intros Hs. apply Forall_inv in Hs as [Hs _]. by vm_compute in Hs.
  - destruct (@append_batch_rejects ref_nom ref_nom_laws sum_hasher sample_tree sample_tree 7 10 [] [] [] eq_refl)
      as (He & _ & _). cbn [app] in He. by rewrite (He eq_refl).
Defined.

Lemma append_batch_short_message_witness :
  exists t' r, @append_batch ref_nom sum_hasher [(10, short_payload)] 7 sample_tree = (t', Ok tt) /\
    appended sample_tree t' [r] /\ forall dst k, (record_encode r dst).2 <> Ok k.
Proof.
  eapply (@append_batch_short_message ref_nom ref_nom_laws sum_hasher sample_tree 7 10 short_payload _ 5).
  - exact sample_tree_inv.
  - reflexivity.
  - split_and!; [done|by vm_compute|]. eexists _, 5. split; [by vm_compute|]. repeat constructor; by vm_compute.
  - by vm_compute.
  - by vm_compute.
  - by vm_compute.
  - by vm_compute.
Defined.

(** the tree after the batch: one frozen memtable, one active *)
Definition filled_tree : LsmTree := (@append_payloads ref_nom sum_hasher 7 sample_batch sample_tree).1.

Lemma filled_tree_inv : lsm_inv filled_tree.
Proof.
  unfold filled_tree. destruct (@append_payloads_ok ref_nom ref_nom_laws sum_hasher sample_tree 7 sample_batch
    sample_tree_inv eq_refl sample_batch_ok) as (t' & rs & -> & [Hi _ _ _ _ _ _ _] & _); [by vm_compute..|exact Hi].
Qed.

Definition elements_order : HashSetOrder := {| hash_order s := elements s; hash_order_perm s := reflexivity _ |}.
Definition sample_labels : list (str * str) := [([u8_of 97], [u8_of 98])].

Lemma filled_tree_streams :
  @hash_order elements_order (label_intersection (stream_reg filled_tree) sample_labels) = [0].
Proof. by vm_compute. Qed.

Lemma filled_tree_window :
  List.filter (in_window 0 12 u64_max) (lsm_records filled_tree)
  = [ {| rec_key := key_new 7 15 2 0; rec_payload := [u8_of 104; u8_of 105] |};
      {| rec_key := key_new 7 20 1 0; rec_payload := [u8_of 104; u8_of 105] |} ].
Proof. by vm_compute. Qed.

Lemma lsm_range_spec_witness :
  exists it out, @lsm_range (list_heap HeapItem) _ sum_crc32 sum_fnv elements_order sample_labels (Some 12) None
      filled_tree = Ok it /\
    @labeled_iter_collect (list_heap HeapItem) _ sum_crc32 3 it = Some out /\ length out = 2%nat.
Proof.
  destruct (@lsm_range_spec (list_heap HeapItem) _ _ sum_crc32 sum_fnv elements_order filled_tree sample_labels
    (Some 12) None filled_tree_inv) as (it & Hit & Hcol).
  - by vm_compute.
  - vm_compute. repeat constructor; cbv; congruence.
  - by vm_compute.
  - rewrite filled_tree_streams in Hcol. cbv zeta in Hcol. cbn [default from_option id] in Hcol.
    rewrite filled_tree_window in Hcol. destruct Hcol as (out & Hout & _ & Hp). exists it. eexists.
    split; [exact Hit|]. split; [exact Hout|]. rewrite length_map, Hp. reflexivity.
Defined.

Lemma lsm_range_empty_window_panics_witness :
  @lsm_range (list_heap HeapItem) _ sum_crc32 sum_fnv elements_order sample_labels (Some 12) (Some 11) filled_tree
  = Panic.
Proof.
  apply (@lsm_range_empty_window_panics (list_heap HeapItem) _ sum_crc32 sum_fnv elements_order filled_tree
    sample_labels (Some 12) (Some 11)).
  - reflexivity.
  - intros Hs. apply (f_equal size) in Hs. by vm_compute in Hs.
  - exists (lsm_memtable filled_tree). split; [left|]. by vm_compute.
  - by vm_compute.
Defined.

Lemma drain_sst_queue_spec_witness :
  drain_sst_queue [sample_handle] (with_tables sample_tree [sample_mt 5 1; sample_mt 6 2] [])
  = with_tables sample_tree [sample_mt 6 2] [sample_handle].
Proof.
  exact (proj1 (drain_sst_queue_spec (with_tables sample_tree [sample_mt 5 1; sample_mt 6 2] [])
    [sample_handle] [sample_mt 5 1] [sample_mt 6 2] eq_refl eq_refl)).
Defined.
