(* ===== verification/TsdbTests.v ===== *)
(** * The tests of logregator-tsdb, run on the model

    The property tests of codec.rs are functions of the generated input, and
    the lemmas show that they pass on every input the generators can produce,
    not only on the ones a run draws. The other tests (codec.rs, record.rs,
    memtable.rs, label.rs, lsm.rs, manifest.rs, sst.rs, wal.rs) are run. Two
    groups cannot pass: the tests of wal.rs start with [Wal::new], which
    panics, and the tests of sst.rs that finalize a file panic in the codec of
    the bloom filter. *)
From S2P Require Import Prelude Std Text Ext Codec Errors Record Memtable Label Block Bloom Manifest Wal Sst MergeIter Io Lsm.

(** ** Assertions *)

(** [PartialEq for Record]: the keys *)
Definition record_eqb (a b : LogRecord) : bool := bool_decide (rec_key a = rec_key b).
Definition records_eqb (l k : list LogRecord) : bool :=
  (length l =? length k)%nat && forallb (fun p => record_eqb p.1 p.2) (combine l k).
(** [unwrap] and a condition *)
Definition unwrap_and {E A} (o : outcome E A) (p : A -> bool) : bool := match o with Ok a => p a | _ => false end.
(** a failed assertion panics *)
Definition assert_that {E} (b : bool) : outcome E unit := if b then Ok tt else Panic.
Definition no_panic {E A} (o : outcome E A) : bool := match o with Panic => false | _ => true end.
(** [vec![b; n]] *)
Definition filled (b n : Z) : list byte := replicate (Z.to_nat n) (u8_of b).

Lemma record_eqb_refl r : record_eqb r r = true.
Proof. by apply bool_decide_eq_true. Qed.
Lemma records_eqb_refl l : records_eqb l l = true.
Proof.
  unfold records_eqb. rewrite Nat.eqb_refl. cbn. apply forallb_forall. intros [a b] Hp.
  induction l as [|r l IH]; [done|]. destruct Hp as [[= <- <-]|Hp]; [apply record_eqb_refl|by apply IH].
Qed.
(** the assertions of these tests do not look at payloads *)
Lemma record_eqb_payload k p q : record_eqb {| rec_key := k; rec_payload := p |} {| rec_key := k; rec_payload := q |} = true.
Proof. by apply bool_decide_eq_true. Qed.

(** ** codec.rs: property tests *)

(** the records [arb_record] generates *)
Definition arb_record (r : LogRecord) : Prop :=
  key_wf (rec_key r) /\ MIN_PAYLOAD_LENGTH <= blen (rec_payload r) < MAX_PAYLOAD_LENGTH.

Definition prop_encode_decode_roundtrip (r : LogRecord) : bool :=
  let '(buf, written) := record_encode r (filled 0 (record_wire_len r)) in
  unwrap_and written (fun n => (n =? record_wire_len r) &&
    unwrap_and (record_decode buf) (fun o =>
      match o with Some (decoded, consumed) => (consumed =? record_wire_len r) && record_eqb decoded r | None => false end)).

Definition prop_decode_ignores_trailing_bytes (r : LogRecord) (trailing : list byte) : bool :=
  let '(buf, written) := record_encode r (filled 0 (record_wire_len r)) in
  unwrap_and written (fun _ =>
    unwrap_and (record_decode (buf ++ trailing)) (fun o =>
      match o with Some (decoded, consumed) => (consumed =? record_wire_len r) && record_eqb decoded r | None => false end)).

Definition prop_partial_header_returns_none (bytes : list byte) : bool :=
  unwrap_and (record_decode bytes) (fun o => match o with None => true | Some _ => false end).

Definition prop_partial_payload_returns_none (r : LogRecord) (missing : Z) : bool :=
  let '(full, written) := record_encode r (filled 0 (record_wire_len r)) in
  unwrap_and written (fun _ =>
    let cut := Z.max 0 (blen full - Z.min missing (blen (rec_payload r))) in
    unwrap_and (slice (E := CodecError) full 0 (Z.max cut (KEY_SIZE + PAYLOAD_LEN_SIZE))) (fun truncated =>
      unwrap_and (record_decode truncated) (fun o => match o with None => true | Some _ => false end))).

Definition prop_max_payload_exceeded (over_by : Z) : bool :=
  let bogus_len := MAX_PAYLOAD_LENGTH + over_by in
  let '(buf, o) := copy_into (E := CodecError) KEY_SIZE (KEY_SIZE + PAYLOAD_LEN_SIZE) (be_bytes 4 bogus_len)
                     (filled 0 (KEY_SIZE + PAYLOAD_LEN_SIZE)) in
  unwrap_and o (fun _ => match record_decode buf with Err (CodecInvalidPayloadSize _) => true | _ => false end).

Definition prop_decode_never_panics (bytes : list byte) : bool := no_panic (record_decode bytes).

(** what the tests of framed streams do: write, flush, take the bytes *)
Definition framed_bytes (records : list LogRecord) : outcome CodecError (list byte) :=
  match framed_writer_write_all records (framed_writer_new ([] : list byte)) with
  | (w, Ok _) => match framed_writer_flush w with
                 | (w, Ok _) => Ok (bw_inner (fw_inner w))
                 | (_, Err e) => Err (CodecIo e)
                 | (_, Panic) => Panic
                 end
  | (_, Err e) => Err e
  | (_, Panic) => Panic
  end.
(** reading them back: one read of the source gives all the bytes there are;
    the bounds on items and reads are the number of bytes and one *)
Definition framed_records (bytes : list byte) : outcome CodecError (list LogRecord) :=
  let fuel := S (length bytes) in
  match framed_reader_collect fuel fuel (framed_reader_new [ReadData bytes]) with
  | Some (rs, Ok _) => Ok rs
  | Some (_, Err e) => Err e
  | _ => Panic
  end.
Definition prop_framed_writer_reader_roundtrip (records : list LogRecord) : bool :=
  unwrap_and (framed_bytes records) (fun bytes =>
    unwrap_and (framed_records bytes) (fun decoded => records_eqb records decoded)).

Definition framed_reader_grows_buffer_even_after_prior_compaction : bool :=
  let small := {| rec_key := key_new 1 1 1 1; rec_payload := filled 170 4 |} in
  let big := {| rec_key := key_new 2 2 2 2; rec_payload := filled 187 (MAX_PAYLOAD_LENGTH - KEY_SIZE - PAYLOAD_LEN_SIZE) |} in
  prop_framed_writer_reader_roundtrip [small; big].
Definition framed_reader_handles_record_split_across_fill_boundary : bool :=
  let straddling := {| rec_key := key_new 1 2 3 4; rec_payload := filled 171 (BUFSIZE - KEY_SIZE - PAYLOAD_LEN_SIZE - 10) |} in
  let second := {| rec_key := key_new 5 6 7 8; rec_payload := filled 205 500 |} in
  prop_framed_writer_reader_roundtrip [straddling; second].
Definition framed_reader_stops_cleanly_on_torn_trailing_record : bool :=
  let good := {| rec_key := key_new 1 1 1 1; rec_payload := map u8_of [1; 2; 3] |} in
  let torn := {| rec_key := key_new 2 2 2 2; rec_payload := filled 9 100 |} in
  unwrap_and (framed_bytes [good; torn]) (fun bytes =>
    unwrap_and (framed_records (take (length bytes - 40) bytes)) (fun decoded => records_eqb decoded [good])).

Lemma arb_record_valid r : arb_record r -> record_valid r.
Proof. intros [Hk Hp]. split; [done|lia]. Qed.

Lemma wire_len_pos r : 0 <= record_wire_len r.
Proof. unfold record_wire_len, key_wire_len. zlia. Qed.

Lemma encode_filled r :
  arb_record r -> record_encode r (filled 0 (record_wire_len r)) = (record_wire r, Ok (record_wire_len r)).
Proof.
  intros Hr. apply arb_record_valid in Hr. pose proof (wire_len_pos r).
  assert (blen (filled 0 (record_wire_len r)) = record_wire_len r) as Hl by (unfold filled; zlia).
  rewrite record_encode_wire by (done || lia).
  rewrite drop_ge, app_nil_r; [done|]. pose proof (blen_record_wire r). unfold blen in *. lia.
Qed.

(** Encoding and decoding any generated record passes, whatever follows it. *)
Lemma prop_roundtrips_pass r trailing :
  arb_record r ->
  prop_encode_decode_roundtrip r = true /\ prop_decode_ignores_trailing_bytes r trailing = true.
Proof.
  intros Hr. unfold prop_encode_decode_roundtrip, prop_decode_ignores_trailing_bytes. rewrite encode_filled by done.
  apply arb_record_valid in Hr. pose proof (record_decode_wire r [] Hr) as Hd. rewrite app_nil_r in Hd.
  cbn. rewrite Hd, record_decode_wire by done. cbn. by rewrite Z.eqb_refl, record_eqb_refl.
Qed.

Lemma prop_partial_header_passes bytes :
  blen bytes < KEY_SIZE + PAYLOAD_LEN_SIZE -> prop_partial_header_returns_none bytes = true.
Proof. intros Hb. unfold prop_partial_header_returns_none. by rewrite record_decode_short. Qed.

Lemma prop_partial_payload_passes r missing :
  arb_record r -> 1 <= missing -> prop_partial_payload_returns_none r missing = true.
Proof.
  intros Hr Hm. unfold prop_partial_payload_returns_none. rewrite encode_filled by done. cbn [unwrap_and].
  pose proof Hr as [_ Hp]. apply arb_record_valid in Hr.
  set (n := Z.max _ (KEY_SIZE + PAYLOAD_LEN_SIZE)).
  assert (0 <= n < blen (record_wire r)) as Hn.
  { subst n. rewrite blen_record_wire. unfold record_wire_len, key_wire_len. zlia. }
  rewrite <- (take_drop (Z.to_nat n) (record_wire r)) at 1.
  rewrite slice_prefix by (unfold blen in *; rewrite length_take; lia). cbn [unwrap_and].
  change (record_decode ?x) with (decode (I := LogRecord) x).
  rewrite (decode_partial r); [done|done|apply prefix_take|].
  intros He. apply (f_equal length) in He. rewrite length_take in He. unfold blen in *. lia.
Qed.

Lemma prop_max_payload_passes over_by :
  1 <= over_by < 1000000 -> prop_max_payload_exceeded over_by = true.
Proof.
  intros Ho. unfold prop_max_payload_exceeded.
  assert (filled 0 (KEY_SIZE + PAYLOAD_LEN_SIZE) = key_to_be_bytes (key_new 0 0 0 0) ++ filled 0 4 ++ []) as -> by done.
  rewrite copy_into_middle by (unfold filled; zlia). cbn [unwrap_and].
  rewrite record_decode_header by (zlia || by repeat split).
  rewrite be_val_u32 by (unfold in_u32, u32_max; zlia).
  unfold payload_size_ok. autounfold with sizes.
  replace (4096 + over_by <=? 4096) with false by (symmetry; lia). by rewrite andb_false_r.
Qed.

Lemma prop_never_panics_passes bytes : prop_decode_never_panics bytes = true.
Proof.
  unfold prop_decode_never_panics. destruct (Z_lt_le_dec (blen bytes) (KEY_SIZE + PAYLOAD_LEN_SIZE)) as [Hl|Hl].
  - by rewrite record_decode_short.
  - apply record_header_split in Hl as (k & lenb & rest & -> & Hk & Hn). rewrite record_decode_header by done.
    by destruct (negb _), (blen rest <? be_val lenb).
Qed.

Lemma collect_more {I} `{SpecCodec I} n m fuel r (out : list I * outcome CodecError unit) :
  (n <= m)%nat -> framed_reader_collect n fuel r = Some out -> framed_reader_collect m fuel r = Some out.
Proof.
  revert m r out. induction n as [|n IH]; intros m r out Hle; [done|]. destruct m as [|m]; [lia|].
  rewrite !collect_S. destruct (framed_reader_next fuel r) as [[r' [[x|]| |]]|]; try done.
  destruct (framed_reader_collect n fuel r') as [[xs o]|] eqn:E; [|done]. intros [= <-].
  by rewrite (IH m r' (xs, o)) by (lia || done).
Qed.

(** Any records written through a framed writer come back in order. *)
Lemma framed_roundtrip records :
  records <> [] -> Forall arb_record records ->
  exists bytes, framed_bytes records = Ok bytes /\ framed_records bytes = Ok records.
Proof.
  intros Hne Hrs. unfold framed_bytes.
  assert (Forall record_valid records) as Hv by (eapply Forall_impl; [exact Hrs|apply arb_record_valid]).
  destruct (framed_writer_vec_contents records Hv) as (w1 & w2 & -> & -> & -> & _).
  eexists. split; [done|]. set (bytes := concat _).
  assert (length records <= length bytes)%nat as Hlen.
  { subst bytes. clear -Hv. induction Hv as [|r rs Hr _ IH]; cbn; [done|]. rewrite length_app.
    pose proof (wire_nonempty r Hr). unfold blen in *. lia. }
  assert (good_source [ReadData bytes]) as Hg.
  { repeat constructor. intros ->. destruct records; [done|cbn in Hlen; lia]. }
  assert (source_bytes [ReadData bytes] = bytes) as Hs by apply app_nil_r.
  unfold framed_records. rewrite (collect_more (S (length records)) _ _ _ (records, Ok tt)); [reflexivity|lia|].
  destruct records as [|r0 rs]; [done|]. apply Forall_cons_1 in Hv as [Hr0 Hv].
  apply (collect_wires _ (r0 :: rs) [] r0); [by apply framed_reader_new_wf|by constructor|done|apply prefix_nil| | |].
  - intros He. pose proof (wire_nonempty r0 Hr0) as Hp. rewrite <- He in Hp. done.
  - by rewrite framed_reader_new_pending, Hs, app_nil_r.
  - change (fr_inner (framed_reader_new ?x)) with x. rewrite Hs. unfold blen. lia.
Qed.
Lemma prop_framed_passes records :
  records <> [] -> Forall arb_record records -> prop_framed_writer_reader_roundtrip records = true.
Proof.
  intros Hne Hrs. unfold prop_framed_writer_reader_roundtrip.
  destruct (framed_roundtrip records Hne Hrs) as (bytes & -> & Hd). cbn [unwrap_and]. rewrite Hd. apply records_eqb_refl.
Qed.

Lemma codec_tests_pass : forallb id
  [framed_reader_grows_buffer_even_after_prior_compaction; framed_reader_handles_record_split_across_fill_boundary;
   framed_reader_stops_cleanly_on_torn_trailing_record] = true.
Proof. vm_compute. reflexivity. Qed.

(** ** record.rs *)

Definition key_as_bytes_from_bytes : bool :=
  let key := key_new 1 2 3 4 in
  let bytes := key_to_be_bytes key in
  (KEY_SIZE =? blen bytes) && unwrap_and (key_from_be_bytes bytes) (fun key2 => bool_decide (key = key2)).

(** ** memtable.rs *)

(** [Key::dummy] *)
Definition key_dummy (i : Z) : Key := key_new i i i i.
Definition append_full_none (o : AppendOutput) : bool := match o with AppendFull None => true | _ => false end.
Definition append_ok (o : AppendOutput) : bool := match o with AppendOk => true | _ => false end.
(** the loop that leaves room for one record *)
Definition fill_all_but_one (payload : list byte) (m : MemtableInner) : list Z -> MemtableInner * bool :=
  foldl (fun '(m, b) i =>
    let rec := {| rec_key := key_dummy i; rec_payload := payload |} in
    let '(m, o) := memtable_append rec m in
    (m, b && append_ok o && (mt_size_bytes m =? record_size_of rec * (i + 1)))) (m, true).
(** the [i]th record's field is [i] *)
Definition numbered (f : Key -> Z) (rs : list LogRecord) : bool :=
  bool_decide ((fun r => f (rec_key r)) <$> rs = seqZ 0 (blen rs)).

Definition lifecylce : bool :=
  let base := {| rec_key := key_new 1 2 3 4; rec_payload := map u8_of [1; 2; 3; 4] |} in
  let max_count := 4 in
  let max_size := max_count * record_size_of base in
  let '(m, filled_ok) := fill_all_but_one (rec_payload base) (with_size_limit 1 max_size) (seqZ 0 (max_count - 1)) in
  let '(m, res) := memtable_append {| rec_key := key_dummy (max_count - 1); rec_payload := rec_payload base |} m in
  let before := filled_ok && was_appended res && append_full_none res && (memtable_count m =? max_count) && (mt_size_bytes m =? max_size) in
  let '(m, again) := memtable_append base m in
  let full := negb (was_appended again) && unwrap_and (E := Error) (memtable_full_range m) (numbered stream_id) in
  let '(m, f) := memtable_freeze 2 m in
  before && full && (mt_size_bytes f =? max_size) && (memtable_count f =? max_count) && (mt_size_bytes m =? 0) && (memtable_count m =? 0) &&
  unwrap_and (E := Error) (memtable_range (Included key_default)
    (Excluded {| stream_id := 0; timestamp := 0; sequence_num := 0; source_id := u64_max |}) f) (numbered source_id).

(** ** label.rs *)

Definition foo_bar_baz (a b c : String.string) : list (Label.str * Label.str) :=
  [(Text.str "bar", Text.str b); (Text.str "baz", Text.str c); (Text.str "foo", Text.str a)].
Definition label_it_works : bool :=
  let labelmap := {| lm_inner := foo_bar_baz "barbar" "bazbaz" "foofoo"; lm_fingerprint := 0 |} in
  let '(buf, n) := labelmap_encode labelmap (filled 0 (wire_len labelmap)) in
  unwrap_and n (fun n => (n =? blen buf) &&
    unwrap_and (@labelmap_decode ref_nom sum_hasher buf) (fun o =>
      match o with Some (labelmap2, read) => (n =? read) && bool_decide (lm_inner labelmap = lm_inner labelmap2) | None => false end)).

Lemma data_tests_pass : forallb id [key_as_bytes_from_bytes; lifecylce; label_it_works] = true.
Proof. vm_compute. reflexivity. Qed.

(** ** lsm.rs *)

(** [data]: a payload with its labels, and without *)
Definition test_labels : LabelMap := @labelmap_new sum_hasher (foo_bar_baz "bar" "baz" "foo").
Definition payload_without_labelmap : list byte := Text.str "asd".
Definition payload_with_labelmap : outcome CodecError (list byte) :=
  match labelmap_encode test_labels (filled 0 (wire_len test_labels)) with
  | (buf, Ok n) => _ ← assert_that (n =? wire_len test_labels); Ok (buf ++ payload_without_labelmap)
  | (_, Err e) => Err e
  | (_, Panic) => Panic
  end.
Definition test_record_size : Z := KEY_SIZE + 16 + blen payload_without_labelmap.
(** [LsmTree::new_test] *)
Definition lsm_new_test (memtable_limit : Z) (block_size_limit : option Z) : LsmTree :=
  lsm_new {| opt_basepath := []; opt_block_size_limit := block_size_limit; opt_memtable := with_size_limit 0 memtable_limit;
             opt_sst_handles := []; opt_stream_reg := registry_default; opt_next_stream_id := 0; opt_next_seq_num := 0;
             opt_retention_days := None; opt_io_tx := {| ch_sent := []; ch_open := true |} |}.
(** appending a payload per source, each with its own suffix, at the times of a clock that ticks *)
Fixpoint append_singles (payload : list byte) (suffix : Z -> list byte) (sources : list Z) : st LsmTree Error unit :=
  match sources with
  | [] => mret tt
  | i :: rest => _ ← @append_single ref_nom sum_hasher (1000 + i) (payload ++ suffix i) i; append_singles payload suffix rest
  end.

Definition lsm_append_test : bool :=
  unwrap_and payload_with_labelmap (fun payload =>
    let max_count := 4 in
    match append_singles payload (fun _ => []) (seqZ 0 max_count) (lsm_new_test (max_count * test_record_size) None) with
    | (lsm, Ok _) =>
        (mt_size_bytes (lsm_memtable lsm) =? 0) && (all_memtable_size_bytes lsm =? max_count * test_record_size) &&
        match append_singles payload (fun _ => []) (seqZ 0 (max_count * 2)) lsm with
        | (lsm, Ok _) => all_memtable_size_bytes lsm =? 3 * max_count * test_record_size
        | _ => false
        end
    | _ => false
    end).
Definition lsm_range_test : bool :=
  unwrap_and payload_with_labelmap (fun payload =>
    let max_count := 4 in
    let rec_count := max_count * 4 in
    match append_singles payload fmt_uint (seqZ 0 rec_count) (lsm_new_test (max_count * test_record_size) None) with
    | (lsm, Ok _) =>
        unwrap_and (@lsm_range (list_heap HeapItem) _ sum_crc32 sum_fnv elements_order (labelmap_iter test_labels) None None lsm)
          (fun it => match @labeled_iter_collect (list_heap HeapItem) _ sum_crc32 (S (Z.to_nat rec_count)) it with
                     | Some out => blen out =? rec_count
                     | None => false
                     end)
    | _ => false
    end).

Lemma lsm_tests_pass : lsm_append_test && lsm_range_test = true.
Proof. vm_compute. reflexivity. Qed.

(** ** manifest.rs *)

Definition TestManifest : Type := Manifest (list byte).
Definition test_manifest (max_file_size : option Z) : TestManifest := manifest_open [] None max_file_size.
(** [Manifest::sync] *)
Definition manifest_sync : st TestManifest CodecError unit := _ ← manifest_flush; on_file f_sync_all.
(** [Manifest::new_reader] and [collect], every entry unwrapped *)
Definition manifest_entries (m : TestManifest) : outcome CodecError (list ManifestEntry) :=
  let fuel := S (length (manifest_file m)) in
  match @framed_reader_collect _ (@ManifestEntry_codec ref_nom sum_hasher) fuel fuel (manifest_as_reader m) with
  | Some (es, Ok _) => Ok es
  | Some (_, Err e) => Err e
  | _ => Panic
  end.
Definition manifest_append_all : list ManifestEntry -> st TestManifest CodecError bool :=
  @manifest_append_many (list byte) _ _ ref_nom sum_hasher ref_json.
Definition manifest_cut : st TestManifest CodecError unit := @snapshot_truncate (list byte) _ _ ref_nom sum_hasher ref_json.
(** [ManifestEntry]'s derived equality *)
Definition entry_eqb (a b : ManifestEntry) : bool :=
  match a, b with
  | MemtableFlush i, MemtableFlush j => i =? j
  | Compaction l, Compaction k => bool_decide (l = k)
  | StreamUpdate i m, StreamUpdate j n => (i =? j) && labelmap_eqb m n
  | _, _ => false
  end.
Definition entries_eqb (l k : list ManifestEntry) : bool :=
  (length l =? length k)%nat && forallb (fun p => entry_eqb p.1 p.2) (combine l k).

Definition barbar : LabelMap := @labelmap_new sum_hasher (foo_bar_baz "barbar" "bazbaz" "foofoo").
(** the [i]th entry: built with the constructors, or with the checked functions *)
Definition entry_at (i : Z) : ManifestEntry :=
  match i mod 3 with 0 => MemtableFlush i | 1 => Compaction [i] | _ => StreamUpdate 67 barbar end.
Definition checked_entry_at (i : Z) : option ManifestEntry :=
  match i mod 3 with 0 => Some (sst_flush i) | 1 => compaction [i] | _ => stream_update 67 barbar end.
(** the entries of the snapshot test: [n] is the number in the labels *)
Definition snapshot_entry_at (n i : Z) : option ManifestEntry :=
  match i mod 3 with
  | 0 => Some (sst_flush i)
  | 1 => compaction [i; i + 1; i + 2]
  | _ => stream_update i (@labelmap_new sum_hasher
           [(Text.str "bar", fmt_uint n); (Text.str "baz", fmt_uint n); (Text.str "foo", fmt_uint n)])
  end.
Definition batch (f : Z -> option ManifestEntry) (from len : Z) : outcome CodecError (list ManifestEntry) :=
  match mapM f (seqZ from len) with Some es => Ok es | None => Panic end.

Definition manifest_lifecycle : bool :=
  unwrap_and ((_ ← manifest_append_all (entry_at <$> seqZ 0 100); manifest_sync) (test_manifest None)).2 (fun _ => true).
Definition manifest_recover : bool :=
  let written := entry_at <$> seqZ 0 100 in
  let '(m, o) := (_ ← manifest_append_all written; manifest_sync) (test_manifest None) in
  unwrap_and o (fun _ => unwrap_and (manifest_entries m) (fun recovered =>
    (blen recovered =? 100) && entries_eqb written recovered)).
Definition manifest_append_after_recovery_does_not_corrupt_prior_records : bool :=
  unwrap_and (batch checked_entry_at 0 10) (fun first_batch =>
  unwrap_and (batch checked_entry_at 10 10) (fun second_batch =>
    let '(m, o) := (_ ← manifest_append_all first_batch; manifest_sync) (test_manifest None) in
    unwrap_and o (fun _ => unwrap_and (manifest_entries m) (fun _ =>
      let '(m, o) := (_ ← manifest_append_all second_batch; manifest_sync) m in
      unwrap_and o (fun _ => unwrap_and (manifest_entries m) (entries_eqb (first_batch ++ second_batch))))))).

(** one round of the snapshot test: a batch, which must have taken a
    snapshot, then another snapshot, which empties the file *)
Definition snapshot_round (es : list ManifestEntry) : st TestManifest CodecError Snapshot :=
  had_snapshot ← manifest_append_all es;
  _ ← manifest_sync;
  _ ← st_lift (assert_that had_snapshot);
  _ ← manifest_cut;
  m ← st_get;
  st_lift (unwrap (mf_snapshot_file m ≫= @from_json ref_json)).
Definition live_count (s : Snapshot) : nat := size (retain_live (sstable_state s)).
Definition snapshots_test : outcome CodecError (Snapshot * Snapshot * Snapshot * bool) :=
  b1 ← batch (fun i => snapshot_entry_at i i) 0 10;
  b2 ← batch (fun i => snapshot_entry_at (i + 1) i) 10 10;
  b3 ← batch (fun i => snapshot_entry_at (i + 1) i) 20 10;
  match snapshot_round b1 (test_manifest (Some 100)) with
  | (m1, Ok s1) =>
      match snapshot_round b2 m1 with
      | (m2, Ok s2) => match snapshot_round b3 m2 with
                       | (_, Ok s3) => Ok (s1, s2, s3, blen (manifest_file m1) =? 0)
                       | (_, Err e) => Err e
                       | (_, Panic) => Panic
                       end
      | (_, Err e) => Err e
      | (_, Panic) => Panic
      end
  | (_, Err e) => Err e
  | (_, Panic) => Panic
  end.
Definition manifest_snapshot_test : bool :=
  unwrap_and snapshots_test (fun '(s1, s2, s3, truncated) =>
    truncated && negb (bool_decide (sstable_state s1 = sstable_state s2 /\ labelmaps s1 = labelmaps s2)) &&
    (live_count s1 <? size (sstable_state s2))%nat && (size (labelmaps s1) <? size (labelmaps s2))%nat &&
    negb (bool_decide (sstable_state s1 = sstable_state s3 /\ labelmaps s1 = labelmaps s3))).

Lemma manifest_tests_pass : forallb id
  [manifest_lifecycle; manifest_recover; manifest_append_after_recovery_does_not_corrupt_prior_records; manifest_snapshot_test] = true.
Proof. vm_compute. reflexivity. Qed.

(** ** sst.rs *)

(** [record] *)
Definition sst_record (i len : Z) : LogRecord := {| rec_key := key_dummy i; rec_payload := filled 67 len |}.
Definition sst_records (n : Z) : list LogRecord := (fun i => sst_record i 512) <$> seqZ 0 n.

#[local] Instance BlockMetadata_eq_dec : EqDecision BlockMetadata.
Proof. solve_decision. Defined.
Definition block_meta_codec : bool :=
  let metas := (fun i => {| bm_offset := i; bm_first_key := key_dummy (i + 1); bm_last_key := key_dummy (i + 2) |}) <$> [0; 1] in
  unwrap_and (@encode_metas sum_crc32 metas) (fun bytes =>
    unwrap_and (@decode_metas sum_crc32 bytes) (fun m2 => bool_decide (metas = m2))).
Lemma block_meta_codec_passes : block_meta_codec = true.
Proof. vm_compute. reflexivity. Qed.

(** writing [n] records of 512 bytes to a file and finalizing it, as five of
    the tests start ([new] and [write] unwrapped) *)
Definition written_sst (block_limit : option Z) (n : Z) : outcome SstError SstHandle :=
  sw ← @sst_file_writer_new ref_sizing 1 false block_limit n;
  match @sst_write_all _ _ sum_crc32 sum_fnv (sst_records n) sw with
  | (sw, Ok _) => @finalize_file sum_crc32 sw
  | (_, Err e) => Err e
  | (_, Panic) => Panic
  end.

Definition test_sst_writer_inmem : outcome SstError unit :=
  let num_records := 512 in
  match @sst_writer_new (list byte) ref_sizing [] None num_records with
  | Ok sw =>
      match (_ ← @sst_write_all _ _ sum_crc32 sum_fnv (sst_records num_records); @sst_finalize _ _ sum_crc32) sw with
      | (sw, Ok _) => assert_that (sw_record_count sw =? num_records)
      | (_, Err e) => Err e
      | (_, Panic) => Panic
      end
  | _ => Panic
  end.
Definition test_sst_file_writer : outcome SstError unit := _ ← written_sst None 512; Ok tt.
Definition test_sst_read_block : outcome SstError unit :=
  sst ← written_sst None 10;
  _ ← foldr (fun i k => _ ← @read_block sum_crc32 sst i; k) (Ok tt) (seqZ 0 (blen (sh_block_metadata sst)));
  assert_that (match @read_block sum_crc32 sst (blen (sh_block_metadata sst)) with Err _ => true | _ => false end).
(** the first loop: [next] until there is an error or no record *)
Fixpoint count_records (fuel : nat) (c : SstCursor) : SstCursor * Z :=
  match fuel with
  | O => (c, 0)
  | S fuel =>
      match sst_cursor_get_error c, sst_cursor_current_record c with
      | None, Some _ => let '(c, _) := @sst_cursor_next sum_crc32 c in
                        let '(c, n) := count_records fuel c in (c, 1 + n)
      | _, _ => (c, 0)
      end
  end.
(** the other loops: seeking each of the records *)
Fixpoint seek_each (rs : list LogRecord) (c : SstCursor) : SstCursor * bool :=
  match rs with
  | [] => (c, true)
  | r :: rs =>
      let '(c, _) := @sst_cursor_seek sum_crc32 (rec_key r) c in
      match sst_cursor_get_error c, sst_cursor_current_record c with
      | None, Some r' => let '(c, b) := seek_each rs c in (c, record_eqb r r' && b)
      | _, _ => (c, false)
      end
  end.
(** [shuffled] is the order the random number generator gives *)
Definition cursor_checks (sst : SstHandle) (records shuffled : list LogRecord) : outcome SstError unit :=
  o ← @sst_cursor sum_crc32 sum_fnv sst None;
  c ← unwrap o;
  let '(c, i) := count_records (S (length records)) c in
  _ ← assert_that (i =? blen records);
  let '(c, in_order) := seek_each records c in
  _ ← assert_that in_order;
  assert_that (seek_each shuffled c).2.
Definition test_sst_cursor (shuffled : list LogRecord) : outcome SstError unit :=
  sst ← written_sst None 10; cursor_checks sst (sst_records 10) shuffled.
Definition test_sst_open : outcome SstError unit :=
  sst ← written_sst (Some DEFAULT_BLOCK_SIZE) 10;
  _ ← @open_path sum_crc32 ref_nom (fun _ => Some (sfh_content (sh_fh sst))) (format_sst_filename (sst_handle_id sst)); Ok tt.

Lemma written_sst_never block_limit n h : written_sst block_limit n <> Ok h.
Proof.
  unfold written_sst. destruct (sst_file_writer_new _ _ _ _) as [sw| |]; [|done..]. rewrite ok_bind.
  destruct (sst_write_all _ sw) as [sw' [[]| |]]; [|done..]. apply finalize_file_never.
Qed.
(** None of the tests that finalize an SST passes. *)
Lemma sst_tests_fail shuffled :
  test_sst_writer_inmem <> Ok tt /\ test_sst_file_writer <> Ok tt /\ test_sst_read_block <> Ok tt /\
  test_sst_cursor shuffled <> Ok tt /\ test_sst_open <> Ok tt.
Proof.
  split_and!.
  - unfold test_sst_writer_inmem. destruct (sst_writer_new _ _ _) as [sw| |]; [|done..]. rewrite st_bind_unfold.
    destruct (sst_write_all _ sw) as [s1 [[]| |]]; [|done..].
    pose proof (finalize_never (H0 := sum_crc32) s1) as Hn. destruct (sst_finalize s1) as [s2 [r| |]]; [|done..].
    by destruct (Hn r).
  - unfold test_sst_file_writer. destruct (written_sst None 512) as [h| |] eqn:E; [|done..]. by apply written_sst_never in E.
  - unfold test_sst_read_block. destruct (written_sst None 10) as [h| |] eqn:E; [|done..]. by apply written_sst_never in E.
  - unfold test_sst_cursor. destruct (written_sst None 10) as [h| |] eqn:E; [|done..]. by apply written_sst_never in E.
  - unfold test_sst_open. destruct (written_sst _ 10) as [h| |] eqn:E; [|done..]. by apply written_sst_never in E.
Qed.

(** The cursor itself does what the test asserts, on a file that has its
    blocks and block index. *)
Definition handle_of (n : Z) : option SstHandle :=
  match @sst_file_writer_new ref_sizing 1 false None n with
  | Ok sw => match (_ ← @sst_write_all _ _ sum_crc32 sum_fnv (sst_records n); @sst_flush_pending _ _ sum_crc32) sw with
             | (sw, Ok _) => Some {| sh_fh := sw_writer sw; sh_block_metadata := sw_block_meta sw;
                                     sh_block_metadata_start_offset := blen (sfh_content (sw_writer sw)); sh_bloom := sw_bloom sw |}
             | _ => None
             end
  | _ => None
  end.
Lemma cursor_checks_pass :
  match handle_of 10 with
  | Some sst => cursor_checks sst (sst_records 10) (reverse (sst_records 10)) = Ok tt
  | None => False
  end.
Proof. vm_compute. reflexivity. Qed.

(** ** wal.rs *)

Definition PAYLOAD : list byte := Text.str "du bist gut genug".
Definition TestWal : Type := Wal (list byte).
Definition wal_batch (stream ts : Z) (from len : Z) : list LogRecord :=
  (fun seq => {| rec_key := key_new 1 ts seq stream; rec_payload := PAYLOAD |}) <$> seqZ from len.
(** [append] of each record, unwrapped, and [flush] *)
Definition append_flush (rs : list LogRecord) (w : TestWal) : TestWal * outcome io_error unit :=
  match wal_append_all rs w with
  | (w, Ok _) => wal_flush w
  | (w, _) => (w, Panic)
  end.
(** [Wal::test_recover]: a reader from the start of the file *)
Definition test_recover (w : TestWal) : outcome CodecError (list LogRecord) := framed_records (bw_inner (fw_inner (wal_framed w))).
Definition unwrapped {E F A} (o : outcome E A) : outcome F A := match o with Ok a => Ok a | _ => Panic end.

Definition wal_lifecycle (w : TestWal) : outcome io_error unit := (append_flush (wal_batch 4 2 0 100) w).2.
Definition wal_recover (w : TestWal) : outcome io_error unit :=
  let written := wal_batch 67 2 0 100 in
  let '(w, o) := append_flush written w in
  _ ← o;
  recovered ← unwrapped (test_recover w);
  _ ← assert_that (numbered sequence_num recovered &&
                   forallb (fun r => (stream_id (rec_key r) =? 67) && bool_decide (rec_payload r = PAYLOAD)) recovered);
  assert_that ((blen recovered =? 100) && records_eqb written recovered).
Definition wal_append_after_recovery_does_not_corrupt_prior_records (w : TestWal) : outcome io_error unit :=
  let first_batch := wal_batch 1 1 0 10 in
  let second_batch := wal_batch 1 1 10 10 in
  let '(w, o) := append_flush first_batch w in
  _ ← o;
  let '(w, o) := append_flush second_batch w in
  _ ← o;
  recovered ← unwrapped (test_recover w);
  assert_that (records_eqb (first_batch ++ second_batch) recovered).

(** Each starts with [Wal::new], which panics. *)
Definition wal_tests : list (outcome io_error unit) :=
  (fun body => w ← wal_new ([] : list byte); body w) <$>
    [wal_lifecycle; wal_recover; wal_append_after_recovery_does_not_corrupt_prior_records].
Lemma wal_tests_panic : wal_tests = [Panic; Panic; Panic].
Proof. reflexivity. Qed.
(** With [open_empty] in its place they stop at the [todo!] in [flush], but
    what is in the file then is what the second test asks for. *)
Lemma wal_tests_stop_at_flush :
  let '(w, o) := append_flush (wal_batch 67 2 0 100) (wal_open_empty [] 0) in
  o = Panic /\ unwrap_and (test_recover w) (records_eqb (wal_batch 67 2 0 100)) = true.
Proof. vm_compute. done. Qed.
