(* ===== verification/Net.v ===== *)
(** * The network front end: logregator-net/src/lib.rs

    The parsers of the request codec, the decoder, the iterator over the
    payloads of a batch, and the loop that serves requests from the tree.
    The connection loop is unfinished in the source: it starts with
    [todo!]. *)
From S2P Require Import Prelude Std Ext Record Memtable Label MergeIter Lsm.

(** a parser that fails: recoverably, or for good *)
Inductive nom_err := NomError | NomFailure.

Section request_codec.
Context `{Nom}.

(** [?] on a complete-input parser: an [Error] *)
Definition nom_lift {A} (r : option A) : outcome nom_err A :=
  match r with Some a => Ok a | None => Err NomError end.

(** [(MIN_STR_SIZE..MIN_STR_SIZE).contains(&len)] *)
Definition lp_len_ok (len : Z) : bool := (MIN_STR_SIZE <=? len) && (len <? MIN_STR_SIZE).

Definition parse_lp_str (src : list byte) : outcome nom_err (list byte * list byte) :=
  '(input, len) ← nom_lift (nom_be_u8 src);
  if negb (lp_len_ok len) then Err NomFailure
  else
    '(input, str_bs) ← nom_lift (nom_take len input);
    if utf8_valid str_bs then Ok (input, str_bs) else Err NomFailure.

(** the [input] of the loop body is a new variable in every turn *)
Fixpoint parse_lp_pairs (n : nat) (input : list byte) : outcome nom_err (list (list byte * list byte)) :=
  match n with
  | O => Ok []
  | S n =>
      '(input1, key) ← parse_lp_str input;
      '(_, val) ← parse_lp_str input1;
      v ← parse_lp_pairs n input;
      Ok ((key, val) :: v)
  end.

Definition parse_lp_str_vec (src : list byte) : outcome nom_err (list byte * list (list byte * list byte)) :=
  '(input, label_count) ← nom_lift (nom_be_u8 src);
  '(input, _) ← nom_lift (nom_take label_count input);
  v ← parse_lp_pairs (Z.to_nat label_count) input;
  Ok (input, v).
End request_codec.

(** ** [BytesUtf8] *)

Record BytesUtf8 := { bu_bytes : list byte }.
Definition from_bytes (src : list byte) : outcome unit BytesUtf8 :=
  if utf8_valid src then Ok {| bu_bytes := src |} else Err tt.
Definition as_utf8_str (b : BytesUtf8) : outcome unit (list byte) :=
  if utf8_valid (bu_bytes b) then Ok (bu_bytes b) else Panic.

(** ** Requests *)

Record BytesOffset := { bo_raw : list byte; bo_offsets : list Z }.

Inductive Request :=
| AppendBatch (batch : BytesOffset)
| NetRange (labels : list (BytesUtf8 * BytesUtf8)) (start_time end_time : option Z).

(** [Decoder for RequestCodec]: both kinds are [todo!] *)
Inductive net_error := NetIo | NetRequestSend (r : Request) | NetResponseRecvDisconnected | NetCodec (tag : Z).
Definition request_decode (src : list byte) : outcome net_error (option Request) :=
  match src with
  | [] => Ok None
  | b :: _ => let tag := u8_val b in if tag =? 0 then Panic else if tag =? 1 then Panic else Err (NetCodec tag)
  end.

(** ** [AppendBatchIter] *)

(** [AppendBatchIter::new] also holds a [debug_assert!] that there are
    offsets, which release builds compile out. *)
Record AppendBatchIter := { ab_inner : BytesOffset; ab_offset_idx : option Z }.
Definition append_batch_iter_new (batch : BytesOffset) : AppendBatchIter :=
  {| ab_inner := batch; ab_offset_idx := Some 0 |}.

(** the offset of the next payload becomes the index into the offsets *)
Definition append_batch_next (it : AppendBatchIter) : AppendBatchIter * outcome unit (option (list byte)) :=
  match ab_offset_idx it with
  | None => (it, Ok None)
  | Some idx =>
      let offsets := bo_offsets (ab_inner it) in
      let '(next, end_) :=
        if idx + 1 <? blen offsets
        then match offsets !! Z.to_nat (idx + 1) with Some o => (Some o, o) | None => (None, 0) end
        else (None, blen offsets) in
      match index (E := unit) offsets idx with
      | Ok start_offset =>
          match slice (E := unit) (bo_raw (ab_inner it)) start_offset end_ with
          | Ok s => ({| ab_inner := ab_inner it; ab_offset_idx := next |}, Ok (Some s))
          | _ => (it, Panic)
          end
      | _ => (it, Panic)
      end
  end.

(** ** [lsm_loop] *)

Section lsm_loop.
Context {H : Type} `{!MinHeap HeapItem H, Crc32, Fnv, HashSetOrder}.

Inductive Response := RangeResponse (iter : LabeledIter H).

(** [mpsc::Sender::send]: a future, which sends when it is awaited *)
Definition mpsc_send (r : Response) : st (list Response) unit unit := fun sent => (sent ++ [r], Ok tt).

(** the strings of the labels are read while the tree goes through them *)
Fixpoint label_strs (labels : list (BytesUtf8 * BytesUtf8)) : outcome unit (list (list byte * list byte)) :=
  match labels with
  | [] => Ok []
  | (k, v) :: labels => k ← as_utf8_str k; v ← as_utf8_str v; rest ← label_strs labels; Ok ((k, v) :: rest)
  end.

(** one request; the future of [send] is dropped without being awaited *)
Definition serve_request (t : LsmTree) (r : Request) : st (list Response) unit unit :=
  match r with
  | AppendBatch _ => st_panic
  | NetRange labels start_time end_time =>
      labels ← st_lift (label_strs labels);
      match lsm_range labels start_time end_time t with
      | Ok iter => let _future := mpsc_send (RangeResponse iter) in mret tt
      | Err _ => mret tt
      | Panic => st_panic
      end
  end.

Fixpoint serve_all (t : LsmTree) (requests : list Request) : st (list Response) unit unit :=
  match requests with
  | [] => mret tt
  | r :: requests => _ ← serve_request t r; serve_all t requests
  end.
(** what [recv_many] gives in each turn; nothing when the queue is closed *)
Fixpoint serve_turns (t : LsmTree) (turns : list (list Request)) : st (list Response) unit unit :=
  match turns with
  | [] | [] :: _ => mret tt
  | requests :: turns => _ ← serve_all t requests; serve_turns t turns
  end.
Definition lsm_loop (t : LsmTree) (recv_buf_size labeled_iter_buf : Z) (turns : list (list Request))
    : st (list Response) unit unit :=
  if (recv_buf_size =? 0) || (labeled_iter_buf =? 0) then st_panic else serve_turns t turns.

(** whatever is asked, nothing reaches the queue of responses *)
Lemma st_bind_silent {S E A B} (m : st S E A) (f : A -> st S E B) s :
  (m s).1 = s -> (forall a, (f a s).1 = s) -> ((x ← m; f x) s).1 = s.
Proof. intros Hm Hf. rewrite st_bind_unfold. destruct (m s) as [s' [a|e|]]; cbn in *; subst s'; [apply Hf|done..]. Qed.
Lemma lsm_loop_silent t n m turns sent : (lsm_loop t n m turns sent).1 = sent.
Proof.
  assert (forall r, (serve_request t r sent).1 = sent) as Hreq.
  { intros [b|labels s e]; [done|]. apply st_bind_silent; [done|]. intros ls. by destruct (lsm_range ls s e t). }
  assert (forall l, (serve_all t l sent).1 = sent) as Hall.
  { induction l as [|r l IH]; [done|]. by apply st_bind_silent. }
  unfold lsm_loop. case_if; [done|]. induction turns as [|[|r l] turns IH]; [done..|]. by apply st_bind_silent.
Qed.

(** [Encoder for ResponseCodec]: [todo!] *)
Definition response_encode (r : Response) : st (list byte) net_error unit := st_panic.
End lsm_loop.

(** ** Connections *)

(** what the tasks share: the requests sent to the tree *)
Abbreviation NetQueue := (list Request).
(** the first thing [conn_loop] does is to evaluate a [todo!] *)
Definition net_conn_loop (input : list byte) : st NetQueue net_error unit := st_panic.

(** [accept] in a loop, each connection with a task of its own ([None]:
    [accept] fails, which ends the loop); the results of the tasks *)
Fixpoint accept_loop (accepts : list (option (list byte))) : st NetQueue net_error (list (outcome net_error unit)) :=
  match accepts with
  | [] => mret []
  | None :: _ => st_err NetIo
  | Some input :: accepts => fun q =>
      let '(q, o) := net_conn_loop input q in
      (rest ← accept_loop accepts; mret (o :: rest)) q
  end.
Definition task_per_conn (bound : bool) (accepts : list (option (list byte))) : st NetQueue net_error (list (outcome net_error unit)) :=
  if bound then accept_loop accepts else st_err NetIo.

(** whoever connects and whatever is sent, every task panics and no request
    reaches the tree *)
Lemma task_per_conn_panics bound accepts q :
  (task_per_conn bound accepts q).1 = q /\
  forall l, (task_per_conn bound accepts q).2 = Ok l -> length l = length accepts /\ Forall (eq Panic) l.
Proof.
  unfold task_per_conn. destruct bound; [|done]. induction accepts as [|[input|] accepts [IHq IH]]; cbn; [|rewrite st_bind_unfold|done].
  - split; [done|]. intros l [= <-]. by split.
  - destruct (accept_loop accepts q) as [q' [l0| |]]; cbn in *; subst q'; [|done..]. split; [done|].
    intros l [= <-]. destruct (IH l0 eq_refl) as [Hl Hf]. split; [cbn; by rewrite Hl|by constructor].
Qed.

(** ** Claims *)

Section net_claims.
Context `{NomLaws}.

Lemma lp_len_never n : lp_len_ok n = false.
Proof. unfold lp_len_ok, MIN_STR_SIZE. destruct (1 <=? n) eqn:E; gsplit; [|done]. cbn. apply Z.ltb_ge. lia. Qed.

(** The request codec reads nothing. Its string parser rejects every
    input, since the range of lengths it accepts ends where it starts; the
    parser of label lists therefore accepts only empty lists; and the decoder
    never returns a request: on the two known tags it panics. *)
Theorem net_codec_reads_nothing (src rest : list byte) (b : byte) (v : list (list byte * list byte)) (rq : Request) :
  (exists e, parse_lp_str src = Err e) /\
  (parse_lp_str_vec src = Ok (rest, v) -> v = [] /\ src = u8_of 0 :: rest) /\
  request_decode src <> Ok (Some rq) /\
  (u8_val b < 2 -> request_decode (b :: src) = Panic).
Proof.
  assert (forall s, exists e, parse_lp_str s = Err e) as Hno.
  { intros s. unfold parse_lp_str. rewrite nom_be_u8_spec. destruct s as [|x s]; cbn; [by eexists|].
    rewrite lp_len_never. cbn. by eexists. }
  split_and!; [apply Hno| | |].
  - unfold parse_lp_str_vec. rewrite nom_be_u8_spec. destruct src as [|x src]; cbn; [done|]. rewrite nom_take_spec.
    pose proof (u8_val_range x) as [Hx _]. case_if; cbn; [done|]. destruct (Z.to_nat (u8_val x)) as [|n] eqn:En; cbn.
    + intros [= <- <-]. split; [done|]. f_equal. rewrite <- (u8_of_val x). f_equal. lia.
    + match goal with |- context [parse_lp_str ?s] => destruct (Hno s) as [e ->] end. done.
  - unfold request_decode. destruct src as [|x src]; [done|]. cbv zeta. by repeat case_if.
  - intros Hb. pose proof (u8_val_range b) as [? _]. cbn. case_if; [done|]. case_if; [done|]. lia.
Qed.

(** [AppendBatchIter] mixes up offsets and their positions. A batch of
    two payloads whose second starts at or after byte 2 yields the first one
    and panics on the second; a batch of one payload never yields it: the
    end of the last payload is the number of offsets, so it is cut to nothing
    or the call panics. *)
Theorem append_batch_iter_lost (raw : list byte) (o1 o2 : Z) (H1 : 1 <= o1 <= o2) (H2 : 2 <= o2 <= blen raw) :
  let it := append_batch_iter_new {| bo_raw := raw; bo_offsets := [o1; o2] |} in
  (exists it', append_batch_next it = (it', Ok (Some (take (Z.to_nat (o2 - o1)) (drop (Z.to_nat o1) raw)))) /\
     append_batch_next it' = (it', Panic)) /\
  let it1 := append_batch_iter_new {| bo_raw := raw; bo_offsets := [o1] |} in
  (append_batch_next it1).2 = if o1 =? 1 then Ok (Some []) else Panic.
Proof.
  split.
  - exists {| ab_inner := {| bo_raw := raw; bo_offsets := [o1; o2] |}; ab_offset_idx := Some o2 |}. split.
    + unfold append_batch_next. cbn [ab_offset_idx ab_inner append_batch_iter_new bo_offsets bo_raw].
      change (0 + 1 <? blen [o1; o2]) with true. cbn [lookup list_lookup Z.to_nat]. change ([o1; o2] !! Z.to_nat (0 + 1)) with (Some o2).
      change (index (E := unit) [o1; o2] 0) with (@Ok unit Z o1). cbn iota beta. by rewrite slice_ok by lia.
    + unfold append_batch_next. cbn [ab_offset_idx ab_inner bo_offsets bo_raw].
      assert (index (E := unit) [o1; o2] o2 = Panic) as ->.
      { unfold index. if_true. by rewrite lookup_ge_None_2 by (cbn; lia). }
      destruct (if _ : bool then _ else _) as [next e]. done.
  - unfold append_batch_next. cbn [ab_offset_idx ab_inner append_batch_iter_new bo_offsets bo_raw].
    change (0 + 1 <? blen [o1]) with false. change (blen [o1]) with 1. change (index (E := unit) [o1] 0) with (@Ok unit Z o1). cbn iota beta.
    unfold slice. destruct (o1 =? 1) eqn:E; gsplit; [subst o1; by if_true|by if_false].
Qed.

(** a string made by [from_bytes] can always be read: [as_utf8_str] returns
    the bytes it was made of and does not panic *)
Lemma bytes_utf8_reads (src : list byte) (b : BytesUtf8) :
  from_bytes src = Ok b -> as_utf8_str b = Ok src.
Proof. unfold from_bytes, as_utf8_str. destruct (utf8_valid src) eqn:E; [|done]. intros [= <-]. cbn. by rewrite E. Qed.
End net_claims.

(** at an input that starts with a label count of zero *)
Lemma net_codec_reads_nothing_witness :
  @parse_lp_str_vec ref_nom [u8_of 0; u8_of 9] = Ok ([u8_of 9], []) /\ request_decode [u8_of 1; u8_of 0; u8_of 9] = Panic.
Proof.
  destruct (@net_codec_reads_nothing ref_nom ref_nom_laws [u8_of 0; u8_of 9] [u8_of 9] (u8_of 1) []
    (NetRange [] None None)) as (_ & Hv & _ & Hp).
  assert (@parse_lp_str_vec ref_nom [u8_of 0; u8_of 9] = Ok ([u8_of 9], [])) as E by reflexivity.
  destruct (Hv E) as [_ _]. split; [exact E|]. apply Hp. vm_compute. reflexivity.
Defined.
