(* ===== verification/CoreProto.v ===== *)
(** * The client protocol: logregator-core/src/proto.rs

    Length-delimited frames, the messages of the two directions, and the
    codecs of the two ends. [decode] works on the connection's buffer
    ([BytesMut]): it takes a whole frame off the front or leaves the buffer
    alone. *)
From S2P Require Import Prelude Std Codec.

Definition LENGTH_SZ : Z := 4.
#[export] Hint Unfold LENGTH_SZ : sizes.

(** ** Messages *)

Record Insert := { ins_source_id : Z; ins_ts : Z; ins_key : list byte; ins_value : list byte }.

Record RangeReq := {
  rng_source_id : Z; rng_key : list byte; rng_start_ts : Z; rng_end_ts : Z; rng_filter : list byte
}.

Inductive ClientMessage :=
| CmInsert (i : Insert)
| CmRange (r : RangeReq)
| CmBatchInsert (records : list Insert)
| CmMetrics
| CmPing.

Record ProtoRecord := {
  pr_source_id : Z; pr_ts : Z; pr_seq : Z; pr_key : list byte; pr_value : list byte
}.

Inductive ServerMessage :=
| SmInsertOk
| SmRangeRecord (r : ProtoRecord)
| SmRangeEnd
| SmMetrics (json : list byte)
| SmPong
| SmError (err : list byte).

(** ** Reading fields

    The context strings of the errors are left out: every one of them ends
    up in an [io::Error::other]. *)

Definition io_other {A} : outcome io_error A := Err (IoError OtherIo).

(** [buf.get(off..off + n)] *)
Definition proto_array (n : nat) (buf : list byte) (off : Z) : outcome io_error (list byte) :=
  if off + Z.of_nat n <=? blen buf then Ok (take n (drop (Z.to_nat off) buf)) else io_other.
Definition array4 : list byte -> Z -> outcome io_error (list byte) := proto_array 4.
Definition array8 : list byte -> Z -> outcome io_error (list byte) := proto_array 8.

Definition from_utf8 (bs : list byte) : outcome io_error (list byte) :=
  if utf8_valid bs then Ok bs else io_other.

(** [from_utf8(&buf[off..off + len])]: indexing panics out of range *)
Definition str_at (buf : list byte) (off len : Z) : outcome io_error (list byte) :=
  bs ← slice buf off (off + len); from_utf8 bs.

Definition decode_insert (buf : list byte) : outcome io_error Insert :=
  source_id ← array8 buf 0;
  ts ← array8 buf 8;
  kl ← array4 buf 16;
  let key_len := be_val kl in
  key ← str_at buf 20 key_len;
  vl ← array4 buf (20 + key_len);
  value ← str_at buf (24 + key_len) (be_val vl);
  Ok {| ins_source_id := be_val_i64 source_id; ins_ts := be_val_i64 ts; ins_key := key; ins_value := value |}.

Definition decode_range (buf : list byte) : outcome io_error RangeReq :=
  source_id ← array8 buf 0;
  kl ← array4 buf 8;
  let key_len := be_val kl in
  key ← str_at buf 12 key_len;
  start_ts ← array8 buf (12 + key_len);
  end_ts ← array8 buf (20 + key_len);
  fl ← array4 buf (28 + key_len);
  filter ← str_at buf (32 + key_len) (be_val fl);
  Ok {| rng_source_id := be_val_i64 source_id; rng_key := key; rng_start_ts := be_val_i64 start_ts;
        rng_end_ts := be_val_i64 end_ts; rng_filter := filter |}.

Fixpoint decode_inserts (num : nat) (buf : list byte) (offset : Z) : outcome io_error (list Insert) :=
  match num with
  | O => Ok []
  | S num =>
      source_id ← array8 buf offset;
      ts ← array8 buf (offset + 8);
      kl ← array4 buf (offset + 16);
      let key_len := be_val kl in
      key ← str_at buf (offset + 20) key_len;
      vl ← array4 buf (offset + 20 + key_len);
      let value_len := be_val vl in
      value ← str_at buf (offset + 24 + key_len) value_len;
      rest ← decode_inserts num buf (offset + 24 + key_len + value_len);
      Ok ({| ins_source_id := be_val_i64 source_id; ins_ts := be_val_i64 ts; ins_key := key;
             ins_value := value |} :: rest)
  end.
Definition decode_batch_insert (buf : list byte) : outcome io_error (list Insert) :=
  n ← array4 buf 0;
  decode_inserts (Z.to_nat (be_val n)) buf 4.

Definition decode_server_range_record (buf : list byte) : outcome io_error ServerMessage :=
  source_id ← array8 buf 0;
  ts ← array8 buf 8;
  seq ← array8 buf 16;
  kl ← array4 buf 24;
  let key_len := be_val kl in
  key ← str_at buf 28 key_len;
  vl ← array4 buf (28 + key_len);
  value ← str_at buf (32 + key_len) (be_val vl);
  Ok (SmRangeRecord {| pr_source_id := be_val_i64 source_id; pr_ts := be_val_i64 ts; pr_seq := be_val seq;
                       pr_key := key; pr_value := value |}).

Definition decode_server_error (buf : list byte) : outcome io_error (list byte) :=
  n ← array4 buf 0; str_at buf 4 (be_val n).
Definition decode_metrics (buf : list byte) : outcome io_error ServerMessage :=
  n ← array4 buf 0; json ← str_at buf 4 (be_val n); Ok (SmMetrics json).

(** ** Frames *)

(** what both decoders do first: wait for a whole frame and split it off *)
Definition take_frame {A} (body : byte -> list byte -> outcome io_error A) : st (list byte) io_error (option A) :=
  fun src =>
    if blen src <? LENGTH_SZ then (src, Ok None)
    else
      let frame_len := be_val (take 4 src) in
      let total_len := LENGTH_SZ + frame_len in
      if blen src <? total_len then (src, Ok None)
      else
        let frame := drop 4 (take (Z.to_nat total_len) src) in
        (drop (Z.to_nat total_len) src,
         msg_type ← index frame 0;
         m ← body msg_type (drop 1 frame);
         Ok (Some m)).

Definition client_message_body (msg_type : byte) (frame : list byte) : outcome io_error ClientMessage :=
  let t := u8_val msg_type in
  if t =? 0x01 then i ← decode_insert frame; Ok (CmInsert i)
  else if t =? 0x02 then r ← decode_range frame; Ok (CmRange r)
  else if t =? 0x03 then b ← decode_batch_insert frame; Ok (CmBatchInsert b)
  else if t =? 0x04 then Ok CmMetrics
  else if t =? 0x05 then Ok CmPing
  else Err (IoError InvalidData).

(** [Decoder for ServerCodec] *)
Definition server_codec_decode : st (list byte) io_error (option ClientMessage) := take_frame client_message_body.

Definition server_message_body (msg_type : byte) (frame : list byte) : outcome io_error ServerMessage :=
  let t := u8_val msg_type in
  if t =? 0x81 then Ok SmInsertOk
  else if t =? 0x82 then decode_server_range_record frame
  else if t =? 0x83 then Ok SmRangeEnd
  else if t =? 0x84 then decode_metrics frame
  else if t =? 0x85 then Ok SmPong
  else if t =? 0xFF then e ← decode_server_error frame; Ok (SmError e)
  else Err (IoError InvalidData).

(** [Decoder for ClientCodec] *)
Definition client_codec_decode : st (list byte) io_error (option ServerMessage) := take_frame server_message_body.

(** ** Writing

    [put_u32(s.len() as u32)] and [put_slice(s)]. *)
Definition put_str (s : list byte) : list byte := be_bytes 4 (wrap32 (blen s)) ++ s.

Definition insert_body (i : Insert) : list byte :=
  be_bytes 8 (ins_source_id i) ++ be_bytes 8 (ins_ts i) ++ put_str (ins_key i) ++ put_str (ins_value i).

Definition proto_encode_record (r : ProtoRecord) : list byte :=
  be_bytes 8 (pr_source_id r) ++ be_bytes 8 (pr_ts r) ++ be_bytes 8 (pr_seq r) ++
  put_str (pr_key r) ++ put_str (pr_value r).

(** the bytes appended after the length field *)
Definition client_message_bytes (msg : ClientMessage) : list byte :=
  match msg with
  | CmInsert i => u8_of 0x01 :: insert_body i
  | CmRange r => u8_of 0x02 :: be_bytes 8 (rng_source_id r) ++ put_str (rng_key r) ++
                 be_bytes 8 (rng_start_ts r) ++ be_bytes 8 (rng_end_ts r) ++ put_str (rng_filter r)
  | CmBatchInsert rs => u8_of 0x03 :: be_bytes 4 (wrap32 (blen rs)) ++ concat (map insert_body rs)
  | CmMetrics => [u8_of 0x04]
  | CmPing => [u8_of 0x05]
  end.

Definition server_message_bytes (msg : ServerMessage) : list byte :=
  match msg with
  | SmInsertOk => [u8_of 0x81]
  | SmRangeRecord rec => u8_of 0x82 :: proto_encode_record rec
  | SmRangeEnd => [u8_of 0x83]
  | SmMetrics json => u8_of 0x84 :: put_str json
  | SmPong => [u8_of 0x85]
  | SmError err => u8_of 0xFF :: put_str err
  end.

(** writes a zero length, then the message, then goes back and fills the
    length in *)
Definition put_frame (body : list byte) : st (list byte) io_error unit := fun dst =>
  let start := blen dst in
  let dst := dst ++ be_bytes 4 0 ++ body in
  let frame_len := blen dst - start - LENGTH_SZ in
  copy_into start (start + LENGTH_SZ) (be_bytes 4 (wrap32 frame_len)) dst.

(** [Encoder<ClientMessage> for ClientCodec], [Encoder<ServerMessage> for ServerCodec] *)
Definition client_codec_encode (msg : ClientMessage) : st (list byte) io_error unit :=
  put_frame (client_message_bytes msg).
Definition server_codec_encode (msg : ServerMessage) : st (list byte) io_error unit :=
  put_frame (server_message_bytes msg).

(** ** Validity: what the Rust types guarantee, and frames below 4 GiB *)

Definition str_ok (s : list byte) : Prop := utf8_valid s = true /\ in_u32 (blen s).
Record insert_ok (i : Insert) : Prop := {
  io_source : in_i64 (ins_source_id i); io_ts : in_i64 (ins_ts i);
  io_key : str_ok (ins_key i); io_value : str_ok (ins_value i)
}.
Definition client_message_ok (m : ClientMessage) : Prop :=
  in_u32 (blen (client_message_bytes m)) /\
  match m with
  | CmInsert i => insert_ok i
  | CmRange r => in_i64 (rng_source_id r) /\ str_ok (rng_key r) /\ in_i64 (rng_start_ts r) /\
                 in_i64 (rng_end_ts r) /\ str_ok (rng_filter r)
  | CmBatchInsert rs => Forall insert_ok rs /\ in_u32 (blen rs)
  | CmMetrics | CmPing => True
  end.
Definition server_message_ok (m : ServerMessage) : Prop :=
  in_u32 (blen (server_message_bytes m)) /\
  match m with
  | SmRangeRecord r => in_i64 (pr_source_id r) /\ in_i64 (pr_ts r) /\ in_u64 (pr_seq r) /\
                       str_ok (pr_key r) /\ str_ok (pr_value r)
  | SmMetrics s | SmError s => str_ok s
  | SmInsertOk | SmRangeEnd | SmPong => True
  end.

(** ** Reading back what was written *)

Lemma wrap32_in_u32 z : in_u32 z -> wrap32 z = z.
Proof. unfold in_u32, u32_max, wrap32. intros. apply Z.mod_small. lia. Qed.

Lemma put_str_eq s : str_ok s -> put_str s = be_bytes 4 (blen s) ++ s.
Proof. intros [_ Hs]. unfold put_str. by rewrite wrap32_in_u32. Qed.

Lemma proto_array_split n buf (pre x rest : list byte) off :
  buf = pre ++ x ++ rest -> off = blen pre -> blen x = Z.of_nat n -> proto_array n buf off = Ok x.
Proof.
  intros -> -> Hx. unfold proto_array. if_true. rewrite drop_app_blen by done.
  replace n with (Z.to_nat (blen x)) by lia. by rewrite take_app_blen.
Qed.

Lemma str_at_split buf (pre s rest : list byte) off len :
  buf = pre ++ s ++ rest -> off = blen pre -> len = blen s -> str_ok s -> str_at buf off len = Ok s.
Proof. intros -> -> -> [Hu _]. unfold str_at. rewrite slice_app, ok_bind by done. unfold from_utf8. by rewrite Hu. Qed.

(** [reads pre] reads the field that follows [pre] in the buffer *)
Ltac reads pre :=
  first [eapply (proto_array_split _ _ pre) | eapply (str_at_split _ pre)];
  [rewrite <- ?app_assoc; reflexivity|zlia|first [zlia | done]..].

Lemma insert_reads (pre rest : list byte) i off buf :
  insert_ok i -> buf = pre ++ insert_body i ++ rest -> off = blen pre ->
  let k := blen (ins_key i) in
  array8 buf off = Ok (be_bytes 8 (ins_source_id i)) /\
  array8 buf (off + 8) = Ok (be_bytes 8 (ins_ts i)) /\
  array4 buf (off + 16) = Ok (be_bytes 4 k) /\
  str_at buf (off + 20) k = Ok (ins_key i) /\
  array4 buf (off + 20 + k) = Ok (be_bytes 4 (blen (ins_value i))) /\
  str_at buf (off + 24 + k) (blen (ins_value i)) = Ok (ins_value i).
Proof.
  intros [_ _ Hk Hv] -> ->. unfold insert_body, array4, array8. rewrite !put_str_eq by done. cbv zeta.
  set (a := be_bytes 8 (ins_source_id i)). set (b := be_bytes 8 (ins_ts i)).
  set (kl := be_bytes 4 (blen (ins_key i))). set (vl := be_bytes 4 (blen (ins_value i))).
  assert (blen a = 8 /\ blen b = 8 /\ blen kl = 4 /\ blen vl = 4) as (? & ? & ? & ?)
    by (split_and!; apply blen_be_bytes).
  split_and!.
  - reads pre.
  - reads (pre ++ a).
  - reads (pre ++ a ++ b).
  - reads (pre ++ a ++ b ++ kl).
  - reads (pre ++ a ++ b ++ kl ++ ins_key i).
  - reads (pre ++ a ++ b ++ kl ++ ins_key i ++ vl).
Qed.

Lemma insert_eta i :
  insert_ok i -> {| ins_source_id := be_val_i64 (be_bytes 8 (ins_source_id i));
                    ins_ts := be_val_i64 (be_bytes 8 (ins_ts i)); ins_key := ins_key i; ins_value := ins_value i |} = i.
Proof. intros [? ? _ _]. rewrite !be_val_i64_be_bytes by done. by destruct i. Qed.

Lemma decode_insert_body i rest : insert_ok i -> decode_insert (insert_body i ++ rest) = Ok i.
Proof.
  intros Hi. pose proof Hi as [_ _ [_ Hk] [_ Hv]].
  destruct (insert_reads [] rest i 0 (insert_body i ++ rest) Hi eq_refl eq_refl) as (H1 & H2 & H3 & H4 & H5 & H6).
  rewrite ?Z.add_0_l in *. unfold decode_insert. rewrite H1, ok_bind, H2, ok_bind, H3, ok_bind. cbv zeta.
  rewrite be_val_u32, H4, ok_bind by done. rewrite H5, ok_bind, be_val_u32, H6, ok_bind by done. by rewrite insert_eta.
Qed.

Lemma blen_insert_body i : blen (insert_body i) = 24 + blen (ins_key i) + blen (ins_value i).
Proof. unfold insert_body, put_str. zlia. Qed.

Lemma decode_inserts_body xs (pre rest : list byte) off :
  Forall insert_ok xs -> off = blen pre ->
  decode_inserts (length xs) (pre ++ concat (map insert_body xs) ++ rest) off = Ok xs.
Proof.
  intros Hxs. revert pre off. induction Hxs as [|i xs Hi Hxs IH]; intros pre off Hoff; [done|].
  pose proof Hi as [_ _ [_ Hk] [_ Hv]]. cbn [length decode_inserts map concat].
  destruct (insert_reads pre (concat (map insert_body xs) ++ rest) i off
    (pre ++ (insert_body i ++ concat (map insert_body xs)) ++ rest) Hi) as (H1 & H2 & H3 & H4 & H5 & H6);
    [by rewrite <- !app_assoc|done|].
  rewrite H1, ok_bind, H2, ok_bind, H3, ok_bind. cbv zeta.
  rewrite be_val_u32, H4, ok_bind by done. rewrite H5, ok_bind, be_val_u32, H6, ok_bind by done.
  replace (pre ++ (insert_body i ++ concat (map insert_body xs)) ++ rest)
    with ((pre ++ insert_body i) ++ concat (map insert_body xs) ++ rest) by (by rewrite <- !app_assoc).
  rewrite IH, ok_bind by (rewrite blen_app, blen_insert_body; lia). by rewrite insert_eta.
Qed.

Lemma decode_range_body r :
  client_message_ok (CmRange r) -> decode_range (drop 1 (client_message_bytes (CmRange r))) = Ok r.
Proof.
  intros (_ & Hs & Hk & Ha & Hb & Hf). cbn [client_message_bytes]. rewrite skipn_cons, drop_0, !put_str_eq by done.
  unfold decode_range, array4, array8. pose proof Hk as [_ Hk']. pose proof Hf as [_ Hf'].
  set (s := be_bytes 8 (rng_source_id r)). set (kl := be_bytes 4 (blen (rng_key r))).
  set (a := be_bytes 8 (rng_start_ts r)). set (b := be_bytes 8 (rng_end_ts r)).
  set (fl := be_bytes 4 (blen (rng_filter r))). set (buf := s ++ _).
  assert (blen s = 8 /\ blen kl = 4 /\ blen a = 8 /\ blen b = 8 /\ blen fl = 4) as (? & ? & ? & ? & ?)
    by (split_and!; apply blen_be_bytes).
  assert (proto_array 8 buf 0 = Ok s) as -> by reads (@nil byte). rewrite ok_bind.
  assert (proto_array 4 buf 8 = Ok kl) as -> by reads s. rewrite ok_bind. cbv zeta.
  replace (be_val kl) with (blen (rng_key r)) by (symmetry; by apply be_val_u32).
  assert (str_at buf 12 (blen (rng_key r)) = Ok (rng_key r)) as -> by reads (s ++ kl). rewrite ok_bind.
  assert (proto_array 8 buf (12 + blen (rng_key r)) = Ok a) as -> by reads (s ++ kl ++ rng_key r). rewrite ok_bind.
  assert (proto_array 8 buf (20 + blen (rng_key r)) = Ok b) as -> by reads (s ++ kl ++ rng_key r ++ a). rewrite ok_bind.
  assert (proto_array 4 buf (28 + blen (rng_key r)) = Ok fl) as -> by reads (s ++ kl ++ rng_key r ++ a ++ b).
  rewrite ok_bind. replace (be_val fl) with (blen (rng_filter r)) by (symmetry; by apply be_val_u32).
  assert (str_at buf (32 + blen (rng_key r)) (blen (rng_filter r)) = Ok (rng_filter r)) as ->.
  { eapply (str_at_split _ (s ++ kl ++ rng_key r ++ a ++ b ++ fl) _ []); [|zlia|done|done].
    unfold buf. by rewrite app_nil_r, <- !app_assoc. }
  rewrite ok_bind. unfold s, a, b. rewrite !be_val_i64_be_bytes by done. by destruct r.
Qed.

Lemma decode_str_body s : str_ok s ->
  (n ← array4 (put_str s) 0; str_at (put_str s) 4 (be_val n)) = Ok s.
Proof.
  intros Hs. rewrite put_str_eq by done. pose proof (blen_be_bytes 4 (blen s)) as Hl. unfold array4.
  assert (proto_array 4 (be_bytes 4 (blen s) ++ s) 0 = Ok (be_bytes 4 (blen s))) as ->.
  { apply (proto_array_split _ _ [] _ s); done. }
  rewrite ok_bind, be_val_u32 by (by destruct Hs).
  apply (str_at_split _ (be_bytes 4 (blen s)) s []); [by rewrite app_nil_r|by rewrite Hl|done|done].
Qed.

Lemma decode_record_body r :
  in_i64 (pr_source_id r) -> in_i64 (pr_ts r) -> in_u64 (pr_seq r) -> str_ok (pr_key r) -> str_ok (pr_value r) ->
  decode_server_range_record (proto_encode_record r) = Ok (SmRangeRecord r).
Proof.
  intros Hs Ht Hq Hk Hv. unfold proto_encode_record. rewrite !put_str_eq by done.
  unfold decode_server_range_record, array4, array8. pose proof Hk as [_ Hk']. pose proof Hv as [_ Hv'].
  set (s := be_bytes 8 (pr_source_id r)). set (t := be_bytes 8 (pr_ts r)). set (q := be_bytes 8 (pr_seq r)).
  set (kl := be_bytes 4 (blen (pr_key r))). set (vl := be_bytes 4 (blen (pr_value r))). set (buf := s ++ _).
  assert (blen s = 8 /\ blen t = 8 /\ blen q = 8 /\ blen kl = 4 /\ blen vl = 4) as (? & ? & ? & ? & ?)
    by (split_and!; apply blen_be_bytes).
  assert (proto_array 8 buf 0 = Ok s) as -> by reads (@nil byte). rewrite ok_bind.
  assert (proto_array 8 buf 8 = Ok t) as -> by reads s. rewrite ok_bind.
  assert (proto_array 8 buf 16 = Ok q) as -> by reads (s ++ t). rewrite ok_bind.
  assert (proto_array 4 buf 24 = Ok kl) as -> by reads (s ++ t ++ q). rewrite ok_bind. cbv zeta.
  replace (be_val kl) with (blen (pr_key r)) by (symmetry; by apply be_val_u32).
  assert (str_at buf 28 (blen (pr_key r)) = Ok (pr_key r)) as -> by reads (s ++ t ++ q ++ kl). rewrite ok_bind.
  assert (proto_array 4 buf (28 + blen (pr_key r)) = Ok vl) as -> by reads (s ++ t ++ q ++ kl ++ pr_key r).
  rewrite ok_bind. replace (be_val vl) with (blen (pr_value r)) by (symmetry; by apply be_val_u32).
  assert (str_at buf (32 + blen (pr_key r)) (blen (pr_value r)) = Ok (pr_value r)) as ->.
  { eapply (str_at_split _ (s ++ t ++ q ++ kl ++ pr_key r ++ vl) _ []); [|zlia|done|done].
    unfold buf. by rewrite app_nil_r, <- !app_assoc. }
  rewrite ok_bind. unfold s, t, q. rewrite !be_val_i64_be_bytes, be_val_u64 by done. by destruct r.
Qed.

Lemma client_body_ok m :
  client_message_ok m ->
  exists t body, client_message_bytes m = t :: body /\ client_message_body t body = Ok m.
Proof.
  intros Hm. destruct m as [i|r|rs| |]; cbn [client_message_bytes]; eexists _, _; (split; [reflexivity|]).
  1-3: unfold client_message_body; cbv zeta; rewrite u8_val_of by done.
  - cbn [Z.eqb Pos.eqb]. destruct Hm as [_ Hi]. rewrite <- (app_nil_r (insert_body i)). by rewrite decode_insert_body.
  - cbn [Z.eqb Pos.eqb]. pose proof (decode_range_body r Hm) as Hr. cbn [client_message_bytes] in Hr.
    rewrite skipn_cons, drop_0 in Hr. by rewrite Hr.
  - cbn [Z.eqb Pos.eqb]. destruct Hm as [_ [Hrs Hn]]. unfold decode_batch_insert, array4. rewrite wrap32_in_u32 by done.
    rewrite (proto_array_split 4 _ [] (be_bytes 4 (blen rs)) (concat (map insert_body rs))), ok_bind by done.
    rewrite be_val_u32 by done. replace (Z.to_nat (blen rs)) with (length rs) by (unfold blen; lia).
    pose proof (decode_inserts_body rs (be_bytes 4 (blen rs)) [] 4 Hrs) as Hd. rewrite app_nil_r in Hd.
    rewrite Hd; [done|]. by rewrite blen_be_bytes.
  - by vm_compute.
  - by vm_compute.
Qed.

Lemma server_body_ok m :
  server_message_ok m ->
  exists t body, server_message_bytes m = t :: body /\ server_message_body t body = Ok m.
Proof.
  intros [_ Hm]. destruct m as [|r| |s| |s]; cbn [server_message_bytes]; eexists _, _; (split; [reflexivity|]).
  2,4,6: unfold server_message_body; cbv zeta; rewrite u8_val_of by done; cbn [Z.eqb Pos.eqb].
  - by vm_compute.
  - destruct Hm as (? & ? & ? & ? & ?). by apply decode_record_body.
  - pose proof (decode_str_body s Hm) as Hs. unfold decode_metrics.
    destruct (array4 (put_str s) 0) as [n| |]; [|done..]. rewrite ok_bind in Hs. by rewrite ok_bind, Hs.
  - pose proof (decode_str_body s Hm) as Hs. unfold decode_server_error.
    destruct (array4 (put_str s) 0) as [n| |]; [|done..]. rewrite ok_bind in Hs. by rewrite ok_bind, Hs.
  - by vm_compute.
  - by vm_compute.
Qed.

(** ** Frames *)

Definition frame (body : list byte) : list byte := be_bytes 4 (blen body) ++ body.

Lemma put_frame_ok body dst : in_u32 (blen body) -> put_frame body dst = (dst ++ frame body, Ok tt).
Proof.
  intros Hb. unfold put_frame, frame.
  replace (blen (dst ++ be_bytes 4 0 ++ body) - blen dst - LENGTH_SZ) with (blen body) by zlia.
  rewrite wrap32_in_u32 by done. apply copy_into_middle; [done|zlia|zlia].
Qed.

Section frames.
Context {A : Type} (dec : byte -> list byte -> outcome io_error A).

Lemma take_frame_step t body (rest : list byte) :
  in_u32 (blen (t :: body)) ->
  take_frame dec (frame (t :: body) ++ rest) = (rest, m ← dec t body; Ok (Some m)).
Proof.
  intros Hb. unfold take_frame, frame. rewrite <- app_assoc. set (h := be_bytes 4 (blen (t :: body))).
  assert (blen h = 4) as Hh by apply blen_be_bytes. if_false.
  assert (take 4 (h ++ (t :: body) ++ rest) = h) as -> by (by apply (take_app_blen h _ 4)).
  assert (be_val h = blen (t :: body)) as -> by (by apply be_val_u32). if_false.
  rewrite app_assoc, drop_app_blen, take_app_blen by zlia.
  by assert (drop 4 (h ++ t :: body) = t :: body) as -> by (by apply (drop_app_blen h _ 4)).
Qed.

Lemma take_frame_ok t body m (rest : list byte) :
  in_u32 (blen (t :: body)) -> dec t body = Ok m ->
  take_frame dec (frame (t :: body) ++ rest) = (rest, Ok (Some m)).
Proof. intros Hb Hd. by rewrite take_frame_step, Hd by done. Qed.

Lemma take_frame_partial body (k : nat) :
  in_u32 (blen body) -> (k < length (frame body))%nat ->
  take_frame dec (take k (frame body)) = (take k (frame body), Ok None).
Proof.
  intros Hb Hk. unfold take_frame. assert (blen (take k (frame body)) = Z.of_nat k) as Hl
    by (unfold blen; rewrite length_take; lia).
  rewrite Hl. case_if; [done|]. unfold LENGTH_SZ in *.
  assert (take 4 (take k (frame body)) = be_bytes 4 (blen body)) as ->.
  { rewrite take_take, Nat.min_l by lia. unfold frame. apply (take_app_blen _ _ 4). by rewrite blen_be_bytes. }
  assert (Z.of_nat k < 4 + blen body) as Hlt
    by (unfold frame, blen in *; rewrite length_app, length_be_bytes in Hk; lia).
  rewrite be_val_u32 by done. by if_true.
Qed.
End frames.

(** ** Claims *)

(** C32: the protocol round trips in both directions. Every message the types
    allow (strings are UTF-8, frames below 4 GiB) is appended by the sender's
    codec as one frame; whatever follows it, the receiver's codec takes
    exactly that frame off its buffer and returns the same message; and of any
    proper prefix of the frame it takes nothing and waits for more. *)
Theorem proto_roundtrip (c : ClientMessage) (s : ServerMessage) (dst rest : list byte)
    (Hc : client_message_ok c) (Hs : server_message_ok s) :
  (exists f, client_codec_encode c dst = (dst ++ f, Ok tt) /\
     server_codec_decode (f ++ rest) = (rest, Ok (Some c)) /\
     forall k, (k < length f)%nat -> server_codec_decode (take k f) = (take k f, Ok None)) /\
  (exists f, server_codec_encode s dst = (dst ++ f, Ok tt) /\
     client_codec_decode (f ++ rest) = (rest, Ok (Some s)) /\
     forall k, (k < length f)%nat -> client_codec_decode (take k f) = (take k f, Ok None)).
Proof.
  pose proof Hc as [Hcl _]. pose proof Hs as [Hsl _].
  destruct (client_body_ok c Hc) as (t & body & Eb & Hb), (server_body_ok s Hs) as (t' & body' & Eb' & Hb').
  split; eexists; (split; [by apply put_frame_ok|]); split.
  - rewrite Eb in *. by apply take_frame_ok.
  - intros k Hk. by apply take_frame_partial.
  - rewrite Eb' in *. by apply take_frame_ok.
  - intros k Hk. by apply take_frame_partial.
Qed.

(** Two frames any client can send make the server's decoder panic
    instead of returning an error: an empty frame (length 0), and an insert
    whose key length points past its frame. In both cases the frame has been
    taken off the buffer. *)
Theorem proto_decode_panics (rest : list byte) (source_id ts key_len : Z) (tail : list byte)
    (Hkey : in_u32 key_len) (Hpast : blen tail < key_len) (Hfits : blen tail < u32_max - 21) :
  server_codec_decode (be_bytes 4 0 ++ rest) = (rest, Panic) /\
  server_codec_decode (frame (u8_of 0x01 :: be_bytes 8 source_id ++ be_bytes 8 ts ++ be_bytes 4 key_len ++ tail) ++ rest)
  = (rest, Panic).
Proof.
  split; unfold server_codec_decode.
  - unfold take_frame. assert (take 4 (be_bytes 4 0 ++ rest) = be_bytes 4 0) as ->
      by (apply (take_app_blen _ _ 4); by rewrite blen_be_bytes).
    rewrite be_val_u32 by done. do 2 if_false.
    rewrite drop_app_blen, take_app_blen by (by rewrite blen_be_bytes).
    rewrite (drop_ge (be_bytes 4 0)) by (by rewrite length_be_bytes).
    done.
  - set (a := be_bytes 8 source_id). set (b := be_bytes 8 ts). set (kl := be_bytes 4 key_len).
    assert (blen a = 8 /\ blen b = 8 /\ blen kl = 4) as (Ha & Hb & Hkl) by (split_and!; apply blen_be_bytes).
    rewrite take_frame_step by (split; [zlia|rewrite blen_cons, !blen_app; lia]).
    unfold client_message_body. rewrite u8_val_of by done. cbn [Z.eqb Pos.eqb].
    unfold decode_insert, array4, array8. set (buf := a ++ _).
    assert (proto_array 8 buf 0 = Ok a) as -> by reads (@nil byte). rewrite ok_bind.
    assert (proto_array 8 buf 8 = Ok b) as -> by reads a. rewrite ok_bind.
    assert (proto_array 4 buf 16 = Ok kl) as -> by reads (a ++ b). rewrite ok_bind. cbv zeta.
    replace (be_val kl) with key_len by (symmetry; by apply be_val_u32).
    assert (blen buf = 20 + blen tail) as Hbuf by (unfold buf; zlia).
    assert (str_at buf 20 key_len = Panic) as ->; [|done].
    unfold str_at, slice. rewrite Hbuf. by if_false.
Qed.

(** ** Witnesses *)

Definition sample_insert : Insert :=
  {| ins_source_id := -3; ins_ts := 5; ins_key := [u8_of 107]; ins_value := [u8_of 104; u8_of 105] |}.

Lemma sample_insert_ok : insert_ok sample_insert.
Proof. split; [by split|by split|by split; [|split]|by split; [|split]]. Qed.

Lemma proto_roundtrip_witness :
  exists f, client_codec_encode (CmBatchInsert [sample_insert; sample_insert]) [] = (f, Ok tt) /\
    server_codec_decode f = ([], Ok (Some (CmBatchInsert [sample_insert; sample_insert]))).
Proof.
  destruct (proto_roundtrip (CmBatchInsert [sample_insert; sample_insert]) SmPong [] []) as [(f & He & Hd & _) _].
  - split; [by split|]. split; [|by split]. by repeat (apply Forall_cons; split; [exact sample_insert_ok|]).
  - by split; [split|].
  - exists f. rewrite app_nil_r in Hd. done.
Defined.

Lemma proto_decode_panics_witness :
  server_codec_decode (be_bytes 4 0) = ([], Panic) /\
  server_codec_decode (frame (u8_of 0x01 :: be_bytes 8 1 ++ be_bytes 8 2 ++ be_bytes 4 9 ++ [u8_of 97])) = ([], Panic).
Proof.
  pose proof (proto_decode_panics [] 1 2 9 [u8_of 97]) as Hp. rewrite !app_nil_r in Hp.
  apply Hp; [by split|by vm_compute|by vm_compute].
Defined.
