(* ===== verification/CoreStorage.v ===== *)
(** * The storage of logregator-core: record.rs, memtable.rs, wal.rs

    Records are byte strings that are compared field by field as bytes; the
    memtable is an ordered set of them; the write-ahead log stores them with
    a length prefix and is read back on start. *)
From S2P Require Import Prelude Std Codec CoreProto.

(** ** record.rs *)

Definition CoreRecord : Type := list byte.

Definition MIN_RECORD_SIZE : Z := 34.

(** [as u32] of the lengths *)
Definition from_raw_parts (source_id timestamp seq_num : Z) (key value : list byte) : CoreRecord :=
  be_bytes 8 source_id ++ be_bytes 8 timestamp ++ be_bytes 8 seq_num ++
  be_bytes 4 (wrap32 (blen key)) ++ key ++ be_bytes 4 (wrap32 (blen value)) ++ value.

Definition from_vec (bytes : list byte) : CoreRecord := bytes.
Definition core_record_len (r : CoreRecord) : Z := blen r.

(** [bail!]: the message is left out *)
Definition bail {A} : outcome io_error A := Err (IoError OtherIo).

Definition extract_source_id (r : CoreRecord) : outcome io_error Z :=
  if blen r <? 8 then bail else bs ← array_at 8 r 0; Ok (be_val_i64 bs).
Definition extract_timestamp (r : CoreRecord) : outcome io_error Z :=
  if blen r <? 16 then bail else bs ← array_at 8 r 8; Ok (be_val_i64 bs).
Definition extract_seq_num (r : CoreRecord) : outcome io_error Z :=
  if blen r <? 24 then bail else bs ← array_at 8 r 16; Ok (be_val bs).

Definition extract_key (r : CoreRecord) : outcome io_error (list byte) :=
  if blen r <? 28 then bail
  else
    kl ← array_at 4 r 24;
    let key_len := be_val kl in
    if blen r <? 28 + key_len then bail else slice r 28 (28 + key_len).

Definition extract_value (r : CoreRecord) : outcome io_error (list byte) :=
  if blen r <? 28 then bail
  else
    kl ← array_at 4 r 24;
    let key_len := be_val kl in
    if blen r <? 28 + key_len then bail
    else if blen r <? 32 + key_len then bail
    else
      vl ← array_at 4 r (28 + key_len);
      let value_len := be_val vl in
      if blen r <? 32 + key_len + value_len then bail
      else slice r (32 + key_len) (32 + key_len + value_len).

Definition extract_all_fields_no_value_ref (r : CoreRecord) : outcome io_error (Z * Z * Z * list byte) :=
  if blen r <? 24 then bail
  else
    source_id ← array_at 8 r 0;
    timestamp ← array_at 8 r 8;
    seq ← array_at 8 r 16;
    if blen r <? 28 then bail
    else
      kl ← array_at 4 r 24;
      let key_len := be_val kl in
      if blen r <? 28 + key_len then bail
      else
        key ← slice r 28 (28 + key_len);
        Ok (be_val_i64 source_id, be_val_i64 timestamp, be_val seq, key).

Definition extract_all_fields_ref (r : CoreRecord) : outcome io_error (Z * Z * Z * list byte * list byte) :=
  if blen r <? 24 then bail
  else
    source_id ← array_at 8 r 0;
    timestamp ← array_at 8 r 8;
    seq ← array_at 8 r 16;
    if blen r <? 28 then bail
    else
      kl ← array_at 4 r 24;
      let key_len := be_val kl in
      if blen r <? 28 + key_len then bail
      else
        key ← slice r 28 (28 + key_len);
        if blen r <? 32 + key_len then bail
        else
          vl ← array_at 4 r (28 + key_len);
          let value_len := be_val vl in
          if blen r <? 32 + key_len + value_len then bail
          else
            value ← slice r (32 + key_len) (32 + key_len + value_len);
            Ok (be_val_i64 source_id, be_val_i64 timestamp, be_val seq, key, value).

Definition extract_all_fields_owned (r : CoreRecord) : outcome io_error (Z * Z * Z * list byte * list byte) :=
  fields ← extract_all_fields_ref r;
  let '(sid, ts, seq, k, v) := fields in
  if negb (utf8_valid k) then bail
  else if negb (utf8_valid v) then bail
  else Ok (sid, ts, seq, k, v).

(** [TryFrom<storage::Record> for Record] (proto.rs) *)
Definition proto_record_try_from (r : CoreRecord) : outcome io_error ProtoRecord :=
  fields ← extract_all_fields_owned r;
  let '(sid, ts, seq, k, v) := fields in
  Ok {| pr_source_id := sid; pr_ts := ts; pr_seq := seq; pr_key := k; pr_value := v |}.

(** [PartialOrd]: the fields compared as bytes. All of them are looked at
    before any is compared ([then] takes values), so comparing a record whose
    key cannot be extracted panics. *)
Definition extractable (r : CoreRecord) : bool :=
  match extract_key r with Ok _ => true | _ => false end.
Definition sort_key (r : CoreRecord) : list byte * (list byte * (list byte * list byte)) :=
  (take 8 r, (take 8 (drop 8 r), (take 8 (drop 16 r),
   match extract_key r with Ok k => k | _ => [] end))).
Definition core_record_cmp (a b : CoreRecord) : outcome io_error comparison :=
  if extractable a && extractable b then Ok (cmp (sort_key a) (sort_key b)) else Panic.

(** ** memtable.rs *)

Record MemTable := { cmt_sz : Z; cmt_limit : Z; cmt_bset : list CoreRecord }.

Definition core_memtable_new (limit : Z) : MemTable := {| cmt_sz := 0; cmt_limit := limit; cmt_bset := [] |}.

(** Inserting into a non-empty [BTreeSet] compares the new record with at
    least one of its elements; only a singleton can hold a record that cannot
    be compared, so inserting next to it panics as well. *)
Definition core_bset_insert (rec : CoreRecord) (s : list CoreRecord) : outcome io_error (list CoreRecord) :=
  match s with
  | [] => Ok [rec]
  | _ => if extractable rec && forallb extractable s then Ok (bset_insert sort_key rec s) else Panic
  end.

Definition core_memtable_insert (rec : CoreRecord) : st MemTable io_error bool := fun m =>
  match core_bset_insert rec (cmt_bset m) with
  | Ok s =>
      let sz := cmt_sz m + core_record_len rec in
      ({| cmt_sz := sz; cmt_limit := cmt_limit m; cmt_bset := s |}, Ok (cmt_limit m <? sz))
  | Err e => (m, Err e)
  | Panic => (m, Panic)
  end.

Definition clone_range (source_id start_ts end_ts : Z) (m : MemTable) : outcome io_error (list CoreRecord) :=
  let range_start := from_raw_parts source_id start_ts 0 [] [] in
  let range_end := from_raw_parts source_id end_ts 0 [] [] in
  if forallb extractable (cmt_bset m)
  then bset_range sort_key (Included (sort_key range_start)) (Excluded (sort_key range_end)) (cmt_bset m)
  else Panic.

Definition core_memtable_clear (m : MemTable) : MemTable :=
  {| cmt_sz := 0; cmt_limit := cmt_limit m; cmt_bset := [] |}.
(** the emptied memtable and the frozen one *)
Definition core_memtable_freeze (m : MemTable) : MemTable * MemTable :=
  (core_memtable_clear m, {| cmt_sz := cmt_sz m; cmt_limit := cmt_limit m; cmt_bset := cmt_bset m |}).

(** [IntoIterFiltered] *)
Record IntoIterFiltered := {
  iif_inner : list CoreRecord; iif_source_id : Z; iif_key : list byte;
  iif_start_ts : Z; iif_end_ts : Z; iif_filter : list byte
}.

Definition iif_matches (it : IntoIterFiltered) (r : CoreRecord) : bool :=
  match extract_all_fields_ref r with
  | Ok (sid, ts, _, key, val) =>
      (sid =? iif_source_id it) && (iif_start_ts it <=? ts) && (ts <? iif_end_ts it)
      && bool_decide (key = iif_key it)
      && (match iif_filter it with [] => true | _ => false end || str_contains val (iif_filter it))
  | _ => false
  end.

Fixpoint iif_next_from (it : IntoIterFiltered) (rs : list CoreRecord) : list CoreRecord * option CoreRecord :=
  match rs with
  | [] => ([], None)
  | r :: rs => if iif_matches it r then (rs, Some r) else iif_next_from it rs
  end.
Definition iif_next (it : IntoIterFiltered) : IntoIterFiltered * option CoreRecord :=
  let '(rest, r) := iif_next_from it (iif_inner it) in
  ({| iif_inner := rest; iif_source_id := iif_source_id it; iif_key := iif_key it;
      iif_start_ts := iif_start_ts it; iif_end_ts := iif_end_ts it; iif_filter := iif_filter it |}, r).

(** ** engine.rs: the memtables' part of [range] *)

Definition iif_new (records : list CoreRecord) (source_id : Z) (key : list byte) (start_ts end_ts : Z)
    (filter : list byte) : IntoIterFiltered :=
  {| iif_inner := records; iif_source_id := source_id; iif_key := key;
     iif_start_ts := start_ts; iif_end_ts := end_ts; iif_filter := filter |}.

(** inserting the elements of an iterator into a [BTreeSet], one by one *)
Fixpoint bset_extend (s : list CoreRecord) (rs : list CoreRecord) : outcome io_error (list CoreRecord) :=
  match rs with
  | [] => Ok s
  | r :: rs => s ← core_bset_insert r s; bset_extend s rs
  end.

Fixpoint extend_frozen (source_id start_ts end_ts : Z) (frozen : list MemTable) (all_mem_records : list CoreRecord)
    : outcome io_error (list CoreRecord) :=
  match frozen with
  | [] => Ok all_mem_records
  | f :: fs =>
      recs ← clone_range source_id start_ts end_ts f;
      s ← bset_extend all_mem_records recs; extend_frozen source_id start_ts end_ts fs s
  end.

(** [Engine::range] up to the iterator over the memtables *)
Definition engine_memtable_iter (memtable : MemTable) (frozen : list MemTable) (source_id : Z) (key : list byte)
    (start_ts end_ts : Z) (filter : list byte) : outcome io_error IntoIterFiltered :=
  if end_ts <? start_ts then bail
  else if start_ts <? 0 then bail
  else
    match frozen with
    | [] =>
        recs ← clone_range source_id start_ts end_ts memtable;
        Ok (iif_new recs source_id key start_ts end_ts filter)
    | _ =>
        recs ← clone_range source_id start_ts end_ts memtable;
        s ← bset_extend [] recs;
        s ← extend_frozen source_id start_ts end_ts frozen s;
        Ok (iif_new s source_id key start_ts end_ts filter)
    end.

(** what a consumer that calls [next] until [None] sees *)
Fixpoint iif_collect (fuel : nat) (it : IntoIterFiltered) : option (list CoreRecord) :=
  match fuel with
  | O => None
  | S fuel =>
      match iif_next it with
      | (_, None) => Some []
      | (it, Some r) => cons r <$> iif_collect fuel it
      end
  end.

(** ** wal.rs *)

Section core_wal.
Context {W : Type} `{Write W}.

(** [write_one]; the metrics are in CoreMetered.v *)
Definition wal_write_one (rec : CoreRecord) : st (BufWriter W) io_error unit :=
  _ ← bufwriter_write_all (le_bytes 8 (core_record_len rec)); bufwriter_write_all rec.

Fixpoint wal_write_many (recs : list CoreRecord) : st (BufWriter W) io_error unit :=
  match recs with
  | [] => mret tt
  | r :: rs => _ ← wal_write_one r; wal_write_many rs
  end.

Definition wal_flush_buffer : st (BufWriter W) io_error unit := bufwriter_flush.
End core_wal.

(** [isize::MAX], the largest size of a [Vec<u8>] *)
Definition VEC_MAX : Z := 2 ^ 63 - 1.

(** the loop of [recover_file]: [rest] is what has not been read yet. Each
    turn but the last reads at least eight bytes. *)
Fixpoint recover_loop (fuel : nat) (rest : list byte) : outcome io_error (list CoreRecord) :=
  match fuel with
  | O => Panic
  | S fuel =>
      if blen rest <? 8 then Ok []
      else
        let len := le_val (take 8 rest) in
        let rest := drop 8 rest in
        if VEC_MAX <? len then Panic
        else if blen rest <? len then Err (IoError UnexpectedEof)
        else records ← recover_loop fuel (drop (Z.to_nat len) rest);
             Ok (from_vec (take (Z.to_nat len) rest) :: records)
  end.
Definition recover_file (content : list byte) : outcome io_error (list CoreRecord) :=
  recover_loop (S (length content)) content.

(** [recover_all]: the contents of the [.log] files, in the order in which
    the directory lists them *)
Fixpoint recover_files (files : list (list byte)) (s : list CoreRecord) : outcome io_error (list CoreRecord) :=
  match files with
  | [] => Ok s
  | f :: fs =>
      match recover_file f with
      | Ok recs => s ← bset_extend s recs; recover_files fs s
      | Err _ => recover_files fs s
      | Panic => Panic
      end
  end.
Definition recover_all (files : list (list byte)) : outcome io_error (list CoreRecord) := recover_files files [].

(** ** The byte order of the fields *)

Lemma be_val_cons b bs : be_val (b :: bs) = u8_val b * 2 ^ (8 * blen bs) + be_val bs.
Proof.
  unfold be_val, u8_val. cbn [rev]. rewrite le_combine_app, le_combine_1, length_rev.
  pose proof (le_combine_bound (rev bs)) as Hb. rewrite length_rev in Hb. change (Z.of_nat (length bs)) with (blen bs) in *.
  pose proof (blen_nonneg bs).
  rewrite <- Z.add_nocarry_lor; [rewrite Z.shiftl_mul_pow2 by lia; replace (blen bs * 8) with (8 * blen bs) by lia; lia|].
  apply Z.bits_inj_0. intros n. rewrite Z.land_spec. destruct (Z_lt_le_dec n (blen bs * 8)) as [Hn|Hn].
  - by rewrite (Z.shiftl_spec_low _ _ n), andb_false_r.
  - replace (Z.testbit (le_combine (rev bs)) n) with false; [done|]. symmetry.
    destruct (Z.eq_dec (le_combine (rev bs)) 0) as [->|Hnz]; [apply Z.bits_0|].
    apply Z.bits_above_log2; [lia|]. apply Z.lt_le_trans with (8 * blen bs); [|lia].
    apply Z.log2_lt_pow2; lia.
Qed.

(** Byte strings of one length compare as the unsigned numbers they encode. *)
Lemma bytes_compare_be_val x y : length x = length y -> bytes_compare x y = (be_val x ?= be_val y).
Proof.
  revert y. induction x as [|a x IH]; intros [|b y] Hl; try done. cbn [bytes_compare].
  injection Hl as Hl. rewrite IH, !be_val_cons by done.
  pose proof (be_val_bound x). pose proof (be_val_bound y). unfold blen in *. rewrite Hl in *.
  set (p := 2 ^ _) in *. destruct (Z.compare_spec (u8_val a) (u8_val b)) as [->|E|E]; cbn [ord_then].
  - by rewrite Z.add_compare_mono_l.
  - symmetry. apply Z.compare_lt_iff. nia.
  - symmetry. apply Z.compare_gt_iff. nia.
Qed.

(** ** Records made by [from_raw_parts] *)

Lemma array_at_split n (l pre bs rest : list byte) off :
  l = pre ++ bs ++ rest -> blen pre = off -> blen bs = Z.of_nat n -> array_at (E := io_error) n l off = Ok bs.
Proof. intros -> <- Hn. unfold array_at. apply slice_app; lia. Qed.

Section built.
Context (sid ts seq : Z) (k v : list byte).
Context (Hsid : in_i64 sid) (Hts : in_i64 ts) (Hseq : in_u64 seq).
Context (Hk : in_u32 (blen k)) (Hv : in_u32 (blen v)).

Lemma from_raw_parts_len : blen (from_raw_parts sid ts seq k v) = 32 + blen k + blen v.
Proof. unfold from_raw_parts. zlia. Qed.

Lemma from_raw_parts_reads rest (r := from_raw_parts sid ts seq k v ++ rest) :
  array_at (E := io_error) 8 r 0 = Ok (be_bytes 8 sid) /\ array_at (E := io_error) 8 r 8 = Ok (be_bytes 8 ts) /\
  array_at (E := io_error) 8 r 16 = Ok (be_bytes 8 seq) /\ array_at (E := io_error) 4 r 24 = Ok (be_bytes 4 (blen k)) /\
  slice (E := io_error) r 28 (28 + blen k) = Ok k /\
  array_at (E := io_error) 4 r (28 + blen k) = Ok (be_bytes 4 (blen v)) /\
  slice (E := io_error) r (32 + blen k) (32 + blen k + blen v) = Ok v.
Proof.
  subst r. unfold from_raw_parts. rewrite !wrap32_in_u32, <- !app_assoc by done.
  set (b0 := be_bytes 8 sid). set (b1 := be_bytes 8 ts). set (b2 := be_bytes 8 seq).
  set (b3 := be_bytes 4 (blen k)). set (b4 := be_bytes 4 (blen v)).
  assert (blen b0 = 8) by apply blen_be_bytes. assert (blen b1 = 8) by apply blen_be_bytes.
  assert (blen b2 = 8) by apply blen_be_bytes. assert (blen b3 = 4) by apply blen_be_bytes.
  assert (blen b4 = 4) by apply blen_be_bytes.
  split_and!.
  - by eapply (array_at_split 8 _ [] b0).
  - by eapply (array_at_split 8 _ b0 b1).
  - eapply (array_at_split 8 _ (b0 ++ b1) b2); [by rewrite <- !app_assoc|zlia|done].
  - eapply (array_at_split 4 _ (b0 ++ b1 ++ b2) b3); [by rewrite <- !app_assoc|zlia|done].
  - replace (b0 ++ _) with ((b0 ++ b1 ++ b2 ++ b3) ++ k ++ b4 ++ v ++ rest) by (by rewrite <- !app_assoc).
    apply slice_app; zlia.
  - eapply (array_at_split 4 _ (b0 ++ b1 ++ b2 ++ b3 ++ k) b4); [by rewrite <- !app_assoc|zlia|done].
  - replace (b0 ++ _) with ((b0 ++ b1 ++ b2 ++ b3 ++ k ++ b4) ++ v ++ rest) by (by rewrite <- !app_assoc).
    apply slice_app; zlia.
Qed.

Lemma extract_all_built rest :
  extract_all_fields_ref (from_raw_parts sid ts seq k v ++ rest) = Ok (sid, ts, seq, k, v).
Proof.
  destruct (from_raw_parts_reads rest) as (E0 & E1 & E2 & E3 & E4 & E5 & E6). unfold extract_all_fields_ref.
  rewrite E0, E1, E2, E3, !ok_bind, be_val_u32, E4, E5, !ok_bind, be_val_u32, E6, !ok_bind by done.
  rewrite blen_app, from_raw_parts_len. pose proof (blen_nonneg k). pose proof (blen_nonneg v). pose proof (blen_nonneg rest).
  repeat if_false. by rewrite !be_val_i64_be_bytes, be_val_u64.
Qed.

Lemma extract_key_built : extract_key (from_raw_parts sid ts seq k v) = Ok k.
Proof.
  destruct (from_raw_parts_reads []) as (_ & _ & _ & E3 & E4 & _). rewrite app_nil_r in E3, E4. unfold extract_key.
  rewrite E3, !ok_bind, be_val_u32, E4, from_raw_parts_len by done.
  pose proof (blen_nonneg k). pose proof (blen_nonneg v). by repeat if_false.
Qed.

Lemma sort_key_built :
  sort_key (from_raw_parts sid ts seq k v) = (be_bytes 8 sid, (be_bytes 8 ts, (be_bytes 8 seq, k))).
Proof.
  destruct (from_raw_parts_reads []) as (E0 & E1 & E2 & _). rewrite app_nil_r in E0, E1, E2.
  unfold sort_key. rewrite extract_key_built.
  apply slice_inv in E0 as (_ & _ & ->). apply slice_inv in E1 as (_ & _ & ->). by apply slice_inv in E2 as (_ & _ & ->).
Qed.
End built.

(** ** The order of records and the range of a memtable *)

Lemma extractable_len r : extractable r = true -> 28 <= blen r.
Proof. unfold extractable, extract_key. case_if; [done|]. lia. Qed.

Lemma extract_source_id_eq r : 8 <= blen r -> extract_source_id r = Ok (be_val_i64 (take 8 r)).
Proof. intros Hr. unfold extract_source_id. if_false. unfold array_at. by rewrite slice_ok, ok_bind by lia. Qed.
Lemma extract_timestamp_eq r : 16 <= blen r -> extract_timestamp r = Ok (be_val_i64 (take 8 (drop 8 r))).
Proof. intros Hr. unfold extract_timestamp. if_false. unfold array_at. by rewrite slice_ok, ok_bind by lia. Qed.

Definition core_of_source (source_id : Z) (r : CoreRecord) : bool :=
  match extract_source_id r with Ok sid => sid =? source_id | _ => false end.
(** the records of a source in the half-open window from [s] to [e] *)
Definition core_in_window (source_id s e : Z) (r : CoreRecord) : bool :=
  match extract_source_id r, extract_timestamp r with
  | Ok sid, Ok ts => (sid =? source_id) && (s <=? ts) && (ts <? e)
  | _, _ => false
  end.
(** the same window over the timestamps read as unsigned numbers *)
Definition core_in_unsigned_window (source_id s e : Z) (r : CoreRecord) : bool :=
  match extract_source_id r, extract_timestamp r with
  | Ok sid, Ok ts => (sid =? source_id) && (wrap64 s <=? wrap64 ts) && (wrap64 ts <? wrap64 e)
  | _, _ => false
  end.

Lemma wrap64_i64 z : in_i64 z -> wrap64 z = if z <? 0 then z + 2 ^ 64 else z.
Proof.
  unfold in_i64, wrap64. intros Hz. case_if.
  - rewrite <- (Z.mod_add z 1), Z.mod_small by lia. lia.
  - apply Z.mod_small. lia.
Qed.
Lemma be_val_i64_range bs : blen bs = 8 -> in_i64 (be_val_i64 bs) /\ wrap64 (be_val_i64 bs) = be_val bs.
Proof.
  intros Hb. pose proof (be_val_bound bs) as Hr. rewrite Hb in Hr.
  assert (in_i64 (be_val_i64 bs)) as Hi by (unfold in_i64, be_val_i64; case_if; lia).
  split; [done|]. rewrite wrap64_i64 by done. unfold be_val_i64 in *. repeat case_if; lia.
Qed.
Lemma wrap64_inj a b : in_i64 a -> in_i64 b -> wrap64 a = wrap64 b -> a = b.
Proof. intros Ha Hb. rewrite !wrap64_i64 by done. unfold in_i64 in *. repeat case_if; lia. Qed.

(** a field of a record against a field of a range bound *)
Lemma cmp_field x z : blen x = 8 -> cmp x (be_bytes 8 z) = (be_val x ?= wrap64 z).
Proof.
  intros Hx. unfold cmp, bytes_cmp. rewrite bytes_compare_be_val, be_val_be_bytes; [done|].
  rewrite length_be_bytes. unfold blen in Hx. lia.
Qed.

(** nothing that shares its timestamp is before a bound with sequence number 0 and no key *)
Lemma cmp_bound_tail (q k : list byte) : blen q = 8 -> cmp (q, k) (be_bytes 8 0, @nil byte) <> Lt.
Proof.
  intros Hq. unfold cmp at 1, pair_cmp. cbn [fst snd]. rewrite cmp_field by done. change (wrap64 0) with 0.
  pose proof (be_val_bound q). destruct (Z.compare_spec (be_val q) 0); [|lia|done]. by destruct k.
Qed.

Lemma cmp_bound_gen a t q k k0 s e : blen a = 8 -> blen t = 8 -> cmp (q, k) (be_bytes 8 0, k0) <> Lt ->
  cmp (a, (t, (q, k))) (be_bytes 8 s, (be_bytes 8 e, (be_bytes 8 0, k0)))
  = Lt <-> be_val a < wrap64 s \/ (be_val a = wrap64 s /\ be_val t < wrap64 e).
Proof.
  intros Ha Ht Htail.
  unfold cmp at 1, pair_cmp. unfold cmp at 2. cbn [fst snd]. rewrite !cmp_field by done.
  unfold cmp at 1. cbn [fst snd].
  destruct (Z.compare_spec (be_val a) (wrap64 s)); cbn [ord_then]; [|split; [by left|done]|split; [done|lia]].
  destruct (Z.compare_spec (be_val t) (wrap64 e)); cbn [ord_then]; [|split; [by right|done]|split; [done|lia]].
  split; [|lia]. intros E. by destruct Htail.
Qed.
Lemma cmp_bound a t q k s e : blen a = 8 -> blen t = 8 -> blen q = 8 ->
  cmp (a, (t, (q, k))) (be_bytes 8 s, (be_bytes 8 e, (be_bytes 8 0, [])))
  = Lt <-> be_val a < wrap64 s \/ (be_val a = wrap64 s /\ be_val t < wrap64 e).
Proof. intros Ha Ht Hq. by apply cmp_bound_gen, cmp_bound_tail. Qed.

(** the bound that [clone_range] builds for a timestamp *)
Lemma sort_key_bound sid t :
  sort_key (from_raw_parts sid t 0 [] []) = (be_bytes 8 sid, (be_bytes 8 t, (be_bytes 8 0, []))).
Proof. by apply sort_key_built. Qed.

Lemma clone_range_window sid s e r :
  in_i64 sid -> extractable r = true ->
  in_bounds (Included (sort_key (from_raw_parts sid s 0 [] []))) (Excluded (sort_key (from_raw_parts sid e 0 [] [])))
    (sort_key r) = core_in_unsigned_window sid s e r.
Proof.
  intros Hsid Hr. pose proof (extractable_len r Hr) as Hlen. rewrite !sort_key_bound.
  unfold core_in_unsigned_window. rewrite extract_source_id_eq, extract_timestamp_eq by lia. unfold sort_key.
  set (a := take 8 r). set (t := take 8 (drop 8 r)). set (q := take 8 (drop 16 r)). set (k := match extract_key r with Ok k => k | _ => [] end).
  assert (blen a = 8) as Ha by (subst a; zlia). assert (blen t = 8) as Ht by (subst t; zlia).
  assert (blen q = 8) as Hq by (subst q; zlia).
  destruct (be_val_i64_range a Ha) as [Hia Hwa]. destruct (be_val_i64_range t Ht) as [Hit Hwt].
  pose proof (cmp_bound a t q k sid s Ha Ht Hq) as Hs. pose proof (cmp_bound a t q k sid e Ha Ht Hq) as He.
  unfold in_bounds, after_start, before_end.
  pose proof (wrap64_inj _ _ Hia Hsid) as Hinj. rewrite Hwa in Hinj. rewrite Hwt.
  assert ((be_val_i64 a =? sid) = (be_val a =? wrap64 sid)) as ->.
  { destruct (Z.eqb_spec (be_val a) (wrap64 sid)) as [E|E].
    - rewrite (Hinj E). apply Z.eqb_refl.
    - apply Z.eqb_neq. intros <-. by rewrite Hwa in E. }
  destruct (cmp _ (_, (be_bytes 8 s, _))) eqn:Es, (cmp _ (_, (be_bytes 8 e, _))) eqn:Ee; cbn [andb]; symmetry;
    first [apply not_true_iff_false; intros Ht'; gsplit; naive_solver lia | idtac].
  all: rewrite !andb_true_iff, Z.eqb_eq, Z.leb_le, Z.ltb_lt; destruct Hs as [_ Hs], He as [He _]; specialize (He eq_refl).
  all: assert (~ (be_val a < wrap64 sid \/ be_val a = wrap64 sid /\ be_val t < wrap64 s)) by (intros X; by apply Hs in X).
  all: lia.
Qed.

(** [clone_range] over the unsigned timestamps, on every branch *)
Lemma clone_range_eq sid s e m :
  in_i64 sid -> forallb extractable (cmt_bset m) = true ->
  clone_range sid s e m =
    if wrap64 e <? wrap64 s then match cmt_bset m with [] => Ok [] | _ => Panic end
    else Ok (List.filter (core_in_unsigned_window sid s e) (cmt_bset m)).
Proof.
  intros Hsid Hm. unfold clone_range. rewrite Hm.
  set (a := sort_key (from_raw_parts sid s 0 [] [])). set (b := sort_key (from_raw_parts sid e 0 [] [])).
  assert (range_panics (Included a) (Excluded b) = (wrap64 e <? wrap64 s)) as Hp.
  { subst a b. rewrite !sort_key_bound. unfold range_panics.
    pose proof (cmp_bound (be_bytes 8 sid) (be_bytes 8 e) (be_bytes 8 0) [] sid s
      (blen_be_bytes _ _) (blen_be_bytes _ _) (blen_be_bytes _ _)) as Hc.
    rewrite <- cmp_gt_lt, !be_val_be_bytes in Hc. change (Z.of_nat 8 * 8) with 64 in Hc. fold (wrap64 sid) (wrap64 e) in Hc.
    destruct (Z.ltb_spec (wrap64 e) (wrap64 s)) as [Hlt|Hle].
    - rewrite (proj2 Hc); [done|]. by right.
    - destruct (cmp _ _) eqn:E; [done|done|]. destruct (proj1 Hc eq_refl); lia. }
  destruct (decide (cmt_bset m = [])) as [->|Hne]; [by case_if|].
  rewrite bset_range_nonempty, Hp by done. case_if; [by destruct (cmt_bset m)|]. f_equal.
  apply filter_ext_in. intros r Hr. apply clone_range_window; [done|]. by apply (proj1 (forallb_forall _ _) Hm).
Qed.

Lemma in_window_ext sid s e (p : CoreRecord -> bool) (l : list CoreRecord) :
  forallb extractable l = true ->
  (forall r z t, in_i64 t -> extract_source_id r = Ok z -> extract_timestamp r = Ok t ->
    core_in_unsigned_window sid s e r = p r) ->
  List.filter (core_in_unsigned_window sid s e) l = List.filter p l.
Proof.
  intros Hl Hp. apply filter_ext_in. intros r Hr. apply (proj1 (forallb_forall _ _) Hl) in Hr.
  pose proof (extractable_len r Hr). eapply Hp; [|apply extract_source_id_eq; lia|apply extract_timestamp_eq; lia].
  apply be_val_i64_range. zlia.
Qed.

Lemma unsigned_window_same_sign sid s e r :
  in_i64 s -> in_i64 e -> s <= e -> 0 <= s \/ e < 0 -> extractable r = true ->
  core_in_unsigned_window sid s e r = core_in_window sid s e r.
Proof.
  intros Hs He Hle Hsign Hr%extractable_len. unfold core_in_unsigned_window, core_in_window.
  rewrite extract_source_id_eq, extract_timestamp_eq by lia.
  assert (in_i64 (be_val_i64 (take 8 (drop 8 r)))) as Ht by (apply be_val_i64_range; zlia).
  rewrite !wrap64_i64 by done. unfold in_i64 in *. apply eq_true_iff_eq. rewrite !andb_true_iff, !Z.leb_le, !Z.ltb_lt.
  repeat case_if; gsplit; lia.
Qed.

Lemma clone_range_same_sign sid s e m :
  in_i64 sid -> in_i64 s -> in_i64 e -> forallb extractable (cmt_bset m) = true -> s <= e -> 0 <= s \/ e < 0 ->
  clone_range sid s e m = Ok (List.filter (core_in_window sid s e) (cmt_bset m)).
Proof.
  intros Hsid Hs He Hm Hle Hsign. rewrite clone_range_eq, !wrap64_i64 by done.
  replace (_ <? _) with false by (symmetry; apply Z.ltb_ge; unfold in_i64 in *; repeat case_if; lia).
  f_equal. apply filter_ext_in. intros r Hr. apply unsigned_window_same_sign; [done..|].
  by apply (proj1 (forallb_forall _ _) Hm).
Qed.

(** ** The query over the memtables *)

(** a memtable as inserts leave it *)
Definition core_mt_ok (m : MemTable) : Prop :=
  bset_sorted sort_key (cmt_bset m) /\ forallb extractable (cmt_bset m) = true.

(** what a query asks of a record, field by field *)
Definition core_query_match (sid : Z) (key : list byte) (s e : Z) (filter : list byte) (r : CoreRecord) : bool :=
  core_in_window sid s e r
  && match extract_key r with Ok k => bool_decide (k = key) | _ => false end
  && match extract_value r with Ok v => bool_decide (filter = []) || str_contains v filter | _ => false end.

Lemma core_memtable_insert_ok r m :
  extractable r = true -> core_mt_ok m ->
  let '(m', res) := core_memtable_insert r m in
  res = Ok (cmt_limit m <? cmt_sz m + blen r) /\ core_mt_ok m' /\ cmt_sz m' = cmt_sz m + blen r /\
  cmt_bset m' = bset_insert sort_key r (cmt_bset m).
Proof.
  intros Hr [Hs Hx]. unfold core_memtable_insert, core_bset_insert, core_mt_ok.
  assert (bset_sorted sort_key (bset_insert sort_key r (cmt_bset m))) as Hs' by (by apply bset_insert_sorted).
  assert (forallb extractable (bset_insert sort_key r (cmt_bset m)) = true) as Hx'.
  { apply forallb_forall. intros q Hq%list_elem_of_In. revert q Hq. apply Forall_forall.
    apply bset_insert_Forall; [done|]. apply Forall_forall. intros q Hq%list_elem_of_In.
    by apply (proj1 (forallb_forall _ _) Hx). }
  rewrite Hr, Hx. destruct (cmt_bset m) as [|q l]; cbn [andb cmt_bset cmt_sz cmt_limit]; by split_and!.
Qed.

(** one call of [next]: the first record that matches *)
Lemma iif_next_spec it :
  let '(it', o) := iif_next it in
  match List.filter (iif_matches it) (iif_inner it) with
  | [] => o = None /\ iif_inner it' = []
  | r :: l => o = Some r /\ l = List.filter (iif_matches it') (iif_inner it') /\
              (length (iif_inner it') < length (iif_inner it))%nat
  end.
Proof.
  destruct it as [rs sid key s e flt]. unfold iif_next.
  cbn [iif_inner iif_source_id iif_key iif_start_ts iif_end_ts iif_filter]. set (it := {| iif_inner := rs |}).
  assert (forall l, let '(rest, o) := iif_next_from it l in
    match List.filter (iif_matches it) l with
    | [] => o = None /\ rest = []
    | r :: k => o = Some r /\ k = List.filter (iif_matches it) rest /\ (length rest < length l)%nat
    end) as Hn.
  { intros l. induction l as [|r l IHl]; cbn [iif_next_from List.filter]; [done|].
    destruct (iif_matches it r) eqn:Er; [cbn [length]; split_and!; [done|done|lia]|].
    destruct (iif_next_from it l) as [rest o]. destruct (List.filter (iif_matches it) l) as [|q k]; [done|].
    cbn [length]. destruct IHl as (-> & -> & ?). split_and!; [done|done|lia]. }
  specialize (Hn rs). destruct (iif_next_from it rs) as [rest o]. exact Hn.
Qed.

(** reading the iterator to its end yields the matching records, in order *)
Lemma iif_collect_spec fuel it :
  (length (iif_inner it) < fuel)%nat -> iif_collect fuel it = Some (List.filter (iif_matches it) (iif_inner it)).
Proof.
  revert it. induction fuel as [|fuel IH]; [lia|]. intros it Hl. cbn [iif_collect].
  pose proof (iif_next_spec it) as Hn. destruct (iif_next it) as [it' o].
  destruct (List.filter (iif_matches it) (iif_inner it)) as [|r l]; [by destruct Hn as [-> _]|].
  destruct Hn as (-> & -> & Hlt). by rewrite IH by lia.
Qed.

Lemma extractable_key r : extractable r = true -> exists k, extract_key r = Ok k.
Proof. unfold extractable. destruct (extract_key r) as [k| |]; [|done..]. by exists k. Qed.

(** the fields read at once are the fields read one by one *)
Lemma extract_all_eq r k :
  extract_key r = Ok k ->
  extract_all_fields_ref r
  = (v ← extract_value r;
     Ok (be_val_i64 (take 8 r), be_val_i64 (take 8 (drop 8 r)), be_val (take 8 (drop 16 r)), k, v)).
Proof.
  unfold extract_key, extract_all_fields_ref, extract_value, array_at.
  destruct (Z.ltb_spec (blen r) 28) as [Hl|Hl]; [done|]. if_false.
  rewrite (slice_ok r 24), (slice_ok r 0), (slice_ok r 8), (slice_ok r 16), !ok_bind by lia.
  set (kl := be_val _). destruct (Z.ltb_spec (blen r) (28 + kl)) as [|Hk]; [done|]. intros ->. rewrite ok_bind.
  destruct (Z.ltb_spec (blen r) (32 + kl)) as [|Hv]; [done|].
  assert (0 <= kl) by (apply be_val_bound).
  rewrite (slice_ok r (28 + kl)), !ok_bind by lia. by case_if.
Qed.

Lemma iif_matches_eq recs sid key s e flt r :
  extractable r = true -> iif_matches (iif_new recs sid key s e flt) r = core_query_match sid key s e flt r.
Proof.
  intros Hr. destruct (extractable_key r Hr) as [k Hk]. pose proof (extractable_len r Hr).
  unfold iif_matches, core_query_match, core_in_window. cbn [iif_new iif_source_id iif_key iif_start_ts iif_end_ts iif_filter].
  rewrite (extract_all_eq r k Hk), Hk, extract_source_id_eq, extract_timestamp_eq by lia.
  destruct (extract_value r) as [v| |]; [|by rewrite andb_false_r..]. rewrite ok_bind. f_equal. f_equal. by destruct flt.
Qed.

Lemma core_fresh r l : sort_key r ∉ (sort_key <$> l) -> bset_fresh sort_key r l.
Proof.
  intros Hn. apply Forall_forall. intros q Hq Heq. apply cmp_eq in Heq. apply Hn. rewrite <- Heq. by apply list_elem_of_fmap_2.
Qed.

Lemma bset_extend_ok rs s :
  bset_sorted sort_key s -> forallb extractable (s ++ rs) = true -> NoDup (sort_key <$> (s ++ rs)) ->
  exists s', bset_extend s rs = Ok s' /\ bset_sorted sort_key s' /\ s' ≡ₚ s ++ rs.
Proof.
  revert s. induction rs as [|r rs IH]; intros s Hs Hx Hn; cbn [bset_extend].
  { exists s. by rewrite app_nil_r. }
  assert (bset_fresh sort_key r s) as Hf.
  { apply core_fresh. rewrite fmap_app in Hn. apply NoDup_app in Hn as (_ & Hd & _). intros Hin.
    apply (Hd _ Hin). left. }
  pose proof (bset_insert_fresh sort_key r s Hf) as Hp.
  assert (core_bset_insert r s = Ok (bset_insert sort_key r s)) as Hi.
  { rewrite forallb_app in Hx. cbn [forallb] in Hx. gsplit.
    unfold core_bset_insert. destruct s; [done|]. by replace (_ && _) with true by (symmetry; by apply andb_true_intro). }
  rewrite Hi, ok_bind. destruct (IH (bset_insert sort_key r s)) as (s' & -> & Hs' & Hp').
  - by apply bset_insert_sorted.
  - apply forallb_forall. intros q Hq%list_elem_of_In. rewrite Hp in Hq. apply (proj1 (forallb_forall _ _) Hx), list_elem_of_In.
    set_solver.
  - rewrite Hp. cbn [app]. by rewrite Permutation_middle.
  - exists s'. split_and!; [done|done|]. rewrite Hp', Hp. cbn [app]. by rewrite Permutation_middle.
Qed.

(** the records of the frozen memtables join those of the active one *)
Lemma extend_frozen_ok sid s e frozen acc :
  in_i64 sid -> in_i64 s -> in_i64 e -> 0 <= s <= e -> Forall core_mt_ok frozen ->
  bset_sorted sort_key acc -> forallb extractable acc = true ->
  let found := concat (map (fun m => List.filter (core_in_window sid s e) (cmt_bset m)) frozen) in
  NoDup (sort_key <$> (acc ++ found)) ->
  exists out, extend_frozen sid s e frozen acc = Ok out /\ bset_sorted sort_key out /\ out ≡ₚ acc ++ found.
Proof.
  intros Hsid Hs He Hle Hok. revert acc. induction Hok as [|m frozen [Hm Hx] _ IH]; intros acc Hacc Hxa; cbn [map concat extend_frozen].
  { intros _. exists acc. by rewrite app_nil_r. }
  set (here := List.filter _ (cmt_bset m)). set (found := concat _) in *. cbn zeta. intros Hn.
  rewrite clone_range_same_sign, ok_bind by (done || lia). fold here.
  assert (forallb extractable (acc ++ here) = true) as Hx'.
  { rewrite forallb_app, Hxa. apply forallb_forall. intros q [Hq _]%filter_In. by apply (proj1 (forallb_forall _ _) Hx). }
  rewrite app_assoc in Hn. destruct (bset_extend_ok here acc) as (s' & -> & Hs' & Hp); [done|done| |].
  { rewrite fmap_app in Hn. by apply NoDup_app in Hn as [Hn _]. }
  rewrite ok_bind. destruct (IH s') as (out & -> & Hout & Hpo); [done| |by rewrite Hp|].
  { apply forallb_forall. intros q Hq%list_elem_of_In. rewrite Hp in Hq. by apply (proj1 (forallb_forall _ _) Hx'), list_elem_of_In. }
  exists out. split_and!; [done|done|]. by rewrite Hpo, Hp, <- app_assoc.
Qed.

(** Timestamps are compared as big-endian bytes, so as unsigned
    numbers. When the window lies on one side of zero, [clone_range] returns
    exactly the records of the source with [start_ts <= timestamp < end_ts];
    when it starts below zero and ends at or above it, or is reversed, the
    call panics on a non-empty memtable; when it starts at or above zero and
    ends below it, it returns the records {e outside} the window. *)
Theorem core_clone_range_spec (sid s e : Z) (m : MemTable)
    (Hsid : in_i64 sid) (Hs : in_i64 s) (He : in_i64 e) (Hm : forallb extractable (cmt_bset m) = true) :
  (s <= e -> 0 <= s \/ e < 0 ->
   clone_range sid s e m = Ok (List.filter (core_in_window sid s e) (cmt_bset m))) /\
  (cmt_bset m <> [] -> s < 0 <= e \/ (e < s /\ (0 <= e \/ s < 0)) -> clone_range sid s e m = Panic) /\
  (e < 0 <= s ->
   clone_range sid s e m
   = Ok (List.filter (fun r => core_of_source sid r && negb (core_in_window sid e s r)) (cmt_bset m))).
Proof.
  split; [by apply clone_range_same_sign|].
  rewrite clone_range_eq, !wrap64_i64 by done. unfold in_i64 in *. split.
  - intros Hne Hcase. replace (_ <? _) with true by (symmetry; apply Z.ltb_lt; repeat case_if; gsplit; lia).
    by destruct (cmt_bset m).
  - intros Hcase. replace (_ <? _) with false by (symmetry; apply Z.ltb_ge; repeat case_if; gsplit; lia).
    f_equal. apply in_window_ext; [done|]. intros r z t Ht Ez Et. unfold core_in_unsigned_window, core_in_window, core_of_source.
    rewrite Ez, Et, !wrap64_i64 by done. unfold in_i64 in *. destruct (z =? sid); [|done]. cbn [andb].
    apply eq_true_iff_eq. rewrite negb_true_iff, andb_true_iff, andb_false_iff, !Z.leb_le, !Z.ltb_lt, Z.leb_gt, Z.ltb_ge.
    repeat case_if; gsplit; lia.
Qed.

Lemma engine_memtable_iter_ok mt frozen sid key s e flt :
  in_i64 sid -> in_i64 s -> in_i64 e -> 0 <= s <= e -> Forall core_mt_ok (mt :: frozen) ->
  NoDup (sort_key <$> concat (map cmt_bset (mt :: frozen))) ->
  exists recs, engine_memtable_iter mt frozen sid key s e flt = Ok (iif_new recs sid key s e flt) /\
    bset_sorted sort_key recs /\
    recs ≡ₚ List.filter (core_in_window sid s e) (concat (map cmt_bset (mt :: frozen))).
Proof.
  intros Hsid Hs He Hle [[Hm Hx] Hfr]%Forall_cons Hn. unfold engine_memtable_iter. do 2 if_false.
  apply (NoDup_fmap_filter _ (core_in_window sid s e)) in Hn. rewrite <- concat_map_filter in *. cbn [map concat] in *.
  rewrite clone_range_same_sign, ok_bind by (done || lia). set (here := List.filter _ (cmt_bset mt)) in *.
  assert (bset_sorted sort_key here) as Hh by (by apply filter_sorted).
  assert (forallb extractable here = true) as Hxh.
  { apply forallb_forall. intros q [Hq _]%filter_In. by apply (proj1 (forallb_forall _ _) Hx). }
  destruct frozen as [|f fs]; [exists here; by rewrite app_nil_r|].
  rewrite ok_bind. destruct (bset_extend_ok here []) as (s' & -> & Hs' & Hp); [constructor|done| |].
  { rewrite fmap_app in Hn. by apply NoDup_app in Hn as [Hn _]. }
  cbn [app] in Hp. apply (bset_sorted_perm_eq sort_key) in Hp; [|done|done]. subst s'.
  rewrite !ok_bind. destruct (extend_frozen_ok sid s e (f :: fs) here) as (out & -> & Hout & Hpo); try done.
  exists out. by rewrite ok_bind.
Qed.

(** [Engine::range] rejects a reversed window and one that starts below
    zero; for every other window the iterator over the memtables yields, in
    key order and without repetition, exactly the records of the active and
    the frozen memtables that have the queried source and key, a timestamp in
    [start_ts..end_ts) and a value that contains the filter. *)
Theorem engine_memtable_range_spec (mt : MemTable) (frozen : list MemTable) (sid : Z) (key : list byte) (s e : Z)
    (flt : list byte) (Hsid : in_i64 sid) (Hs : in_i64 s) (He : in_i64 e)
    (Hok : Forall core_mt_ok (mt :: frozen))
    (Hn : NoDup (sort_key <$> concat (map cmt_bset (mt :: frozen)))) :
  (e < s \/ s < 0 -> engine_memtable_iter mt frozen sid key s e flt = bail) /\
  (0 <= s <= e -> exists it out,
    engine_memtable_iter mt frozen sid key s e flt = Ok it /\
    iif_collect (S (length (iif_inner it))) it = Some out /\
    bset_sorted sort_key out /\
    out ≡ₚ List.filter (core_query_match sid key s e flt) (concat (map cmt_bset (mt :: frozen)))).
Proof.
  split.
  { intros Hbad. unfold engine_memtable_iter. case_if; [done|]. by if_true. }
  intros Hle. destruct (engine_memtable_iter_ok mt frozen sid key s e flt) as (recs & -> & Hsr & Hp); try done.
  exists (iif_new recs sid key s e flt), (List.filter (core_query_match sid key s e flt) recs).
  assert (forall r, r ∈ recs -> extractable r = true) as Hx.
  { intros r Hr. rewrite Hp in Hr. apply list_elem_of_In, filter_In in Hr as [Hr _].
    apply list_elem_of_In, list_elem_of_In, in_concat in Hr as (l & (m & <- & Hm%list_elem_of_In)%in_map_iff & Hr).
    rewrite Forall_forall in Hok. destruct (Hok m Hm) as [_ Hx]. by apply (proj1 (forallb_forall _ _) Hx). }
  split_and!; [done| |by apply filter_sorted|].
  - rewrite iif_collect_spec by lia. f_equal. apply filter_ext_in. intros r Hr. by apply iif_matches_eq, Hx, list_elem_of_In.
  - rewrite Hp, filter_filter_and; [done|]. intros r Hr. unfold core_query_match in Hr. by gsplit.
Qed.

(** ** Records back to their fields *)

(** fields that [from_raw_parts] stores without truncation *)
Definition core_fields_ok (sid ts seq : Z) (k v : list byte) : Prop :=
  in_i64 sid /\ in_i64 ts /\ in_u64 seq /\ in_u32 (blen k) /\ in_u32 (blen v).

Lemma be_bytes_i64 bs : blen bs = 8 -> be_bytes 8 (be_val_i64 bs) = bs.
Proof.
  intros Hb. rewrite <- (be_bytes_be_val_n 8 bs Hb) at 2. destruct (be_val_i64_range bs Hb) as [_ <-].
  unfold be_bytes. f_equal. apply le_combine_inj; [by rewrite !length_le_split|].
  rewrite !le_combine_split. unfold wrap64. change (Z.of_nat 8 * 8) with 64. by rewrite Zmod_mod.
Qed.

Lemma slice_drop {A} (l x : list A) a b :
  slice (E := io_error) l a b = Ok x -> blen x = b - a /\ drop (Z.to_nat a) l = x ++ drop (Z.to_nat b) l.
Proof.
  intros (Ha & Hb & ->)%slice_inv. split; [zlia|].
  replace (Z.to_nat b) with (Z.to_nat a + Z.to_nat (b - a))%nat by lia. by rewrite <- drop_drop, take_drop.
Qed.

(** [takes x b r]: the bind of a slice read succeeded *)
Ltac takes_slice x len eqn :=
  match goal with |- context [slice ?r ?a ?b ≫= _] =>
    destruct (slice (E := io_error) r a b) as [x| |] eqn:eqn; [|done..]; rewrite ok_bind;
    apply slice_drop in eqn as [len eqn] end.

Lemma extract_all_sound r sid ts seq k v :
  extract_all_fields_ref r = Ok (sid, ts, seq, k, v) ->
  core_fields_ok sid ts seq k v /\ exists rest, r = from_raw_parts sid ts seq k v ++ rest.
Proof.
  unfold extract_all_fields_ref, array_at. case_if; [done|].
  takes_slice b0 L0 E0. takes_slice b1 L1 E1. takes_slice b2 L2 E2. case_if; [done|].
  takes_slice b3 L3 E3. case_if; [done|]. takes_slice k' L4 E4. case_if; [done|].
  takes_slice b5 L5 E5. case_if; [done|]. takes_slice v' L6 E6. intros [= <- <- <- -> ->].
  assert (blen b0 = 8) as B0 by lia. assert (blen b1 = 8) as B1 by lia. assert (blen b2 = 8) as B2 by lia.
  assert (blen b3 = 4) as B3 by lia. assert (blen b5 = 4) as B5 by lia.
  assert (blen k = be_val b3) as Lk by lia. assert (blen v = be_val b5) as Lv by lia.
  pose proof (be_val_in_u32 b3 B3). pose proof (be_val_in_u32 b5 B5).
  split.
  - split_and!; [by apply be_val_i64_range|by apply be_val_i64_range|by apply be_val_in_u64|by rewrite Lk|by rewrite Lv].
  - exists (drop (Z.to_nat (32 + be_val b3 + be_val b5)) r). unfold from_raw_parts.
    rewrite !wrap32_in_u32, Lk, Lv, !be_bytes_i64, !be_bytes_be_val_n by (done || by rewrite ?Lk, ?Lv).
    rewrite <- !app_assoc, <- E6. replace (32 + be_val b3) with (28 + be_val b3 + Z.of_nat 4) by lia.
    change (24 + Z.of_nat 4) with 28 in E3. change (16 + Z.of_nat 8) with 24 in E2. change (8 + Z.of_nat 8) with 16 in E1.
    change (0 + Z.of_nat 8) with 8 in E0. by rewrite <- E5, <- E4, <- E3, <- E2, <- E1, <- E0.
Qed.

Lemma extract_all_no_panic r : extract_all_fields_ref r <> Panic.
Proof.
  unfold extract_all_fields_ref, array_at. case_if; [done|].
  rewrite (slice_ok r 0), (slice_ok r 8), (slice_ok r 16), !ok_bind by (gsplit; lia). case_if; [done|].
  rewrite (slice_ok r 24), ok_bind by (gsplit; lia). set (kl := be_val _). assert (0 <= kl) by apply be_val_bound.
  case_if; [done|]. rewrite (slice_ok r 28), ok_bind by (gsplit; lia). case_if; [done|].
  rewrite (slice_ok r (28 + kl)), ok_bind by (gsplit; lia). set (vl := be_val _). assert (0 <= vl) by apply be_val_bound.
  case_if; [done|]. by rewrite (slice_ok r (32 + kl)) by (gsplit; lia).
Qed.

(** [extract_all_fields_ref] succeeds on exactly the byte strings that
    start with what [from_raw_parts] writes for the fields it returns, and the
    conversion to a protocol record returns these fields when the key and the
    value are UTF-8 and fails otherwise; no byte string makes it panic. *)
Theorem core_record_roundtrip (r : CoreRecord) (sid ts seq : Z) (k v : list byte) :
  (extract_all_fields_ref r = Ok (sid, ts, seq, k, v) <->
   core_fields_ok sid ts seq k v /\ exists rest, r = from_raw_parts sid ts seq k v ++ rest) /\
  (core_fields_ok sid ts seq k v ->
   proto_record_try_from (from_raw_parts sid ts seq k v)
   = if utf8_valid k && utf8_valid v
     then Ok {| pr_source_id := sid; pr_ts := ts; pr_seq := seq; pr_key := k; pr_value := v |}
     else bail) /\
  proto_record_try_from r <> Panic.
Proof.
  split_and!.
  - split; [apply extract_all_sound|]. intros [(? & ? & ? & ? & ?) [rest ->]]. by apply extract_all_built.
  - intros (? & ? & ? & ? & ?). unfold proto_record_try_from, extract_all_fields_owned.
    rewrite <- (app_nil_r (from_raw_parts _ _ _ _ _)), extract_all_built, ok_bind by done.
    by destruct (utf8_valid k), (utf8_valid v).
  - unfold proto_record_try_from, extract_all_fields_owned. pose proof (extract_all_no_panic r).
    destruct (extract_all_fields_ref r) as [[[[[? ?] ?] k'] v']| |]; [|done..]. rewrite ok_bind.
    by destruct (utf8_valid k'), (utf8_valid v').
Qed.

(** ** The write-ahead log, written and read back *)

(** the bytes of a record in the log, and of a sequence of records *)
Definition wal_wire (r : CoreRecord) : list byte := le_bytes 8 (blen r) ++ r.
Definition wal_wires (rs : list CoreRecord) : list byte := concat (map wal_wire rs).

Section wal_write_facts.
Context {W : Type} `{WriteLaws W}.

Lemma wal_write_one_ok r (b b' : BufWriter W) :
  bw_ok b -> wal_write_one r b = (b', Ok tt) -> bw_total b' = bw_total b ++ wal_wire r /\ bw_ok b'.
Proof.
  intros Hok. unfold wal_write_one. rewrite st_bind_unfold.
  destruct (bufwriter_write_all (le_bytes 8 _) b) as [b1 [[]|e|]] eqn:E1; intros E2; try done.
  apply bufwriter_write_all_ok in E1 as [E1 Hok1]; [|done]. apply bufwriter_write_all_ok in E2 as [E2 Hok2]; [|done].
  rewrite E2, E1. unfold wal_wire, core_record_len. by rewrite <- app_assoc.
Qed.

Lemma wal_write_many_ok rs (b b' : BufWriter W) :
  bw_ok b -> wal_write_many rs b = (b', Ok tt) -> bw_total b' = bw_total b ++ wal_wires rs /\ bw_ok b'.
Proof.
  revert b. induction rs as [|r rs IH]; intros b Hok; cbn [wal_write_many].
  - intros [= <-]. unfold wal_wires. cbn. by rewrite app_nil_r.
  - rewrite st_bind_unfold. destruct (wal_write_one r b) as [b1 [[]|e|]] eqn:E1; intros E2; try done.
    apply wal_write_one_ok in E1 as [E1 Hok1]; [|done]. apply IH in E2 as [E2 Hok2]; [|done].
    rewrite E2, E1. unfold wal_wires. cbn [map concat]. by rewrite <- app_assoc.
Qed.
End wal_write_facts.

Lemma wal_write_many_vec rs (b : BufWriter (list byte)) : exists b', wal_write_many rs b = (b', Ok tt).
Proof.
  revert b. induction rs as [|r rs IH]; intros b; cbn [wal_write_many]; [by eexists|].
  unfold wal_write_one. rewrite !st_bind_unfold.
  destruct (bufwriter_write_all_vec (le_bytes 8 (core_record_len r)) b) as [b1 ->].
  destruct (bufwriter_write_all_vec r b1) as [b2 ->]. apply IH.
Qed.

Lemma blen_wal_wire r : blen (wal_wire r) = 8 + blen r.
Proof. unfold wal_wire. zlia. Qed.

(** one turn of the loop of [recover_file] on a whole record *)
Lemma recover_loop_record fuel r rest :
  blen r <= VEC_MAX ->
  recover_loop (S fuel) (wal_wire r ++ rest) = (records ← recover_loop fuel rest; Ok (r :: records)).
Proof.
  intros Hr. pose proof (blen_nonneg r). pose proof (blen_nonneg rest). cbn [recover_loop].
  rewrite blen_app, blen_wal_wire. if_false. unfold wal_wire. rewrite <- app_assoc.
  pose proof (length_le_split 8 (blen r)) as Hl. fold (le_bytes 8 (blen r)) in Hl.
  rewrite take_app_length', drop_app_length' by done. unfold VEC_MAX in *.
  rewrite le_val_le_bytes_small by (cbn; lia). if_false. rewrite blen_app. if_false.
  unfold from_vec, blen. by rewrite Nat2Z.id, take_app_length, drop_app_length.
Qed.

Lemma recover_loop_records rs rest fuel :
  Forall (fun r => blen r <= VEC_MAX) rs -> (length (wal_wires rs ++ rest) < fuel)%nat ->
  exists fuel', (length rest < fuel')%nat /\
    recover_loop fuel (wal_wires rs ++ rest) = (records ← recover_loop fuel' rest; Ok (rs ++ records)).
Proof.
  intros Hrs. revert fuel. induction Hrs as [|r rs Hr _ IH]; intros fuel Hf.
  - exists fuel. split; [done|]. change (wal_wires [] ++ rest) with rest. by destruct (recover_loop fuel rest).
  - change (wal_wires (r :: rs)) with (wal_wire r ++ wal_wires rs) in *. rewrite <- app_assoc in *.
    destruct fuel as [|fuel]; [lia|]. rewrite recover_loop_record by done.
    destruct (IH fuel) as (fuel' & Hf' & ->).
    { rewrite length_app in Hf. unfold wal_wire, le_bytes in Hf. rewrite length_app, length_le_split in Hf. lia. }
    exists fuel'. split; [done|]. by destruct (recover_loop fuel' rest).
Qed.

Lemma recover_file_app rs rest :
  Forall (fun r => blen r <= VEC_MAX) rs ->
  exists fuel, (length rest < fuel)%nat /\
    recover_file (wal_wires rs ++ rest) = (records ← recover_loop fuel rest; Ok (rs ++ records)).
Proof. intros Hrs. apply recover_loop_records; [done|lia]. Qed.

Lemma recover_file_wires rs : Forall (fun r => blen r <= VEC_MAX) rs -> recover_file (wal_wires rs) = Ok rs.
Proof.
  intros Hrs. destruct (recover_file_app rs [] Hrs) as (fuel & Hf & E). rewrite app_nil_r in E. rewrite E.
  destruct fuel as [|fuel]; [cbn in Hf; lia|]. cbn [recover_loop]. if_true. by rewrite ok_bind, app_nil_r.
Qed.

(** a log that ends within a record *)
Lemma recover_file_torn rs r (k : nat) :
  Forall (fun r => blen r <= VEC_MAX) rs -> blen r <= VEC_MAX -> Z.of_nat k < blen (wal_wire r) ->
  recover_file (wal_wires rs ++ take k (wal_wire r))
  = if Z.of_nat k <? 8 then Ok rs else Err (IoError UnexpectedEof).
Proof.
  intros Hrs Hr Hk. rewrite blen_wal_wire in Hk. destruct (recover_file_app rs (take k (wal_wire r)) Hrs) as (fuel & Hf & ->).
  destruct fuel as [|fuel]; [lia|]. cbn [recover_loop]. rewrite blen_take, blen_wal_wire.
  replace (Z.min _ _) with (Z.of_nat k) by lia. case_if; [by rewrite ok_bind, app_nil_r|].
  pose proof (length_le_split 8 (blen r)) as Hl. fold (le_bytes 8 (blen r)) in Hl.
  assert (take k (wal_wire r) = le_bytes 8 (blen r) ++ take (k - 8) r) as ->.
  { unfold wal_wire. rewrite take_app, Hl, take_ge by lia. done. }
  rewrite take_app_length', drop_app_length' by done. unfold VEC_MAX in *. pose proof (blen_nonneg r).
  rewrite le_val_le_bytes_small by (cbn; lia). if_false. if_true. done.
Qed.

Lemma recover_files_wires rss s :
  Forall (Forall (fun r => blen r <= VEC_MAX)) rss ->
  bset_sorted sort_key s -> forallb extractable (s ++ concat rss) = true -> NoDup (sort_key <$> (s ++ concat rss)) ->
  exists out, recover_files (map wal_wires rss) s = Ok out /\ bset_sorted sort_key out /\ out ≡ₚ s ++ concat rss.
Proof.
  intros Hrss. revert s. induction Hrss as [|rs rss Hrs _ IH]; intros s Hs Hx Hn; cbn [map recover_files concat] in *.
  { exists s. by rewrite app_nil_r. }
  rewrite recover_file_wires by done. rewrite app_assoc in Hx, Hn.
  pose proof Hx as Hx0. rewrite forallb_app in Hx0. apply andb_true_iff in Hx0 as [Hx0 _].
  destruct (bset_extend_ok rs s) as (s' & -> & Hs' & Hp); [done|done| |].
  { rewrite fmap_app in Hn. by apply NoDup_app in Hn as [Hn _]. }
  rewrite ok_bind. destruct (IH s') as (out & -> & Hout & Hpo); [done| |by rewrite Hp|].
  { apply forallb_forall. intros q Hq%list_elem_of_In. rewrite Hp in Hq. by apply (proj1 (forallb_forall _ _) Hx), list_elem_of_In. }
  exists out. split_and!; [done|done|]. by rewrite Hpo, Hp, <- app_assoc.
Qed.

(** C33: what [write_many] and [flush_buffer] put into a log is read back by
    [recover_file] as the same records in the same order, and [recover_all]
    over such logs returns their records together, sorted. A log that ends
    within the length prefix of a record loses that record only; one that
    ends within the bytes of a record is an error, and [recover_all] then
    skips the file with all the records that were completely written. *)
Theorem core_wal_recover (rs : list CoreRecord) (r : CoreRecord) (k : nat) (rss : list (list CoreRecord))
    (Hrs : Forall (fun r => blen r <= VEC_MAX) rs) (Hr : blen r <= VEC_MAX)
    (Hk : Z.of_nat k < 8 + blen r)
    (Hrss : Forall (Forall (fun r => blen r <= VEC_MAX)) rss)
    (Hx : forallb extractable (concat rss) = true) (Hn : NoDup (sort_key <$> concat rss)) :
  (exists b b', wal_write_many rs (bufwriter_new []) = (b, Ok tt) /\ wal_flush_buffer b = (b', Ok tt) /\
    bw_inner b' = wal_wires rs /\ recover_file (bw_inner b') = Ok rs) /\
  (exists out, recover_all (map wal_wires rss) = Ok out /\ bset_sorted sort_key out /\ out ≡ₚ concat rss) /\
  let torn := wal_wires rs ++ take k (wal_wire r) in
  (Z.of_nat k < 8 -> recover_file torn = Ok rs) /\
  (8 <= Z.of_nat k -> recover_file torn = Err (IoError UnexpectedEof) /\
     recover_all (torn :: map wal_wires rss) = recover_all (map wal_wires rss)).
Proof.
  split_and!.
  - destruct (wal_write_many_vec rs (bufwriter_new [])) as [b Hb]. exists b.
    destruct (wal_flush_buffer b) as [b' o] eqn:Ef. exists b'.
    assert (o = Ok tt) as -> by (unfold wal_flush_buffer, bufwriter_flush in Ef; by injection Ef as _ <-).
    apply wal_write_many_ok in Hb as Hb'; [|done]. destruct Hb' as [Ht _].
    apply bufwriter_flush_ok in Ef as Hf. cbn in Hf, Ht. rewrite Hf, Ht. split_and!; [done..|]. by apply recover_file_wires.
  - by apply (recover_files_wires rss []); [done|constructor|..].
  - intros torn. subst torn. rewrite recover_file_torn by (done || by rewrite blen_wal_wire). split; intros Hk8; [by if_true|].
    if_false. split; [done|]. unfold recover_all. cbn [recover_files]. rewrite recover_file_torn by (done || by rewrite blen_wal_wire).
    by if_false.
Qed.

(** ** Witnesses *)

Definition sample_core (ts seq : Z) : CoreRecord := from_raw_parts 1 ts seq [Byte.x6b] [Byte.x76; Byte.x77].
Definition sample_core_mt (recs : list CoreRecord) : MemTable :=
  foldl (fun m r => (core_memtable_insert r m).1) (core_memtable_new 1024) recs.

Lemma core_clone_range_spec_witness :
  clone_range 1 5 9 (sample_core_mt [sample_core 9 2; sample_core (-3) 1; sample_core 5 0])
    = Ok [sample_core 5 0] /\
  clone_range 1 (-3) 9 (sample_core_mt [sample_core 9 2; sample_core (-3) 1; sample_core 5 0]) = Panic.
Proof.
  split.
  - rewrite (proj1 (core_clone_range_spec 1 5 9
      (sample_core_mt [sample_core 9 2; sample_core (-3) 1; sample_core 5 0]) ltac:(unfold in_i64; lia)
      ltac:(unfold in_i64; lia) ltac:(unfold in_i64; lia) eq_refl)); [by vm_compute|lia|lia].
  - apply (core_clone_range_spec 1 (-3) 9
      (sample_core_mt [sample_core 9 2; sample_core (-3) 1; sample_core 5 0]));
      [unfold in_i64; lia..|by vm_compute|by vm_compute|lia].
Defined.

Lemma engine_memtable_range_spec_witness :
  exists it out,
    engine_memtable_iter (sample_core_mt [sample_core 9 3; sample_core 5 2]) [sample_core_mt [sample_core 7 1]]
      1 [Byte.x6b] 5 9 [Byte.x77] = Ok it /\
    iif_collect (S (length (iif_inner it))) it = Some out /\ out ≡ₚ [sample_core 5 2; sample_core 7 1].
Proof.
  destruct (proj2 (engine_memtable_range_spec (sample_core_mt [sample_core 9 3; sample_core 5 2])
    [sample_core_mt [sample_core 7 1]] 1 [Byte.x6b] 5 9 [Byte.x77] ltac:(unfold in_i64; lia) ltac:(unfold in_i64; lia)
    ltac:(unfold in_i64; lia) ltac:(repeat (first [constructor | by vm_compute])) ltac:(apply (bool_decide_unpack _); by vm_compute))
    ltac:(lia)) as (it & out & Hit & Hout & _ & Hp).
  exists it, out. split_and!; [exact Hit|exact Hout|]. rewrite Hp. by vm_compute.
Defined.

Lemma core_record_roundtrip_witness :
  proto_record_try_from (sample_core (-3) 7)
  = Ok {| pr_source_id := 1; pr_ts := -3; pr_seq := 7; pr_key := [Byte.x6b]; pr_value := [Byte.x76; Byte.x77] |}.
Proof.
  unfold sample_core. rewrite (proj1 (proj2 (core_record_roundtrip (sample_core (-3) 7) 1 (-3) 7 [Byte.x6b] [Byte.x76; Byte.x77])));
    [by vm_compute|].
  unfold core_fields_ok, in_i64, in_u64, in_u32, u64_max, u32_max. split_and!; by vm_compute.
Defined.

Lemma core_wal_recover_witness :
  recover_file (wal_wires [sample_core 5 1] ++ take 20 (wal_wire (sample_core 6 2))) = Err (IoError UnexpectedEof) /\
  recover_all [wal_wires [sample_core 5 1] ++ take 20 (wal_wire (sample_core 6 2)); wal_wires [sample_core 7 3]]
  = Ok [sample_core 7 3].
Proof.
  destruct (core_wal_recover [sample_core 5 1] (sample_core 6 2) 20 [[sample_core 7 3]]) as (_ & _ & _ & Ht).
  - by repeat constructor.
  - by vm_compute.
  - by vm_compute.
  - by repeat constructor.
  - by vm_compute.
  - apply (bool_decide_unpack _). by vm_compute.
  - destruct Ht as [Ht1 Ht2]; [lia|]. split; [exact Ht1|]. etrans; [exact Ht2|]. by vm_compute.
Defined.
