(* ===== verification/CoreIter.v ===== *)
(** * Reading SSTs and merging: logregator-core/src/storage/iter.rs

    The iterators over the records of an SST file, filtered by a query or
    not, and the merge over the memtables and the SSTs that drops records
    with equal keys. The SST module itself (storage/sstable.rs) is not part
    of the sources; what these iterators use of it is the interface
    [SstModule], and what they rely on is [sst_layout] and [seek_ok]. *)
From S2P Require Import Prelude Std Codec CoreProto CoreStorage.

(** ** The SST module *)

Class SstModule := {
  BloomFilter : Type;
  IndexBlock : Type;
  bloom_contains : BloomFilter -> Z -> list byte -> bool;
  binary_seek : IndexBlock -> CoreRecord -> Z
}.

(** The path of a file is determined by its id, so files are looked up by
    id; names are in CoreFiles.v. *)
Record SSTableMeta `{SstModule} := {
  meta_id : Z;
  meta_bloom : BloomFilter;
  meta_bloom_offset : Z;
  meta_index : IndexBlock;
  meta_index_offset : Z;
  meta_num_records : Z;
  meta_file_size : Z
}.

(** ** Files opened for reading *)

Record FileReader := { rd_file : list byte; rd_pos : Z }.

Definition reader_open (file : list byte) : FileReader := {| rd_file := file; rd_pos := 0 |}.
Definition reader_seek (pos : Z) (r : FileReader) : FileReader := {| rd_file := rd_file r; rd_pos := pos |}.

(** [read_exact]: when it fails, everything that was left has been read *)
Definition reader_read_exact (n : Z) : st FileReader io_error (list byte) := fun r =>
  if rd_pos r + n <=? blen (rd_file r)
  then (reader_seek (rd_pos r + n) r, slice (rd_file r) (rd_pos r) (rd_pos r + n))
  else (reader_seek (Z.max (rd_pos r) (blen (rd_file r))) r, Err (IoError UnexpectedEof)).

(** one record, up to the offset where the index block starts; a failed read
    ends the iteration. [resize] panics on sizes above [isize::MAX]. *)
Definition read_sst_record (end_pos : Z) : st FileReader io_error (option CoreRecord) := fun r =>
  if end_pos <=? rd_pos r then (r, Ok None)
  else
    match reader_read_exact 8 r with
    | (r, Ok len_buf) =>
        let rec_len := le_val len_buf in
        if VEC_MAX <? 8 + rec_len then (r, Panic)
        else
          match reader_read_exact rec_len r with
          | (r, Ok buf) => (r, Ok (Some (from_vec buf)))
          | (r, Err _) => (r, Ok None)
          | (r, Panic) => (r, Panic)
          end
    | (r, Err _) => (r, Ok None)
    | (r, Panic) => (r, Panic)
    end.

(** ** The iterators over one SST *)

Record SSTableIterFiltered := {
  sif_r : FileReader; sif_start : CoreRecord; sif_end : CoreRecord;
  sif_key : list byte; sif_end_pos : Z; sif_filter : list byte
}.

Definition sif_with (it : SSTableIterFiltered) (r : FileReader) : SSTableIterFiltered :=
  {| sif_r := r; sif_start := sif_start it; sif_end := sif_end it;
     sif_key := sif_key it; sif_end_pos := sif_end_pos it; sif_filter := sif_filter it |}.

Record SSTableIterUnfiltered := { siu_r : FileReader; siu_index_offset : Z }.

Section sst_iters.
Context `{SstModule}.

(** [file] is what is found at the path of [meta]; a missing file is an error *)
Definition sif_new (file : option (list byte)) (meta : SSTableMeta) (source_id : Z) (key : list byte)
    (start_ts end_ts : Z) (filter : list byte) : outcome io_error SSTableIterFiltered :=
  if end_ts <? start_ts then bail
  else if start_ts <? 0 then bail
  else
    let start := from_raw_parts source_id start_ts 0 key [] in
    let end_ := from_raw_parts source_id end_ts 0 key [] in
    match file with
    | None => bail
    | Some f =>
        Ok {| sif_r := reader_seek (binary_seek (meta_index meta) start) (reader_open f);
              sif_start := start; sif_end := end_; sif_key := key;
              sif_end_pos := meta_index_offset meta; sif_filter := filter |}
    end.

Definition siu_new (file : option (list byte)) (meta : SSTableMeta) : outcome io_error SSTableIterUnfiltered :=
  match file with
  | None => bail
  | Some f => Ok {| siu_r := reader_open f; siu_index_offset := meta_index_offset meta |}
  end.
End sst_iters.

(** the checks made on a record between the bounds *)
Definition sif_accepts (it : SSTableIterFiltered) (rec : CoreRecord) : outcome io_error bool :=
  match extract_all_fields_ref rec with
  | Ok (_, _, _, key, val) =>
      Ok (bool_decide (key = sif_key it) &&
          negb (negb (bool_decide (sif_filter it = [])) && negb (str_contains val (sif_filter it))))
  | Err _ => Ok false
  | Panic => Panic
  end.

(** the loop of [next]; every turn but the last reads at least eight bytes *)
Fixpoint sif_loop (fuel : nat) (it : SSTableIterFiltered)
    : SSTableIterFiltered * outcome io_error (option CoreRecord) :=
  match fuel with
  | O => (it, Panic)
  | S fuel =>
      match read_sst_record (sif_end_pos it) (sif_r it) with
      | (r, Ok (Some rec)) =>
          let it := sif_with it r in
          match core_record_cmp rec (sif_start it) with
          | Ok Lt => sif_loop fuel it
          | Ok _ =>
              match core_record_cmp rec (sif_end it) with
              | Ok Lt =>
                  match sif_accepts it rec with
                  | Ok true => (it, Ok (Some rec))
                  | Ok false => sif_loop fuel it
                  | Err e => (it, Err e)
                  | Panic => (it, Panic)
                  end
              | Ok _ => (it, Ok None)
              | Err e => (it, Err e)
              | Panic => (it, Panic)
              end
          | Err e => (it, Err e)
          | Panic => (it, Panic)
          end
      | (r, o) => (sif_with it r, o)
      end
  end.
Definition sif_next : st SSTableIterFiltered io_error (option CoreRecord) := fun it =>
  sif_loop (S (length (rd_file (sif_r it)))) it.

Definition siu_next : st SSTableIterUnfiltered io_error (option CoreRecord) := fun it =>
  let '(r, o) := read_sst_record (siu_index_offset it) (siu_r it) in
  ({| siu_r := r; siu_index_offset := siu_index_offset it |}, o).

Inductive RecordIter :=
| Filtered (it : SSTableIterFiltered)
| Unfiltered (it : SSTableIterUnfiltered)
| Inmem (records : list CoreRecord).

Definition record_iter_next : st RecordIter io_error (option CoreRecord) := fun it =>
  match it with
  | Filtered it => let '(it, o) := sif_next it in (Filtered it, o)
  | Unfiltered it => let '(it, o) := siu_next it in (Unfiltered it, o)
  | Inmem [] => (Inmem [], Ok None)
  | Inmem (r :: rs) => (Inmem rs, Ok (Some r))
  end.

(** ** The merge *)

Record CoreHeapItem := { chi_record : CoreRecord; chi_source_idx : nat }.
(** [Ord for HeapItem] compares the records *)
#[global] Instance core_heap_item_cmp : Cmp CoreHeapItem := fun a b =>
  cmp (sort_key (chi_record a)) (sort_key (chi_record b)).
#[global] Instance core_heap_item_total_cmp : TotalCmp CoreHeapItem.
Proof.
  split; unfold cmp, core_heap_item_cmp; intros.
  - apply cmp_refl.
  - apply cmp_flip.
  - by apply cmp_trans with (sort_key (chi_record y)).
  - by apply cmp_eq_compat.
Qed.

Record CoreMergeIter (H : Type) := {
  cm_heap : H;
  cm_memtable_iter : option IntoIterFiltered;
  cm_sstable_iters : list RecordIter;
  cm_last_item : option CoreRecord
}.
Arguments cm_heap {H} c.
Arguments cm_memtable_iter {H} c.
Arguments cm_sstable_iters {H} c.
Arguments cm_last_item {H} c.

Section core_merge.
Context {H : Type} `{!MinHeap CoreHeapItem H}.

(** Pushing onto a heap that is not empty compares records, and comparing
    panics when a key cannot be extracted. A heap with two elements holds
    only records that can be compared, so [pop] does not panic. *)
Definition core_heap_push (x : CoreHeapItem) (h : H) : outcome io_error H :=
  match heap_elems h with
  | [] => Ok (heap_push x h)
  | _ => if extractable (chi_record x) && forallb (fun y => extractable (chi_record y)) (heap_elems h)
         then Ok (heap_push x h) else Panic
  end.

Definition cm_push (rec : CoreRecord) (idx : nat) : st (CoreMergeIter H) io_error unit := fun m =>
  match core_heap_push {| chi_record := rec; chi_source_idx := idx |} (cm_heap m) with
  | Ok h => ({| cm_heap := h; cm_memtable_iter := cm_memtable_iter m;
                cm_sstable_iters := cm_sstable_iters m; cm_last_item := cm_last_item m |}, Ok tt)
  | Err e => (m, Err e)
  | Panic => (m, Panic)
  end.

(** taking the next record of the memtable iterator, of an SST iterator *)
Definition cm_pull_memtable : st (CoreMergeIter H) io_error unit := fun m =>
  match cm_memtable_iter m with
  | None => (m, Ok tt)
  | Some it =>
      let '(it, r) := iif_next it in
      let m := {| cm_heap := cm_heap m; cm_memtable_iter := Some it;
                  cm_sstable_iters := cm_sstable_iters m; cm_last_item := cm_last_item m |} in
      match r with Some rec => cm_push rec 0 m | None => (m, Ok tt) end
  end.
Definition cm_pull_sstable (i : nat) : st (CoreMergeIter H) io_error unit := fun m =>
  match cm_sstable_iters m !! i with
  | None => (m, Ok tt)
  | Some it =>
      let '(it, o) := record_iter_next it in
      let m := {| cm_heap := cm_heap m; cm_memtable_iter := cm_memtable_iter m;
                  cm_sstable_iters := <[i := it]> (cm_sstable_iters m); cm_last_item := cm_last_item m |} in
      match o with
      | Ok (Some rec) => cm_push rec (S i) m
      | Ok None => (m, Ok tt)
      | Err e => (m, Err e)
      | Panic => (m, Panic)
      end
  end.

Fixpoint cm_fill (idxs : list nat) : st (CoreMergeIter H) io_error unit :=
  match idxs with
  | [] => mret tt
  | i :: rest => _ ← cm_pull_sstable i; cm_fill rest
  end.

Definition core_merge_new (memtable_iter : option IntoIterFiltered) (sstable_iters : list RecordIter)
    : outcome io_error (CoreMergeIter H) :=
  let m := {| cm_heap := heap_new; cm_memtable_iter := memtable_iter;
              cm_sstable_iters := sstable_iters; cm_last_item := None |} in
  match (_ ← cm_pull_memtable; cm_fill (seq 0 (length sstable_iters))) m with
  | (m, Ok _) => Ok m
  | (_, Err e) => Err e
  | (_, Panic) => Panic
  end.

(** [refil]: index 0 without a memtable iterator falls through to the SSTs,
    where the index wraps around and finds nothing *)
Definition refil (source_idx : nat) : st (CoreMergeIter H) io_error unit := fun m =>
  match source_idx, cm_memtable_iter m with
  | O, Some _ => cm_pull_memtable m
  | O, None => (m, Ok tt)
  | S i, _ => cm_pull_sstable i m
  end.

(** the loop of [next]; one turn per record that is left *)
Fixpoint core_merge_next (fuel : nat) (m : CoreMergeIter H)
    : CoreMergeIter H * outcome io_error (option CoreRecord) :=
  match fuel with
  | O => (m, Panic)
  | S fuel =>
      match heap_pop (cm_heap m) with
      | None => (m, Ok None)
      | Some (item, h) =>
          let m := {| cm_heap := h; cm_memtable_iter := cm_memtable_iter m;
                      cm_sstable_iters := cm_sstable_iters m; cm_last_item := cm_last_item m |} in
          match refil (chi_source_idx item) m with
          | (m, Ok _) =>
              let record := chi_record item in
              let yield_ := ({| cm_heap := cm_heap m; cm_memtable_iter := cm_memtable_iter m;
                                cm_sstable_iters := cm_sstable_iters m; cm_last_item := Some record |},
                             Ok (Some record)) in
              match cm_last_item m with
              | None => yield_
              | Some prev =>
                  match core_record_cmp prev record with
                  | Ok Eq => core_merge_next fuel m
                  | Ok _ => yield_
                  | Err e => (m, Err e)
                  | Panic => (m, Panic)
                  end
              end
          | (m, Err e) => (m, Err e)
          | (m, Panic) => (m, Panic)
          end
      end
  end.

(** what a consumer that calls [next] until [None] sees; [n] bounds the
    records left *)
Fixpoint core_merge_collect (fuel n : nat) (m : CoreMergeIter H) : outcome io_error (list CoreRecord) :=
  match fuel with
  | O => Panic
  | S fuel =>
      match core_merge_next n m with
      | (_, Ok None) => Ok []
      | (m, Ok (Some r)) => rs ← core_merge_collect fuel n m; Ok (r :: rs)
      | (_, Err e) => Err e
      | (_, Panic) => Panic
      end
  end.
End core_merge.

(** ** What the iterators rely on *)

(** the records of a file, in order, each with its length in front, up to
    the index block *)
Definition sst_layout `{SstModule} (meta : SSTableMeta) (file : list byte) (rs : list CoreRecord) : Prop :=
  (exists tail, file = wal_wires rs ++ tail) /\ meta_index_offset meta = blen (wal_wires rs) /\
  Forall (fun r => blen r <= VEC_MAX - 8) rs /\ bset_sorted sort_key rs /\ forallb extractable rs = true.

(** source and timestamp, the part of the key an index entry is found by *)
Definition source_ts (r : CoreRecord) : list byte * list byte := (take 8 r, take 8 (drop 8 r)).

(** [binary_seek] returns the offset of a record whose source and timestamp
    are not after those of the target, or 0 (the tests of iter.rs fix this,
    and that sequence numbers are ignored) *)
Definition seek_ok `{SstModule} (meta : SSTableMeta) (pre post : list CoreRecord) (target : CoreRecord) : Prop :=
  binary_seek (meta_index meta) target = blen (wal_wires pre) /\
  (pre = [] \/ exists p t, post = p :: t /\ cmp (source_ts p) (source_ts target) <> Gt).

(** ** Reading the records of a file one by one *)

(** [r] stands in front of the records [rs], which end at [end_pos] *)
Definition rd_at (r : FileReader) (end_pos : Z) (rs : list CoreRecord) : Prop :=
  exists pre tail, rd_file r = pre ++ wal_wires rs ++ tail /\ rd_pos r = blen pre /\
    end_pos = blen pre + blen (wal_wires rs).

Lemma read_exact_app (x y z : list byte) :
  reader_read_exact (blen y) {| rd_file := x ++ y ++ z; rd_pos := blen x |}
  = ({| rd_file := x ++ y ++ z; rd_pos := blen x + blen y |}, Ok y).
Proof.
  unfold reader_read_exact, reader_seek. cbn [rd_file rd_pos]. if_true. by rewrite slice_app.
Qed.

Lemma wal_wires_cons r rs : wal_wires (r :: rs) = le_bytes 8 (blen r) ++ r ++ wal_wires rs.
Proof. unfold wal_wires, wal_wire. cbn [map concat]. by rewrite <- app_assoc. Qed.

Lemma read_sst_record_end r end_pos : rd_at r end_pos [] -> read_sst_record end_pos r = (r, Ok None).
Proof.
  intros (pre & tail & _ & Hp & ->). unfold read_sst_record. rewrite Hp. if_true. done.
Qed.

Lemma read_sst_record_next r end_pos q rs :
  rd_at r end_pos (q :: rs) -> blen q <= VEC_MAX - 8 ->
  exists r', read_sst_record end_pos r = (r', Ok (Some q)) /\ rd_at r' end_pos rs /\ rd_file r' = rd_file r.
Proof.
  intros (pre & tail & Hf & Hp & ->) Hq. destruct r as [f pos]. cbn [rd_file rd_pos] in *. subst f pos.
  rewrite wal_wires_cons. pose proof (blen_nonneg (wal_wires rs)). pose proof (blen_nonneg q).
  unfold read_sst_record. cbn [rd_pos]. if_false. rewrite <- !app_assoc.
  pose proof (read_exact_app pre (le_bytes 8 (blen q)) (q ++ wal_wires rs ++ tail)) as E1.
  rewrite blen_le_bytes in E1. change (Z.of_nat 8) with 8 in E1. rewrite E1.
  unfold VEC_MAX in *. rewrite le_val_le_bytes_small by (cbn; lia). if_false.
  pose proof (read_exact_app (pre ++ le_bytes 8 (blen q)) q (wal_wires rs ++ tail)) as E2.
  rewrite blen_app, blen_le_bytes, <- !app_assoc in E2. change (Z.of_nat 8) with 8 in E2. rewrite E2.
  eexists. split; [reflexivity|]. split; [|done]. exists (pre ++ le_bytes 8 (blen q) ++ q), tail. cbn [rd_file rd_pos].
  split_and!; [by rewrite <- !app_assoc|zlia|zlia].
Qed.

(** ** Iterators as lists *)

(** [ri_yields it l]: calling [next] again and again gives [l] and then [None] *)
Inductive ri_yields : RecordIter -> list CoreRecord -> Prop :=
| ry_end it it' : record_iter_next it = (it', Ok None) -> ri_yields it []
| ry_next it it' r l :
    record_iter_next it = (it', Ok (Some r)) -> ri_yields it' l -> ri_yields it (r :: l).

Lemma inmem_yields rs : ri_yields (Inmem rs) rs.
Proof. induction rs as [|r rs IH]; [by eapply ry_end|by eapply ry_next]. Qed.

Lemma unfiltered_yields it rs :
  rd_at (siu_r it) (siu_index_offset it) rs -> Forall (fun r => blen r <= VEC_MAX - 8) rs ->
  ri_yields (Unfiltered it) rs.
Proof.
  intros Hat Hrs. revert it Hat. induction Hrs as [|r rs Hr _ IH]; intros it Hat.
  - eapply ry_end. cbn [record_iter_next]. unfold siu_next. by rewrite read_sst_record_end.
  - destruct (read_sst_record_next _ _ _ _ Hat Hr) as (r' & E & Hat' & _).
    eapply ry_next; [cbn [record_iter_next]; unfold siu_next; by rewrite E|]. by apply IH.
Qed.

(** ** The filtered iterator *)

(** the records the loop of [next] stops at *)
Definition sif_match (it : SSTableIterFiltered) (r : CoreRecord) : bool :=
  match cmp (sort_key r) (sort_key (sif_start it)) with
  | Lt => false
  | _ => match cmp (sort_key r) (sort_key (sif_end it)) with
         | Lt => match sif_accepts it r with Ok b => b | _ => false end
         | _ => false
         end
  end.

Lemma core_record_cmp_ok a b :
  extractable a = true -> extractable b = true -> core_record_cmp a b = Ok (cmp (sort_key a) (sort_key b)).
Proof. intros Ha Hb. unfold core_record_cmp. by rewrite Ha, Hb. Qed.

Lemma sif_accepts_ok it r : exists b, sif_accepts it r = Ok b.
Proof.
  unfold sif_accepts. pose proof (extract_all_no_panic r).
  destruct (extract_all_fields_ref r) as [[[[[? ?] ?] ?] ?]| |]; [by eexists..|done].
Qed.

Lemma after_end it r rs :
  bset_sorted sort_key (r :: rs) -> cmp (sort_key r) (sort_key (sif_end it)) <> Lt ->
  List.filter (sif_match it) rs = [].
Proof.
  intros [_ Hr]%StronglySorted_inv Hend. apply filter_none. eapply Forall_impl; [exact Hr|]. intros q Hq.
  unfold key_lt in Hq. unfold sif_match. destruct (cmp (sort_key q) (sort_key (sif_end it))) eqn:E;
    [by destruct (cmp (sort_key q) (sort_key (sif_start it)))| |by destruct (cmp (sort_key q) (sort_key (sif_start it)))].
  destruct Hend. by apply cmp_trans with (sort_key q).
Qed.

Lemma sif_loop_spec fuel it rs :
  rd_at (sif_r it) (sif_end_pos it) rs -> Forall (fun r => blen r <= VEC_MAX - 8) rs ->
  bset_sorted sort_key rs -> forallb extractable (sif_start it :: sif_end it :: rs) = true -> (length rs < fuel)%nat ->
  match List.filter (sif_match it) rs with
  | [] => exists it', sif_loop fuel it = (it', Ok None)
  | r :: l => exists r' rs', sif_loop fuel it = (sif_with it r', Ok (Some r)) /\ rd_file r' = rd_file (sif_r it) /\
      rd_at r' (sif_end_pos it) rs' /\ l = List.filter (sif_match it) rs' /\ exists pre, rs = pre ++ rs'
  end.
Proof.
  intros Hat Hsz. revert fuel it Hat. induction Hsz as [|r rs Hr _ IH]; intros fuel it Hat Hs Hx Hf;
    (destruct fuel as [|fuel]; [cbn in Hf; lia|]); cbn [sif_loop List.filter].
  - rewrite read_sst_record_end by done. by eexists.
  - destruct (read_sst_record_next _ _ _ _ Hat Hr) as (r' & -> & Hat' & Hfile).
    cbn [forallb length] in *. gsplit.
    assert (match List.filter (sif_match it) rs with
      | [] => exists it', sif_loop fuel (sif_with it r') = (it', Ok None)
      | q :: l => exists r'' rs', sif_loop fuel (sif_with it r') = (sif_with it r'', Ok (Some q)) /\
          rd_file r'' = rd_file (sif_r it) /\ rd_at r'' (sif_end_pos it) rs' /\ l = List.filter (sif_match it) rs' /\
          exists pre, r :: rs = pre ++ rs' end) as Hskip.
    { specialize (IH fuel (sif_with it r') Hat'). cbn [sif_with sif_r sif_end_pos sif_start sif_end] in IH.
      change (sif_match (sif_with it r')) with (sif_match it) in IH. rewrite Hfile in IH.
      specialize (IH (proj1 (StronglySorted_inv Hs)) ltac:(cbn [forallb]; repeat (apply andb_true_intro; split); assumption) ltac:(lia)).
      destruct (List.filter (sif_match it) rs) as [|q l]; [exact IH|].
      destruct IH as (r'' & rs' & -> & Hf' & Ha & -> & pre & ->). exists r'', rs'. split_and!; try done. by exists (r :: pre). }
    cbn [sif_with sif_start sif_end]. rewrite !core_record_cmp_ok by done.
    pose proof (after_end it r rs Hs) as Hend. destruct (sif_accepts_ok it r) as [b Hb].
    change (sif_accepts (sif_with it r') r) with (sif_accepts it r). rewrite Hb.
    unfold sif_match at 1. rewrite Hb.
    destruct (cmp (sort_key r) (sort_key (sif_start it))), (cmp (sort_key r) (sort_key (sif_end it)));
      try exact Hskip; first [rewrite Hend by done; by eexists | destruct b; [|exact Hskip]].
    all: exists r', rs; split_and!; try done; by exists [r].
Qed.

(** what [next] stops at is what the query asks for *)
Lemma cmp_tail_key (q k : list byte) : blen q = 8 -> cmp (q, k) (be_bytes 8 0, k) <> Lt.
Proof.
  intros Hq. unfold cmp at 1, pair_cmp. cbn [fst snd]. rewrite cmp_field by done. change (wrap64 0) with 0.
  pose proof (be_val_bound q). destruct (Z.compare_spec (be_val q) 0); [|lia|done]. cbn [ord_then]. by rewrite cmp_refl.
Qed.

(** with the queried key, the bounds with and without the key agree *)
Lemma bound_key_irrelevant sid t key r :
  in_u32 (blen key) -> extract_key r = Ok key ->
  cmp (sort_key r) (sort_key (from_raw_parts sid t 0 key [])) = Lt <->
  cmp (sort_key r) (sort_key (from_raw_parts sid t 0 [] [])) = Lt.
Proof.
  intros Hk Hr. assert (28 <= blen r) by (apply extractable_len; unfold extractable; by rewrite Hr).
  rewrite sort_key_bound, sort_key_built by done. unfold sort_key. rewrite Hr.
  by rewrite !cmp_bound_gen by (first [zlia | apply cmp_tail_key; zlia | apply cmp_bound_tail; zlia]).
Qed.

Lemma sif_match_eq it sid key s e flt r :
  in_i64 sid -> in_i64 s -> in_i64 e -> 0 <= s <= e -> in_u32 (blen key) ->
  sif_start it = from_raw_parts sid s 0 key [] -> sif_end it = from_raw_parts sid e 0 key [] ->
  sif_key it = key -> sif_filter it = flt -> extractable r = true ->
  sif_match it r = core_query_match sid key s e flt r.
Proof.
  intros Hsid Hs He Hle Hkey Hst Hen Hk Hf Hr. destruct (extractable_key r Hr) as [k Hrk].
  unfold sif_match, core_query_match, sif_accepts. rewrite Hst, Hen, Hk, Hf, (extract_all_eq r k Hrk), Hrk.
  rewrite <- (unsigned_window_same_sign sid s e r), <- (clone_range_window sid s e r) by (done || lia).
  destruct (decide (k = key)) as [->|Hne].
  - pose proof (bound_key_irrelevant sid s key r Hkey Hrk) as Es. pose proof (bound_key_irrelevant sid e key r Hkey Hrk) as Ee.
    unfold in_bounds, after_start, before_end. rewrite (bool_decide_eq_true_2 (key = key)) by done.
    destruct (extract_value r) as [v| |]; rewrite ?ok_bind, ?err_bind, ?panic_bind, ?andb_false_r;
      destruct (cmp (sort_key r) (sort_key (from_raw_parts sid s 0 key []))),
        (cmp (sort_key r) (sort_key (from_raw_parts sid s 0 [] []))),
        (cmp (sort_key r) (sort_key (from_raw_parts sid e 0 key []))),
        (cmp (sort_key r) (sort_key (from_raw_parts sid e 0 [] []))); cbn [andb]; try done;
      first [discriminate (proj1 Es eq_refl) | discriminate (proj2 Es eq_refl)
            | discriminate (proj1 Ee eq_refl) | discriminate (proj2 Ee eq_refl) | idtac].
    all: by destruct (bool_decide (flt = [])), (str_contains v flt); case_bool_decide.
  - rewrite (bool_decide_eq_false_2 (k = key)) by done. rewrite andb_false_r. cbn [andb].
    destruct (cmp (sort_key r) (sort_key (from_raw_parts sid s 0 key []))),
      (cmp (sort_key r) (sort_key (from_raw_parts sid e 0 key []))); try done;
      destruct (extract_value r) as [v| |]; rewrite ?ok_bind, ?err_bind, ?panic_bind; try done; by case_bool_decide.
Qed.

Lemma length_wal_wires rs : (length rs <= length (wal_wires rs))%nat.
Proof.
  induction rs as [|r rs IH]; [done|]. rewrite wal_wires_cons, !length_app. unfold le_bytes.
  rewrite length_le_split. cbn [length]. lia.
Qed.

Lemma filtered_yields it rs :
  rd_at (sif_r it) (sif_end_pos it) rs -> Forall (fun r => blen r <= VEC_MAX - 8) rs ->
  bset_sorted sort_key rs -> forallb extractable (sif_start it :: sif_end it :: rs) = true ->
  ri_yields (Filtered it) (List.filter (sif_match it) rs).
Proof.
  remember (List.filter (sif_match it) rs) as l eqn:El. revert it rs El.
  induction l as [|q l IH]; intros it rs El Hat Hsz Hs Hx.
  all: pose proof (sif_loop_spec (S (length (rd_file (sif_r it)))) it rs Hat Hsz Hs Hx) as Hl; rewrite <- El in Hl.
  all: assert (length rs < S (length (rd_file (sif_r it))))%nat as Hf
    by (destruct Hat as (pre & tail & -> & _); rewrite !length_app; pose proof (length_wal_wires rs); lia).
  - destruct (Hl Hf) as [it' E]. eapply ry_end. cbn [record_iter_next]. unfold sif_next. by rewrite E.
  - destruct (Hl Hf) as (r' & rs' & E & Hfile & Hat' & Hl' & pre & ->).
    eapply ry_next; [cbn [record_iter_next]; unfold sif_next; by rewrite E|].
    cbn [forallb] in Hx. rewrite forallb_app in Hx. gsplit.
    apply (IH (sif_with it r') rs'); [done|done| | |].
    + by apply Forall_app in Hsz as [_ Hsz].
    + by apply StronglySorted_app_1_r in Hs.
    + cbn [forallb sif_with sif_start sif_end]. repeat (apply andb_true_intro; split); assumption.
Qed.

(** ** Before the offset the index returns *)

Lemma cmp_source_ts a b : cmp (source_ts a) (source_ts b) = Lt -> cmp (sort_key a) (sort_key b) = Lt.
Proof.
  unfold source_ts, sort_key, cmp, pair_cmp. cbn [fst snd].
  destruct (cmp (take 8 a) (take 8 b)); cbn [ord_then]; [|done|done].
  unfold cmp at 2. cbn [fst snd]. by destruct (cmp (take 8 (drop 8 a)) (take 8 (drop 8 b))).
Qed.

Lemma key_lt_source_ts a b : key_lt sort_key a b -> cmp (source_ts a) (source_ts b) <> Gt.
Proof.
  intros Hlt Hgt. apply cmp_gt_lt, cmp_source_ts in Hgt. unfold key_lt in Hlt.
  rewrite cmp_flip, Hgt in Hlt. done.
Qed.

Lemma skipped_before `{SstModule} meta pre post target r :
  bset_sorted sort_key (pre ++ post) -> seek_ok meta pre post target -> r ∈ pre ->
  source_ts r <> source_ts target -> cmp (sort_key r) (sort_key target) = Lt.
Proof.
  intros Hs (_ & [->|(p & t & -> & Hp)]) Hr Hne; [by apply not_elem_of_nil in Hr|].
  apply cmp_source_ts.
  assert (cmp (source_ts r) (source_ts p) <> Gt) as Hrp.
  { apply key_lt_source_ts. apply (StronglySorted_app_1_elem_of _ pre (p :: t)); [exact Hs|done|left]. }
  pose proof (cmp_le_trans _ _ _ Hrp Hp) as Hle. destruct (cmp (source_ts r) (source_ts target)) eqn:E; [|done|done].
  apply cmp_eq in E. done.
Qed.

Section filtered_spec.
Context `{SstModule}.

Lemma extractable_built sid t seq k v :
  in_u32 (blen k) -> in_u32 (blen v) -> extractable (from_raw_parts sid t seq k v) = true.
Proof. intros Hk Hv. unfold extractable. by rewrite extract_key_built. Qed.

Lemma sif_new_yields meta file pre post sid key s e flt :
  sst_layout meta file (pre ++ post) -> binary_seek (meta_index meta) (from_raw_parts sid s 0 key []) = blen (wal_wires pre) ->
  in_i64 sid -> in_i64 s -> in_i64 e -> in_u32 (blen key) -> 0 <= s <= e ->
  exists it, sif_new (Some file) meta sid key s e flt = Ok it /\
    ri_yields (Filtered it) (List.filter (core_query_match sid key s e flt) post).
Proof.
  intros ((tail & ->) & Hoff & Hsz & Hs & Hx) Hseek Hsid Hs64 He64 Hk Hle. unfold sif_new. do 2 if_false.
  eexists. split; [reflexivity|]. set (it := {| sif_r := _ |}).
  rewrite forallb_app in Hx. gsplit.
  erewrite (filter_ext_in (core_query_match sid key s e flt) (sif_match it)).
  - apply filtered_yields.
    + exists (wal_wires pre), tail. subst it. cbn [sif_r sif_end_pos reader_seek reader_open rd_file rd_pos].
      unfold wal_wires in *. rewrite map_app, concat_app in *. split_and!; [by rewrite <- app_assoc|done|]. rewrite Hoff. zlia.
    + by apply Forall_app in Hsz as [_ Hsz].
    + by apply StronglySorted_app_1_r in Hs.
    + cbn [forallb]. repeat (apply andb_true_intro; split); try assumption; by apply extractable_built.
  - intros r Hr. symmetry. apply sif_match_eq; try done.
    match goal with Hp : forallb extractable post = true |- _ => by apply (proj1 (forallb_forall _ _) Hp) end.
Qed.

(** nothing that matches lies before the offset the index returns, unless it
    has exactly the start timestamp *)
Lemma skipped_no_match meta file pre post sid key s e flt r :
  sst_layout meta file (pre ++ post) -> seek_ok meta pre post (from_raw_parts sid s 0 key []) ->
  in_i64 sid -> in_i64 s -> in_i64 e -> in_u32 (blen key) -> 0 <= s <= e ->
  r ∈ pre -> source_ts r <> (be_bytes 8 sid, be_bytes 8 s) -> core_query_match sid key s e flt r = false.
Proof.
  intros Hlay Hseek Hsid Hs He Hk Hle Hr Hpre.
  destruct Hlay as (_ & _ & _ & Hsort & Hx). rewrite forallb_app in Hx. apply andb_true_iff in Hx as [Hx _].
  pose (it := {| sif_r := reader_open []; sif_start := from_raw_parts sid s 0 key []; sif_end := from_raw_parts sid e 0 key [];
                 sif_key := key; sif_end_pos := 0; sif_filter := flt |}).
  rewrite <- (sif_match_eq it sid key s e flt r); try done.
  2: { by apply (proj1 (forallb_forall _ _) Hx), list_elem_of_In. }
  unfold sif_match. cbn [sif_start it]. by rewrite (skipped_before meta pre post).
Qed.

(** On an SST file laid out as [sst_layout] says, the filtered iterator
    rejects reversed and negative windows, and otherwise yields, in order,
    the records that match the query from the offset the index returns. That
    is all of them unless a record before that offset has the source of the
    query and exactly its start timestamp: the index is searched by source
    and timestamp only, so such records are skipped. *)
Theorem sst_iter_filtered_spec (meta : SSTableMeta) (file : list byte) (pre post : list CoreRecord)
    (sid : Z) (key : list byte) (s e : Z) (flt : list byte)
    (Hlay : sst_layout meta file (pre ++ post)) (Hseek : seek_ok meta pre post (from_raw_parts sid s 0 key []))
    (Hsid : in_i64 sid) (Hs : in_i64 s) (He : in_i64 e) (Hk : in_u32 (blen key)) :
  (e < s \/ s < 0 -> sif_new (Some file) meta sid key s e flt = bail) /\
  (0 <= s <= e ->
   (exists it, sif_new (Some file) meta sid key s e flt = Ok it /\
     ri_yields (Filtered it) (List.filter (core_query_match sid key s e flt) post)) /\
   ((forall r, r ∈ pre -> source_ts r <> (be_bytes 8 sid, be_bytes 8 s)) ->
    List.filter (core_query_match sid key s e flt) post = List.filter (core_query_match sid key s e flt) (pre ++ post))).
Proof.
  split; [intros Hbad; unfold sif_new; case_if; [done|by if_true]|]. intros Hle. split.
  - eapply sif_new_yields; try done. apply Hseek.
  - intros Hpre. rewrite List.filter_app, (filter_none _ pre); [done|]. apply Forall_forall. intros r Hr.
    by apply (skipped_no_match meta file pre post); try done; apply Hpre.
Qed.
End filtered_spec.

(** ** The invariant of the merge

    [rem] lists what the sources have not handed out yet: the memtable
    iterator first, then the SSTs. A source that has been asked ([filled])
    and still has records has one in the heap that is not after them. *)

Definition core_le (a b : CoreRecord) : Prop := cmp (sort_key a) (sort_key b) <> Gt.

Lemma core_le_trans a b c : core_le a b -> core_le b c -> core_le a c.
Proof. unfold core_le. apply cmp_le_trans. Qed.
Lemma core_le_refl a : core_le a a.
Proof. unfold core_le. by rewrite cmp_refl. Qed.

Section merge_inv.
Context {H : Type} `{!MinHeap CoreHeapItem H, !MinHeapLaws CoreHeapItem H}.
Implicit Types (m : CoreMergeIter H) (rem : list (list CoreRecord)).

Definition cm_pull (i : nat) : st (CoreMergeIter H) io_error unit :=
  match i with O => cm_pull_memtable | S i => cm_pull_sstable i end.

Lemma refil_pull i m : refil i m = cm_pull i m.
Proof. unfold refil, cm_pull, cm_pull_memtable. destruct i; [|done]. by destruct (cm_memtable_iter m). Qed.

Definition cm_sources m : list nat := chi_source_idx <$> heap_elems (cm_heap m).
Definition cm_pending m rem : list CoreRecord := (chi_record <$> heap_elems (cm_heap m)) ++ concat rem.

(** the iterator behind source [i] still yields [l] *)
Definition cm_alive m (i : nat) (l : list CoreRecord) : Prop :=
  match i with
  | O => match cm_memtable_iter m with
         | Some it => l = List.filter (iif_matches it) (iif_inner it)
         | None => l = []
         end
  | S i => exists it, cm_sstable_iters m !! i = Some it /\ ri_yields it l
  end.

Record cm_inv (filled : nat -> Prop) m rem : Prop := {
  ci_len : length rem = S (length (cm_sstable_iters m));
  ci_alive : forall i l, rem !! i = Some l -> cm_alive m i l \/ (l = [] /\ filled i /\ i ∉ cm_sources m);
  ci_sorted : forall i l, rem !! i = Some l -> StronglySorted core_le l;
  ci_nodup : NoDup (cm_sources m);
  ci_filled : forall i, i ∈ cm_sources m -> filled i /\ (i < length rem)%nat;
  ci_cover : forall i q t, filled i -> rem !! i = Some (q :: t) ->
    exists y, y ∈ heap_elems (cm_heap m) /\ chi_source_idx y = i /\ core_le (chi_record y) q;
  ci_extract : forall r, r ∈ cm_pending m rem -> extractable r = true
}.

Lemma cm_push_ok rec i m :
  extractable rec = true -> (forall y, y ∈ heap_elems (cm_heap m) -> extractable (chi_record y) = true) ->
  cm_push rec i m
  = ({| cm_heap := heap_push {| chi_record := rec; chi_source_idx := i |} (cm_heap m);
        cm_memtable_iter := cm_memtable_iter m; cm_sstable_iters := cm_sstable_iters m;
        cm_last_item := cm_last_item m |}, Ok tt).
Proof.
  intros Hr Hh. unfold cm_push, core_heap_push. cbn [chi_record]. destruct (heap_elems (cm_heap m)) as [|x l]; [done|].
  rewrite Hr. replace (forallb _ _) with true; [done|]. symmetry. apply forallb_forall. intros y Hy%list_elem_of_In. by apply Hh.
Qed.

(** asking a source: its next record, if any, moves to the heap *)
Lemma cm_pull_spec i m l :
  cm_alive m i l -> (forall y, y ∈ heap_elems (cm_heap m) -> extractable (chi_record y) = true) ->
  (forall r, r ∈ l -> extractable r = true) ->
  exists m', cm_pull i m = (m', Ok tt) /\ cm_last_item m' = cm_last_item m /\
    length (cm_sstable_iters m') = length (cm_sstable_iters m) /\
    (forall j k, j <> i -> cm_alive m j k -> cm_alive m' j k) /\
    match l with
    | [] => cm_heap m' = cm_heap m
    | q :: t => cm_heap m' = heap_push {| chi_record := q; chi_source_idx := i |} (cm_heap m) /\ cm_alive m' i t
    end.
Proof.
  intros Hal Hh Hl. destruct i as [|i]; cbn [cm_pull cm_alive] in *.
  - unfold cm_pull_memtable. destruct (cm_memtable_iter m) as [it|] eqn:Eit.
    2: { subst l. exists m. split_and!; try done. }
    pose proof (iif_next_spec it) as Hn. rewrite <- Hal in Hn. destruct (iif_next it) as [it' o].
    destruct l as [|q t]; [destruct Hn as [-> Hn]|destruct Hn as (-> & Hn & _)].
    + eexists. split; [reflexivity|]. split_and!; try done. by intros [|j].
    + rewrite cm_push_ok; [|by apply Hl; left|done]. eexists. split; [reflexivity|]. split_and!; try done. by intros [|j].
  - destruct Hal as (it & Hit & Hy). unfold cm_pull_sstable. rewrite Hit.
    inversion Hy as [? it' E|? it' q t E Hy']; subst; rewrite E.
    + eexists. split; [reflexivity|]. cbn [cm_last_item cm_sstable_iters cm_heap]. rewrite length_insert. split_and!; try done.
      intros [|j] k Hne; cbn [cm_alive cm_memtable_iter cm_sstable_iters]; [done|]. intros (x & Hx & Hk). exists x.
      by rewrite list_lookup_insert_ne by congruence.
    + rewrite cm_push_ok; [|by apply Hl; left|done]. eexists. split; [reflexivity|].
      cbn [cm_last_item cm_sstable_iters cm_heap]. rewrite length_insert. split_and!; try done.
      * intros [|j] k Hne; cbn [cm_alive cm_memtable_iter cm_sstable_iters]; [done|]. intros (x & Hx & Hk). exists x.
        by rewrite list_lookup_insert_ne by congruence.
      * exists it'. split; [|done]. cbn [cm_sstable_iters]. apply list_lookup_insert_eq. by eapply lookup_lt_Some.
Qed.

Lemma cm_sources_push m m' q i :
  cm_heap m' = heap_push {| chi_record := q; chi_source_idx := i |} (cm_heap m) -> cm_sources m' ≡ₚ i :: cm_sources m.
Proof. intros Hh. unfold cm_sources. by rewrite Hh, heap_push_elems. Qed.

(** a source that has nothing in the heap is asked *)
Lemma cm_pull_inv filled m rem i l :
  cm_inv filled m rem -> rem !! i = Some l -> cm_alive m i l -> i ∉ cm_sources m ->
  exists m' rem', cm_pull i m = (m', Ok tt) /\ cm_inv (fun j => filled j \/ j = i) m' rem' /\
    cm_pending m' rem' ≡ₚ cm_pending m rem /\ length rem' = length rem /\ cm_last_item m' = cm_last_item m /\
    (forall j, j <> i -> rem' !! j = rem !! j) /\ (forall j, j <> i -> j ∈ cm_sources m' -> j ∈ cm_sources m) /\
    (forall j k, j <> i -> cm_alive m j k -> cm_alive m' j k).
Proof.
  intros [Hlen Hal Hs Hnd Hf Hc Hx] Hi Hali Hni.
  destruct (cm_pull_spec i m l Hali) as (m' & Hm' & Hlast & Hlen' & Hal' & Hq).
  { intros y Hy. apply Hx. unfold cm_pending. rewrite elem_of_app. left. by apply list_elem_of_fmap_2. }
  { intros r Hr. apply Hx. unfold cm_pending. rewrite elem_of_app. right. apply list_elem_of_In, in_concat.
    exists l. split; [apply list_elem_of_In, list_elem_of_lookup; by exists i|by apply list_elem_of_In]. }
  destruct l as [|q t].
  - exists m', rem. unfold cm_pending, cm_sources. rewrite Hq. split_and!; try done.
    split; unfold cm_sources, cm_pending; rewrite ?Hq; try done; [by rewrite Hlen'|..].
    + intros j k Hj. destruct (decide (j = i)) as [->|Hne].
      * right. rewrite Hi in Hj. injection Hj as <-. split_and!; [done|by right|done].
      * destruct (Hal j k Hj) as [?|(-> & ? & ?)]; [left; by apply Hal'|right]. split_and!; [done|by left|done].
    + intros j Hj. destruct (Hf j Hj). split; [by left|done].
    + intros j r k [Hj| ->] Hr; [by apply Hc with k|]. by rewrite Hi in Hr.
  - destruct Hq as [Hq Ht]. pose proof (cm_sources_push m m' q i Hq) as Hsrc.
    assert (cm_pending m' (<[i := t]> rem) ≡ₚ cm_pending m rem) as Hp.
    { unfold cm_pending. rewrite Hq, heap_push_elems, (concat_insert_perm rem i q t Hi). cbn [fmap list_fmap chi_record app].
      by rewrite Permutation_middle. }
    pose proof (lookup_lt_Some _ _ _ Hi) as Hlt.
    exists m', (<[i := t]> rem). split_and!; try done.
    + split.
      * by rewrite length_insert, Hlen'.
      * intros j k Hj. destruct (decide (j = i)) as [->|Hne].
        -- left. rewrite list_lookup_insert_eq in Hj by done. by injection Hj as <-.
        -- rewrite list_lookup_insert_ne in Hj by congruence.
           destruct (Hal j k Hj) as [?|(-> & ? & Hnj)]; [left; by apply Hal'|right]. split_and!; [done|by left|].
           rewrite Hsrc. by apply not_elem_of_cons.
      * intros j k Hj. destruct (decide (j = i)) as [->|Hne].
        -- rewrite list_lookup_insert_eq in Hj by done. injection Hj as <-. by apply (StronglySorted_inv (Hs i _ Hi)).
        -- rewrite list_lookup_insert_ne in Hj by congruence. by apply (Hs j).
      * rewrite Hsrc. by apply NoDup_cons.
      * intros j. rewrite Hsrc, length_insert. intros [->|Hj]%elem_of_cons; [split; [by right|done]|].
        destruct (Hf j Hj). split; [by left|done].
      * intros j r k Hj Hr. destruct (decide (j = i)) as [->|Hne].
        -- rewrite list_lookup_insert_eq in Hr by done. injection Hr as ->.
           exists {| chi_record := q; chi_source_idx := i |}. split_and!; [rewrite Hq, heap_push_elems; left|done|].
           pose proof (StronglySorted_inv (Hs i _ Hi)) as [_ Hle]. by inversion Hle.
        -- rewrite list_lookup_insert_ne in Hr by congruence. destruct Hj as [Hj|?]; [|done].
           destruct (Hc j r k Hj Hr) as (y & Hy & ? & ?). exists y. split_and!; [|done|done].
           rewrite Hq, heap_push_elems. by right.
      * intros r. rewrite Hp. apply Hx.
    + apply length_insert.
    + intros j Hne. by apply list_lookup_insert_ne.
    + intros j Hne. rewrite Hsrc. by intros [?|?]%elem_of_cons.
Qed.

Lemma cm_inv_iff (f g : nat -> Prop) m rem : (forall i, f i <-> g i) -> cm_inv f m rem -> cm_inv g m rem.
Proof.
  intros Hfg [Hlen Hal Hs Hnd Hf Hc Hx]. split; try done.
  - intros i l Hi. destruct (Hal i l Hi) as [?|(? & ? & ?)]; [by left|right]. split_and!; [done|by apply Hfg|done].
  - intros i Hi. destruct (Hf i Hi). split; [by apply Hfg|done].
  - intros i q t Hi. apply Hc. by apply Hfg.
Qed.

Lemma cm_fill_ok idxs filled m rem :
  cm_inv filled m rem -> NoDup idxs ->
  (forall i, i ∈ idxs -> ~ filled (S i) /\ (S i < length rem)%nat) ->
  exists m' rem', cm_fill idxs m = (m', Ok tt) /\ cm_inv (fun j => filled j \/ exists i, i ∈ idxs /\ j = S i) m' rem' /\
    cm_pending m' rem' ≡ₚ cm_pending m rem /\ cm_last_item m' = cm_last_item m /\ length rem' = length rem.
Proof.
  revert filled m rem. induction idxs as [|i idxs IH]; intros filled m rem Hinv Hnd Hi; cbn [cm_fill].
  - exists m, rem. split_and!; try done. eapply cm_inv_iff; [|exact Hinv]. intros j. split; [by left|].
    intros [?|(i & []%not_elem_of_nil & _)]. done.
  - apply NoDup_cons in Hnd as [Hni Hnd]. destruct (Hi i) as [Hnf Hlt]; [left|].
    destruct (lookup_lt_is_Some_2 rem (S i) Hlt) as [l Hl].
    assert (S i ∉ cm_sources m) as Hns by (intros Hin; by destruct (ci_filled _ _ _ Hinv _ Hin)).
    destruct (ci_alive _ _ _ Hinv _ _ Hl) as [Hal|(_ & ? & _)]; [|done].
    destruct (cm_pull_inv filled m rem (S i) l Hinv Hl Hal Hns) as (m1 & rem1 & E & Hinv1 & Hp1 & Hlen1 & Hlast1 & _).
    cbn [cm_pull] in E. rewrite st_bind_unfold, E.
    destruct (IH _ m1 rem1 Hinv1 Hnd) as (m2 & rem2 & -> & Hinv2 & Hp2 & Hlast2 & Hlen2).
    { intros j Hj. destruct (Hi j) as [Hnj Hltj]; [by right|]. rewrite Hlen1. split; [|done]. intros [?|[= ->]]; done. }
    exists m2, rem2. split_and!; [done| |by rewrite Hp2|by rewrite Hlast2|by rewrite Hlen2].
    eapply cm_inv_iff; [|exact Hinv2]. intros j. cbn. setoid_rewrite elem_of_cons. naive_solver.
Qed.

(** every source has been asked *)
Definition cm_ready m rem : Prop := cm_inv (fun j => (j < length rem)%nat) m rem.

Lemma core_merge_new_ok memtable_iter sstable_iters lm ls :
  match memtable_iter with Some it => lm = List.filter (iif_matches it) (iif_inner it) | None => lm = [] end ->
  Forall2 ri_yields sstable_iters ls -> Forall (StronglySorted core_le) (lm :: ls) ->
  (forall r, r ∈ lm ++ concat ls -> extractable r = true) ->
  exists m rem, core_merge_new memtable_iter sstable_iters = Ok m /\ cm_ready m rem /\
    cm_pending m rem ≡ₚ lm ++ concat ls /\ cm_last_item m = None.
Proof.
  intros Hlm Hls Hsort Hx. unfold core_merge_new. set (m0 := {| cm_heap := heap_new |}).
  pose proof (Forall2_length _ _ _ Hls) as Hlen.
  assert (cm_sources m0 = []) as Hsrc by (unfold cm_sources; cbn; by rewrite heap_new_elems).
  assert (cm_inv (fun _ => False) m0 (lm :: ls)) as Hinv.
  { split; rewrite ?Hsrc; try done.
    - cbn. by rewrite Hlen.
    - intros [|i] l Hl; left; cbn in *; [injection Hl as <-; by destruct memtable_iter|].
      destruct (Forall2_lookup_r _ _ _ _ _ Hls Hl) as (it & Hit & Hy). by exists it.
    - intros i l Hl. rewrite Forall_forall in Hsort. apply Hsort, list_elem_of_lookup. by exists i.
    - constructor.
    - by intros i Hi%not_elem_of_nil.
    - intros r. unfold cm_pending. cbn. rewrite heap_new_elems. apply Hx. }
  destruct (cm_pull_inv _ m0 (lm :: ls) 0 lm Hinv eq_refl) as (m1 & rem1 & E1 & Hinv1 & Hp1 & Hlen1 & Hlast1 & _).
  { cbn. by destruct memtable_iter. }
  { rewrite Hsrc. by apply not_elem_of_nil. }
  cbn [cm_pull] in E1. rewrite st_bind_unfold, E1. cbn [length] in Hlen1.
  destruct (cm_fill_ok (seq 0 (length sstable_iters)) _ m1 rem1 Hinv1) as (m2 & rem2 & -> & Hinv2 & Hp2 & Hlast2 & Hlen2).
  { apply NoDup_seq. }
  { intros i Hi%elem_of_seq. split; [|rewrite Hlen1; lia]. intros [[]|?]; done. }
  exists m2, rem2. split_and!; [done| | |by rewrite Hlast2, Hlast1].
  - eapply cm_inv_iff; [|exact Hinv2]. intros j. rewrite Hlen2, Hlen1, <- Hlen. cbn. split.
    + intros [[[]| ->]|(i & Hi%elem_of_seq & ->)]; lia.
    + intros Hj. destruct j as [|j]; [by left; right|]. right. exists j. split; [|done]. apply elem_of_seq. lia.
  - rewrite Hp2, Hp1. unfold cm_pending. cbn. by rewrite heap_new_elems.
Qed.

(** the popped record is the smallest of all that are left *)
Lemma cm_popped_least m rem x h r :
  cm_ready m rem -> heap_pop (cm_heap m) = Some (x, h) -> r ∈ cm_pending m rem -> core_le (chi_record x) r.
Proof.
  intros [Hlen Hal Hs Hn Hf Hc _] Hpop. unfold cm_pending. rewrite elem_of_app. intros [Hr|Hr].
  - apply list_elem_of_fmap in Hr as (y & -> & Hy). exact (heap_pop_min _ _ _ _ Hpop Hy).
  - apply list_elem_of_In, in_concat in Hr as (l & Hl%list_elem_of_In & Hr%list_elem_of_In).
    apply list_elem_of_lookup in Hl as [i Hi]. destruct l as [|q t]; [by apply not_elem_of_nil in Hr|].
    destruct (Hc i q t (lookup_lt_Some _ _ _ Hi) Hi) as (y & Hy & _ & Hyq).
    apply core_le_trans with (chi_record y); [exact (heap_pop_min _ _ _ _ Hpop Hy)|].
    apply core_le_trans with q; [done|]. destruct (StronglySorted_inv (Hs i _ Hi)) as [_ Hq].
    apply elem_of_cons in Hr as [->|Hr]; [apply core_le_refl|]. rewrite Forall_forall in Hq. by apply Hq.
Qed.

(** popping and asking the source of the popped record *)
Lemma cm_pop_refil m rem x h :
  cm_ready m rem -> heap_pop (cm_heap m) = Some (x, h) ->
  let m1 := {| cm_heap := h; cm_memtable_iter := cm_memtable_iter m;
               cm_sstable_iters := cm_sstable_iters m; cm_last_item := cm_last_item m |} in
  exists m' rem', refil (chi_source_idx x) m1 = (m', Ok tt) /\ cm_ready m' rem' /\
    cm_pending m rem ≡ₚ chi_record x :: cm_pending m' rem' /\ cm_last_item m' = cm_last_item m.
Proof.
  intros [Hlen Hal Hs Hn Hf Hc Hx] Hpop m1. pose proof (heap_pop_elems _ _ _ Hpop) as Hp.
  assert (cm_sources m ≡ₚ chi_source_idx x :: cm_sources m1) as Hsrc by (unfold cm_sources; cbn; by rewrite Hp).
  assert (cm_pending m rem ≡ₚ chi_record x :: cm_pending m1 rem) as Hpend by (unfold cm_pending; cbn; by rewrite Hp).
  rewrite Hsrc in Hn. apply NoDup_cons in Hn as [Hnx Hn].
  destruct (Hf (chi_source_idx x)) as [_ Hlt]; [rewrite Hsrc; left|].
  destruct (lookup_lt_is_Some_2 rem _ Hlt) as [l Hl].
  assert (cm_inv (fun j => (j < length rem)%nat /\ j <> chi_source_idx x) m1 rem) as Hinv1.
  { split; try done.
    - intros i k Hi. destruct (Hal i k Hi) as [?|(-> & ? & Hni)]; [by left|right]. rewrite Hsrc in Hni.
      apply not_elem_of_cons in Hni as [? ?]. done.
    - intros i Hi. destruct (Hf i) as [? ?]; [rewrite Hsrc; by right|]. split_and!; [done| |done]. by intros ->.
    - intros i q t [Hi Hne] Hq. destruct (Hc i q t Hi Hq) as (y & Hy & Hyi & Hle). exists y. split_and!; [|done|done].
      rewrite Hp in Hy. apply elem_of_cons in Hy as [->|Hy]; [congruence|done].
    - intros r Hr. apply Hx. rewrite Hpend. by right. }
  assert (cm_alive m1 (chi_source_idx x) l) as Hax.
  { destruct (Hal _ _ Hl) as [Ha|(_ & _ & Hnot)]; [exact Ha|]. destruct Hnot. rewrite Hsrc. left. }
  destruct (cm_pull_inv _ m1 rem _ l Hinv1 Hl Hax Hnx) as (m' & rem' & E & Hinv' & Hp' & Hlen' & Hlast' & _).
  exists m', rem'. rewrite refil_pull. split_and!; [done| |by rewrite Hpend, Hp'|done].
  eapply cm_inv_iff; [|exact Hinv']. intros j. cbn. rewrite Hlen'. split; [intros [[? ?]| ->]; done|].
  intros Hj. destruct (decide (j = chi_source_idx x)); [by right|by left].
Qed.

(** what was yielded last can be compared and is not after anything left *)
Definition cm_after_last m rem : Prop :=
  forall p, cm_last_item m = Some p -> extractable p = true /\ forall r, r ∈ cm_pending m rem -> core_le p r.
(** [q] has the key of the record yielded last *)
Definition cm_seen m (q : CoreRecord) : Prop := exists p, cm_last_item m = Some p /\ sort_key q = sort_key p.

Lemma cm_set_last m rem r :
  cm_ready m rem -> cm_ready {| cm_heap := cm_heap m; cm_memtable_iter := cm_memtable_iter m;
                                cm_sstable_iters := cm_sstable_iters m; cm_last_item := Some r |} rem.
Proof. intros [Hlen Hal Hs Hn Hf Hc Hx]. by split. Qed.

Lemma core_merge_next_ok fuel m rem :
  cm_ready m rem -> cm_after_last m rem -> (length (cm_pending m rem) < fuel)%nat ->
  (exists m', core_merge_next fuel m = (m', Ok None) /\ forall q, q ∈ cm_pending m rem -> cm_seen m q) \/
  exists r m' rem', core_merge_next fuel m = (m', Ok (Some r)) /\ cm_ready m' rem' /\ cm_after_last m' rem' /\
    cm_last_item m' = Some r /\ r ∈ cm_pending m rem /\
    (forall p, cm_last_item m = Some p -> cmp (sort_key p) (sort_key r) = Lt) /\
    (forall q, q ∈ cm_pending m' rem' -> q ∈ cm_pending m rem) /\
    (forall q, q ∈ cm_pending m rem -> q ∈ cm_pending m' rem' \/ q = r \/ cm_seen m q) /\
    (length (cm_pending m' rem') < length (cm_pending m rem))%nat.
Proof.
  revert m rem. induction fuel as [|fuel IH]; intros m rem Hr Hlast Hfuel; [lia|]. cbn [core_merge_next].
  destruct (heap_pop (cm_heap m)) as [[x h]|] eqn:Hpop.
  2: { left. exists m. split; [done|]. intros q Hq. apply heap_pop_none in Hpop. exfalso. revert Hq.
       unfold cm_pending. rewrite Hpop, elem_of_app. intros [[]%not_elem_of_nil|Hq].
       apply list_elem_of_In, in_concat in Hq as (l & Hl%list_elem_of_In & Hq%list_elem_of_In).
       apply list_elem_of_lookup in Hl as [i Hi]. destruct l as [|q' t]; [by apply not_elem_of_nil in Hq|].
       destruct (ci_cover _ _ _ Hr i q' t (lookup_lt_Some _ _ _ Hi) Hi) as (y & Hy & _).
       rewrite Hpop in Hy. by apply not_elem_of_nil in Hy. }
  pose proof (fun r => cm_popped_least m rem x h r Hr Hpop) as Hleast.
  destruct (cm_pop_refil m rem x h Hr Hpop) as (m1 & rem1 & -> & Hr1 & Hp1 & Hl1).
  assert (chi_record x ∈ cm_pending m rem) as Hxin by (rewrite Hp1; left).
  pose proof (ci_extract _ _ _ Hr _ Hxin) as Hxx. pose proof (Permutation_length Hp1) as Hlen. cbn [length] in Hlen.
  assert ((forall p, cm_last_item m = Some p -> cmp (sort_key p) (sort_key (chi_record x)) = Lt) ->
    exists r m' rem', ({| cm_heap := cm_heap m1; cm_memtable_iter := cm_memtable_iter m1;
        cm_sstable_iters := cm_sstable_iters m1; cm_last_item := Some (chi_record x) |}, Ok (Some (chi_record x)))
      = (m', @Ok io_error _ (Some r)) /\ cm_ready m' rem' /\ cm_after_last m' rem' /\
    cm_last_item m' = Some r /\ r ∈ cm_pending m rem /\
    (forall p, cm_last_item m = Some p -> cmp (sort_key p) (sort_key r) = Lt) /\
    (forall q, q ∈ cm_pending m' rem' -> q ∈ cm_pending m rem) /\
    (forall q, q ∈ cm_pending m rem -> q ∈ cm_pending m' rem' \/ q = r \/ cm_seen m q) /\
    (length (cm_pending m' rem') < length (cm_pending m rem))%nat) as Hyield.
  { intros Hlt. eexists _, _, rem1. split; [reflexivity|]. split_and!; try done.
    - by apply cm_set_last.
    - intros p [= <-]. split; [done|]. intros r Hin. apply Hleast. rewrite Hp1. by right.
    - intros q Hq. rewrite Hp1. by right.
    - intros q. rewrite Hp1. intros [?|?]%elem_of_cons; [by right; left|by left].
    - unfold cm_pending in *. cbn in *. lia. }
  destruct (cm_last_item m1) as [prev|] eqn:Eprev; [|right; apply Hyield; by rewrite <- Hl1].
  destruct (Hlast prev) as [Hpx Hple]; [by rewrite <- Hl1|]. rewrite core_record_cmp_ok by done.
  specialize (Hple _ Hxin). unfold core_le in Hple.
  destruct (cmp (sort_key prev) (sort_key (chi_record x))) eqn:Ecmp; [|right; apply Hyield; rewrite <- Hl1; by intros p [= <-]|done].
  apply cmp_eq in Ecmp.
  destruct (IH m1 rem1 Hr1) as [(m2 & E & Hseen)|(r & m2 & rem2 & E & Hr2 & Ha2 & Hlast2 & Hin & Hlt & Hsub & Hcov & Hlen2)]; [|lia|..].
  - intros p Hp. rewrite Hp in Eprev. injection Eprev as ->. split; [done|]. intros r Hrr.
    destruct (Hlast prev) as [_ Hle]; [by rewrite <- Hl1|]. apply Hle. rewrite Hp1. by right.
  - left. exists m2. split; [done|]. intros q. rewrite Hp1. intros [->|Hq]%elem_of_cons.
    + exists prev. by rewrite <- Hl1.
    + destruct (Hseen q Hq) as (p & Hp & ?). exists p. by rewrite <- Hl1, <- Hp.
  - right. exists r, m2, rem2. split_and!; try done.
    + rewrite Hp1. by right.
    + intros p Hp. apply Hlt. by rewrite <- Hl1 in Hp; rewrite Eprev.
    + intros q Hq. rewrite Hp1. right. by apply Hsub.
    + intros q. rewrite Hp1. intros [->|Hq]%elem_of_cons; [right; right; exists prev; by rewrite <- Hl1|].
      destruct (Hcov q Hq) as [?|[?|(p & Hp & ?)]]; [by left|by right; left|right; right]. exists p. by rewrite <- Hl1, <- Hp.
    + lia.
Qed.

Lemma core_merge_collect_ok fuel n m rem :
  cm_ready m rem -> cm_after_last m rem -> (length (cm_pending m rem) < fuel)%nat -> (length (cm_pending m rem) < n)%nat ->
  exists out, core_merge_collect fuel n m = Ok out /\ bset_sorted sort_key out /\
    (forall p, cm_last_item m = Some p -> Forall (key_lt sort_key p) out) /\
    (forall r, r ∈ out -> r ∈ cm_pending m rem) /\
    (forall q, q ∈ cm_pending m rem -> sort_key q ∈ sort_key <$> out \/ cm_seen m q).
Proof.
  revert m rem. induction fuel as [|fuel IH]; intros m rem Hr Hlast Hf Hn; [lia|]. cbn [core_merge_collect].
  destruct (core_merge_next_ok n m rem Hr Hlast Hn)
    as [(m' & -> & Hseen)|(r & m' & rem' & -> & Hr' & Ha' & Hl' & Hin & Hlt & Hsub & Hcov & Hlen)].
  - exists []. split_and!; [done|constructor|by intros; constructor|by intros r ?%not_elem_of_nil|]. intros q Hq. right. by apply Hseen.
  - destruct (IH m' rem' Hr' Ha') as (out & -> & Hs & Hafter & Hsubo & Hcovo); [lia|lia|]. exists (r :: out). rewrite ok_bind.
    specialize (Hafter r Hl'). split_and!; [done|by constructor| | |].
    + intros p Hp. constructor; [by apply Hlt|]. eapply Forall_impl; [exact Hafter|]. intros q Hq.
      unfold key_lt in *. apply cmp_trans with (sort_key r); [by apply Hlt|done].
    + intros q [->|Hq]%elem_of_cons; [done|]. by apply Hsub, Hsubo.
    + intros q Hq. cbn [fmap list_fmap]. rewrite elem_of_cons. destruct (Hcov q Hq) as [Hq'|[->|?]]; [|by left; left|by right].
      destruct (Hcovo q Hq') as [?|(p & Hp & Heq)]; [left; by right|]. left. left. rewrite Hl' in Hp. by injection Hp as <-.
Qed.
End merge_inv.

(** ** The merge against a reference: inserting everything into one set *)

Definition core_bset_of (all : list CoreRecord) : list CoreRecord :=
  foldl (fun s r => bset_insert sort_key r s) [] all.

Lemma bset_sorted_nodup (l : list CoreRecord) : bset_sorted sort_key l -> NoDup (sort_key <$> l).
Proof.
  induction 1 as [|x l Hs IH Hx]; [constructor|]. cbn. apply NoDup_cons. split; [|done].
  intros (y & Hy & Hin)%list_elem_of_fmap. rewrite Forall_forall in Hx. specialize (Hx y Hin). unfold key_lt in Hx.
  rewrite Hy, cmp_refl in Hx. done.
Qed.

Lemma core_bset_of_spec all s :
  bset_sorted sort_key s -> let out := foldl (fun s r => bset_insert sort_key r s) s all in
  bset_sorted sort_key out /\ (forall r, r ∈ out -> r ∈ s \/ r ∈ all) /\
  (forall r, r ∈ s \/ r ∈ all -> sort_key r ∈ sort_key <$> out).
Proof.
  revert s. induction all as [|x all IH]; intros s Hs; cbn [foldl].
  - split_and!; [done|by left|]. intros r [?|[]%not_elem_of_nil]. by apply list_elem_of_fmap_2.
  - destruct (IH (bset_insert sort_key x s)) as (Hs' & Hsub & Hcov); [by apply bset_insert_sorted|].
    split_and!; [done| |].
    + intros r Hr. rewrite elem_of_cons. destruct (Hsub r Hr) as [Hi|?]; [|by right; right].
      destruct (bset_fresh_dec sort_key x s) as [Hf|Hf].
      * rewrite bset_insert_fresh in Hi by done. apply elem_of_cons in Hi as [->|?]; [by right; left|by left].
      * rewrite bset_insert_present in Hi by done. by left.
    + intros r Hr. destruct (bset_fresh_dec sort_key x s) as [Hf|Hf].
      * apply Hcov. rewrite bset_insert_fresh by done. rewrite !elem_of_cons in *. tauto.
      * rewrite elem_of_cons in Hr. destruct Hr as [Hr|[->|Hr]]; [|
          |apply Hcov; by right].
        { apply Hcov. left. by rewrite bset_insert_present. }
        unfold bset_fresh in Hf. apply not_Forall_Exists in Hf; [|intros y; destruct (cmp (sort_key y) (sort_key x)); [right|left|left]; naive_solver].
        apply Exists_exists in Hf as (y & Hy & Heq). apply dec_stable, cmp_eq in Heq. rewrite <- Heq.
        apply Hcov. left. by rewrite bset_insert_present by (done || unfold bset_fresh; rewrite Forall_forall; intros Hall; apply (Hall y Hy); rewrite Heq; apply cmp_refl).
Qed.

Lemma bset_ext l k :
  bset_sorted sort_key l -> bset_sorted sort_key k -> (forall r, r ∈ l <-> r ∈ k) -> l = k.
Proof.
  intros Hl Hk Heq. apply (bset_sorted_perm_eq sort_key); [done|done|].
  apply list.NoDup_Permutation; [by eapply NoDup_fmap_1, bset_sorted_nodup..|done].
Qed.

Lemma bset_sorted_le l : bset_sorted sort_key l -> StronglySorted core_le l.
Proof.
  induction 1 as [|x l Hs IH Hx]; constructor; [done|]. eapply Forall_impl; [exact Hx|].
  intros y Hy. unfold core_le, key_lt in *. by rewrite Hy.
Qed.

(** what the memtable iterator yields *)
Definition iif_rest (o : option IntoIterFiltered) : list CoreRecord :=
  match o with Some it => List.filter (iif_matches it) (iif_inner it) | None => [] end.

Section merge_claims.
Context {H : Type} `{!MinHeap CoreHeapItem H, !MinHeapLaws CoreHeapItem H}.

Lemma core_merge_all_ok (memtable_iter : option IntoIterFiltered) (sstable_iters : list RecordIter) ls n :
  let all := iif_rest memtable_iter ++ concat ls in (length all < n)%nat ->
  Forall2 ri_yields sstable_iters ls -> Forall (StronglySorted core_le) (iif_rest memtable_iter :: ls) ->
  (forall r, r ∈ all -> extractable r = true) ->
  exists m out, core_merge_new (H := H) memtable_iter sstable_iters = Ok m /\
    core_merge_collect n n m = Ok out /\ bset_sorted sort_key out /\
    (forall r, r ∈ out -> r ∈ all) /\ (forall r, r ∈ all -> sort_key r ∈ sort_key <$> out).
Proof.
  intros all Hn Hls Hsort Hx.
  destruct (core_merge_new_ok (H := H) memtable_iter sstable_iters (iif_rest memtable_iter) ls) as (m & rem & Hm & Hr & Hp & Hl);
    try done; [by destruct memtable_iter|].
  pose proof (Permutation_length Hp) as Hlen. fold all in Hlen, Hp.
  destruct (core_merge_collect_ok n n m rem) as (out & Hout & Hs & _ & Hsub & Hcov);
    [done|intros p; by rewrite Hl|lia|lia|].
  exists m, out. split_and!; try done.
  - intros r Hin. rewrite <- Hp. by apply Hsub.
  - intros r Hin. destruct (Hcov r) as [?|(p & Hlp & _)]; [by rewrite Hp|done|]. by rewrite Hl in Hlp.
Qed.

(** C12: the merge of logregator-core ends, for any number of sorted sources,
    and is the same as inserting everything into one [BTreeSet]: its output is
    strictly sorted by key, contains only records of the sources, and has one
    record for every key that occurs in them. When equal keys mean equal
    records, it is the set of all the records. *)
Theorem core_merge_spec (memtable_iter : option IntoIterFiltered) (sstable_iters : list RecordIter)
    (ls : list (list CoreRecord)) (Hls : Forall2 ri_yields sstable_iters ls)
    (Hsort : Forall (StronglySorted core_le) (iif_rest memtable_iter :: ls))
    (Hx : forall r, r ∈ iif_rest memtable_iter ++ concat ls -> extractable r = true) :
  let all := iif_rest memtable_iter ++ concat ls in
  exists m out, core_merge_new (H := H) memtable_iter sstable_iters = Ok m /\
    core_merge_collect (S (length all)) (S (length all)) m = Ok out /\ bset_sorted sort_key out /\
    (forall r, r ∈ out -> r ∈ all) /\ (forall r, r ∈ all -> sort_key r ∈ sort_key <$> out) /\
    ((forall r q, r ∈ all -> q ∈ all -> sort_key r = sort_key q -> r = q) -> out = core_bset_of all).
Proof.
  intros all. destruct (core_merge_all_ok memtable_iter sstable_iters ls (S (length all)) (Nat.lt_succ_diag_r _) Hls Hsort Hx) as (m & out & Hm & Hc & Hs & Hsub & Hcov).
  exists m, out. split_and!; try done. intros Hinj.
  destruct (core_bset_of_spec all []) as (Hs' & Hsub' & Hcov'); [constructor|].
  assert (forall l : list CoreRecord, (forall r, r ∈ l -> r ∈ all) -> (forall r, r ∈ all -> sort_key r ∈ sort_key <$> l) ->
    forall r, r ∈ all -> r ∈ l) as Hall.
  { intros l Hl Hk r Hr. destruct (proj1 (list_elem_of_fmap _ _ _) (Hk r Hr)) as (q & Heq & Hq).
    by rewrite (Hinj r q Hr (Hl q Hq) Heq). }
  apply bset_ext; [done|done|]. intros r. split.
  - intros Hr. apply (Hall (core_bset_of all)); [| |by apply Hsub].
    + intros q Hq. by destruct (Hsub' q Hq) as [[]%not_elem_of_nil|?].
    + intros q Hq. apply Hcov'. by right.
  - intros Hr. apply (Hall out); [done|done|]. by destruct (Hsub' r Hr) as [[]%not_elem_of_nil|?].
Qed.
End merge_claims.

(** ** Witnesses *)

(** an SST module whose index holds the offset to start from *)
Definition offset_sst : SstModule :=
  {| BloomFilter := unit; IndexBlock := Z; bloom_contains _ _ _ := true; binary_seek off _ := off |}.
Definition offset_meta (id : Z) (rs : list CoreRecord) (off : Z) : @SSTableMeta offset_sst :=
  Build_SSTableMeta offset_sst id tt (blen (wal_wires rs)) off (blen (wal_wires rs)) (blen rs) (blen (wal_wires rs)).

Lemma offset_layout id rs off :
  Forall (fun r => blen r <= VEC_MAX - 8) rs -> bset_sorted sort_key rs -> forallb extractable rs = true ->
  @sst_layout offset_sst (offset_meta id rs off) (wal_wires rs) rs.
Proof. intros Hsz Hs Hx. split_and!; try done. exists []. by rewrite app_nil_r. Qed.

(** two records with one timestamp, the index pointing at the second: a query
    from that timestamp does not see the first *)
Lemma sst_iter_filtered_spec_witness :
  exists it, @sif_new offset_sst (Some (wal_wires [sample_core 5 1; sample_core 5 2]))
      (offset_meta 3 [sample_core 5 1; sample_core 5 2] (blen (wal_wires [sample_core 5 1])))
      1 [Byte.x6b] 5 9 [] = Ok it /\ ri_yields (Filtered it) [sample_core 5 2].
Proof.
  destruct (proj1 (proj2 (@sst_iter_filtered_spec offset_sst
    (offset_meta 3 [sample_core 5 1; sample_core 5 2] (blen (wal_wires [sample_core 5 1])))
    (wal_wires [sample_core 5 1; sample_core 5 2]) [sample_core 5 1] [sample_core 5 2] 1 [Byte.x6b] 5 9 []
    ltac:(apply offset_layout; [by repeat constructor|by repeat constructor|reflexivity])
    ltac:(split; [reflexivity|right; exists (sample_core 5 2), []; split; [reflexivity|by vm_compute]])
    ltac:(unfold in_i64; lia) ltac:(unfold in_i64; lia) ltac:(unfold in_i64; lia) ltac:(by vm_compute)) ltac:(lia)))
    as (it & Hit & Hy).
  exists it. split; [exact Hit|]. exact Hy.
Defined.

Lemma core_merge_spec_witness :
  exists m out, core_merge_new (H := list_heap CoreHeapItem)
      (Some (iif_new [sample_core 5 1; sample_core 7 3] 1 [Byte.x6b] 0 9 []))
      [Inmem [sample_core 5 1; sample_core 6 2]; Inmem []] = Ok m /\
    core_merge_collect 5 5 m = Ok out /\
    forall r, r ∈ out -> r ∈ [sample_core 5 1; sample_core 7 3; sample_core 5 1; sample_core 6 2].
Proof.
  destruct (core_merge_spec (H := list_heap CoreHeapItem)
    (Some (iif_new [sample_core 5 1; sample_core 7 3] 1 [Byte.x6b] 0 9 []))
    [Inmem [sample_core 5 1; sample_core 6 2]; Inmem []] [[sample_core 5 1; sample_core 6 2]; []])
    as (m & out & Hm & Hc & _ & Hsub & _).
  - repeat constructor; apply inmem_yields.
  - repeat (constructor; [repeat constructor; by vm_compute|]). constructor.
  - apply Forall_forall. repeat (constructor; [by vm_compute|]). constructor.
  - exists m, out. split_and!; [exact Hm|exact Hc|exact Hsub].
Defined.
