(* ===== verification/CoreEngine.v ===== *)
(** * The storage engine of logregator-core: storage/engine.rs

    The engine owns the write-ahead log, the active memtable, the frozen
    memtables that are being flushed, the SSTs and the counters. Files are
    looked up by id in a directory; I/O errors of the log come from the
    [Write] it writes to. The metrics are in
    CoreMetered.v, file names in CoreFiles.v; the channel of statistics is left out. *)
From S2P Require Import Prelude Std Codec CoreProto CoreStorage CoreIter.

(** ** State *)

Record Engine (W : Type) `{SstModule} := {
  e_wal : BufWriter W;
  e_memtable : MemTable;
  e_frozen_memtables : list (Z * MemTable);
  e_sstable_map : list (Z * SSTableMeta);
  e_compacting : gset Z;
  e_sst_counter : Z;
  e_seq_counter : Z;
  e_memtable_limit_bytes : Z
}.
Arguments e_wal {W _} e.
Arguments e_memtable {W _} e.
Arguments e_frozen_memtables {W _} e.
Arguments e_sstable_map {W _} e.
Arguments e_compacting {W _} e.
Arguments e_sst_counter {W _} e.
Arguments e_seq_counter {W _} e.
Arguments e_memtable_limit_bytes {W _} e.

(** What [open] uses of the SST module: [IndexBlock::read_from_unchecked] and
    [BloomFilter::decode] at the end of a file (index, its offset, bloom
    filter, its offset); and what the I/O worker uses of it:
    [SSTableMeta::write_to_file] of an id, records and the number of records
    expected. *)
Class SstCodec `{SstModule} := {
  read_footer : list byte -> outcome io_error (IndexBlock * Z * BloomFilter * Z);
  write_to_file : Z -> list CoreRecord -> Z -> SSTableMeta * list byte
}.

(** the files of the SSTs by id *)
Abbreviation Directory := (gmap Z (list byte)).

Section engine.
Context {W : Type} `{Write W, SstModule}.
#[local] Abbreviation Engine := (Engine W).

Definition e_with_wal (e : Engine) (w : BufWriter W) : Engine :=
  Build_Engine W _ w (e_memtable e) (e_frozen_memtables e) (e_sstable_map e) (e_compacting e)
    (e_sst_counter e) (e_seq_counter e) (e_memtable_limit_bytes e).
Definition e_with_memtable (e : Engine) (m : MemTable) : Engine :=
  Build_Engine W _ (e_wal e) m (e_frozen_memtables e) (e_sstable_map e) (e_compacting e)
    (e_sst_counter e) (e_seq_counter e) (e_memtable_limit_bytes e).
Definition e_with_frozen (e : Engine) (f : list (Z * MemTable)) : Engine :=
  Build_Engine W _ (e_wal e) (e_memtable e) f (e_sstable_map e) (e_compacting e)
    (e_sst_counter e) (e_seq_counter e) (e_memtable_limit_bytes e).
Definition e_with_ssts (e : Engine) (s : list (Z * SSTableMeta)) : Engine :=
  Build_Engine W _ (e_wal e) (e_memtable e) (e_frozen_memtables e) s (e_compacting e)
    (e_sst_counter e) (e_seq_counter e) (e_memtable_limit_bytes e).
Definition e_with_compacting (e : Engine) (c : gset Z) : Engine :=
  Build_Engine W _ (e_wal e) (e_memtable e) (e_frozen_memtables e) (e_sstable_map e) c
    (e_sst_counter e) (e_seq_counter e) (e_memtable_limit_bytes e).
Definition e_with_sst_counter (e : Engine) (n : Z) : Engine :=
  Build_Engine W _ (e_wal e) (e_memtable e) (e_frozen_memtables e) (e_sstable_map e) (e_compacting e)
    n (e_seq_counter e) (e_memtable_limit_bytes e).
Definition e_with_seq_counter (e : Engine) (n : Z) : Engine :=
  Build_Engine W _ (e_wal e) (e_memtable e) (e_frozen_memtables e) (e_sstable_map e) (e_compacting e)
    (e_sst_counter e) n (e_memtable_limit_bytes e).

(** running an operation of the log or of the memtable inside the engine *)
Definition on_wal {A} (op : st (BufWriter W) io_error A) : st Engine io_error A := fun e =>
  let '(w, o) := op (e_wal e) in (e_with_wal e w, o).
Definition on_memtable {A} (op : st MemTable io_error A) : st Engine io_error A := fun e =>
  let '(m, o) := op (e_memtable e) in (e_with_memtable e m, o).

(** ** Inserting *)

Definition insert_record (source_id ts : Z) (key value : list byte) : st Engine io_error bool := fun e =>
  let rec := from_raw_parts source_id ts (e_seq_counter e) key value in
  (_ ← on_wal (wal_write_one rec);
   needs_flush ← on_memtable (core_memtable_insert rec);
   _ ← st_modify (fun e => e_with_seq_counter e (wrap64 (e_seq_counter e + 1)));
   mret needs_flush) e.

(** the records of a batch, numbered from [seq] *)
Fixpoint batch_records (inserts : list Insert) (seq : Z) : list CoreRecord * Z :=
  match inserts with
  | [] => ([], seq)
  | i :: rest =>
      let rec := from_raw_parts (ins_source_id i) (ins_ts i) seq (ins_key i) (ins_value i) in
      let '(recs, seq) := batch_records rest (wrap64 (seq + 1)) in (rec :: recs, seq)
  end.

Fixpoint insert_all (recs : list CoreRecord) (needs_flush : bool) : st MemTable io_error bool :=
  match recs with
  | [] => mret needs_flush
  | r :: rs => full ← core_memtable_insert r; insert_all rs (if (full : bool) then true else needs_flush)
  end.

Definition batch_insert_records (inserts : list Insert) : st Engine io_error bool := fun e =>
  let '(records, seq) := batch_records inserts (e_seq_counter e) in
  (_ ← on_wal (wal_write_many records);
   on_memtable (insert_all records false)) (e_with_seq_counter e seq).

(** ** Queries *)

Fixpoint sstable_iters (files : Directory) (metas : list SSTableMeta) (source_id : Z) (key : list byte)
    (start_ts end_ts : Z) (filter : list byte) : outcome io_error (list RecordIter) :=
  match metas with
  | [] => Ok []
  | meta :: rest =>
      if negb (bloom_contains (meta_bloom meta) source_id key)
      then sstable_iters files rest source_id key start_ts end_ts filter
      else
        match sif_new (files !! meta_id meta) meta source_id key start_ts end_ts filter with
        | Ok it => its ← sstable_iters files rest source_id key start_ts end_ts filter; Ok (Filtered it :: its)
        | Err _ => sstable_iters files rest source_id key start_ts end_ts filter
        | Panic => Panic
        end
  end.

Definition engine_range {H} `{!MinHeap CoreHeapItem H} (files : Directory) (source_id : Z) (key : list byte)
    (start_ts end_ts : Z) (filter : list byte) (e : Engine) : outcome io_error (CoreMergeIter H) :=
  memtable_iter ← engine_memtable_iter (e_memtable e) (e_frozen_memtables e).*2 source_id key start_ts end_ts filter;
  its ← sstable_iters files (e_sstable_map e).*2 source_id key start_ts end_ts filter;
  core_merge_new (Some memtable_iter) its.

(** ** Flushing and compaction *)

Definition prepare_flush (e : Engine) : Engine * (MemTable * Z) :=
  let new_sst_id := e_sst_counter e in
  let e := e_with_sst_counter e (wrap64 (new_sst_id + 1)) in
  let '(cleared, shared) := core_memtable_freeze (e_memtable e) in
  let e := e_with_memtable e cleared in
  (e_with_frozen e (bmap_insert new_sst_id shared (e_frozen_memtables e)), (shared, new_sst_id)).

Definition remove_frozen_memtable (id : Z) (e : Engine) : Engine :=
  e_with_frozen e (bmap_remove id (e_frozen_memtables e)).
Definition insert_meta (meta : SSTableMeta) (e : Engine) : Engine :=
  e_with_ssts e (bmap_insert (meta_id meta) meta (e_sstable_map e)).
Definition remove_meta (id : Z) (e : Engine) : Engine := e_with_ssts e (bmap_remove id (e_sstable_map e)).
Definition sstable_count (e : Engine) : Z := blen (e_sstable_map e).
(** [sum] of [u64] sizes *)
Definition total_sstable_size (e : Engine) : Z :=
  foldl (fun n m => wrap64 (n + meta_file_size m)) 0 (e_sstable_map e).*2.
Definition is_memtable_empty (e : Engine) : bool := match cmt_bset (e_memtable e) with [] => true | _ => false end.
Definition flush_wal_buffer : st Engine io_error unit := on_wal wal_flush_buffer.
Definition mark_compacting (ids : list Z) (e : Engine) : Engine :=
  e_with_compacting e (foldl (fun s id => s ∪ {[id]}) (e_compacting e) ids).
Definition unmark_compacting (ids : list Z) (e : Engine) : Engine :=
  e_with_compacting e (foldl (fun s id => s ∖ {[id]}) (e_compacting e) ids).
Definition get_oldest_metas (n : Z) (e : Engine) : list SSTableMeta :=
  take (Z.to_nat n) (List.filter (fun m => bool_decide (meta_id m ∉ e_compacting e)) (e_sstable_map e).*2).
Definition allocate_sstable_id (e : Engine) : Engine * Z :=
  (e_with_sst_counter e (wrap64 (e_sst_counter e + 1)), e_sst_counter e).
End engine.

(** ** Opening *)

Section open.
Context `{SstCodec}.

(** the recovered records, one by one: sequence number and memtable *)
Fixpoint open_memtable (recovered : list CoreRecord) (max_seq_num : Z) (needs_flush : bool)
    : st MemTable io_error (Z * bool) :=
  match recovered with
  | [] => mret (max_seq_num, needs_flush)
  | rec :: rest =>
      let max_seq_num := match extract_seq_num rec with Ok seq => Z.max max_seq_num seq | _ => max_seq_num end in
      full ← core_memtable_insert rec; open_memtable rest max_seq_num full
  end.

(** the scan of one SST reads length-prefixed records up to the end of the
    file, as [recover_file] does, and keeps the largest sequence number and
    the number of records that have one *)
Definition scan_seq (content : list byte) (max_seq_num : Z) : outcome io_error (Z * Z) :=
  recs ← recover_file content;
  Ok (foldl (fun acc rec => match extract_seq_num rec with
                            | Ok seq => (Z.max acc.1 seq, acc.2 + 1)
                            | _ => acc
                            end) (max_seq_num, 0) recs).

(** [seek(SeekFrom::End(-16))] fails on shorter files *)
Fixpoint open_ssts (ssts : list (Z * list byte)) (max_sst_id max_seq_num : Z) (map : list (Z * SSTableMeta))
    : outcome io_error (Z * Z * list (Z * SSTableMeta)) :=
  match ssts with
  | [] => Ok (max_sst_id, max_seq_num, map)
  | (file_id, content) :: rest =>
      scanned ← scan_seq content max_seq_num;
      if blen content <? 16 then bail
      else
        footer ← read_footer content;
        let '(index, index_offset, bloom, bloom_offset) := footer in
        let meta := Build_SSTableMeta _ file_id bloom bloom_offset index index_offset scanned.2 (blen content) in
        open_ssts rest (Z.max max_sst_id file_id) scanned.1 (bmap_insert file_id meta map)
  end.

(** [open]: the contents of the active log, of all logs in the order the
    directory lists them, and of the SSTs sorted by path *)
Definition engine_open (active : list byte) (wals : list (list byte)) (ssts : list (Z * list byte)) (memtable_limit : Z)
    : outcome io_error (Engine (list byte) * bool) :=
  recovered ← recover_all wals;
  match open_memtable recovered 0 false (core_memtable_new memtable_limit) with
  | (memtable, Ok (max_seq_num, needs_flush)) =>
      opened ← open_ssts ssts 0 max_seq_num [];
      let '(max_sst_id, max_seq_num, map) := opened in
      Ok (Build_Engine (list byte) _ (bufwriter_new active) memtable [] map ∅
            (wrap64 (max_sst_id + 1)) (wrap64 (max_seq_num + 1)) memtable_limit, needs_flush)
  | (_, Err e) => Err e
  | (_, Panic) => Panic
  end.
End open.

(** ** A batch is its inserts one by one *)

Section batch.
Context {W : Type} `{Write W, SstModule}.

Fixpoint insert_each (inserts : list Insert) : st (Engine W) io_error (list bool) :=
  match inserts with
  | [] => mret []
  | i :: rest =>
      full ← insert_record (ins_source_id i) (ins_ts i) (ins_key i) (ins_value i);
      flags ← insert_each rest; mret (full :: flags)
  end.

Lemma insert_all_no_err recs b m m' err : insert_all recs b m <> (m', Err err).
Proof.
  revert b m. induction recs as [|r recs IH]; intros b m; cbn [insert_all]; [done|]. rewrite st_bind_unfold.
  unfold core_memtable_insert. destruct (core_bset_insert r (cmt_bset m)) as [s|e'|] eqn:E; [apply IH| |done].
  unfold core_bset_insert in E. destruct (cmt_bset m); [done|]. by case_if.
Qed.

Lemma batch_split inserts : forall (e e' : Engine W) b acc,
  let '(records, seq) := batch_records inserts (e_seq_counter e) in
  (exists w m b', wal_write_many records (e_wal e) = (w, Ok tt) /\
     insert_all records acc (e_memtable e) = (m, Ok b') /\ b = b' /\
     e' = e_with_memtable (e_with_wal (e_with_seq_counter e seq) w) m) <->
  exists flags, insert_each inserts e = (e', Ok flags) /\ b = acc || existsb id flags.
Proof.
  induction inserts as [|i inserts IH]; intros e e' b acc; cbn [batch_records].
  - split.
    + intros (w & m & b' & [= <-] & [= <- <-] & -> & ->). exists []. split; [by destruct e|]. cbn. by rewrite orb_false_r.
    + intros (flags & [= <- <-] & ->). exists (e_wal e), (e_memtable e), acc. split_and!; try done; [|by destruct e].
      cbn. by rewrite orb_false_r.
  - set (rec := from_raw_parts _ _ _ _ _).
    destruct (batch_records inserts (wrap64 (e_seq_counter e + 1))) as [records seq] eqn:Erec.
    cbn [wal_write_many insert_all insert_each]. rewrite !st_bind_unfold. unfold insert_record. fold rec.
    rewrite !st_bind_unfold. unfold on_wal. destruct (wal_write_one rec (e_wal e)) as [w1 [[]|err|]] eqn:Ew.
    2,3: split; [by intros (? & ? & ? & ? & _)|by intros (? & ? & _)].
    rewrite !st_bind_unfold. unfold on_memtable. cbn [e_with_wal e_memtable].
    destruct (core_memtable_insert rec (e_memtable e)) as [m1 [full|err|]] eqn:Em.
    2,3: split; [by intros (? & ? & ? & _ & ? & _)|by intros (? & ? & _)].
    rewrite !st_bind_unfold. cbn [st_modify mret st_ret].
    set (e1 := e_with_seq_counter (e_with_memtable (e_with_wal e w1) m1) (wrap64 (e_seq_counter e + 1))).
    specialize (IH e1 e' b (if full then true else acc)). change (e_seq_counter e1) with (wrap64 (e_seq_counter e + 1)) in IH.
    rewrite Erec in IH. change (e_wal e1) with w1 in IH. change (e_memtable e1) with m1 in IH.
    etrans; [|etrans; [exact IH|]].
    + done.
    + rewrite st_bind_unfold. change (e_with_seq_counter _ _) with e1.
      destruct (insert_each inserts e1) as [e2 [flags|err|]]; split.
      * intros (fl & [= -> ->] & ->). exists (full :: fl). split; [done|]. cbn. by destruct full, acc.
      * intros (fl & [= -> <-] & ->). exists flags. split; [done|]. cbn. by destruct full, acc.
      * by intros (? & ? & _).
      * by intros (? & ? & _).
      * by intros (? & ? & _).
      * by intros (? & ? & _).
Qed.

Lemma batch_insert_each inserts (e e' : Engine W) b :
  batch_insert_records inserts e = (e', Ok b) <->
  exists flags, insert_each inserts e = (e', Ok flags) /\ b = existsb id flags.
Proof.
  unfold batch_insert_records. pose proof (batch_split inserts e e' b false) as Hs.
  destruct (batch_records inserts (e_seq_counter e)) as [records seq].
  rewrite st_bind_unfold. unfold on_wal, on_memtable. cbn [e_with_seq_counter e_wal].
  etrans; [|exact Hs]. destruct (wal_write_many records (e_wal e)) as [w [[]|er|]].
  2,3: split; [done|by intros (? & ? & ? & ? & _)].
  change (e_memtable (e_with_wal (e_with_seq_counter e seq) w)) with (e_memtable e).
  destruct (insert_all records false (e_memtable e)) as [m [b'|er|]]; split; try done.
  - intros [= <- <-]. by exists w, m, b'.
  - intros (? & ? & ? & [= <-] & [= <- <-] & -> & ->). done.
  - by intros (? & ? & ? & _ & ? & _).
  - by intros (? & ? & ? & _ & ? & _).
Qed.

(** C27: a batch insert succeeds exactly when inserting its records one by
    one does, leaves the same engine (log bytes, memtable, counter), and asks
    for a flush when one of them does. When the log cannot be written, none
    of its records enters the memtable, though their numbers are used up. *)
Theorem engine_batch_insert_equiv (inserts : list Insert) (e e' : Engine W) (b : bool) (err : io_error) :
  (batch_insert_records inserts e = (e', Ok b) <->
   exists flags, insert_each inserts e = (e', Ok flags) /\ b = existsb id flags) /\
  (batch_insert_records inserts e = (e', Err err) ->
   e_memtable e' = e_memtable e /\ e_seq_counter e' = (batch_records inserts (e_seq_counter e)).2).
Proof.
  split; [apply batch_insert_each|]. unfold batch_insert_records.
  destruct (batch_records inserts (e_seq_counter e)) as [records seq]. cbn [snd].
  rewrite st_bind_unfold. unfold on_wal, on_memtable. cbn [e_with_seq_counter e_wal].
  destruct (wal_write_many records (e_wal e)) as [w [[]|er|]]; [|by intros [= <- <-]|done].
  change (e_memtable (e_with_wal (e_with_seq_counter e seq) w)) with (e_memtable e).
  destruct (insert_all records false (e_memtable e)) as [m [b'|er|]] eqn:Ei; [done| |done].
  intros [= _ _]. by apply insert_all_no_err in Ei.
Qed.
End batch.

(** ** Queries over memtables and SSTs *)

(** [meta] and the file it names serve a query for [sid], [key] from [s]: the
    file holds [rs], the bloom filter has no false negatives, and the index
    gives a place to start from, in front of [post] *)
Definition sst_serves `{SstModule} (files : Directory) (sid : Z) (key : list byte) (s : Z)
    (meta : SSTableMeta) (rs : list CoreRecord) : Prop :=
  exists file pre post, files !! meta_id meta = Some file /\ rs = pre ++ post /\ sst_layout meta file rs /\
    seek_ok meta pre post (from_raw_parts sid s 0 key []) /\
    (forall r, r ∈ rs -> extract_source_id r = Ok sid -> extract_key r = Ok key ->
       bloom_contains (meta_bloom meta) sid key = true).

Section range_facts.
Context `{SstModule}.

Lemma query_match_fields sid key s e flt r :
  core_query_match sid key s e flt r = true -> extract_source_id r = Ok sid /\ extract_key r = Ok key.
Proof.
  unfold core_query_match, core_in_window. intros Hm. gsplit.
  destruct (extract_source_id r) as [z| |]; [|done..]. destruct (extract_timestamp r) as [t| |]; [|done..]. gsplit.
  destruct (extract_key r) as [k| |]; [|done..].
  match goal with Hb : bool_decide _ = true |- _ => apply bool_decide_eq_true in Hb; subst end. done.
Qed.

Lemma sstable_iters_ok files metas rss sid key s e flt :
  in_i64 sid -> in_i64 s -> in_i64 e -> in_u32 (blen key) -> 0 <= s <= e ->
  Forall2 (sst_serves files sid key s) metas rss ->
  exists its ls, sstable_iters files metas sid key s e flt = Ok its /\ Forall2 ri_yields its ls /\
    Forall (StronglySorted core_le) ls /\
    (forall r, r ∈ concat ls -> r ∈ concat rss /\ core_query_match sid key s e flt r = true) /\
    (forall r, r ∈ concat rss -> core_query_match sid key s e flt r = true ->
       source_ts r <> (be_bytes 8 sid, be_bytes 8 s) -> r ∈ concat ls).
Proof.
  intros Hsid Hs He Hk Hle. induction 1 as [|meta rs metas rss Hm _ (its & ls & E & Hy & Hsort & Hsub & Hcov)]; cbn [sstable_iters].
  { exists [], []. split_and!; [done|constructor|constructor|by intros r ?%not_elem_of_nil..]. }
  destruct Hm as (file & pre & post & Hf & -> & Hlay & Hseek & Hbloom). cbn [concat].
  destruct (bloom_contains (meta_bloom meta) sid key) eqn:Eb; cbn [negb].
  - rewrite Hf. destruct (sif_new_yields meta file pre post sid key s e flt) as (it & -> & Hit); try done; [apply Hseek|].
    rewrite E, ok_bind. exists (Filtered it :: its), (List.filter (core_query_match sid key s e flt) post :: ls).
    split_and!; [done|by constructor| | |]; cbn [concat].
    + constructor; [|done]. apply bset_sorted_le, filter_sorted. destruct Hlay as (_ & _ & _ & Hst & _).
      by apply StronglySorted_app_1_r in Hst.
    + intros r. rewrite !elem_of_app. intros [[Hr Hq]%list_elem_of_In%filter_In|[? ?]%Hsub]; [|auto].
      apply list_elem_of_In in Hr. auto.
    + intros r. rewrite !elem_of_app. intros [[Hr|Hr]|Hr] Hq Hne; [| |right; by apply Hcov].
      * by rewrite (skipped_no_match meta file pre post) in Hq.
      * left. by apply list_elem_of_In, filter_In; split; [apply list_elem_of_In|].
  - rewrite E. exists its, ls. split_and!; [done..| |].
    + intros r Hr. rewrite elem_of_app. destruct (Hsub r Hr). auto.
    + intros r. rewrite elem_of_app. intros [Hr|Hr] Hq Hne; [|by apply Hcov].
      apply query_match_fields in Hq as [? ?]. by discriminate (Hbloom r).
Qed.

Lemma sst_serves_extract files sid key s metas rss r :
  Forall2 (sst_serves files sid key s) metas rss -> r ∈ concat rss -> extractable r = true.
Proof.
  induction 1 as [|meta rs metas rss Hm _ IH]; cbn [concat]; [by intros []%not_elem_of_nil|].
  rewrite elem_of_app. intros [Hr|?]; [|by apply IH].
  destruct Hm as (file & pre & post & _ & _ & (_ & _ & _ & _ & Hx) & _ & _).
  by apply (proj1 (forallb_forall _ _) Hx), list_elem_of_In.
Qed.
End range_facts.

Section range_claim.
Context {W H : Type} `{SstModule, !MinHeap CoreHeapItem H, !MinHeapLaws CoreHeapItem H}.

(** everything the memtables hold *)
Definition in_memory (e : Engine W) : list CoreRecord :=
  concat (map cmt_bset (e_memtable e :: (e_frozen_memtables e).*2)).

Lemma engine_range_ok (files : Directory) (e : Engine W) (rss : list (list CoreRecord))
    (sid : Z) (key : list byte) (s t : Z) (flt : list byte)
    (Hsid : in_i64 sid) (Hs : in_i64 s) (Ht : in_i64 t) (Hk : in_u32 (blen key))
    (Hmem : Forall core_mt_ok (e_memtable e :: (e_frozen_memtables e).*2))
    (Hnd : NoDup (sort_key <$> in_memory e))
    (Hsst : Forall2 (sst_serves files sid key s) (e_sstable_map e).*2 rss)
    (Hinj : forall r q, r ∈ in_memory e ++ concat rss -> q ∈ in_memory e ++ concat rss -> sort_key r = sort_key q -> r = q) :
  0 <= s <= t -> exists m n out,
    engine_range (H := H) files sid key s t flt e = Ok m /\ core_merge_collect n n m = Ok out /\
    bset_sorted sort_key out /\
    (forall r, r ∈ out -> r ∈ in_memory e ++ concat rss /\ core_query_match sid key s t flt r = true) /\
    (forall r, r ∈ in_memory e ++ concat rss -> core_query_match sid key s t flt r = true ->
       source_ts r <> (be_bytes 8 sid, be_bytes 8 s) \/ r ∈ in_memory e -> r ∈ out).
Proof.
  unfold engine_range.
  intros Hle. destruct (engine_memtable_iter_ok (e_memtable e) (e_frozen_memtables e).*2 sid key s t flt)
    as (recs & -> & Hrs & Hp); try done. rewrite ok_bind.
  destruct (sstable_iters_ok files (e_sstable_map e).*2 rss sid key s t flt) as (its & ls & -> & Hy & Hsort & Hsub & Hcov); try done.
  rewrite ok_bind.
  assert (forall r, r ∈ in_memory e -> extractable r = true) as Hxm.
  { intros r (l & (m & <- & Hm%list_elem_of_In)%in_map_iff & Hr)%list_elem_of_In%in_concat.
    rewrite Forall_forall in Hmem. destruct (Hmem m Hm) as [_ Hx]. by apply (proj1 (forallb_forall _ _) Hx). }
  assert (iif_rest (Some (iif_new recs sid key s t flt)) ≡ₚ List.filter (core_query_match sid key s t flt) (in_memory e)) as Hall.
  { cbn [iif_rest iif_inner iif_new].
    assert (forall r, r ∈ recs -> r ∈ in_memory e) as Hin.
    { intros r Hr. rewrite Hp in Hr. apply list_elem_of_In, filter_In in Hr as [Hr _]. by apply list_elem_of_In. }
    rewrite (filter_ext_in _ (core_query_match sid key s t flt)).
    - unfold in_memory. rewrite Hp, filter_filter_and; [done|]. intros r Hr. unfold core_query_match in Hr. by gsplit.
    - intros r Hr. apply iif_matches_eq, Hxm, Hin. by apply list_elem_of_In. }
  set (mem := iif_rest _) in *.
  assert (forall r, r ∈ mem <-> r ∈ in_memory e /\ core_query_match sid key s t flt r = true) as Hmem'.
  { intros r. by rewrite Hall, !list_elem_of_In, filter_In. }
  assert (forall r, r ∈ mem ++ concat ls -> r ∈ in_memory e ++ concat rss /\ core_query_match sid key s t flt r = true) as Hmatch.
  { intros r. rewrite !elem_of_app. intros [[? ?]%Hmem'|[? ?]%Hsub]; auto. }
  destruct (core_merge_all_ok (H := H) (Some (iif_new recs sid key s t flt)) its ls
    (S (length (mem ++ concat ls))) (Nat.lt_succ_diag_r _) Hy) as (m & out & Hm & Hcol & Hso & Hsubo & Hcovo).
  - constructor; [|done]. by apply bset_sorted_le, filter_sorted.
  - intros r [Hr _]%Hmatch. apply elem_of_app in Hr as [Hr|Hr]; [by apply Hxm|by eapply sst_serves_extract].
  - exists m, (S (length (mem ++ concat ls))), out. split_and!; try done; [intros r Hr; by apply Hmatch, Hsubo|].
    intros r Hr Hq Hne. assert (r ∈ mem ++ concat ls) as Hin.
    { apply elem_of_app. apply elem_of_app in Hr as [Hr|Hr]; [left; by apply Hmem'|].
      destruct Hne; [right; by apply Hcov|left; by apply Hmem']. }
    destruct (proj1 (list_elem_of_fmap _ _ _) (Hcovo r Hin)) as (q & Heq & Hq').
    rewrite (Hinj r q Hr); [done| |done]. by apply (Hmatch q), Hsubo.
Qed.

(** [Engine::range] refuses reversed and negative windows. For any other
    window the iterator it returns ends, and yields in key order, without
    repetition, only records that match the query among everything stored:
    the active memtable, the frozen memtables and the SSTs. It yields all of
    those, except that a record in an SST with exactly the start timestamp
    may be missing. *)
Theorem engine_range_spec (files : Directory) (e : Engine W) (rss : list (list CoreRecord))
    (sid : Z) (key : list byte) (s t : Z) (flt : list byte)
    (Hsid : in_i64 sid) (Hs : in_i64 s) (Ht : in_i64 t) (Hk : in_u32 (blen key))
    (Hmem : Forall core_mt_ok (e_memtable e :: (e_frozen_memtables e).*2))
    (Hnd : NoDup (sort_key <$> in_memory e))
    (Hsst : Forall2 (sst_serves files sid key s) (e_sstable_map e).*2 rss)
    (Hinj : forall r q, r ∈ in_memory e ++ concat rss -> q ∈ in_memory e ++ concat rss -> sort_key r = sort_key q -> r = q) :
  (t < s \/ s < 0 -> engine_range (H := H) files sid key s t flt e = bail) /\
  (0 <= s <= t -> exists m n out,
    engine_range (H := H) files sid key s t flt e = Ok m /\ core_merge_collect n n m = Ok out /\
    bset_sorted sort_key out /\
    (forall r, r ∈ out -> r ∈ in_memory e ++ concat rss /\ core_query_match sid key s t flt r = true) /\
    (forall r, r ∈ in_memory e ++ concat rss -> core_query_match sid key s t flt r = true ->
       source_ts r <> (be_bytes 8 sid, be_bytes 8 s) \/ r ∈ in_memory e -> r ∈ out)).
Proof.
  split; [|by apply engine_range_ok]. intros Hbad. unfold engine_range, engine_memtable_iter. case_if; [done|]. by if_true.
Qed.
End range_claim.
