(* ===== verification/CoreBackend.v ===== *)
(** * The backend loop and the I/O worker of logregator-core

    storage/backend.rs and storage/io_worker.rs, with the rotation of the log
    (storage/wal.rs) and the files it acts on. The backend serves commands
    and the results of the I/O worker in turns; the worker takes commands
    from a queue and runs flushes and compactions as tasks that end in any
    order. The files are the active log (what has reached the file of the
    engine's [BufWriter]), the rotated logs and the SSTs, both by id. *)
From S2P Require Import Prelude Std Codec CoreProto CoreStorage CoreIter CoreEngine.

(** ** Commands and results of the I/O worker *)

Inductive IoCommand `{SstModule} :=
| ResyncWal
| FlushMemtable (memtable : MemTable) (sst_id : Z)
| CompactSSTables (tables : list SSTableMeta) (file_id : Z).

Inductive IoResult `{SstModule} :=
| FlushResult (new_meta : SSTableMeta)
| CompactionResult (new_meta : SSTableMeta) (ids_to_remove : list Z).

Record BackendConfig := { command_batch_size : Z; range_batch_size : Z; max_sstable_count : Z }.
Definition backend_config_default : BackendConfig :=
  {| command_batch_size := 512; range_batch_size := 1024; max_sstable_count := 8 |}.

(** ** State: the backend, the files and the two channels *)

Record Backend `{SstModule} := {
  b_engine : Engine (list byte);
  b_stale_wals : list (Z * Z);
  b_applied_flushes : gset Z;
  b_next_wal_to_del : Z;
  b_config : BackendConfig;
  (** the logs that have been rotated and the SST files *)
  d_wals : gmap Z (list byte);
  d_ssts : Directory;
  (** commands sent and not yet taken; [false]: the worker is gone *)
  io_cmds : list IoCommand;
  io_alive : bool
}.

Section backend.
Context `{SstModule}.

Definition b_with_engine (b : Backend) (e : Engine (list byte)) : Backend :=
  Build_Backend _ e (b_stale_wals b) (b_applied_flushes b) (b_next_wal_to_del b) (b_config b)
    (d_wals b) (d_ssts b) (io_cmds b) (io_alive b).
Definition b_with_wals (b : Backend) (stale : list (Z * Z)) (wals : gmap Z (list byte)) : Backend :=
  Build_Backend _ (b_engine b) stale (b_applied_flushes b) (b_next_wal_to_del b) (b_config b)
    wals (d_ssts b) (io_cmds b) (io_alive b).
Definition b_with_applied (b : Backend) (applied : gset Z) (next : Z) : Backend :=
  Build_Backend _ (b_engine b) (b_stale_wals b) applied next (b_config b)
    (d_wals b) (d_ssts b) (io_cmds b) (io_alive b).
Definition b_with_ssts (b : Backend) (ssts : Directory) : Backend :=
  Build_Backend _ (b_engine b) (b_stale_wals b) (b_applied_flushes b) (b_next_wal_to_del b) (b_config b)
    (d_wals b) ssts (io_cmds b) (io_alive b).
Definition b_with_cmds (b : Backend) (cmds : list IoCommand) : Backend :=
  Build_Backend _ (b_engine b) (b_stale_wals b) (b_applied_flushes b) (b_next_wal_to_del b) (b_config b)
    (d_wals b) (d_ssts b) cmds (io_alive b).

Definition backend_new (engine : Engine (list byte)) (wals : gmap Z (list byte)) (ssts : Directory)
    (config : BackendConfig) : Backend :=
  Build_Backend _ engine [] ∅ 1 config wals ssts [] true.

Definition on_engine {A} (op : st (Engine (list byte)) io_error A) : st Backend io_error A := fun b =>
  let '(e, o) := op (b_engine b) in (b_with_engine b e, o).

(** [io_cmd_sender.send] *)
Definition io_send (cmd : IoCommand) (b : Backend) : Backend * bool :=
  if io_alive b then (b_with_cmds b (io_cmds b ++ [cmd]), true) else (b, false).

(** [Wal::rotate]: flush, rename the active log, start an empty one. The
    rename may fail; it replaces a log of the same name. Opening the new log
    succeeds here; [CoreFiles.wal_rotate] has the case in which it does not. *)
Definition rotate_wal (rename_ok : bool) (sst_id : Z) : st Backend io_error Z := fun b =>
  match on_engine flush_wal_buffer b with
  | (b, Ok _) =>
      if negb rename_ok then (b, bail)
      else
        let content := bw_inner (e_wal (b_engine b)) in
        let b := b_with_wals b (b_stale_wals b) (<[sst_id := content]> (d_wals b)) in
        (b_with_engine b (e_with_wal (b_engine b) (bufwriter_new [])), Ok sst_id)
  | (b, Err e) => (b, Err e)
  | (b, Panic) => (b, Panic)
  end.

(** ** The handlers of the backend *)

Definition send_flush_cmd (rename_ok : bool) : st Backend io_error unit := fun b =>
  if is_memtable_empty (b_engine b) then (b, Ok tt)
  else
    let '(e, (frozen_memtable, new_sst_id)) := prepare_flush (b_engine b) in
    match rotate_wal rename_ok new_sst_id (b_with_engine b e) with
    | (b, Ok stale_wal_path) =>
        let b := b_with_wals b (bmap_insert new_sst_id stale_wal_path (b_stale_wals b)) (d_wals b) in
        let b := (io_send ResyncWal b).1 in
        let b := (io_send (FlushMemtable frozen_memtable new_sst_id) b).1 in
        (b, Ok tt)
    | (b, Err e) => (b, Err e)
    | (b, Panic) => (b, Panic)
    end.

(** the loop that deletes logs: the log of a flush goes once that flush and
    the next one have been applied *)
Fixpoint delete_wals (fuel : nat) (b : Backend) : Backend :=
  match fuel with
  | O => b
  | S fuel =>
      let next := b_next_wal_to_del b in
      if bool_decide (next ∈ b_applied_flushes b) && bool_decide (wrap64 (next + 1) ∈ b_applied_flushes b)
      then
        let b := match bmap_get next (b_stale_wals b) with
                 | Some stale => b_with_wals b (bmap_remove next (b_stale_wals b)) (delete stale (d_wals b))
                 | None => b
                 end in
        delete_wals fuel (b_with_applied b (b_applied_flushes b) (wrap64 (next + 1)))
      else b
  end.

Definition needs_compaction (b : Backend) : bool :=
  wrap64 (e_memtable_limit_bytes (b_engine b) * 8) <=? total_sstable_size (b_engine b).

Definition apply_flush_result (new_meta : SSTableMeta) (b : Backend) : Backend * bool :=
  let b := b_with_engine b (remove_frozen_memtable (meta_id new_meta) (b_engine b)) in
  let b := b_with_applied b (b_applied_flushes b ∪ {[meta_id new_meta]}) (b_next_wal_to_del b) in
  let b := delete_wals (S (size (b_applied_flushes b))) b in
  let b := b_with_engine b (insert_meta new_meta (b_engine b)) in
  (b, needs_compaction b).

Definition send_compaction_cmd (b : Backend) : Backend :=
  if negb (needs_compaction b) then b
  else
    let count := Z.max (max_sstable_count (b_config b) / 2) 2 in
    let metas := get_oldest_metas count (b_engine b) in
    if blen metas <? 2 then b
    else
      let ids := map meta_id metas in
      let b := b_with_engine b (mark_compacting ids (b_engine b)) in
      let '(e, file_id) := allocate_sstable_id (b_engine b) in
      let b := b_with_engine b e in
      match io_send (CompactSSTables metas file_id) b with
      | (b, true) => b
      | (b, false) => b_with_engine b (unmark_compacting ids (b_engine b))
      end.

Fixpoint remove_tables (ids : list Z) (b : Backend) : Backend :=
  match ids with
  | [] => b
  | id :: rest =>
      let b := b_with_engine b (remove_meta id (b_engine b)) in
      remove_tables rest (b_with_ssts b (delete id (d_ssts b)))
  end.

Definition apply_compaction_result (new_meta : SSTableMeta) (ids_to_remove : list Z) (b : Backend) : Backend * bool :=
  let b := remove_tables ids_to_remove b in
  let b := b_with_engine b (unmark_compacting ids_to_remove (b_engine b)) in
  let b := b_with_engine b (insert_meta new_meta (b_engine b)) in
  (b, needs_compaction b).

(** [send_wal_sync_cmd]; the fsync it asks for is in CoreSync.v *)
Definition send_wal_sync_cmd : st Backend io_error unit := on_engine flush_wal_buffer.

(** ** One turn of the loop *)

Inductive BackendCommand :=
| CmdInsert (i : Insert)
| CmdBatchInsert (inserts : list Insert)
| CmdRange (r : RangeReq)
| CmdMetrics.

(** whether a flush is needed, and the error sent back if there is one *)
Definition handle_insert (i : Insert) : st Backend io_error bool := fun b =>
  match on_engine (insert_record (ins_source_id i) (ins_ts i) (ins_key i) (ins_value i)) b with
  | (b, Err _) => (b, Ok false)
  | r => r
  end.
Definition handle_batch_insert (inserts : list Insert) : st Backend io_error bool := fun b =>
  match on_engine (batch_insert_records inserts) b with
  | (b, Err _) => (b, Ok false)
  | r => r
  end.

(** the batches that reach a receiver which takes [recv] of them, or all, and
    the result sent when the loop ends; [batch] is what has been gathered *)
Definition send_batch (recv : option nat) (batch : list ProtoRecord) : option (option nat) :=
  match recv with None => Some None | Some (S n) => Some (Some n) | Some O => None end.

Definition send_last (recv : option nat) (batch : list ProtoRecord) : list (list ProtoRecord) :=
  match batch, send_batch recv batch with
  | [], _ | _, None => []
  | _, Some _ => [batch]
  end.

Fixpoint range_loop (range_batch_size : Z) (records : list CoreRecord) (batch : list ProtoRecord) (recv : option nat)
    : list (list ProtoRecord) * outcome io_error unit :=
  match records with
  | [] => (send_last recv batch, Ok tt)
  | storage_rec :: rest =>
      match proto_record_try_from storage_rec with
      | Ok proto_rec =>
          let batch := batch ++ [proto_rec] in
          if range_batch_size <=? blen batch then
            match send_batch recv batch with
            | Some recv => let '(sent, o) := range_loop range_batch_size rest [] recv in (batch :: sent, o)
            | None => ([], Ok tt)
            end
          else range_loop range_batch_size rest batch recv
      | Err err => (send_last recv batch, Err err)
      | Panic => ([], Panic)
      end
  end.

(** [handle_range]; [n] bounds the records the iterator goes through *)
Definition handle_range {Heap} `{!MinHeap CoreHeapItem Heap} (n : nat) (recv : option nat) (r : RangeReq) (b : Backend)
    : list (list ProtoRecord) * outcome io_error unit :=
  match engine_range (H := Heap) (d_ssts b) (rng_source_id r) (rng_key r) (rng_start_ts r) (rng_end_ts r) (rng_filter r) (b_engine b) with
  | Ok iter =>
      match core_merge_collect n n iter with
      | Ok records => range_loop (range_batch_size (b_config b)) records [] recv
      | Err err => ([], Err err)
      | Panic => ([], Panic)
      end
  | Err err => ([], Err err)
  | Panic => ([], Panic)
  end.

(** every insert overwrites the flag of the one before; queries and metrics
    leave the state alone *)
Fixpoint handle_commands (cmds : list BackendCommand) (needs_flush : bool) : st Backend io_error bool :=
  match cmds with
  | [] => mret needs_flush
  | CmdInsert i :: rest => f ← handle_insert i; handle_commands rest f
  | CmdBatchInsert l :: rest => f ← handle_batch_insert l; handle_commands rest f
  | CmdRange _ :: rest | CmdMetrics :: rest => handle_commands rest needs_flush
  end.

(** errors of flushing and of the wal sync are dropped by the loop *)
Definition ignore_err {A} (op : st Backend io_error A) : st Backend io_error unit := fun b =>
  match op b with
  | (b, Panic) => (b, Panic)
  | (b, _) => (b, Ok tt)
  end.

Definition turn_commands (rename_ok : bool) (cmds : list BackendCommand) : st Backend io_error unit :=
  needs_flush ← handle_commands cmds false;
  _ ← ignore_err send_wal_sync_cmd;
  if (needs_flush : bool) then ignore_err (send_flush_cmd rename_ok) else mret tt.

Definition turn_result (r : IoResult) (b : Backend) : Backend :=
  let '(b, more) := match r with
                    | FlushResult m => apply_flush_result m b
                    | CompactionResult m ids => apply_compaction_result m ids b
                    end in
  if more then send_compaction_cmd b else b.

(** before the loop: what was recovered is flushed *)
Definition engine_loop_start (rename_ok : bool) : st Backend io_error unit := fun b =>
  if negb (is_memtable_empty (b_engine b)) then ignore_err (send_flush_cmd rename_ok) b else (b, Ok tt).
End backend.

(** ** The tasks of the I/O worker *)

Section worker.
Context {H : Type} `{SstCodec, !MinHeap CoreHeapItem H}.

(** [handle_flush]: the file it writes and the result it sends *)
Definition handle_flush (memtable : MemTable) (file_id : Z) : SSTableMeta * list byte :=
  write_to_file file_id (cmt_bset memtable) (blen (cmt_bset memtable)).

(** the scanners of a compaction; a file that does not open is left out *)
Fixpoint sstable_scanners (files : Directory) (tables : list SSTableMeta) : list RecordIter :=
  match tables with
  | [] => []
  | meta :: rest =>
      match siu_new (files !! meta_id meta) meta with
      | Ok it => Unfiltered it :: sstable_scanners files rest
      | _ => sstable_scanners files rest
      end
  end.

(** the records of a compaction are no more than the bytes of its files *)
Definition compaction_fuel (files : Directory) (tables : list SSTableMeta) : nat :=
  S (sum_list_with (fun meta => length (default [] (files !! meta_id meta))) tables).

(** [handle_compaction]: the new table, its file and the tables it replaces *)
Definition handle_compaction (files : Directory) (tables : list SSTableMeta) (file_id : Z)
    : outcome io_error (SSTableMeta * list byte * list Z) :=
  let num_records_hint := foldl (fun n m => wrap64 (n + meta_num_records m)) 0 tables in
  let ids_to_remove := map meta_id tables in
  let n := compaction_fuel files tables in
  merge_iter ← core_merge_new (H := H) None (sstable_scanners files tables);
  records ← core_merge_collect n n merge_iter;
  Ok (write_to_file file_id records num_records_hint, ids_to_remove).
End worker.
