(* ===== verification/CoreSystem.v ===== *)
(** * The backend and its I/O worker as one system: nothing acknowledged is lost

    The turns of the backend loop and the tasks of the worker (CoreBackend)
    as steps of a transition system that starts in an empty directory. Tasks
    end in any order, or fail and leave their file in any state; the rename
    of a log may fail. An invariant of all reachable states gives what a
    query returns and what is on disk. *)
From S2P Require Import Prelude Std Codec CoreProto CoreStorage CoreIter CoreEngine CoreBackend.

(** ** The system *)

Record Sys `{SstModule} := {
  s_backend : Backend;
  (** tasks that were spawned and have not ended *)
  s_jobs : list IoCommand;
  (** results sent and not yet received *)
  s_results : list IoResult
}.

Fixpoint cmds_inserts (cmds : list BackendCommand) : list Insert :=
  match cmds with
  | [] => []
  | CmdInsert i :: rest => i :: cmds_inserts rest
  | CmdBatchInsert l :: rest => l ++ cmds_inserts rest
  | _ :: rest => cmds_inserts rest
  end.

(** the table a task writes and the tables it reads *)
Definition cmd_out `{SstModule} (c : IoCommand) : list Z :=
  match c with ResyncWal => [] | FlushMemtable _ id => [id] | CompactSSTables _ id => [id] end.
Definition cmd_in `{SstModule} (c : IoCommand) : list Z :=
  match c with CompactSSTables tables _ => map meta_id tables | _ => [] end.
Definition res_out `{SstModule} (r : IoResult) : Z :=
  match r with FlushResult meta | CompactionResult meta _ => meta_id meta end.
Definition res_in `{SstModule} (r : IoResult) : list Z :=
  match r with FlushResult _ => [] | CompactionResult _ ids => ids end.

Section system.
Context {H : Type} `{SstCodec, !MinHeap CoreHeapItem H}.

(** the records that a turn acknowledges, numbered as the engine does *)
Definition turn_records (cmds : list BackendCommand) (b : Backend) : list CoreRecord :=
  (batch_records (cmds_inserts cmds) (e_seq_counter (b_engine b))).1.

(** the counters are far from 2^64 *)
Definition has_room (n : Z) (b : Backend) : Prop :=
  e_seq_counter (b_engine b) + n <= u64_max /\ e_sst_counter (b_engine b) + 1 <= u64_max.

(** [handle_cmd]: a sync is done at once, the rest is spawned *)
Definition spawn (c : IoCommand) (jobs : list IoCommand) : list IoCommand :=
  match c with ResyncWal => jobs | _ => jobs ++ [c] end.

Inductive sys_step : Sys -> list CoreRecord -> Sys -> Prop :=
| step_commands b b' jobs results rename_ok cmds :
    Forall insert_ok (cmds_inserts cmds) -> has_room (blen (cmds_inserts cmds)) b ->
    turn_commands rename_ok cmds b = (b', Ok tt) ->
    sys_step (Build_Sys _ b jobs results) (turn_records cmds b) (Build_Sys _ b' jobs results)
| step_result b jobs r results :
    has_room 0 b ->
    sys_step (Build_Sys _ b jobs (r :: results)) [] (Build_Sys _ (turn_result r b) jobs results)
| step_take b c cmds jobs results :
    io_cmds b = c :: cmds ->
    sys_step (Build_Sys _ b jobs results) [] (Build_Sys _ (b_with_cmds b cmds) (spawn c jobs) results)
| step_flush b pre m id post meta file results :
    handle_flush m id = (meta, file) ->
    sys_step (Build_Sys _ b (pre ++ FlushMemtable m id :: post) results) []
      (Build_Sys _ (b_with_ssts b (<[id := file]> (d_ssts b))) (pre ++ post) (results ++ [FlushResult meta]))
| step_compact b pre tables id post meta file ids results :
    handle_compaction (H := H) (d_ssts b) tables id = Ok ((meta, file), ids) ->
    sys_step (Build_Sys _ b (pre ++ CompactSSTables tables id :: post) results) []
      (Build_Sys _ (b_with_ssts b (<[id := file]> (d_ssts b))) (pre ++ post) (results ++ [CompactionResult meta ids]))
| step_fail b pre c post ssts results :
    (forall id, id ∉ cmd_out c -> ssts !! id = d_ssts b !! id) ->
    sys_step (Build_Sys _ b (pre ++ c :: post) results) [] (Build_Sys _ (b_with_ssts b ssts) (pre ++ post) results).

(** opening an empty directory and entering the loop *)
Definition sys_start (memtable_limit : Z) (config : BackendConfig) : outcome io_error Sys :=
  opened ← engine_open [] [[]] [] memtable_limit;
  Ok (Build_Sys _ (engine_loop_start true (backend_new opened.1 ∅ ∅ config)).1 [] []).

(** runs, with everything that has been acknowledged *)
Inductive sys_run (s0 : Sys) : list CoreRecord -> Sys -> Prop :=
| run_start : sys_run s0 [] s0
| run_step ins s recs s' : sys_run s0 ins s -> sys_step s recs s' -> sys_run s0 (ins ++ recs) s'.
End system.

(** ** What is relied on of the SST module *)

Definition table_ok (rs : list CoreRecord) : Prop :=
  Forall (fun r => blen r <= VEC_MAX - 8) rs /\ bset_sorted sort_key rs /\ forallb extractable rs = true.

(** [write_to_file] writes the records in order, each with its length in
    front, then the index, which finds the place to start reading from, and
    the bloom filter, which has no false negatives *)
Class SstCodecLaws `{SstCodec} : Prop := {
  write_id id rs hint : meta_id (write_to_file id rs hint).1 = id;
  write_layout id rs hint : table_ok rs -> sst_layout (write_to_file id rs hint).1 (write_to_file id rs hint).2 rs;
  write_bloom id rs hint r sid key : table_ok rs -> r ∈ rs -> extract_source_id r = Ok sid -> extract_key r = Ok key ->
    bloom_contains (meta_bloom (write_to_file id rs hint).1) sid key = true;
  write_seek id rs hint target : table_ok rs -> extractable target = true ->
    exists pre post, rs = pre ++ post /\ seek_ok (write_to_file id rs hint).1 pre post target
}.

(** ** Where a record is *)

(** the sequence number in the key of a record *)
Definition rec_seq (r : CoreRecord) : Z := be_val (take 8 (drop 16 r)).
Definition rec_ok (r : CoreRecord) : Prop :=
  extractable r = true /\ blen r <= VEC_MAX - 8 /\ exists p, proto_record_try_from r = Ok p.

(** the records that [recover_file] reads from a log *)
Definition log_has (f : list byte) (r : CoreRecord) : Prop := exists rs, recover_file f = Ok rs /\ r ∈ rs.

Section places.
Context `{SstCodec}.
Implicit Types (e : Engine (list byte)) (ssts : Directory) (b : Backend).

Definition written (meta : SSTableMeta) (file : list byte) (rs : list CoreRecord) : Prop :=
  table_ok rs /\ exists hint, write_to_file (meta_id meta) rs hint = (meta, file).

(** the table [id] of the engine holds [r] *)
Definition table_has e ssts (id : Z) (r : CoreRecord) : Prop :=
  exists meta file rs, bmap_get id (e_sstable_map e) = Some meta /\ ssts !! id = Some file /\
    meta_id meta = id /\ written meta file rs /\ r ∈ rs.
Definition in_tables e ssts (r : CoreRecord) : Prop := exists id, table_has e ssts id r.

(** in a frozen memtable up to number [n], or in a table *)
Definition settled e ssts (n : Z) (r : CoreRecord) : Prop :=
  (exists j m, bmap_get j (e_frozen_memtables e) = Some m /\ j <= n /\ r ∈ cmt_bset m) \/ in_tables e ssts r.

(** what a restart finds: a log or a table has it *)
Definition durable b (r : CoreRecord) : Prop :=
  log_has (bw_total (e_wal (b_engine b))) r \/
  (exists id f, d_wals b !! id = Some f /\ log_has f r) \/ in_tables (b_engine b) (d_ssts b) r.

(** ** The invariant *)

(** the acknowledged records and the memtables *)
Record mem_inv (ins : list CoreRecord) e : Prop := {
  mi_ok : Forall rec_ok ins;
  mi_seq : Forall (fun r => rec_seq r < e_seq_counter e) ins;
  mi_nodup : NoDup (rec_seq <$> ins);
  mi_counters : 0 <= e_seq_counter e <= u64_max /\ 1 <= e_sst_counter e <= u64_max;
  mi_mem : Forall core_mt_ok (e_memtable e :: (e_frozen_memtables e).*2);
  mi_mem_nodup : NoDup (in_memory e);
  mi_mem_ins : forall r, r ∈ in_memory e -> r ∈ ins;
  mi_frozen : bmap_sorted (e_frozen_memtables e);
  mi_frozen_ids : forall j m, bmap_get j (e_frozen_memtables e) = Some m -> 1 <= j < e_sst_counter e
}.

(** the tables and their files *)
Record sst_inv (ins : list CoreRecord) e ssts : Prop := {
  si_sorted : bmap_sorted (e_sstable_map e);
  si_tables : forall id meta, bmap_get id (e_sstable_map e) = Some meta ->
    1 <= id < e_sst_counter e /\ meta_id meta = id /\
    exists file rs, ssts !! id = Some file /\ written meta file rs /\ forall r, r ∈ rs -> r ∈ ins;
  (** everything acknowledged can be read *)
  si_read : forall r, r ∈ ins -> r ∈ in_memory e \/ in_tables e ssts r
}.

(** the logs: the active one, the rotated ones, and their deletion *)
Record log_inv (ins : list CoreRecord) b : Prop := {
  li_bw : bw_ok (e_wal (b_engine b));
  li_active : exists rs, bw_total (e_wal (b_engine b)) = wal_wires rs /\ forall r, r ∈ rs -> r ∈ ins;
  li_logs : forall id f, d_wals b !! id = Some f -> 1 <= id < e_sst_counter (b_engine b) /\
    exists rs, f = wal_wires rs /\ (forall r, r ∈ rs -> r ∈ ins) /\
      forall r, r ∈ rs -> settled (b_engine b) (d_ssts b) id r;
  li_durable : forall r, r ∈ ins -> durable b r;
  li_applied : forall j, j ∈ b_applied_flushes b ->
    1 <= j < e_sst_counter (b_engine b) /\ bmap_get j (e_frozen_memtables (b_engine b)) = None;
  li_next : 1 <= b_next_wal_to_del b /\ forall j, 1 <= j < b_next_wal_to_del b -> j ∈ b_applied_flushes b;
  li_stale : forall id w, bmap_get id (b_stale_wals b) = Some w -> w = id
}.

Definition cmd_ok e (c : IoCommand) : Prop :=
  match c with
  | ResyncWal => True
  | FlushMemtable m id => bmap_get id (e_frozen_memtables e) = Some m
  | CompactSSTables tables id =>
      bmap_get id (e_frozen_memtables e) = None /\
      Forall (fun meta => bmap_get (meta_id meta) (e_sstable_map e) = Some meta) tables
  end.

Definition res_ok (ins : list CoreRecord) e ssts (r : IoResult) : Prop :=
  match r with
  | FlushResult meta => exists m file, bmap_get (meta_id meta) (e_frozen_memtables e) = Some m /\
      ssts !! meta_id meta = Some file /\ written meta file (cmt_bset m)
  | CompactionResult meta ids => exists file rs, bmap_get (meta_id meta) (e_frozen_memtables e) = None /\
      ssts !! meta_id meta = Some file /\ written meta file rs /\ (forall r, r ∈ rs -> r ∈ ins) /\
      forall id r, id ∈ ids -> table_has e ssts id r -> r ∈ rs
  end.

Definition out_ids (cmds : list IoCommand) (results : list IoResult) : list Z :=
  concat (cmd_out <$> cmds) ++ (res_out <$> results).
Definition in_ids (cmds : list IoCommand) (results : list IoResult) : list Z :=
  concat (cmd_in <$> cmds) ++ concat (res_in <$> results).

(** the tasks, from the command to the result *)
Record io_inv (ins : list CoreRecord) e ssts (cmds : list IoCommand) (results : list IoResult) : Prop := {
  ii_cmds : Forall (cmd_ok e) cmds;
  ii_results : Forall (res_ok ins e ssts) results;
  ii_out : NoDup (out_ids cmds results);
  ii_out_new : forall id, id ∈ out_ids cmds results ->
    1 <= id < e_sst_counter e /\ bmap_get id (e_sstable_map e) = None;
  ii_in : NoDup (in_ids cmds results);
  ii_in_marked : forall id, id ∈ in_ids cmds results -> id ∈ e_compacting e /\ is_Some (bmap_get id (e_sstable_map e))
}.

Record sys_inv (ins : list CoreRecord) (s : Sys) : Prop := {
  inv_mem : mem_inv ins (b_engine (s_backend s));
  inv_sst : sst_inv ins (b_engine (s_backend s)) (d_ssts (s_backend s));
  inv_log : log_inv ins (s_backend s);
  inv_io : io_inv ins (b_engine (s_backend s)) (d_ssts (s_backend s))
             (io_cmds (s_backend s) ++ s_jobs s) (s_results s)
}.
End places.

(** ** Records and their numbers *)

Lemma sort_key_seq r q : sort_key r = sort_key q -> rec_seq r = rec_seq q.
Proof. unfold sort_key, rec_seq. by intros [= _ _ -> _]. Qed.

Lemma ins_inj ins r q : NoDup (rec_seq <$> ins) -> r ∈ ins -> q ∈ ins -> rec_seq r = rec_seq q -> r = q.
Proof.
  induction ins as [|x ins IH]; intros Hnd Hr Hq E; [by apply not_elem_of_nil in Hr|].
  rewrite fmap_cons, NoDup_cons in Hnd. destruct Hnd as [Hx Hnd]. rewrite list_elem_of_fmap in Hx.
  apply elem_of_cons in Hr as [->|Hr], Hq as [->|Hq]; [done|exfalso..|by apply IH]; apply Hx; eauto.
Qed.

Lemma record_built i seq :
  insert_ok i -> in_u64 seq ->
  let r := from_raw_parts (ins_source_id i) (ins_ts i) seq (ins_key i) (ins_value i) in rec_ok r /\ rec_seq r = seq.
Proof.
  intros [Hs Ht [Huk Hk] [Huv Hv]] Hseq r. subst r. split; [split_and!|].
  - by apply extractable_built.
  - rewrite from_raw_parts_len. unfold VEC_MAX, in_u32, u32_max in *. lia.
  - unfold proto_record_try_from, extract_all_fields_owned.
    pose proof (extract_all_built (ins_source_id i) (ins_ts i) seq _ _ Hs Ht Hseq Hk Hv []) as E. rewrite app_nil_r in E.
    rewrite E, ok_bind, Huk, Huv. cbn. by eexists.
  - pose proof (f_equal (fun k => be_val k.2.2.1) (sort_key_built (ins_source_id i) (ins_ts i) seq _ _ Hk Hv)) as E.
    cbn in E. unfold rec_seq. rewrite E. by apply be_val_u64.
Qed.

Lemma recover_ok rs : Forall rec_ok rs -> recover_file (wal_wires rs) = Ok rs.
Proof. intros Hrs. apply recover_file_wires. eapply Forall_impl; [exact Hrs|]. intros r (_ & Hl & _). unfold VEC_MAX in *. lia. Qed.

Lemma Forall_sub {A} (P : A -> Prop) (l k : list A) : (forall x, x ∈ l -> x ∈ k) -> Forall P k -> Forall P l.
Proof. rewrite !Forall_forall. eauto. Qed.

(** ** Steps that leave the tables alone *)

Section frame.
Context `{SstCodec}.
Implicit Types (e : Engine (list byte)) (ssts : Directory) (b : Backend).

Definition same_tables e e' : Prop :=
  e_frozen_memtables e' = e_frozen_memtables e /\ e_sstable_map e' = e_sstable_map e /\
  e_compacting e' = e_compacting e /\ e_sst_counter e' = e_sst_counter e.

Lemma in_memory_elem e r : bmap_sorted (e_frozen_memtables e) ->
  r ∈ in_memory e <->
  r ∈ cmt_bset (e_memtable e) \/ exists j m, bmap_get j (e_frozen_memtables e) = Some m /\ r ∈ cmt_bset m.
Proof.
  intros Hs. unfold in_memory. cbn [map concat]. rewrite elem_of_app. apply or_iff_compat_l.
  rewrite list_elem_of_In, in_concat. split.
  - intros (l & (m & <- & Hm)%in_map_iff & Hr). apply list_elem_of_In, list_elem_of_fmap in Hm as ([j m'] & -> & Hj).
    exists j, m'. split; [by apply bmap_get_elem|by apply list_elem_of_In].
  - intros (j & m & Hj & Hr). exists (cmt_bset m). split; [|by apply list_elem_of_In].
    apply in_map, list_elem_of_In, list_elem_of_fmap. exists (j, m). split; [done|by apply bmap_get_elem].
Qed.

Lemma in_tables_mono e e' ssts ssts' r :
  (forall id meta, bmap_get id (e_sstable_map e) = Some meta ->
     bmap_get id (e_sstable_map e') = Some meta /\ ssts' !! id = ssts !! id) ->
  in_tables e ssts r -> in_tables e' ssts' r.
Proof.
  intros Hsub (id & meta & file & rs & Hg & Hf & Hid & Hw & Hr). destruct (Hsub id meta Hg) as [Hg' Hf'].
  exists id, meta, file, rs. by rewrite Hf'.
Qed.

Lemma settled_mono e e' ssts ssts' n n' r :
  n <= n' ->
  (forall j m, bmap_get j (e_frozen_memtables e) = Some m -> j <= n -> r ∈ cmt_bset m ->
     bmap_get j (e_frozen_memtables e') = Some m \/ in_tables e' ssts' r) ->
  (in_tables e ssts r -> in_tables e' ssts' r) -> settled e ssts n r -> settled e' ssts' n' r.
Proof.
  intros Hn Hf Ht [(j & m & Hj & Hle & Hr)|?]; [|right; by apply Ht].
  destruct (Hf j m Hj Hle Hr); [left; exists j, m; split_and!; [done|lia|done]|by right].
Qed.

Lemma res_ok_ins ins ins' e ssts r : (forall q, q ∈ ins -> q ∈ ins') -> res_ok ins e ssts r -> res_ok ins' e ssts r.
Proof.
  intros Hsub. destruct r as [meta|meta ids]; [done|]. intros (file & rs & ? & ? & ? & Hrs & ?).
  exists file, rs. split_and!; try done. eauto.
Qed.

Lemma io_inv_frame ins ins' e e' ssts cmds results :
  (forall q, q ∈ ins -> q ∈ ins') -> same_tables e e' ->
  io_inv ins e ssts cmds results -> io_inv ins' e' ssts cmds results.
Proof.
  intros Hsub Hsame [Hc Hr Ho Hon Hi Him]. destruct e, e', Hsame as (Ef & Em & Ec & En). cbn in *. subst. constructor; try done.
  eapply Forall_impl; [exact Hr|]. intros r Hok. apply (res_ok_ins ins ins') in Hok; [exact Hok|done].
Qed.

Lemma sst_inv_frame ins e e' ssts :
  same_tables e e' -> (forall r, r ∈ in_memory e -> r ∈ in_memory e') -> sst_inv ins e ssts -> sst_inv ins e' ssts.
Proof.
  intros Hsame Hm [Hs Ht Hr]. destruct e, e', Hsame as (Ef & Em & Ec & En). cbn in *. subst. constructor; try done.
  intros r Hin. destruct (Hr r Hin); [left; by apply Hm|by right].
Qed.
End frame.

(** ** Inserting *)

Section inserting.
Context `{SstCodec}.
Implicit Types (e : Engine (list byte)) (b : Backend).

Lemma wal_write_one_vec r (w : BufWriter (list byte)) :
  bw_ok w -> exists w', wal_write_one r w = (w', Ok tt) /\ bw_total w' = bw_total w ++ wal_wire r /\ bw_ok w'.
Proof.
  intros Hok. unfold wal_write_one. destruct (bufwriter_write_all_vec (le_bytes 8 (core_record_len r)) w) as [w1 E1].
  destruct (bufwriter_write_all_vec r w1) as [w2 E2]. exists w2.
  assert (wal_write_one r w = (w2, Ok tt)) as E by (unfold wal_write_one; by rewrite st_bind_unfold, E1).
  split; [exact E|]. by apply wal_write_one_ok.
Qed.

(** the engine after a record has been written to the log and the memtable *)
Definition after_insert r e e' : Prop :=
  same_tables e e' /\ e_seq_counter e' = e_seq_counter e + 1 /\ core_mt_ok (e_memtable e') /\
  cmt_bset (e_memtable e') ≡ₚ r :: cmt_bset (e_memtable e) /\
  bw_ok (e_wal e') /\ bw_total (e_wal e') = bw_total (e_wal e) ++ wal_wire r.

Lemma engine_insert_ok ins e i :
  mem_inv ins e -> bw_ok (e_wal e) -> insert_ok i -> e_seq_counter e + 1 <= u64_max ->
  let r := from_raw_parts (ins_source_id i) (ins_ts i) (e_seq_counter e) (ins_key i) (ins_value i) in
  exists e' full, insert_record (ins_source_id i) (ins_ts i) (ins_key i) (ins_value i) e = (e', Ok full) /\
    after_insert r e e'.
Proof.
  intros Hm Hbw Hi Hroom r. destruct (mi_counters _ _ Hm) as [Hc _].
  destruct (record_built i (e_seq_counter e) Hi Hc) as [[Hx _] Hseq]. fold r in Hx, Hseq.
  destruct (wal_write_one_vec r (e_wal e) Hbw) as (w & Ew & Ht & Hw).
  pose proof (Forall_inv (mi_mem _ _ Hm)) as Hmt. pose proof (core_memtable_insert_ok r (e_memtable e) Hx Hmt) as Hins.
  unfold insert_record. fold r. rewrite st_bind_unfold. unfold on_wal. rewrite Ew, st_bind_unfold. unfold on_memtable.
  cbn [e_memtable e_with_wal]. destruct (core_memtable_insert r (e_memtable e)) as [m o]. destruct Hins as (-> & Hm' & _ & Hb).
  eexists _, _. split; [reflexivity|]. unfold after_insert, same_tables. cbn. split_and!; try done.
  - unfold wrap64, u64_max in *. apply Z.mod_small. lia.
  - rewrite Hb. apply bset_insert_fresh, core_fresh. rewrite list_elem_of_fmap. intros (q & E%sort_key_seq & Hq).
    assert (q ∈ ins) as Hqi by (apply (mi_mem_ins _ _ Hm); unfold in_memory; cbn [map concat]; apply elem_of_app; by left).
    pose proof (proj1 (Forall_forall _ _) (mi_seq _ _ Hm) q Hqi). cbn in *. lia.
Qed.

Lemma insert_mem_inv ins e e' i :
  let r := from_raw_parts (ins_source_id i) (ins_ts i) (e_seq_counter e) (ins_key i) (ins_value i) in
  mem_inv ins e -> insert_ok i -> e_seq_counter e + 1 <= u64_max -> after_insert r e e' ->
  in_memory e' ≡ₚ r :: in_memory e /\ mem_inv (ins ++ [r]) e'.
Proof.
  intros r Hm Hi Hroom (Hsame & Hn & Hmt & Hp & _). destruct Hm as [Hok Hs Hnd [Hc Hc2] Hmem Hmnd Hmi Hf Hfi].
  destruct (record_built i (e_seq_counter e) Hi Hc) as [Hr Hseq]. fold r in Hr, Hseq.
  destruct Hsame as (Ef & _ & _ & En).
  assert (in_memory e' ≡ₚ r :: in_memory e) as Hp'.
  { unfold in_memory. rewrite Ef. cbn [map concat]. by rewrite Hp. }
  assert (r ∉ ins) as Hnew.
  { intros Hin. pose proof (proj1 (Forall_forall _ _) Hs r Hin). cbn in *. lia. }
  split; [done|]. constructor; rewrite ?Ef, ?En, ?Hn, ?Hp'; try done.
  - apply Forall_app_2; [done|by apply Forall_singleton].
  - apply Forall_app_2; [eapply Forall_impl; [exact Hs|]; cbn; lia|apply Forall_singleton; lia].
  - rewrite fmap_app. change (rec_seq <$> [r]) with [rec_seq r]. apply NoDup_app. split_and!; [done| |apply NoDup_singleton]. intros z (q & -> & Hq)%list_elem_of_fmap.
    rewrite list_elem_of_singleton, Hseq. pose proof (proj1 (Forall_forall _ _) Hs q Hq). cbn in *. lia.
  - lia.
  - constructor; [done|]. by inversion Hmem.
  - constructor; [|done]. intros Hin. by apply Hnew, Hmi.
  - intros q. rewrite Hp', elem_of_cons, elem_of_app, list_elem_of_singleton. intros [->|Hq]; [by right|left; by apply Hmi].
Qed.

Lemma log_has_app b ins r :
  mem_inv ins (b_engine b) -> log_inv ins b -> rec_ok r ->
  exists rs, bw_total (e_wal (b_engine b)) ++ wal_wire r = wal_wires (rs ++ [r]) /\
    (forall q, q ∈ rs -> q ∈ ins) /\ recover_file (bw_total (e_wal (b_engine b))) = Ok rs /\
    recover_file (wal_wires (rs ++ [r])) = Ok (rs ++ [r]).
Proof.
  intros Hm Hl Hr. destruct (li_active _ _ Hl) as (rs & E & Hsub). pose proof (Forall_sub _ _ _ Hsub (mi_ok _ _ Hm)) as Hok.
  exists rs. rewrite E. split_and!; [|done|by apply recover_ok|apply recover_ok, Forall_app_2; [done|by apply Forall_singleton]].
  unfold wal_wires. rewrite map_app, concat_app. cbn. by rewrite app_nil_r.
Qed.

Lemma insert_log_inv ins b e' r :
  mem_inv ins (b_engine b) -> log_inv ins b -> rec_ok r -> after_insert r (b_engine b) e' ->
  log_inv (ins ++ [r]) (b_with_engine b e').
Proof.
  intros Hm Hl Hr Ha. destruct (log_has_app b ins r Hm Hl Hr) as (rs & E & Hsub & Hold & Hnew).
  destruct Ha as ((Ef & Et & _ & En) & _ & _ & _ & Hbw & Htot). rewrite E in Htot.
  assert (forall q, q ∈ ins -> q ∈ ins ++ [r]) as Hins by (intros q Hq; apply elem_of_app; by left).
  destruct Hl as [_ _ Hlogs Hdur Happ Hnext Hst].
  constructor; cbn [b_engine b_with_engine d_wals d_ssts b_applied_flushes b_next_wal_to_del b_stale_wals]; rewrite ?En, ?Ef; try done.
  - exists (rs ++ [r]). split; [done|]. intros q. rewrite !elem_of_app. intros [Hq|?]; [left; by apply Hsub|by right].
  - intros id f Hf. destruct (Hlogs id f Hf) as (Hid & l & Hlw & Hli & Hset). split; [done|]. exists l. split_and!; [done|eauto|].
    intros q Hq. eapply settled_mono; [| | |exact (Hset q Hq)]; [lia| |].
    + intros j m Hj _ _. left. by rewrite Ef.
    + apply in_tables_mono. by rewrite Et.
  - intros q Hq. unfold durable. cbn [b_engine b_with_engine d_wals d_ssts]. rewrite Htot.
    apply elem_of_app in Hq as [Hq| ->%list_elem_of_singleton].
    + destruct (Hdur q Hq) as [(l & El & Hlq)|[?|?]]; [left|by right; left|right; right].
      * exists (rs ++ [r]). split; [done|]. apply elem_of_app. left. congruence.
      * eapply in_tables_mono; [|done]. by rewrite Et.
    + left. exists (rs ++ [r]). split; [done|]. apply elem_of_app. right. by apply list_elem_of_singleton.
Qed.

Lemma insert_sys_inv ins b jobs results i :
  sys_inv ins (Build_Sys _ b jobs results) -> insert_ok i -> e_seq_counter (b_engine b) + 1 <= u64_max ->
  let r := from_raw_parts (ins_source_id i) (ins_ts i) (e_seq_counter (b_engine b)) (ins_key i) (ins_value i) in
  exists e' full, insert_record (ins_source_id i) (ins_ts i) (ins_key i) (ins_value i) (b_engine b) = (e', Ok full) /\
    sys_inv (ins ++ [r]) (Build_Sys _ (b_with_engine b e') jobs results) /\
    e_seq_counter e' = e_seq_counter (b_engine b) + 1 /\ e_sst_counter e' = e_sst_counter (b_engine b).
Proof.
  intros [Hm Hs Hl Hio] Hi Hroom r. cbn in Hm, Hs, Hl, Hio.
  destruct (engine_insert_ok ins (b_engine b) i Hm (li_bw _ _ Hl) Hi Hroom) as (e' & full & E & Ha). fold r in Ha.
  destruct (insert_mem_inv ins (b_engine b) e' i Hm Hi Hroom Ha) as [Hp Hm']. fold r in Hp, Hm'.
  destruct (record_built i (e_seq_counter (b_engine b)) Hi (proj1 (mi_counters _ _ Hm))) as [Hr _].
  assert (forall q, q ∈ ins -> q ∈ ins ++ [r]) as Hins by (intros q Hq; apply elem_of_app; by left).
  exists e', full. split_and!; [done| |apply Ha|apply Ha]. constructor; cbn; [done| | |].
  - destruct Ha as [Hsame _]. pose proof Hsame as (Ef & Et & _ & En). destruct Hs as [Hso Ht Hrd].
    constructor; rewrite ?Et, ?En; [done| |].
    + intros id meta Hid. destruct (Ht id meta Hid) as (? & ? & file & rs & ? & ? & ?). split_and!; [lia..|done|].
      exists file, rs. eauto.
    + intros q [Hq| ->%list_elem_of_singleton]%elem_of_app; [|left; rewrite Hp; by left].
      destruct (Hrd q Hq); [left; rewrite Hp; by right|right]. eapply in_tables_mono; [|done]. by rewrite Et.
  - by apply (insert_log_inv ins b e' r).
  - eapply io_inv_frame; [exact Hins| |exact Hio]. apply Ha.
Qed.

Lemma insert_each_inv inserts : forall ins b jobs results,
  sys_inv ins (Build_Sys _ b jobs results) -> Forall insert_ok inserts ->
  e_seq_counter (b_engine b) + blen inserts <= u64_max ->
  exists e' flags, insert_each inserts (b_engine b) = (e', Ok flags) /\
    sys_inv (ins ++ (batch_records inserts (e_seq_counter (b_engine b))).1) (Build_Sys _ (b_with_engine b e') jobs results) /\
    e_seq_counter e' = e_seq_counter (b_engine b) + blen inserts /\
    (batch_records inserts (e_seq_counter (b_engine b))).2 = e_seq_counter e' /\
    e_sst_counter e' = e_sst_counter (b_engine b).
Proof.
  induction inserts as [|i inserts IH]; intros ins b jobs results Hinv Hok Hroom; cbn [insert_each batch_records].
  - exists (b_engine b), []. rewrite app_nil_r. destruct b as [e ? ? ? ? ? ? ? ?]. cbn. split_and!; [done|done|zlia|done..].
  - apply Forall_cons in Hok as [Hi Hok]. rewrite blen_cons in *. pose proof (blen_nonneg inserts).
    destruct (insert_sys_inv ins b jobs results i Hinv Hi ltac:(lia)) as (e1 & full & E1 & Hinv1 & Hn1 & Hs1).
    rewrite st_bind_unfold, E1.
    destruct (IH _ (b_with_engine b e1) jobs results Hinv1 Hok ltac:(cbn; lia)) as (e2 & flags & E2 & Hinv2 & Hn2 & Hb2 & Hs2).
    cbn [b_engine b_with_engine] in *. exists e2, (full :: flags). rewrite st_bind_unfold, E2.
    destruct (mi_counters _ _ (inv_mem _ _ Hinv)) as [Hc _]. cbn in Hc.
    assert (wrap64 (e_seq_counter (b_engine b) + 1) = e_seq_counter e1) as ->.
    { rewrite Hn1. unfold wrap64, u64_max in *. apply Z.mod_small. lia. }
    destruct (batch_records inserts (e_seq_counter e1)) as [recs seq]. cbn [fst snd] in *.
    split_and!; [done| |lia|done|lia]. by rewrite <- app_assoc in Hinv2.
Qed.

Lemma batch_records_app l k n :
  (batch_records (l ++ k) n).1 = (batch_records l n).1 ++ (batch_records k (batch_records l n).2).1.
Proof.
  revert n. induction l as [|i l IH]; intros n; cbn [batch_records app]; [done|]. specialize (IH (wrap64 (n + 1))).
  destruct (batch_records (l ++ k) _) as [? ?]. destruct (batch_records l _) as [? ?]. cbn in *. by rewrite IH.
Qed.

Lemma handle_commands_inv cmds : forall flag ins b jobs results,
  sys_inv ins (Build_Sys _ b jobs results) -> Forall insert_ok (cmds_inserts cmds) ->
  e_seq_counter (b_engine b) + blen (cmds_inserts cmds) <= u64_max ->
  exists b' flag', handle_commands cmds flag b = (b', Ok flag') /\
    sys_inv (ins ++ turn_records cmds b) (Build_Sys _ b' jobs results) /\
    e_sst_counter (b_engine b') = e_sst_counter (b_engine b).
Proof.
  unfold turn_records. induction cmds as [|c cmds IH]; intros flag ins b jobs results Hinv Hok Hroom.
  { exists b, flag. cbn. by rewrite app_nil_r. }
  assert (forall l e' full, Forall insert_ok l -> Forall insert_ok (cmds_inserts cmds) ->
    e_seq_counter (b_engine b) + blen (l ++ cmds_inserts cmds) <= u64_max ->
    sys_inv (ins ++ (batch_records l (e_seq_counter (b_engine b))).1) (Build_Sys _ (b_with_engine b e') jobs results) ->
    e_seq_counter e' = e_seq_counter (b_engine b) + blen l ->
    (batch_records l (e_seq_counter (b_engine b))).2 = e_seq_counter e' ->
    e_sst_counter e' = e_sst_counter (b_engine b) ->
    exists b' flag', handle_commands cmds full (b_with_engine b e') = (b', Ok flag') /\
      sys_inv (ins ++ (batch_records (l ++ cmds_inserts cmds) (e_seq_counter (b_engine b))).1) (Build_Sys _ b' jobs results) /\
      e_sst_counter (b_engine b') = e_sst_counter (b_engine b)) as Hcont.
  { intros l e' full Hl Hrest Hroom' Hinv' Hn Hb Hs. rewrite blen_app in Hroom'.
    destruct (IH full _ (b_with_engine b e') jobs results Hinv' Hrest) as (b' & flag' & E & Hi & Hs'); [cbn; lia|].
    exists b', flag'. split_and!; [done| |cbn in Hs'; lia].
    rewrite batch_records_app, Hb, app_assoc. exact Hi. }
  destruct c as [i|l|rq|]; cbn [handle_commands cmds_inserts] in *.
  - apply Forall_cons in Hok as [Hi Hok]. change (i :: cmds_inserts cmds) with ([i] ++ cmds_inserts cmds) in *.
    pose proof Hroom as Hroom'. rewrite blen_app in Hroom'. pose proof (blen_nonneg (cmds_inserts cmds)).
    destruct (insert_each_inv [i] ins b jobs results Hinv) as (e' & flags & E & Hinv' & Hn & Hb & Hs);
      [by apply Forall_singleton|lia|].
    cbn [insert_each] in E. rewrite st_bind_unfold in E. rewrite st_bind_unfold. unfold handle_insert, on_engine.
    destruct (insert_record _ _ _ _ (b_engine b)) as [e1 [full|err|]]; [|done..]. injection E as -> _.
    apply Hcont; try done. by apply Forall_singleton.
  - apply Forall_app in Hok as [Hl Hok]. pose proof Hroom as Hroom'. rewrite blen_app in Hroom'.
    pose proof (blen_nonneg (cmds_inserts cmds)).
    destruct (insert_each_inv l ins b jobs results Hinv Hl ltac:(lia)) as (e' & flags & E & Hinv' & Hn & Hb & Hs).
    rewrite st_bind_unfold. unfold handle_batch_insert, on_engine.
    rewrite (proj2 (batch_insert_each l (b_engine b) e' (existsb id flags))) by eauto. by apply Hcont.
  - by apply IH.
  - by apply IH.
Qed.
End inserting.

(** ** The queue of commands *)

Lemma concat_fmap_perm {A B} (f : A -> list B) l k : l ≡ₚ k -> concat (f <$> l) ≡ₚ concat (f <$> k).
Proof.
  induction 1 as [|x l k _ IH|x y l|l k j _ IH1 _ IH2]; cbn; [done|by rewrite IH| |by rewrite IH1].
  by rewrite !app_assoc, (Permutation_app_comm (f y)).
Qed.

Section queue.
Context `{SstCodec}.
Implicit Types (e : Engine (list byte)) (ssts : Directory) (b : Backend).

Lemma out_ids_perm cmds cmds' results : cmds ≡ₚ cmds' -> out_ids cmds results ≡ₚ out_ids cmds' results.
Proof. intros Hp. unfold out_ids. by rewrite (concat_fmap_perm _ _ _ Hp). Qed.
Lemma in_ids_perm cmds cmds' results : cmds ≡ₚ cmds' -> in_ids cmds results ≡ₚ in_ids cmds' results.
Proof. intros Hp. unfold in_ids. by rewrite (concat_fmap_perm _ _ _ Hp). Qed.
Lemma out_ids_cons c cmds results : out_ids (c :: cmds) results = cmd_out c ++ out_ids cmds results.
Proof. unfold out_ids. cbn. by rewrite <- app_assoc. Qed.
Lemma in_ids_cons c cmds results : in_ids (c :: cmds) results = cmd_in c ++ in_ids cmds results.
Proof. unfold in_ids. cbn. by rewrite <- app_assoc. Qed.

Lemma io_inv_perm ins e ssts cmds cmds' results :
  cmds ≡ₚ cmds' -> io_inv ins e ssts cmds results -> io_inv ins e ssts cmds' results.
Proof.
  intros Hp [Hc Hr Ho Hon Hi Him]. constructor; try done.
  - by rewrite <- Hp.
  - by rewrite <- (out_ids_perm _ _ _ Hp).
  - intros id. rewrite <- (out_ids_perm _ _ _ Hp). apply Hon.
  - by rewrite <- (in_ids_perm _ _ _ Hp).
  - intros id. rewrite <- (in_ids_perm _ _ _ Hp). apply Him.
Qed.

Lemma io_inv_cons ins e ssts c cmds results :
  io_inv ins e ssts (c :: cmds) results <->
  io_inv ins e ssts cmds results /\ cmd_ok e c /\
  NoDup (cmd_out c) /\ (forall id, id ∈ cmd_out c ->
    (id ∉ out_ids cmds results) /\ 1 <= id < e_sst_counter e /\ bmap_get id (e_sstable_map e) = None) /\
  NoDup (cmd_in c) /\ (forall id, id ∈ cmd_in c ->
    (id ∉ in_ids cmds results) /\ id ∈ e_compacting e /\ is_Some (bmap_get id (e_sstable_map e))).
Proof.
  split.
  - intros [Hc Hr Ho Hon Hi Him]. rewrite out_ids_cons in Ho, Hon. rewrite in_ids_cons in Hi, Him.
    apply Forall_cons in Hc as [Hc Hcs]. apply NoDup_app in Ho as (Ho1 & Hod & Ho2), Hi as (Hi1 & Hid & Hi2).
    split_and!; try done; [constructor; try done| |].
    + intros id Hin. apply Hon, elem_of_app. by right.
    + intros id Hin. apply Him, elem_of_app. by right.
    + intros id Hin. split; [by apply Hod|]. apply Hon, elem_of_app. by left.
    + intros id Hin. split; [by apply Hid|]. apply Him, elem_of_app. by left.
  - intros ([Hc Hr Ho Hon Hi Him] & Hok & Hno & Hout & Hni & Hin). constructor.
    + by constructor.
    + done.
    + rewrite out_ids_cons. apply NoDup_app. split_and!; [done|apply Hout|done].
    + intros id. rewrite out_ids_cons, elem_of_app. intros [Hid|Hid]; [by apply Hout|by apply Hon].
    + rewrite in_ids_cons. apply NoDup_app. split_and!; [done|apply Hin|done].
    + intros id. rewrite in_ids_cons, elem_of_app. intros [Hid|Hid]; [by apply Hin|by apply Him].
Qed.

(** a command that is sent, when the worker is there *)
Lemma io_send_inv ins b jobs results c :
  sys_inv ins (Build_Sys _ b jobs results) ->
  io_inv ins (b_engine b) (d_ssts b) (c :: io_cmds b ++ jobs) results ->
  sys_inv ins (Build_Sys _ (io_send c b).1 jobs results).
Proof.
  intros [Hm Hs Hl Hio] Hc. cbn in *. unfold io_send. destruct (io_alive b); [|by constructor].
  constructor; cbn; [done|done| |].
  - by destruct Hl; constructor.
  - eapply io_inv_perm; [|exact Hc]. rewrite <- app_assoc. apply Permutation_middle.
Qed.

Lemma io_send_engine c b : b_engine (io_send c b).1 = b_engine b.
Proof. unfold io_send. by destruct (io_alive b). Qed.
Lemma io_send_out c b jobs results id :
  id ∉ cmd_out c -> id ∉ out_ids (io_cmds b ++ jobs) results -> id ∉ out_ids (io_cmds (io_send c b).1 ++ jobs) results.
Proof.
  intros Hc Hb. unfold io_send. destruct (io_alive b); [|done]. cbn [fst io_cmds b_with_cmds]. rewrite <- app_assoc.
  rewrite (out_ids_perm _ (c :: io_cmds b ++ jobs)) by (symmetry; apply Permutation_middle).
  rewrite out_ids_cons, not_elem_of_app. done.
Qed.
End queue.

(** ** Flushing the memtable *)

Section flushing.
Context `{SstCodec}.
Implicit Types (e : Engine (list byte)) (ssts : Directory) (b : Backend).

(** the buffer of the log reaches its file *)
Definition synced e : Engine (list byte) := e_with_wal e (bufwriter_new (bw_total (e_wal e))).

Lemma flush_wal_buffer_vec e : flush_wal_buffer e = (synced e, Ok tt).
Proof. reflexivity. Qed.

Lemma synced_inv ins b jobs results :
  sys_inv ins (Build_Sys _ b jobs results) -> sys_inv ins (Build_Sys _ (b_with_engine b (synced (b_engine b))) jobs results).
Proof.
  assert (bw_total (e_wal (synced (b_engine b))) = bw_total (e_wal (b_engine b))) as Ht by (cbn; apply app_nil_r).
  intros [[] [] Hl []]. constructor; cbn; [by constructor|by constructor| |by constructor].
  destruct Hl as [_ Ha Hlogs Hd]. constructor; try done.
  - cbn [b_engine b_with_engine]. by rewrite Ht.
  - intros r Hr. unfold durable. cbn [b_engine b_with_engine d_wals d_ssts]. rewrite Ht. by apply Hd.
Qed.

Lemma prepare_flush_memory ins e :
  mem_inv ins e ->
  e_frozen_memtables (prepare_flush e).1 = e_frozen_memtables e ++ [(e_sst_counter e, e_memtable e)] /\
  in_memory (prepare_flush e).1 ≡ₚ in_memory e.
Proof.
  intros Hm. unfold prepare_flush. cbn.
  assert (bmap_insert (e_sst_counter e) (e_memtable e) (e_frozen_memtables e)
          = e_frozen_memtables e ++ [(e_sst_counter e, e_memtable e)]) as E.
  { apply bmap_insert_last, Forall_forall. intros [j m] Hj. apply (bmap_get_elem _ _ _ (mi_frozen _ _ Hm)) in Hj.
    apply (mi_frozen_ids _ _ Hm) in Hj. cbn. apply Z.compare_lt_iff. lia. }
  unfold in_memory. cbn. set (m := Build_MemTable _ _ _). replace m with (e_memtable e) by (by destruct (e_memtable e)).
  rewrite E. split; [done|]. rewrite fmap_app, map_app, concat_app. cbn.
  by rewrite app_nil_r, Permutation_app_comm.
Qed.

(** the frozen memtables only grow, by the next number *)
Lemma prepare_frozen e j :
  j < e_sst_counter e ->
  bmap_get j (e_frozen_memtables (prepare_flush e).1) = bmap_get j (e_frozen_memtables e).
Proof. intros Hj. cbn. apply bmap_get_insert_ne. lia. Qed.

Lemma prepare_mem_inv ins e : mem_inv ins e -> e_sst_counter e + 1 <= u64_max ->
  mem_inv ins (prepare_flush e).1 /\ e_sst_counter (prepare_flush e).1 = e_sst_counter e + 1.
Proof.
  intros Hm Hroom. destruct (prepare_flush_memory ins e Hm) as [Ef Hp].
  destruct Hm as [Hok Hs Hnd [Hc Hc2] Hmem Hmnd Hmi Hf Hfi].
  assert (e_sst_counter (prepare_flush e).1 = e_sst_counter e + 1) as En.
  { cbn. unfold wrap64, u64_max in *. apply Z.mod_small. lia. }
  split; [|done]. constructor; rewrite ?En, ?Hp; try done.
  - cbn. lia.
  - rewrite Ef, fmap_app. constructor; [split; [constructor|done]|]. inversion Hmem as [|? ? Hm0 Hms]; subst.
    apply Forall_app_2; [done|by apply Forall_singleton].
  - intros r. rewrite Hp. apply Hmi.
  - cbn. by apply bmap_insert_sorted.
  - intros j m. cbn. destruct (decide (e_sst_counter e = j)) as [<-|Hne]; [lia|].
    rewrite bmap_get_insert_ne by done. intros Hj%Hfi. lia.
Qed.

Lemma prepare_inv ins b jobs results :
  sys_inv ins (Build_Sys _ b jobs results) -> e_sst_counter (b_engine b) + 1 <= u64_max ->
  sys_inv ins (Build_Sys _ (b_with_engine b (prepare_flush (b_engine b)).1) jobs results).
Proof.
  intros [Hm Hs Hl Hio] Hroom. cbn in Hm, Hs, Hl, Hio. set (e := b_engine b) in *.
  destruct (prepare_mem_inv ins e Hm Hroom) as [Hm' En]. destruct (prepare_flush_memory ins e Hm) as [_ Hp].
  set (e' := (prepare_flush e).1) in *. assert (e_sstable_map e' = e_sstable_map e) as Et by done.
  assert (e_compacting e' = e_compacting e) as Ec by done. assert (e_wal e' = e_wal e) as Ew by done.
  assert (forall j, j < e_sst_counter e -> bmap_get j (e_frozen_memtables e') = bmap_get j (e_frozen_memtables e)) as Ef.
  { intros j Hj. by apply prepare_frozen. }
  assert (forall r, in_tables e (d_ssts b) r -> in_tables e' (d_ssts b) r) as Hin.
  { intros r. apply in_tables_mono. by rewrite Et. }
  clearbody e'. constructor; cbn [s_backend s_jobs s_results b_engine b_with_engine d_ssts io_cmds]; [done| | |].
  - destruct Hs as [Hso Ht Hrd]. constructor; rewrite ?Et, ?En; [done| |].
    + intros id meta Hid. destruct (Ht id meta Hid) as (? & ? & ?). split_and!; [lia..|done|done].
    + intros r Hr. destruct (Hrd r Hr); [left; by rewrite Hp|right; by apply Hin].
  - destruct Hl as [Hbw Ha Hlogs Hd Happ Hn Hst].
    constructor; cbn [b_engine b_with_engine d_wals d_ssts b_applied_flushes b_next_wal_to_del b_stale_wals]; rewrite ?Ew, ?En; try done.
    + intros id f Hf. destruct (Hlogs id f Hf) as (Hid & rs & Hrs & Hi & Hset). fold e in Hid. split; [lia|]. exists rs. split_and!; try done.
      intros r Hr. eapply settled_mono; [|  |apply Hin|exact (Hset r Hr)]; [lia|]. intros j m Hj Hjle _. left. rewrite Ef; [done|lia].
    + intros r Hr. unfold durable. cbn [b_engine b_with_engine d_wals d_ssts]. rewrite Ew.
      destruct (Hd r Hr) as [?|[?|?]]; [by left|by right; left|right; right; by apply Hin].
    + intros j Hj. destruct (Happ j Hj) as [Hj1 Hj2]. fold e in Hj1, Hj2. rewrite Ef by lia. split; [lia|done].
  - destruct Hio as [Hc Hr Ho Hon Hi Him]. constructor; rewrite ?Et, ?Ec, ?En; try done.
    + rewrite Forall_forall in Hc |- *. intros c Hcin. specialize (Hc c Hcin).
      assert (forall id, id ∈ cmd_out c -> id < e_sst_counter e) as Hlt.
      { intros id Hid. apply Hon. unfold out_ids. apply elem_of_app. left. apply list_elem_of_In, in_concat.
        exists (cmd_out c). split; [by apply list_elem_of_In, list_elem_of_fmap_2|by apply list_elem_of_In]. }
      destruct c as [|m id|tables id]; cbn in *; rewrite ?Et, ?Ef; try done; apply Hlt, list_elem_of_singleton; done.
    + rewrite Forall_forall in Hr |- *. intros r Hrin. specialize (Hr r Hrin).
      assert (res_out r < e_sst_counter e) as Hlt.
      { apply Hon. unfold out_ids. apply elem_of_app. right. by apply list_elem_of_fmap_2. }
      destruct r as [meta|meta ids]; cbn in *; rewrite Ef by done; [done|].
      destruct Hr as (file & rs & ? & ? & ? & ? & Hcov). exists file, rs. split_and!; try done.
      intros id r Hid (meta' & file' & rs' & Hg & ? & ? & ? & ?). apply (Hcov id r Hid). rewrite Et in Hg. by exists meta', file', rs'.
    + intros id Hid. destruct (Hon id Hid). split; [lia|done].
Qed.

(** the log of the frozen memtable under its new name, and an empty one *)
Definition rotated (id : Z) b : Backend :=
  b_with_wals (b_with_engine b (e_with_wal (b_engine b) (bufwriter_new [])))
    (bmap_insert id id (b_stale_wals b)) (<[id := bw_total (e_wal (b_engine b))]> (d_wals b)).

Lemma rotated_inv ins id b jobs results :
  sys_inv ins (Build_Sys _ b jobs results) -> 1 <= id < e_sst_counter (b_engine b) -> d_wals b !! id = None ->
  cmt_bset (e_memtable (b_engine b)) = [] ->
  (forall j m, bmap_get j (e_frozen_memtables (b_engine b)) = Some m -> j <= id) ->
  sys_inv ins (Build_Sys _ (rotated id b) jobs results).
Proof.
  intros [Hm Hs Hl Hio] Hid Hnone Hempty Hfro. cbn in Hm, Hs, Hl, Hio. constructor; cbn.
  - by destruct Hm.
  - by destruct Hs.
  - destruct Hl as [Hbw (A & EA & HA) Hlogs Hd Happ Hn Hst].
    pose proof (recover_ok A (Forall_sub _ _ _ HA (mi_ok _ _ Hm))) as HrA.
    constructor; cbn; try done.
    + exists []. split; [done|]. by intros ? ?%not_elem_of_nil.
    + intros i f. rewrite lookup_insert_Some. intros [[<- <-]|[Hne Hf]]; [|by apply Hlogs]. split; [done|].
      exists A. split_and!; [done|done|]. intros r Hr. destruct (si_read _ _ _ Hs r (HA r Hr)) as [Hmem|?]; [|by right].
      apply (in_memory_elem _ _ (mi_frozen _ _ Hm)) in Hmem as [Hmem|(j & m & Hj & Hrm)].
      { rewrite Hempty in Hmem. by apply not_elem_of_nil in Hmem. }
      left. exists j, m. split_and!; [done|by eapply Hfro|done].
    + intros r Hr. destruct (Hd r Hr) as [Hact|[(i & f & Hf & Hrf)|?]]; right; [left|left|by right].
      * exists id, (bw_total (e_wal (b_engine b))). split; [apply lookup_insert_eq|done].
      * exists i, f. split; [|done]. cbn. rewrite lookup_insert_ne; [done|]. intros ->. by rewrite Hnone in Hf.
    + intros i w. destruct (decide (id = i)) as [<-|Hne]; [rewrite bmap_get_insert; by intros [= <-]|].
      rewrite bmap_get_insert_ne by done. apply Hst.
  - destruct Hio. by constructor.
Qed.

Lemma memtable_full_frozen ins e : mem_inv ins e -> e_sst_counter e + 1 <= u64_max ->
  forall j m, bmap_get j (e_frozen_memtables (prepare_flush e).1) = Some m -> j <= e_sst_counter e.
Proof. intros Hm Hr j m Hj. destruct (prepare_mem_inv ins e Hm Hr) as [Hm' En]. apply (mi_frozen_ids _ _ Hm') in Hj. lia. Qed.

(** the two commands of a flush *)
Lemma send_flush_cmds_inv ins b jobs results m id :
  sys_inv ins (Build_Sys _ b jobs results) -> bmap_get id (e_frozen_memtables (b_engine b)) = Some m ->
  1 <= id < e_sst_counter (b_engine b) -> bmap_get id (e_sstable_map (b_engine b)) = None ->
  id ∉ out_ids (io_cmds b ++ jobs) results ->
  sys_inv ins (Build_Sys _ (io_send (FlushMemtable m id) (io_send ResyncWal b).1).1 jobs results).
Proof.
  intros Hinv Hm Hid Hmap Hnew.
  assert (sys_inv ins (Build_Sys _ (io_send ResyncWal b).1 jobs results)) as Hsync.
  { apply io_send_inv; [done|]. apply io_inv_cons. split_and!; [by apply (inv_io _ _ Hinv)|done|constructor| |constructor|];
      by intros ? ?%not_elem_of_nil. }
  apply io_send_inv; [done|]. apply io_inv_cons. rewrite !io_send_engine.
  split_and!; [| |by apply NoDup_singleton| |constructor|by intros ? ?%not_elem_of_nil].
  - pose proof (inv_io _ _ Hsync) as Hio. cbn [s_backend s_jobs s_results] in Hio. by rewrite io_send_engine in Hio.
  - done.
  - intros i ->%list_elem_of_singleton. split_and!; [|lia..|done]. apply io_send_out; [apply not_elem_of_nil|done].
Qed.

Lemma send_flush_inv ins b jobs results rename_ok :
  sys_inv ins (Build_Sys _ b jobs results) -> e_sst_counter (b_engine b) + 1 <= u64_max ->
  exists b' o, send_flush_cmd rename_ok b = (b', o) /\ o <> Panic /\ sys_inv ins (Build_Sys _ b' jobs results).
Proof.
  intros Hinv Hroom. unfold send_flush_cmd. destruct (is_memtable_empty (b_engine b)); [by exists b, (Ok tt)|].
  pose proof (prepare_inv ins b jobs results Hinv Hroom) as Hp. set (id := e_sst_counter (b_engine b)) in *.
  destruct (prepare_flush (b_engine b)) as [e' [m id']] eqn:Ep. cbn [fst] in Hp.
  assert (e' = (prepare_flush (b_engine b)).1 /\ m = e_memtable (b_engine b) /\ id' = id) as (He' & -> & ->).
  { rewrite Ep. unfold prepare_flush in Ep. cbn in Ep. injection Ep as _ <- <-. split_and!; [done| |done]. by destruct (e_memtable _). }
  destruct (prepare_mem_inv ins (b_engine b) (inv_mem _ _ Hinv) Hroom) as [Hm' En].
  pose proof (memtable_full_frozen ins (b_engine b) (inv_mem _ _ Hinv) Hroom) as Hfro. rewrite <- He' in Hm', En, Hfro.
  unfold rotate_wal, on_engine. cbn [b_engine b_with_engine]. rewrite flush_wal_buffer_vec. destruct rename_ok; cbn [negb].
  2:{ eexists _, _. split; [reflexivity|]. split; [done|]. by apply (synced_inv ins (b_with_engine b e')). }
  destruct (mi_counters _ _ (inv_mem _ _ Hinv)) as [_ Hc]. cbn in Hc. fold id in Hc.
  assert (sys_inv ins (Build_Sys _ (rotated id (b_with_engine b e')) jobs results)) as Hrot.
  { apply rotated_inv; [done|cbn; lia| |by rewrite He'|done]. cbn. destruct (d_wals b !! id) as [f|] eqn:Ef; [|done].
    destruct (li_logs _ _ (inv_log _ _ Hinv) id f Ef) as [Hlt _]. cbn in Hlt. lia. }
  eexists _, _. split; [reflexivity|]. split; [done|].
  set (b2 := b_with_wals (b_with_engine _ _) _ _).
  assert (b2 = rotated id (b_with_engine b e')) as -> by done.
  apply send_flush_cmds_inv; [done| |by cbn; lia| |].
  - cbn. rewrite He'. cbn. rewrite bmap_get_insert. by destruct (e_memtable _).
  - cbn. rewrite He'. cbn. destruct (bmap_get id _) as [meta|] eqn:Eg; [|done].
    destruct (si_tables _ _ _ (inv_sst _ _ Hinv) id meta Eg) as [Hlt _]. cbn in Hlt. lia.
  - intros Hin. destruct (ii_out_new _ _ _ _ _ (inv_io _ _ Hinv) id Hin) as [Hlt _]. cbn in Hlt. lia.
Qed.

End flushing.

Section commands.
Context `{SstCodec}.
Implicit Types (e : Engine (list byte)) (ssts : Directory) (b : Backend).

(** nothing is left in the buffer of the log *)
Definition flushed b : Prop := bw_buf (e_wal (b_engine b)) = [].

Lemma send_flush_flushed rename_ok b : flushed b -> flushed (send_flush_cmd rename_ok b).1.
Proof.
  intros Hb. unfold send_flush_cmd. destruct (is_memtable_empty (b_engine b)); [done|].
  destruct (prepare_flush (b_engine b)) as [e' [m id]]. unfold rotate_wal, on_engine. cbn [b_engine b_with_engine].
  rewrite flush_wal_buffer_vec. destruct rename_ok; cbn [negb fst]; [|done]. unfold flushed. by rewrite !io_send_engine.
Qed.

Lemma turn_commands_inv ins b jobs results rename_ok cmds :
  sys_inv ins (Build_Sys _ b jobs results) -> Forall insert_ok (cmds_inserts cmds) ->
  has_room (blen (cmds_inserts cmds)) b ->
  exists b', turn_commands rename_ok cmds b = (b', Ok tt) /\ flushed b' /\
    sys_inv (ins ++ turn_records cmds b) (Build_Sys _ b' jobs results).
Proof.
  intros Hinv Hok [Hseq Hsst].
  destruct (handle_commands_inv cmds false ins b jobs results Hinv Hok Hseq) as (b1 & flag & E1 & Hinv1 & Hs1).
  unfold turn_commands. rewrite st_bind_unfold, E1, st_bind_unfold. unfold ignore_err, send_wal_sync_cmd, on_engine.
  rewrite flush_wal_buffer_vec. apply synced_inv in Hinv1. set (b2 := b_with_engine b1 _) in *.
  assert (flushed b2) as Hf2 by done. destruct flag; [|by exists b2].
  destruct (send_flush_inv _ b2 jobs results rename_ok Hinv1) as (b3 & o & E3 & Ho & Hinv3); [cbn; lia|].
  pose proof (send_flush_flushed rename_ok b2 Hf2) as Hf3. rewrite E3 in *. exists b3. by destruct o.
Qed.
End commands.

(** ** Applying a flush *)

Lemma concat_filter_sublist {A B} (f : A -> list B) (p : A -> bool) l :
  concat (map f (List.filter p l)) `sublist_of` concat (map f l).
Proof.
  induction l as [|x l IH]; cbn; [done|]. destruct (p x); cbn; [by apply sublist_app|by apply sublist_inserts_l].
Qed.

Section applying.
Context `{SstCodec}.
Implicit Types (e : Engine (list byte)) (ssts : Directory) (b : Backend).

Lemma remove_frozen_memory ins e id :
  mem_inv ins e -> mem_inv ins (remove_frozen_memtable id e).
Proof.
  intros [Hok Hs Hnd Hc Hmem Hmnd Hmi Hf Hfi].
  assert (in_memory (remove_frozen_memtable id e) `sublist_of` in_memory e) as Hsub.
  { assert (forall l : list (Z * MemTable), map cmt_bset l.*2 = map (fun jm => cmt_bset jm.2) l) as Hmap.
    { induction l as [|jm l IH]; cbn; [done|by rewrite IH]. }
    unfold in_memory. cbn. apply sublist_app; [done|]. rewrite !Hmap. apply concat_filter_sublist. }
  constructor; try done.
  - constructor; [by inversion Hmem|]. inversion Hmem as [|? ? _ Hms]; subst. apply Forall_fmap. cbn.
    apply Forall_forall. intros jm [Hjm _]%list_elem_of_In%filter_In. rewrite Forall_fmap, Forall_forall in Hms.
    by apply Hms, list_elem_of_In.
  - by eapply sublist_NoDup.
  - intros r Hr. eapply Hmi, elem_of_submseteq; [exact Hr|by apply sublist_submseteq].
  - by apply bmap_remove_sorted.
  - intros j m. cbn. destruct (decide (id = j)) as [<-|Hne]; [by rewrite bmap_get_remove|].
    rewrite bmap_get_remove_ne by done. apply Hfi.
Qed.

Lemma delete_wals_spec fuel : forall b,
  1 <= b_next_wal_to_del b -> (forall j, j ∈ b_applied_flushes b -> j < u64_max) ->
  (forall id w, bmap_get id (b_stale_wals b) = Some w -> w = id) ->
  let b' := delete_wals fuel b in
  b' = Build_Backend _ (b_engine b) (b_stale_wals b') (b_applied_flushes b) (b_next_wal_to_del b') (b_config b)
         (d_wals b') (d_ssts b) (io_cmds b) (io_alive b) /\
  b_next_wal_to_del b <= b_next_wal_to_del b' /\
  (forall j, b_next_wal_to_del b <= j < b_next_wal_to_del b' ->
     j ∈ b_applied_flushes b /\ wrap64 (j + 1) ∈ b_applied_flushes b) /\
  (forall id w, bmap_get id (b_stale_wals b') = Some w -> w = id) /\
  (forall id, d_wals b' !! id = d_wals b !! id \/
     (d_wals b' !! id = None /\ b_next_wal_to_del b <= id < b_next_wal_to_del b')).
Proof.
  induction fuel as [|fuel IH]; intros b Hn Happ Hst; cbn [delete_wals].
  { destruct b. cbn. split_and!; try done; [lia..|]. by left. }
  destruct (bool_decide (b_next_wal_to_del b ∈ b_applied_flushes b) && _) eqn:E.
  2:{ destruct b. cbn. split_and!; try done; [lia..|]. by left. }
  apply andb_true_iff in E as [E1%bool_decide_eq_true E2%bool_decide_eq_true].
  pose proof (Happ _ E1) as Hlt. set (next := b_next_wal_to_del b) in *.
  assert (wrap64 (next + 1) = next + 1) as Ew by (unfold wrap64, u64_max in *; apply Z.mod_small; lia). rewrite Ew in *.
  set (b1 := match bmap_get next (b_stale_wals b) with Some _ => _ | None => _ end).
  assert (b_engine b1 = b_engine b /\ b_applied_flushes b1 = b_applied_flushes b /\ b_config b1 = b_config b /\
    d_ssts b1 = d_ssts b /\ io_cmds b1 = io_cmds b /\ io_alive b1 = io_alive b /\
    (forall id w, bmap_get id (b_stale_wals b1) = Some w -> w = id) /\
    (forall id, d_wals b1 !! id = d_wals b !! id \/ (d_wals b1 !! id = None /\ id = next))) as (E3 & E4 & E5 & E6 & E7 & E8 & Hst1 & Hw1).
  { unfold b1. destruct (bmap_get next (b_stale_wals b)) as [w|] eqn:Ew1; [|split_and!; try done; by left].
    apply Hst in Ew1 as ->. cbn. split_and!; try done.
    - intros id w. destruct (decide (next = id)) as [->|Hne]; [by rewrite bmap_get_remove|].
      rewrite bmap_get_remove_ne by done. apply Hst.
    - intros id. destruct (decide (next = id)) as [->|Hne]; [right; by rewrite lookup_delete_eq|left; by rewrite lookup_delete_ne]. }
  clearbody b1. specialize (IH (b_with_applied b1 (b_applied_flushes b1) (next + 1))). cbn in IH.
  rewrite E4, E3, E5, E6, E7, E8 in IH. destruct IH as (Hb & Hle & Hj & Hs & Hw); [lia|done|done|].
  rewrite E4. split_and!; [exact Hb|lia| |done|].
  - intros j Hj'. destruct (decide (j = next)) as [->|]; [by rewrite Ew|]. apply Hj. lia.
  - intros id. destruct (Hw id) as [->|[-> ?]]; [|right; split; [done|lia]].
    destruct (Hw1 id) as [->|[-> ->]]; [by left|right; split; [done|lia]].
Qed.

Lemma io_inv_pop ins e ssts cmds r results :
  io_inv ins e ssts cmds (r :: results) ->
  res_ok ins e ssts r /\ io_inv ins e ssts cmds results /\
  (res_out r ∉ out_ids cmds results) /\ 1 <= res_out r < e_sst_counter e /\
  bmap_get (res_out r) (e_sstable_map e) = None /\
  (forall id, id ∈ res_in r -> (id ∉ in_ids cmds results) /\ id ∈ e_compacting e /\ is_Some (bmap_get id (e_sstable_map e))).
Proof.
  intros [Hc Hr Ho Hon Hi Him]. apply Forall_cons in Hr as [Hr Hrs].
  assert (out_ids cmds (r :: results) ≡ₚ res_out r :: out_ids cmds results) as Hpo.
  { unfold out_ids. cbn. by rewrite <- Permutation_middle. }
  assert (in_ids cmds (r :: results) ≡ₚ res_in r ++ in_ids cmds results) as Hpi.
  { unfold in_ids. cbn. rewrite !app_assoc. by rewrite (Permutation_app_comm (res_in r)). }
  rewrite Hpo in Ho. rewrite Hpi in Hi. apply NoDup_cons in Ho as [Hro Ho]. apply NoDup_app in Hi as (_ & Hdis & Hi).
  destruct (Hon (res_out r)) as [[? ?] Hnone]; [rewrite Hpo; by left|].
  split_and!; try done.
  - constructor; try done.
    + intros id Hid. apply Hon. rewrite Hpo. by right.
    + intros id Hid. apply Him. rewrite Hpi. apply elem_of_app. by right.
  - intros id Hid. split; [by apply Hdis|]. apply Him. rewrite Hpi. apply elem_of_app. by left.
Qed.

(** a task and its tables after the table [id] has been added: the tables it
    reads and writes have other numbers *)
Lemma table_has_other e e' ssts ssts' id r :
  bmap_get id (e_sstable_map e') = bmap_get id (e_sstable_map e) -> ssts' !! id = ssts !! id ->
  table_has e' ssts' id r -> table_has e ssts id r.
Proof. intros Eg Ef (meta & file & rs & Hg & Hf & Hr). exists meta, file, rs. by rewrite <- Eg, <- Ef. Qed.

Lemma elem_out_cmd c id cmds results : c ∈ cmds -> id ∈ cmd_out c -> id ∈ out_ids cmds results.
Proof.
  intros Hc Hid. unfold out_ids. apply elem_of_app. left. apply list_elem_of_In, in_concat.
  exists (cmd_out c). split; [by apply list_elem_of_In, list_elem_of_fmap_2|by apply list_elem_of_In].
Qed.
Lemma elem_out_res r cmds results : r ∈ results -> res_out r ∈ out_ids cmds results.
Proof. intros Hr. unfold out_ids. apply elem_of_app. right. by apply list_elem_of_fmap_2. Qed.
Lemma elem_in_cmd c id cmds results : c ∈ cmds -> id ∈ cmd_in c -> id ∈ in_ids cmds results.
Proof.
  intros Hc Hid. unfold in_ids. apply elem_of_app. left. apply list_elem_of_In, in_concat.
  exists (cmd_in c). split; [by apply list_elem_of_In, list_elem_of_fmap_2|by apply list_elem_of_In].
Qed.
Lemma elem_in_res r id cmds results : r ∈ results -> id ∈ res_in r -> id ∈ in_ids cmds results.
Proof.
  intros Hc Hid. unfold in_ids. apply elem_of_app. right. apply list_elem_of_In, in_concat.
  exists (res_in r). split; [by apply list_elem_of_In, list_elem_of_fmap_2|by apply list_elem_of_In].
Qed.

(** the tasks do not notice a change of the engine that keeps what they read
    and the numbers they write *)
Lemma io_inv_change ins e e' ssts ssts' cmds results :
  io_inv ins e ssts cmds results -> e_sst_counter e <= e_sst_counter e' ->
  (forall id, id ∈ out_ids cmds results -> bmap_get id (e_frozen_memtables e') = bmap_get id (e_frozen_memtables e) /\
     bmap_get id (e_sstable_map e') = None) ->
  (forall r, r ∈ results -> ssts' !! res_out r = ssts !! res_out r) ->
  (forall id, id ∈ in_ids cmds results -> bmap_get id (e_sstable_map e') = bmap_get id (e_sstable_map e) /\
     ssts' !! id = ssts !! id /\ id ∈ e_compacting e') ->
  io_inv ins e' ssts' cmds results.
Proof.
  intros [Hc Hr Ho Hon Hi Him] Hcnt Hout Hfile Hin. constructor; try done.
  - rewrite Forall_forall in Hc |- *. intros c Hcin. specialize (Hc c Hcin). destruct c as [|m id|tables id]; cbn in *; [done| |].
    + destruct (Hout id) as [-> _]; [|done]. by eapply elem_out_cmd; [done|apply list_elem_of_singleton].
    + destruct (Hout id) as [-> _]; [by eapply elem_out_cmd; [done|apply list_elem_of_singleton]|].
      destruct Hc as [? Ht]. split; [done|]. rewrite Forall_forall in Ht |- *. intros meta Hmeta.
      destruct (Hin (meta_id meta)) as [-> _]; [|by apply Ht]. eapply elem_in_cmd; [done|]. cbn.
      apply list_elem_of_In, in_map, list_elem_of_In. done.
  - rewrite Forall_forall in Hr |- *. intros r Hrin. pose proof (Hfile r Hrin) as Hf.
    destruct (Hout (res_out r)) as [Ef _]; [by apply elem_out_res|]. specialize (Hr r Hrin).
    destruct r as [meta|meta ids]; cbn in *; rewrite Ef, Hf; [done|].
    destruct Hr as (file & rs & ? & ? & ? & ? & Hcov). exists file, rs. split_and!; try done.
    intros id r Hid Hhas. apply (Hcov id r Hid). destruct (Hin id) as (Eg & Es & _); [by eapply elem_in_res|].
    by eapply table_has_other.
  - intros id Hid. destruct (Hon id Hid) as [? _], (Hout id Hid) as [_ ?]. split; [lia|done].
  - intros id Hid. destruct (Hin id Hid) as (-> & _ & ?), (Him id Hid). done.
Qed.

(** the engine after the table of a flush has taken the place of its memtable *)
Definition flush_applied (meta : SSTableMeta) e : Engine (list byte) :=
  insert_meta meta (remove_frozen_memtable (meta_id meta) e).

Section flush_applied.
Context (ins : list CoreRecord) (e : Engine (list byte)) (ssts : Directory) (meta : SSTableMeta).
Context (Hm : mem_inv ins e) (Hs : sst_inv ins e ssts).
Context (Hres : res_ok ins e ssts (FlushResult meta)).
Context (Hid : 1 <= meta_id meta < e_sst_counter e) (Hnone : bmap_get (meta_id meta) (e_sstable_map e) = None).

Lemma flush_tables_mono r : in_tables e ssts r -> in_tables (flush_applied meta e) ssts r.
Proof using Hnone.
  apply in_tables_mono. intros id m Hg. split; [|done]. cbn. rewrite bmap_get_insert_ne; [done|]. intros <-. by rewrite Hnone in Hg.
Qed.

Lemma flush_frozen_in_tables m r :
  bmap_get (meta_id meta) (e_frozen_memtables e) = Some m -> r ∈ cmt_bset m -> in_tables (flush_applied meta e) ssts r.
Proof using Hres.
  destruct Hres as (m' & file & Hg & Hf & Hw). rewrite Hg. intros [= ->] Hr.
  exists (meta_id meta), meta, file, (cmt_bset m). split_and!; try done. cbn. apply bmap_get_insert.
Qed.

Lemma flush_settled n r : settled e ssts n r -> settled (flush_applied meta e) ssts n r.
Proof using Hres Hnone.
  apply settled_mono; [lia| |apply flush_tables_mono]. intros j m Hj _ Hr.
  destruct (decide (meta_id meta = j)) as [<-|Hne]; [right; by eapply flush_frozen_in_tables|left].
  cbn. by rewrite bmap_get_remove_ne.
Qed.

Lemma flush_applied_mem : mem_inv ins (flush_applied meta e).
Proof using Hm. pose proof (remove_frozen_memory ins e (meta_id meta) Hm) as Hm'. by destruct Hm'; constructor. Qed.

Lemma flush_applied_sst : sst_inv ins (flush_applied meta e) ssts.
Proof using Hm Hs Hres Hid Hnone.
  destruct Hs as [Hso Ht Hrd]. constructor.
  - cbn. by apply bmap_insert_sorted.
  - intros id m. cbn. destruct (decide (meta_id meta = id)) as [<-|Hne].
    + rewrite bmap_get_insert. intros [= <-]. split_and!; [lia..|done|]. destruct Hres as (mt & file & Hg & Hf & Hw).
      exists file, (cmt_bset mt). split_and!; try done. intros r Hr. apply (mi_mem_ins _ _ Hm).
      apply (in_memory_elem _ _ (mi_frozen _ _ Hm)). right. by exists (meta_id meta), mt.
    + rewrite bmap_get_insert_ne by done. apply Ht.
  - intros r Hr. destruct (Hrd r Hr) as [Hmem|?]; [|right; by apply flush_tables_mono].
    rewrite (in_memory_elem _ _ (mi_frozen _ _ flush_applied_mem)).
    apply (in_memory_elem _ _ (mi_frozen _ _ Hm)) in Hmem as [Hmem|(j & m & Hj & Hrm)]; [left; by left|].
    destruct (decide (meta_id meta = j)) as [<-|Hne]; [right; by eapply flush_frozen_in_tables|].
    left. right. exists j, m. split; [|done]. cbn. by rewrite bmap_get_remove_ne.
Qed.
End flush_applied.

(** deleting logs: what they held is in a table by then *)
Lemma apply_flush_log ins b meta b2 :
  mem_inv ins (b_engine b) -> sst_inv ins (b_engine b) (d_ssts b) -> log_inv ins b ->
  res_ok ins (b_engine b) (d_ssts b) (FlushResult meta) ->
  1 <= meta_id meta < e_sst_counter (b_engine b) -> bmap_get (meta_id meta) (e_sstable_map (b_engine b)) = None ->
  b2 = (apply_flush_result meta b).1 ->
  log_inv ins b2 /\ b_engine b2 = flush_applied meta (b_engine b) /\ d_ssts b2 = d_ssts b /\ io_cmds b2 = io_cmds b.
Proof.
  intros Hm Hs Hl Hres Hid Hnone ->. unfold apply_flush_result. cbn [fst].
  set (b1 := b_with_applied _ _ _). destruct Hl as [Hbw Ha Hlogs Hd Happ [Hn Hnext] Hst].
  destruct (mi_counters _ _ Hm) as [_ Hc].
  assert (forall j, j ∈ b_applied_flushes b1 -> 1 <= j < e_sst_counter (b_engine b) /\
    bmap_get j (e_frozen_memtables (flush_applied meta (b_engine b))) = None) as Happ1.
  { cbn. intros j [Hj|Hj%elem_of_singleton]%elem_of_union; [|subst j; split; [lia|apply bmap_get_remove]].
    destruct (Happ j Hj). split; [done|]. destruct (decide (meta_id meta = j)) as [<-|Hne]; [apply bmap_get_remove|].
    by rewrite bmap_get_remove_ne. }
  destruct (delete_wals_spec (S (size (b_applied_flushes b1))) b1) as (Eb & Hle & Hj & Hst2 & Hw); [done| |done|].
  { intros j Hj. apply Happ1 in Hj. lia. }
  set (b2 := delete_wals _ b1) in *. clearbody b2. rewrite Eb. cbn. split_and!; try done.
  assert (forall j, 1 <= j < b_next_wal_to_del b2 -> j ∈ b_applied_flushes b1) as Hgone.
  { intros j Hlt. destruct (decide (j < b_next_wal_to_del b)); [|apply Hj; cbn; lia].
    cbn. apply elem_of_union. left. apply Hnext. lia. }
  constructor; cbn; try done.
  - intros id f Hf. destruct (Hw id) as [E|[E _]]; [|rewrite E in Hf; done]. rewrite E in Hf.
    destruct (Hlogs id f Hf) as (Hlt & rs & ? & ? & Hset). split; [done|]. exists rs. split_and!; try done.
    intros r Hr. by eapply flush_settled, Hset.
  - intros r Hr. destruct (Hd r Hr) as [?|[(id & f & Hf & Hrf)|?]]; [by left| |right; right; by apply flush_tables_mono].
    right. destruct (Hw id) as [E|[_ Hrange]]; [left; exists id, f; cbn; split; [by rewrite E|done]|right].
    destruct Hrf as (rs & Hrs & Hrin). destruct (Hlogs id f Hf) as (Hlt & rs' & -> & Hins & Hset).
    rewrite (recover_ok rs') in Hrs by (by eapply Forall_sub; [|apply Hm]). injection Hrs as ->.
    destruct (flush_settled _ _ _ _ Hres Hnone _ _ (Hset r Hrin)) as [(j & m & Hjm & Hjle & _)|?]; [|done].
    destruct (Happ1 j) as [_ Hn0]; [|by rewrite Hn0 in Hjm]. apply Hgone.
    assert (1 <= j) by (apply (mi_frozen_ids _ _ (flush_applied_mem ins _ meta Hm)) in Hjm; lia). lia.
  - split; [cbn in Hle; lia|done].
Qed.

Lemma apply_flush_inv ins b jobs meta results :
  sys_inv ins (Build_Sys _ b jobs (FlushResult meta :: results)) ->
  sys_inv ins (Build_Sys _ (apply_flush_result meta b).1 jobs results) /\
  e_sst_counter (b_engine (apply_flush_result meta b).1) = e_sst_counter (b_engine b).
Proof.
  intros [Hm Hs Hl Hio]. cbn in Hm, Hs, Hl, Hio.
  apply io_inv_pop in Hio as (Hres & Hio & Hnew & Hid & Hnone & _). cbn in Hnew, Hid, Hnone.
  destruct (apply_flush_log ins b meta _ Hm Hs Hl Hres Hid Hnone eq_refl) as (Hl' & Ee & Es & Ec).
  rewrite Ee. split; [|done]. constructor; cbn [s_backend s_jobs s_results]; rewrite ?Ee, ?Es, ?Ec.
  - by apply flush_applied_mem.
  - by apply flush_applied_sst.
  - done.
  - apply (io_inv_change ins (b_engine b) _ (d_ssts b)); [done|done| |done|].
    + intros id Hin. assert (meta_id meta <> id) as Hne by (by intros <-). cbn.
      rewrite bmap_get_remove_ne, bmap_get_insert_ne by done. split; [done|]. by apply Hio.
    + intros id Hin. destruct (ii_in_marked _ _ _ _ _ Hio id Hin) as [? [m Hm0]]. split_and!; [|done|done].
      cbn. apply bmap_get_insert_ne. intros <-. by rewrite Hnone in Hm0.
Qed.
End applying.

(** ** Applying a compaction *)

Lemma foldl_difference (ids : list Z) (c : gset Z) id :
  id ∈ foldl (fun s id => s ∖ {[id]}) c ids <-> id ∈ c /\ (id ∉ ids).
Proof.
  revert c. induction ids as [|i ids IH]; intros c; cbn [foldl]; [set_solver|]. rewrite IH. set_solver.
Qed.
Lemma foldl_union (ids : list Z) (c : gset Z) id :
  id ∈ foldl (fun s id => s ∪ {[id]}) c ids <-> id ∈ c \/ id ∈ ids.
Proof.
  revert c. induction ids as [|i ids IH]; intros c; cbn [foldl]; [set_solver|]. rewrite IH. set_solver.
Qed.

Section compacting.
Context `{SstCodec}.
Implicit Types (e : Engine (list byte)) (ssts : Directory) (b : Backend).

Lemma remove_tables_spec ids : forall b,
  let b' := remove_tables ids b in
  b' = b_with_ssts (b_with_engine b (e_with_ssts (b_engine b) (e_sstable_map (b_engine b')))) (d_ssts b') /\
  (bmap_sorted (e_sstable_map (b_engine b)) -> bmap_sorted (e_sstable_map (b_engine b'))) /\
  forall id, bmap_get id (e_sstable_map (b_engine b')) = (if decide (id ∈ ids) then None else bmap_get id (e_sstable_map (b_engine b))) /\
    d_ssts b' !! id = (if decide (id ∈ ids) then None else d_ssts b !! id).
Proof.
  induction ids as [|i ids IH]; intros b; cbn [remove_tables].
  { split_and!; [by destruct b as [[] ? ? ? ? ? ? ? ?]|done|]. intros id. rewrite !decide_False; [done|apply not_elem_of_nil..]. }
  specialize (IH (b_with_ssts (b_with_engine b (remove_meta i (b_engine b))) (delete i (d_ssts b)))). cbn in IH |- *.
  destruct IH as (Eb & Hs & Hg). split_and!; [exact Eb|intros; by apply Hs, bmap_remove_sorted|].
  intros id. destruct (Hg id) as [-> ->]. destruct (decide (id ∈ ids)) as [Hin|Hni].
  { rewrite !decide_True; [done|by right..]. }
  destruct (decide (i = id)) as [->|Hne].
  - rewrite bmap_get_remove, lookup_delete_eq, !decide_True; [done|by left..].
  - rewrite bmap_get_remove_ne, lookup_delete_ne by done.
    rewrite !decide_False; [done|rewrite not_elem_of_cons; naive_solver..].
Qed.

(** what applying a compaction does to the tables *)
Definition compacted (meta : SSTableMeta) (ids : list Z) b b' : Prop :=
  (forall id, bmap_get id (e_sstable_map (b_engine b')) =
     (if decide (id = meta_id meta) then Some meta else if decide (id ∈ ids) then None else bmap_get id (e_sstable_map (b_engine b)))) /\
  (forall id, d_ssts b' !! id = (if decide (id ∈ ids) then None else d_ssts b !! id)) /\
  (forall id, id ∈ e_compacting (b_engine b') <-> id ∈ e_compacting (b_engine b) /\ (id ∉ ids)) /\
  (bmap_sorted (e_sstable_map (b_engine b)) -> bmap_sorted (e_sstable_map (b_engine b'))).

Lemma apply_compaction_spec meta ids b :
  let b' := (apply_compaction_result meta ids b).1 in
  compacted meta ids b b' /\
  b' = b_with_ssts (b_with_engine b (e_with_compacting (e_with_ssts (b_engine b)
         (e_sstable_map (b_engine b'))) (e_compacting (b_engine b')))) (d_ssts b').
Proof.
  unfold apply_compaction_result. cbn [fst]. destruct (remove_tables_spec ids b) as (Eb & Hs & Hg).
  set (b1 := remove_tables ids b) in *. clearbody b1. split; [split_and!|].
  - intros id. cbn. destruct (Hg id) as [Hgi _]. destruct (decide (id = meta_id meta)) as [->|Hne]; [apply bmap_get_insert|].
    by rewrite bmap_get_insert_ne.
  - intros id. apply Hg.
  - intros id. cbn. rewrite foldl_difference, Eb. done.
  - intros Hso. cbn. by apply bmap_insert_sorted, Hs.
  - rewrite Eb. by destruct b as [[] ? ? ? ? ? ? ? ?].
Qed.

Section compacted.
Context (ins : list CoreRecord) (b b' : Backend) (meta : SSTableMeta) (ids : list Z).
Context (Hcomp : compacted meta ids b b').
Context (Hres : res_ok ins (b_engine b) (d_ssts b) (CompactionResult meta ids)).
Context (Hnone : bmap_get (meta_id meta) (e_sstable_map (b_engine b)) = None).
Context (Hids : forall id, id ∈ ids -> is_Some (bmap_get id (e_sstable_map (b_engine b)))).

Lemma compacted_new : meta_id meta ∉ ids.
Proof using Hnone Hids. intros Hin. destruct (Hids _ Hin) as [m Hm]. by rewrite Hnone in Hm. Qed.

Lemma compacted_in_tables r : in_tables (b_engine b) (d_ssts b) r -> in_tables (b_engine b') (d_ssts b') r.
Proof using Hcomp Hres Hnone Hids.
  intros (id & Hhas). destruct Hcomp as (Hg & Hf & _). destruct (decide (id ∈ ids)) as [Hin|Hni].
  - destruct Hres as (file & rs & _ & Hfile & Hw & _ & Hcov). exists (meta_id meta), meta, file, rs.
    rewrite Hg, Hf, decide_True, decide_False by (done || apply compacted_new). split_and!; try done. by apply (Hcov id).
  - destruct Hhas as (m & file & rs & Hm & Hfile & Hid & Hw & Hr). exists id, m, file, rs.
    rewrite Hg, Hf, !decide_False; [done|done| |]; [|intros ->; by rewrite Hnone in Hm]. done.
Qed.

Lemma compacted_sst (Hid : 1 <= meta_id meta < e_sst_counter (b_engine b))
    (Hcnt : e_sst_counter (b_engine b') = e_sst_counter (b_engine b)) (Hmem : in_memory (b_engine b') = in_memory (b_engine b)) :
  sst_inv ins (b_engine b) (d_ssts b) -> sst_inv ins (b_engine b') (d_ssts b').
Proof using Hcomp Hres Hnone Hids.
  intros [Hso Ht Hrd]. destruct Hcomp as (Hg & Hf & _ & Hs). constructor; [by apply Hs| |].
  - intros id m. rewrite Hg, Hf, Hcnt. destruct (decide (id = meta_id meta)) as [->|Hne].
    + intros [= <-]. destruct Hres as (file & rs & _ & Hfile & Hw & Hin & _). split_and!; [lia..|done|].
      rewrite decide_False by apply compacted_new. by exists file, rs.
    + destruct (decide (id ∈ ids)); [done|]. apply Ht.
  - intros r Hr. rewrite Hmem. destruct (Hrd r Hr); [by left|right; by apply compacted_in_tables].
Qed.
End compacted.

Lemma apply_compaction_inv ins b jobs meta ids results :
  sys_inv ins (Build_Sys _ b jobs (CompactionResult meta ids :: results)) ->
  sys_inv ins (Build_Sys _ (apply_compaction_result meta ids b).1 jobs results) /\
  e_sst_counter (b_engine (apply_compaction_result meta ids b).1) = e_sst_counter (b_engine b).
Proof.
  intros [Hm Hs Hl Hio]. cbn in Hm, Hs, Hl, Hio. apply io_inv_pop in Hio as (Hres & Hio & Hnew & Hid & Hnone & Hin).
  cbn in Hnew, Hid, Hnone, Hin. destruct (apply_compaction_spec meta ids b) as [Hcomp Eb].
  set (b' := (apply_compaction_result meta ids b).1) in *. clearbody b'.
  assert (forall id, id ∈ ids -> is_Some (bmap_get id (e_sstable_map (b_engine b)))) as Hids by (intros id Hi; by apply Hin).
  pose proof (compacted_in_tables ins b b' meta ids Hcomp Hres Hnone Hids) as Hmono.
  assert (e_frozen_memtables (b_engine b') = e_frozen_memtables (b_engine b)) as Ef by (by rewrite Eb).
  assert (e_memtable (b_engine b') = e_memtable (b_engine b)) as Em by (by rewrite Eb).
  assert (e_sst_counter (b_engine b') = e_sst_counter (b_engine b)) as En by (by rewrite Eb).
  assert (e_wal (b_engine b') = e_wal (b_engine b)) as Ew by (by rewrite Eb).
  split; [|done]. constructor; cbn.
  - destruct Hm. rewrite Eb. by constructor.
  - apply (compacted_sst ins b b' meta ids); try done. by rewrite Eb.
  - assert (d_wals b' = d_wals b /\ b_applied_flushes b' = b_applied_flushes b /\ b_next_wal_to_del b' = b_next_wal_to_del b /\
      b_stale_wals b' = b_stale_wals b) as (E1 & E2 & E3 & E4) by (by rewrite Eb).
    destruct Hl as [Hbw Ha Hlogs Hd Happ Hn Hst]. constructor; rewrite ?Ew, ?Ef, ?En, ?E1, ?E2, ?E3, ?E4; try done.
    + intros id f Hf. destruct (Hlogs id f Hf) as (? & rs & ? & ? & Hset). split; [done|]. exists rs. split_and!; try done.
      intros r Hr. eapply settled_mono; [| |apply Hmono|by apply Hset]; [lia|]. rewrite Ef. by left.
    + intros r Hr. unfold durable. rewrite Ew, E1. destruct (Hd r Hr) as [?|[?|?]]; [by left|by right; left|].
      right; right. by apply Hmono.
  - assert (io_cmds b' = io_cmds b) as -> by (by rewrite Eb). destruct Hcomp as (Hg & Hf & Hc & _).
    apply (io_inv_change ins (b_engine b) _ (d_ssts b)); [done|by rewrite En| | |].
    + intros id Ho. destruct (ii_out_new _ _ _ _ _ Hio id Ho) as [_ Hn]. rewrite Ef, Hg, Hn. split; [done|].
      rewrite decide_False by (by intros ->). by destruct (decide _).
    + intros r Hr. rewrite Hf, decide_False; [done|]. intros [m Hx]%Hids.
      destruct (ii_out_new _ _ _ _ _ Hio (res_out r) ltac:(by apply elem_out_res)) as [_ Hn]. by rewrite Hn in Hx.
    + intros id Hi. destruct (ii_in_marked _ _ _ _ _ Hio id Hi) as [Hcm [m Hx]].
      assert (id ∉ ids) as Hni by (intros Hi2; by destruct (Hin id Hi2) as [? _]).
      rewrite Hg, Hf, Hc, !decide_False; [done|done| |]; [|intros ->; by rewrite Hnone in Hx]. done.
Qed.

Lemma oldest_metas_ok ins e ssts n :
  sst_inv ins e ssts ->
  NoDup (map meta_id (get_oldest_metas n e)) /\
  forall meta, meta ∈ get_oldest_metas n e ->
    bmap_get (meta_id meta) (e_sstable_map e) = Some meta /\ (meta_id meta ∉ e_compacting e).
Proof.
  intros [Hso Ht _]. unfold get_oldest_metas. set (p := fun m : SSTableMeta => _).
  assert (forall k m, (k, m) ∈ e_sstable_map e -> meta_id m = k) as Hk.
  { intros k m Hin. apply (bmap_get_elem _ _ _ Hso) in Hin. by destruct (Ht k m Hin) as (_ & ? & _). }
  split.
  - assert (meta_id <$> (e_sstable_map e).*2 = (e_sstable_map e).*1) as Em.
    { rewrite <- list_fmap_compose. apply list_fmap_ext. intros i [k m] Hi. apply Hk. by eapply list_elem_of_lookup_2. }
    change (map meta_id ?l) with (meta_id <$> l). eapply sublist_NoDup; [|apply fmap_sublist, sublist_take].
    apply NoDup_fmap_filter. rewrite Em. by apply bmap_keys_nodup.
  - intros meta Hin. eapply elem_of_sublist, list_elem_of_In, filter_In in Hin as [Hin Hp]; [|apply sublist_take].
    apply list_elem_of_In, list_elem_of_fmap in Hin as ([k m] & -> & Hin). cbn in *.
    split; [|by apply bool_decide_eq_true in Hp]. apply (bmap_get_elem _ _ _ Hso). by rewrite (Hk k m Hin).
Qed.

(** a new number and other marks *)
Lemma allocate_inv ins b jobs results c :
  sys_inv ins (Build_Sys _ b jobs results) -> e_sst_counter (b_engine b) + 1 <= u64_max ->
  (forall id, id ∈ in_ids (io_cmds b ++ jobs) results -> id ∈ c) ->
  let b' := b_with_engine b (e_with_sst_counter (e_with_compacting (b_engine b) c) (e_sst_counter (b_engine b) + 1)) in
  sys_inv ins (Build_Sys _ b' jobs results).
Proof.
  intros [Hm Hs Hl Hio] Hroom Hc b'. cbn in Hm, Hs, Hl, Hio. constructor; cbn [s_backend s_jobs s_results].
  - destruct Hm as [? ? ? [? ?] ? ? ? ? Hfi]. constructor; try done; [cbn; lia|]. intros j m Hj%Hfi. cbn. lia.
  - destruct Hs as [? Ht ?]. constructor; try done. intros id meta Hid. destruct (Ht id meta Hid) as (? & ? & ?). split; [cbn; lia|done].
  - destruct Hl as [? ? Hlogs ? Happ ? ?]. constructor; try done.
    + intros id f Hf. destruct (Hlogs id f Hf) as [? ?]. split; [cbn; lia|done].
    + intros j Hj. destruct (Happ j Hj) as [? ?]. split; [cbn; lia|done].
  - apply (io_inv_change ins (b_engine b) _ (d_ssts b)); [done|cbn; lia| |done|].
    + intros id Ho. split; [done|]. by apply Hio.
    + intros id Hi. split_and!; [done|done|]. by apply Hc.
Qed.

Lemma send_compaction_inv ins b jobs results :
  sys_inv ins (Build_Sys _ b jobs results) -> e_sst_counter (b_engine b) + 1 <= u64_max ->
  sys_inv ins (Build_Sys _ (send_compaction_cmd b) jobs results).
Proof.
  intros Hinv Hroom. unfold send_compaction_cmd. destruct (negb (needs_compaction b)); [done|].
  set (n := Z.max _ 2). destruct (oldest_metas_ok ins (b_engine b) (d_ssts b) n (inv_sst _ _ Hinv)) as [Hnd Hmetas].
  set (metas := get_oldest_metas n (b_engine b)) in *. clearbody metas. destruct (blen metas <? 2); [done|]. cbn [allocate_sstable_id].
  destruct (mi_counters _ _ (inv_mem _ _ Hinv)) as [_ Hc]. pose proof (inv_io _ _ Hinv) as Hio. cbn in Hc, Hio.
  unfold mark_compacting, unmark_compacting, io_send. cbn.
  assert (wrap64 (e_sst_counter (b_engine b) + 1) = e_sst_counter (b_engine b) + 1) as ->.
  { unfold wrap64, u64_max in *. apply Z.mod_small. lia. }
  assert (forall id, id ∈ map meta_id metas -> (id ∉ in_ids (io_cmds b ++ jobs) results) /\ is_Some (bmap_get id (e_sstable_map (b_engine b)))) as Hids.
  { intros id (meta & -> & Hin)%list_elem_of_fmap. destruct (Hmetas meta Hin) as [Hg Hnc]. split; [|by eexists].
    intros Hi. by apply (ii_in_marked _ _ _ _ _ Hio) in Hi as [? _]. }
  destruct (io_alive b) eqn:Ealive; cbn.
  - set (c := foldl _ _ _). pose proof (allocate_inv ins b jobs results c Hinv Hroom) as Hall. cbn in Hall.
    assert (forall id, id ∈ c <-> id ∈ e_compacting (b_engine b) \/ id ∈ map meta_id metas) as Hcel by (intros id; apply foldl_union).
    specialize (Hall ltac:(intros id Hi; apply Hcel; left; by apply Hio)).
    apply (io_send_inv ins _ jobs results (CompactSSTables metas (e_sst_counter (b_engine b)))) in Hall.
    { unfold io_send in Hall. cbn in Hall. rewrite Ealive in Hall. exact Hall. }
    apply io_inv_cons. split_and!; [apply (inv_io _ _ Hall)| |apply NoDup_singleton| |done|].
    + cbn. split; [|apply Forall_forall; intros meta Hin; by apply Hmetas]. destruct (bmap_get _ _) as [m|] eqn:Eg; [|done].
      apply (mi_frozen_ids _ _ (inv_mem _ _ Hinv)) in Eg. cbn in Eg. lia.
    + intros id ->%list_elem_of_singleton. split_and!; [|cbn; lia..|].
      * intros [Hlt _]%(ii_out_new _ _ _ _ _ Hio). lia.
      * cbn. destruct (bmap_get _ _) as [m|] eqn:Eg; [|done]. apply (si_tables _ _ _ (inv_sst _ _ Hinv)) in Eg as [Hlt _]. cbn in Hlt. lia.
    + intros id Hi. destruct (Hids id Hi) as [? ?]. split_and!; [done|apply Hcel; by right|done].
  - apply (allocate_inv ins b jobs results _ Hinv Hroom). intros id Hi. rewrite foldl_difference, foldl_union. split; [left; by apply Hio|].
    intros Hin. by destruct (Hids id Hin).
Qed.

Lemma turn_result_inv ins b jobs r results :
  sys_inv ins (Build_Sys _ b jobs (r :: results)) -> e_sst_counter (b_engine b) + 1 <= u64_max ->
  sys_inv ins (Build_Sys _ (turn_result r b) jobs results).
Proof.
  intros Hinv Hroom. unfold turn_result.
  destruct r as [meta|meta ids].
  - apply apply_flush_inv in Hinv as [Hinv E]. destruct (apply_flush_result meta b) as [b' []]; [|done].
    apply send_compaction_inv; [done|]. cbn in E. lia.
  - apply apply_compaction_inv in Hinv as [Hinv E]. destruct (apply_compaction_result meta ids b) as [b' []]; [|done].
    apply send_compaction_inv; [done|]. cbn in E. lia.
Qed.
End compacting.

(** ** The tasks of the worker *)

Section tasks.
Context {H : Type} `{SstCodec, !MinHeap CoreHeapItem H, !MinHeapLaws CoreHeapItem H, !SstCodecLaws}.
Implicit Types (e : Engine (list byte)) (ssts : Directory) (b : Backend).

Lemma written_layout meta file rs : written meta file rs -> sst_layout meta file rs.
Proof. intros (Hok & hint & E). pose proof (write_layout (meta_id meta) rs hint Hok) as Hl. by rewrite E in Hl. Qed.

Lemma layout_unique meta meta' file rs rs' :
  sst_layout meta file rs -> sst_layout meta' file rs' -> meta_index_offset meta = meta_index_offset meta' -> rs = rs'.
Proof.
  intros ([t Et] & Eo & Hsz & _) ([t' Et'] & Eo' & Hsz' & _) Hoff.
  assert (wal_wires rs = wal_wires rs') as E.
  { rewrite Et in Et'. apply app_inj_1 in Et' as [? _]; [done|]. unfold blen in *. lia. }
  assert (forall l, Forall (fun r => blen r <= VEC_MAX - 8) l -> recover_file (wal_wires l) = Ok l) as Hrec.
  { intros l Hl. apply recover_file_wires. eapply Forall_impl; [exact Hl|]. cbn. lia. }
  pose proof (Hrec rs Hsz) as E1. rewrite E, (Hrec rs' Hsz') in E1. by injection E1 as ->.
Qed.

Lemma written_unique meta file rs rs' : written meta file rs -> written meta file rs' -> rs = rs'.
Proof. intros Hw Hw'. by eapply layout_unique; [apply written_layout..|]. Qed.

Lemma memtable_table_ok ins e j m :
  mem_inv ins e -> bmap_get j (e_frozen_memtables e) = Some m -> table_ok (cmt_bset m).
Proof.
  intros Hm Hj. assert (core_mt_ok m) as [Hs Hx].
  { pose proof (Forall_inv_tail (mi_mem _ _ Hm)) as Hf. rewrite Forall_fmap, Forall_forall in Hf.
    apply (Hf (j, m)). by apply (bmap_get_elem _ _ _ (mi_frozen _ _ Hm)). }
  split_and!; [|done|done]. eapply Forall_sub; [|eapply Forall_impl; [exact (mi_ok _ _ Hm)|by intros r (_ & ? & _)]].
  intros r Hr. apply (mi_mem_ins _ _ Hm), (in_memory_elem _ _ (mi_frozen _ _ Hm)). right. by exists j, m.
Qed.

(** the contents of the tables of a compaction *)
Definition tables_hold (ins : list CoreRecord) ssts (tables : list SSTableMeta) (rss : list (list CoreRecord)) : Prop :=
  Forall2 (fun meta rs => exists file, ssts !! meta_id meta = Some file /\ written meta file rs /\
    forall r, r ∈ rs -> r ∈ ins) tables rss.

Lemma tables_hold_exist ins e ssts tables :
  sst_inv ins e ssts -> Forall (fun meta => bmap_get (meta_id meta) (e_sstable_map e) = Some meta) tables ->
  exists rss, tables_hold ins ssts tables rss.
Proof.
  intros Hs. induction 1 as [|meta tables Hg _ (rss & Hr)]; [by exists []; constructor|].
  destruct (si_tables _ _ _ Hs _ _ Hg) as (_ & _ & file & rs & Hf & Hw & Hi). exists (rs :: rss). constructor; [eauto|done].
Qed.

Lemma scanners_yield ins ssts tables rss :
  tables_hold ins ssts tables rss ->
  Forall2 ri_yields (sstable_scanners ssts tables) rss /\ Forall (StronglySorted core_le) rss /\
  (length (concat rss) < compaction_fuel ssts tables)%nat /\
  (forall r, r ∈ concat rss -> r ∈ ins).
Proof.
  unfold compaction_fuel. induction 1 as [|meta rs tables rss (file & Hf & Hw & Hi) _ (Hy & Hs & Hlen & Hins)]; cbn.
  { split_and!; [constructor|constructor|lia|by intros r ?%not_elem_of_nil]. }
  rewrite Hf. cbn. destruct (written_layout _ _ _ Hw) as ([t ->] & Eo & Hsz & Hso & _). split_and!.
  - constructor; [|done]. apply unfiltered_yields; [|done]. exists [], t. cbn. by rewrite Eo.
  - constructor; [by apply bset_sorted_le|done].
  - rewrite !length_app. pose proof (length_wal_wires rs). lia.
  - intros r [?|?]%elem_of_app; [by apply Hi|by apply Hins].
Qed.

Lemma tables_hold_elem ins e ssts tables rss id r :
  tables_hold ins ssts tables rss -> Forall (fun meta => bmap_get (meta_id meta) (e_sstable_map e) = Some meta) tables ->
  id ∈ map meta_id tables -> table_has e ssts id r -> r ∈ concat rss.
Proof.
  intros Hh. induction Hh as [|meta rs tables rss (file & Hf & Hw & _) _ IH]; intros Ht Hid Hhas; cbn in *.
  { by apply not_elem_of_nil in Hid. }
  apply Forall_cons in Ht as [Hg Ht]. apply elem_of_app. apply elem_of_cons in Hid as [->|Hid]; [left|right; by apply IH].
  destruct Hhas as (meta' & file' & rs' & Hg' & Hf' & _ & Hw' & Hr). rewrite Hg in Hg'. injection Hg' as <-.
  rewrite Hf in Hf'. injection Hf' as <-. by rewrite (written_unique _ _ _ _ Hw Hw').
Qed.

(** a compaction ends and its table holds everything its inputs hold *)
Lemma handle_compaction_ok ins e ssts tables id :
  mem_inv ins e -> sst_inv ins e ssts ->
  Forall (fun meta => bmap_get (meta_id meta) (e_sstable_map e) = Some meta) tables ->
  exists out hint, handle_compaction (H := H) ssts tables id = Ok (write_to_file id out hint, map meta_id tables) /\
    table_ok out /\ (forall r, r ∈ out -> r ∈ ins) /\
    forall i r, i ∈ map meta_id tables -> table_has e ssts i r -> r ∈ out.
Proof.
  intros Hm Hs Ht. destruct (tables_hold_exist ins e ssts tables Hs Ht) as (rss & Hh).
  destruct (scanners_yield ins ssts tables rss Hh) as (Hy & Hsort & Hlen & Hins).
  pose proof (mi_ok _ _ Hm) as Hok. rewrite Forall_forall in Hok.
  destruct (core_merge_all_ok (H := H) None (sstable_scanners ssts tables) rss (compaction_fuel ssts tables))
    as (m & out & E1 & E2 & Hso & Hsub & Hcov); [done|done| |intros r Hr; by apply Hok, Hins|].
  { constructor; [constructor|done]. }
  cbn [iif_rest app] in Hsub, Hcov. unfold handle_compaction. rewrite E1, ok_bind, E2, ok_bind. exists out. eexists. split_and!; [done| | |].
  - split_and!; [|done|].
    + apply Forall_forall. intros r Hr. apply Hok. by apply Hins, Hsub.
    + apply forallb_forall. intros r Hr%list_elem_of_In. apply Hok. by apply Hins, Hsub.
  - intros r Hr. by apply Hins, Hsub.
  - intros i r Hi Hhas. pose proof (tables_hold_elem ins e ssts tables rss i r Hh Ht Hi Hhas) as Hr.
    destruct (proj1 (list_elem_of_fmap _ _ _) (Hcov r Hr)) as (q & E & Hq).
    rewrite (ins_inj ins r q); [done|apply Hm|by apply Hins|by apply Hins, Hsub|by apply sort_key_seq].
Qed.

(** files that no table and no result refers to may change *)
Lemma ssts_change_inv ins b jobs results ssts :
  sys_inv ins (Build_Sys _ b jobs results) ->
  (forall id, is_Some (bmap_get id (e_sstable_map (b_engine b))) -> ssts !! id = d_ssts b !! id) ->
  (forall r, r ∈ results -> ssts !! res_out r = d_ssts b !! res_out r) ->
  sys_inv ins (Build_Sys _ (b_with_ssts b ssts) jobs results).
Proof.
  intros [Hm Hs Hl Hio] Hmap Hres. cbn in Hm, Hs, Hl, Hio.
  assert (forall r, in_tables (b_engine b) (d_ssts b) r -> in_tables (b_engine b) ssts r) as Hmono.
  { intros r. apply in_tables_mono. intros id meta Hg. split; [done|]. apply Hmap. by eexists. }
  constructor; cbn.
  - done.
  - destruct Hs as [Hso Ht Hrd]. constructor; [done| |].
    + intros id meta Hg. rewrite Hmap by (by eexists). by apply Ht.
    + intros r Hr. destruct (Hrd r Hr); [by left|right; by apply Hmono].
  - destruct Hl as [? ? Hlogs Hd ? ? ?]. constructor; cbn; try done.
    + intros id f Hf. destruct (Hlogs id f Hf) as (? & rs & ? & ? & Hset). split; [done|]. exists rs. split_and!; try done.
      intros r Hr. eapply settled_mono; [| |apply Hmono|by apply Hset]; [lia|by left].
    + intros r Hr. destruct (Hd r Hr) as [?|[?|?]]; [by left|by right; left|right; right; by apply Hmono].
  - apply (io_inv_change ins (b_engine b) _ (d_ssts b)); [done|done| |done|].
    + intros id Ho. split; [done|]. by apply Hio.
    + intros id Hi. destruct (ii_in_marked _ _ _ _ _ Hio id Hi) as [? ?]. split_and!; [done|by apply Hmap|done].
Qed.

Lemma io_inv_done ins e ssts c cmds r results :
  io_inv ins e ssts (c :: cmds) results -> cmd_out c = [res_out r] -> cmd_in c = res_in r -> res_ok ins e ssts r ->
  io_inv ins e ssts cmds (results ++ [r]).
Proof.
  intros [Hc Hr Ho Hon Hi Him] Eo Ei Hok.
  assert (out_ids cmds (results ++ [r]) ≡ₚ out_ids (c :: cmds) results) as Hpo.
  { rewrite out_ids_cons, Eo. unfold out_ids. rewrite fmap_app, app_assoc. cbn. by rewrite <- Permutation_cons_append. }
  assert (in_ids cmds (results ++ [r]) ≡ₚ in_ids (c :: cmds) results) as Hpi.
  { rewrite in_ids_cons, Ei. unfold in_ids. rewrite fmap_app, concat_app. cbn. rewrite app_nil_r, app_assoc.
    apply Permutation_app_comm. }
  constructor; rewrite ?Hpo, ?Hpi; try done.
  - by inversion Hc.
  - apply Forall_app_2; [done|by apply Forall_singleton].
  - intros id. rewrite Hpo. apply Hon.
  - intros id. rewrite Hpi. apply Him.
Qed.
End tasks.

(** ** All reachable states *)

Section reachable.
Context {H : Type} `{SstCodec, !MinHeap CoreHeapItem H, !MinHeapLaws CoreHeapItem H, !SstCodecLaws}.
Implicit Types (b : Backend) (s : Sys).

Lemma sys_start_inv limit config s :
  sys_start limit config = Ok s -> sys_inv [] s /\ flushed (s_backend s) /\ b_config (s_backend s) = config.
Proof.
  unfold sys_start, engine_open, recover_all. cbn. intros [= <-]. split_and!; [|done|done].
  change (wrap64 (0 + 1)) with 1. constructor; cbn [s_backend s_jobs s_results].
  - split; cbn; [by apply Forall_nil_2|by apply Forall_nil_2|constructor|unfold u64_max; lia| |constructor|
      by intros r ?%not_elem_of_nil|constructor|done].
    apply Forall_singleton. split; [constructor|done].
  - constructor; cbn; [constructor|done|by intros r ?%not_elem_of_nil].
  - split; cbn; [done|by exists []; split; [|intros r ?%not_elem_of_nil]|done|by intros r ?%not_elem_of_nil|
      by intros j ?%not_elem_of_empty|split; [lia|intros; lia]|done].
  - split; cbn; [by apply Forall_nil_2|by apply Forall_nil_2|constructor|by intros r ?%not_elem_of_nil|constructor|
      by intros r ?%not_elem_of_nil].
Qed.

Lemma step_take_inv ins b c cmds jobs results :
  sys_inv ins (Build_Sys _ b jobs results) -> io_cmds b = c :: cmds ->
  sys_inv ins (Build_Sys _ (b_with_cmds b cmds) (spawn c jobs) results).
Proof.
  intros [Hm Hs Hl Hio] Ec. cbn in Hm, Hs, Hl, Hio. rewrite Ec in Hio. constructor; cbn; [done|done|by destruct Hl; constructor|].
  destruct c; cbn [spawn]; [by apply io_inv_cons in Hio as [Hio _]|..];
    (eapply io_inv_perm; [|exact Hio]; cbn; by rewrite app_assoc, Permutation_cons_append).
Qed.

(** a task ends with the table [id] of its command *)
Lemma step_done_inv ins b pre c post results id file r :
  sys_inv ins (Build_Sys _ b (pre ++ c :: post) results) ->
  cmd_out c = [id] -> res_out r = id -> cmd_in c = res_in r ->
  res_ok ins (b_engine b) (<[id := file]> (d_ssts b)) r ->
  sys_inv ins (Build_Sys _ (b_with_ssts b (<[id := file]> (d_ssts b))) (pre ++ post) (results ++ [r])).
Proof.
  intros Hinv Eo Er Ei Hok. assert (io_cmds b ++ pre ++ c :: post ≡ₚ c :: io_cmds b ++ pre ++ post) as Hp.
  { by rewrite !app_assoc, <- Permutation_middle. }
  pose proof (io_inv_perm _ _ _ _ _ _ Hp (inv_io _ _ Hinv)) as Hio. apply io_inv_cons in Hio as (Hio & _ & _ & Hout & _). cbn in Hio, Hout.
  destruct (Hout id) as (Hnew & _ & Hnone); [rewrite Eo; by apply list_elem_of_singleton|].
  apply (ssts_change_inv _ _ _ _ (<[id := file]> (d_ssts b))) in Hinv.
  2:{ intros i [m Hi]. apply lookup_insert_ne. intros ->. by rewrite Hnone in Hi. }
  2:{ intros q Hq. apply lookup_insert_ne. intros ->. by apply Hnew, elem_out_res. }
  destruct Hinv as [Hm Hs Hl Hio']. cbn in Hm, Hs, Hl, Hio'. constructor; cbn; [done..|].
  eapply io_inv_done; [by eapply io_inv_perm|by rewrite Eo, Er|done|done].
Qed.

Lemma job_cmd_ok ins b pre c post results :
  sys_inv ins (Build_Sys _ b (pre ++ c :: post) results) -> cmd_ok (b_engine b) c /\ forall id, id ∈ cmd_out c ->
  bmap_get id (e_sstable_map (b_engine b)) = None.
Proof.
  intros Hinv. pose proof (inv_io _ _ Hinv) as Hio. split.
  - pose proof (ii_cmds _ _ _ _ _ Hio) as Hc. rewrite Forall_forall in Hc. apply Hc. cbn. rewrite !elem_of_app, elem_of_cons. auto.
  - intros id Hid. apply Hio. eapply elem_out_cmd; [|exact Hid]. cbn. rewrite !elem_of_app, elem_of_cons. auto.
Qed.

Lemma table_has_insert e (ssts : Directory) id file i r :
  bmap_get id (e_sstable_map e) = None -> table_has e (<[id := file]> ssts) i r -> table_has e ssts i r.
Proof.
  intros Hn Hhas. pose proof Hhas as (m & _ & _ & Hg & _). eapply table_has_other; [| |exact Hhas]; [done|].
  rewrite lookup_insert_ne; [done|]. intros ->. by rewrite Hn in Hg.
Qed.

Lemma sys_step_inv ins s recs s' : sys_inv ins s -> sys_step (H := H) s recs s' -> sys_inv (ins ++ recs) s'.
Proof.
  intros Hinv Hstep. destruct Hstep as [b b' jobs results rn cmds Hok Hroom E|b jobs r results [_ Hroom]|b c cmds jobs results E
    |b pre m id post meta file results E|b pre tables id post meta file ids results E|b pre c post ssts results Hssts];
    try rewrite app_nil_r.
  - destruct (turn_commands_inv ins b jobs results rn cmds Hinv Hok Hroom) as (b2 & E2 & _ & Hinv2). rewrite E in E2. by injection E2 as <-.
  - by apply turn_result_inv.
  - by apply step_take_inv.
  - destruct (job_cmd_ok _ _ _ _ _ _ Hinv) as [Hc _]. cbn in Hc. unfold handle_flush in E.
    assert (meta_id meta = id) as Hid by (pose proof (write_id id (cmt_bset m) (blen (cmt_bset m))) as Hi; by rewrite E in Hi).
    eapply step_done_inv; [exact Hinv|done|done|done|]. cbn. rewrite Hid. exists m, file. split_and!; [done|apply lookup_insert_eq|].
    split; [by eapply memtable_table_ok; [apply (inv_mem _ _ Hinv)|exact Hc]|rewrite Hid; by eexists].
  - destruct (job_cmd_ok _ _ _ _ _ _ Hinv) as [[Hfr Ht] Hnone]. cbn in Hfr, Ht, Hnone.
    destruct (handle_compaction_ok (H := H) ins (b_engine b) (d_ssts b) tables id (inv_mem _ _ Hinv) (inv_sst _ _ Hinv) Ht)
      as (out & hint & E' & Hok & Hin & Hcov). rewrite E in E'. injection E' as E' ->.
    assert (meta_id meta = id) as Hid by (pose proof (write_id id out hint) as Hi; by rewrite <- E' in Hi).
    eapply step_done_inv; [exact Hinv|done|done|done|]. cbn. rewrite Hid. exists file, out. split_and!; [done|apply lookup_insert_eq| |done|].
    + split; [done|rewrite Hid; by eexists].
    + intros i r Hi Hhas. apply (Hcov i r Hi). eapply table_has_insert; [|exact Hhas]. apply Hnone. by apply list_elem_of_singleton.
  - assert (io_cmds b ++ pre ++ c :: post ≡ₚ c :: io_cmds b ++ pre ++ post) as Hp by (by rewrite !app_assoc, <- Permutation_middle).
    pose proof (io_inv_perm _ _ _ _ _ _ Hp (inv_io _ _ Hinv)) as Hio. apply io_inv_cons in Hio as (Hio & _ & _ & Hout & _). cbn in Hio, Hout.
    apply (ssts_change_inv ins b (pre ++ post)).
    + destruct Hinv. by constructor.
    + intros id [m Hid]. apply Hssts. intros Hc. destruct (Hout id Hc) as (_ & _ & Hn). by rewrite Hn in Hid.
    + intros r Hr. apply Hssts. intros Hc. destruct (Hout _ Hc) as (Hn & _). by apply Hn, elem_out_res.
Qed.

Lemma delete_wals_engine fuel b : b_engine (delete_wals fuel b) = b_engine b.
Proof.
  revert b. induction fuel as [|fuel IH]; intros b; cbn; [done|]. destruct (_ && _); [|done]. rewrite IH. by destruct (bmap_get _ _).
Qed.

Lemma apply_flush_wal meta b : e_wal (b_engine (apply_flush_result meta b).1) = e_wal (b_engine b).
Proof. unfold apply_flush_result. cbn [fst]. cbn -[delete_wals]. by rewrite delete_wals_engine. Qed.

Lemma turn_result_wal r b : e_wal (b_engine (turn_result r b)) = e_wal (b_engine b).
Proof.
  assert (forall b, e_wal (b_engine (send_compaction_cmd b)) = e_wal (b_engine b)) as Hsend.
  { intros b0. unfold send_compaction_cmd. destruct (negb _); [done|]. destruct (_ <? 2); [done|]. cbn. unfold io_send. cbn.
    by destruct (io_alive b0). }
  unfold turn_result. destruct r as [meta|meta ids].
  - rewrite <- (apply_flush_wal meta b). destruct (apply_flush_result meta b) as [b' []]; [apply Hsend|done].
  - destruct (apply_compaction_spec meta ids b) as [_ E]. destruct (apply_compaction_result meta ids b) as [b' more]. cbn in E.
    transitivity (e_wal (b_engine b')); [destruct more; [apply Hsend|done]|]. by rewrite E.
Qed.

Lemma sys_run_inv s0 limit config ins s :
  sys_start limit config = Ok s0 -> sys_run (H := H) s0 ins s -> sys_inv ins s /\ flushed (s_backend s).
Proof.
  intros Hstart. induction 1 as [|ins s recs s' _ [IH Hf] Hstep].
  - by destruct (sys_start_inv limit config s0 Hstart) as (? & ? & _).
  - split; [by eapply sys_step_inv|]. destruct Hstep as [b b' jobs results rn cmds Hok Hroom E|b jobs r results [_ Hroom]| | | |]; try done.
    + destruct (turn_commands_inv ins b jobs results rn cmds IH Hok Hroom) as (b2 & E2 & Hf2 & _). rewrite E in E2. by injection E2 as <-.
    + unfold flushed. cbn. by rewrite turn_result_wal.
Qed.
End reachable.
