(* ===== verification/CoreTurns.v ===== *)
(** * The backend loop, one command at a time

    A turn of the loop of storage/backend.rs takes several commands and
    answers each of them as soon as it is done; only after the last one is
    the buffer of the log flushed. In CoreSystem.v a turn is one step. Here
    it is one step per command, with the tasks of the worker running in
    between, so that every moment at which something has been acknowledged
    is a state. Between turns the two systems have the same runs. *)
From S2P Require Import Prelude Std Codec CoreProto CoreStorage CoreIter CoreEngine CoreBackend CoreSystem.

(** ** The system *)

Section turns.
Context {H : Type} `{SstCodec, !MinHeap CoreHeapItem H}.

(** what follows the loop over the commands *)
Definition end_turn (rename_ok needs_flush : bool) : st Backend io_error unit :=
  _ ← ignore_err send_wal_sync_cmd;
  if needs_flush then ignore_err (send_flush_cmd rename_ok) else mret tt.

(** the worker takes a command or one of its tasks ends *)
Inductive worker_step : Sys -> Sys -> Prop :=
| worker_take b c cmds jobs results :
    io_cmds b = c :: cmds ->
    worker_step (Build_Sys _ b jobs results) (Build_Sys _ (b_with_cmds b cmds) (spawn c jobs) results)
| worker_flush b pre m id post meta file results :
    handle_flush m id = (meta, file) ->
    worker_step (Build_Sys _ b (pre ++ FlushMemtable m id :: post) results)
      (Build_Sys _ (b_with_ssts b (<[id := file]> (d_ssts b))) (pre ++ post) (results ++ [FlushResult meta]))
| worker_compact b pre tables id post meta file ids results :
    handle_compaction (H := H) (d_ssts b) tables id = Ok ((meta, file), ids) ->
    worker_step (Build_Sys _ b (pre ++ CompactSSTables tables id :: post) results)
      (Build_Sys _ (b_with_ssts b (<[id := file]> (d_ssts b))) (pre ++ post) (results ++ [CompactionResult meta ids]))
| worker_fail b pre c post ssts results :
    (forall id, id ∉ cmd_out c -> ssts !! id = d_ssts b !! id) ->
    worker_step (Build_Sys _ b (pre ++ c :: post) results) (Build_Sys _ (b_with_ssts b ssts) (pre ++ post) results).

(** [Some needs_flush]: a turn has begun and its commands are being handled;
    [None]: the loop waits in [select!] *)
Inductive turn_step : Sys * option bool -> list CoreRecord -> Sys * option bool -> Prop :=
| turn_begins s : turn_step (s, None) [] (s, Some false)
| turn_command b b' jobs results c f f' :
    Forall insert_ok (cmds_inserts [c]) -> e_seq_counter (b_engine b) + blen (cmds_inserts [c]) <= u64_max ->
    handle_commands [c] f b = (b', Ok f') ->
    turn_step (Build_Sys _ b jobs results, Some f) (turn_records [c] b) (Build_Sys _ b' jobs results, Some f')
| turn_ends b b' jobs results rename_ok f :
    has_room 0 b -> end_turn rename_ok f b = (b', Ok tt) ->
    turn_step (Build_Sys _ b jobs results, Some f) [] (Build_Sys _ b' jobs results, None)
| turn_applies b jobs r results :
    has_room 0 b ->
    turn_step (Build_Sys _ b jobs (r :: results), None) [] (Build_Sys _ (turn_result r b) jobs results, None)
| turn_works s s' t : worker_step s s' -> turn_step (s, t) [] (s', t).

(** runs, with what was acknowledged in the turns that have ended and in the
    one that has not *)
Inductive turn_run (s0 : Sys) : list CoreRecord -> list CoreRecord -> Sys * option bool -> Prop :=
| turns_start : turn_run s0 [] [] (s0, None)
| turns_inside ins new x recs s f :
    turn_run s0 ins new x -> turn_step x recs (s, Some f) -> turn_run s0 ins (new ++ recs) (s, Some f)
| turns_between ins new x recs s :
    turn_run s0 ins new x -> turn_step x recs (s, None) -> turn_run s0 (ins ++ new ++ recs) [] (s, None).

Lemma turn_commands_end rename_ok cmds :
  turn_commands rename_ok cmds = (f ← handle_commands cmds false; end_turn rename_ok f).
Proof. reflexivity. Qed.

Lemma worker_step_sys s s' : worker_step s s' -> sys_step (H := H) s [] s'.
Proof. destruct 1; by econstructor. Qed.
End turns.

(** ** Commands act on the engine alone *)

Section commands_engine.
Context `{SstModule}.
Implicit Types (b : Backend) (e : Engine (list byte)).

Lemma handle_one_engine c f b b2 : b_engine b2 = b_engine b ->
  handle_commands [c] f b2 = (b_with_engine b2 (b_engine (handle_commands [c] f b).1), (handle_commands [c] f b).2) /\
  exists e', (handle_commands [c] f b).1 = b_with_engine b e'.
Proof.
  intros E.
  assert (forall b f, (b, Ok f : outcome io_error bool) = (b_with_engine b (b_engine b), Ok f)) as Hid by (by intros [] ?).
  assert (forall b e, b_with_engine (b_with_engine b e) e = b_with_engine b e) as Htw by (by intros []).
  assert (forall (op : st (Engine (list byte)) io_error bool),
    let h := fun b => match on_engine op b with (b, Err _) => (b, Ok false) | r => r end in
    let run := fun b => (f' ← h; handle_commands [] f') b in
    run b2 = (b_with_engine b2 (b_engine (run b).1), (run b).2) /\ exists e', (run b).1 = b_with_engine b e') as Hop.
  { intros op h run. unfold run, h, on_engine. rewrite !st_bind_unfold, E.
    destruct (op (b_engine b)) as [e' [a|er|]]; cbn; rewrite ?Htw; eauto. }
  destruct c as [i|l|rq|]; [apply Hop|apply Hop|..]; cbn; rewrite <- E, <- Hid;
    (split; [done|exists (b_engine b)]; by destruct b).
Qed.

Lemma handle_commands_frame cmds : forall f b b' o, handle_commands cmds f b = (b', o) -> exists e', b' = b_with_engine b e'.
Proof.
  induction cmds as [|c cmds IH]; intros f b b' o E; cbn [handle_commands] in E.
  { injection E as <- _. exists (b_engine b). by destruct b. }
  assert (forall (op : st (Engine (list byte)) io_error bool), (f' ← (fun b => match on_engine op b with (b, Err _) => (b, Ok false) | r => r end);
    handle_commands cmds f') b = (b', o) -> exists e', b' = b_with_engine b e') as Hop.
  { intros op. rewrite st_bind_unfold. unfold on_engine. destruct (op (b_engine b)) as [e1 [a|er|]]; cbn.
    - intros (e' & ->)%IH. by exists e'.
    - intros (e' & ->)%IH. by exists e'.
    - intros [= <- _]. by exists e1. }
  destruct c as [i|l|rq|]; [by eapply Hop in E|by eapply Hop in E|by eapply IH in E..].
Qed.

Lemma handle_commands_app cmds k f b b1 f1 :
  handle_commands cmds f b = (b1, Ok f1) -> handle_commands (cmds ++ k) f b = handle_commands k f1 b1.
Proof.
  revert f b. induction cmds as [|c cmds IH]; intros f b; cbn [app handle_commands]; [by intros [= -> ->]|].
  destruct c as [i|l|rq|]; rewrite ?st_bind_unfold.
  - destruct (handle_insert i b) as [b' [f'|e|]]; [apply IH|done..].
  - destruct (handle_batch_insert l b) as [b' [f'|e|]]; [apply IH|done..].
  - apply IH.
  - apply IH.
Qed.

Lemma handle_commands_engine cmds : forall f b b2 b' f', b_engine b2 = b_engine b ->
  handle_commands cmds f b = (b', Ok f') ->
  (exists e', b' = b_with_engine b e') /\ handle_commands cmds f b2 = (b_with_engine b2 (b_engine b'), Ok f').
Proof.
  induction cmds as [|c cmds IH]; intros f b b2 b' f' E.
  { intros [= <- <-]. rewrite <- E. cbn. split; [exists (b_engine b2); rewrite E|]; by destruct b, b2. }
  destruct (handle_one_engine c f b b2 E) as [E2 [e1 E1]].
  destruct (handle_commands [c] f b) as [b1 [f1|er|]] eqn:Ec; cbn [fst snd] in *.
  - subst b1. cbn [b_engine b_with_engine] in E2.
    rewrite (handle_commands_app [c] cmds f b _ f1 Ec : handle_commands (c :: cmds) f b = _).
    rewrite (handle_commands_app [c] cmds f b2 _ f1 E2 : handle_commands (c :: cmds) f b2 = _). intros Hr.
    destruct (IH f1 (b_with_engine b e1) (b_with_engine b2 e1) b' f' eq_refl Hr) as [[e' ->] ->]. split; [by exists e'|done].
  - intros Hr. exfalso. revert Hr Ec. destruct c as [i|l|rq|]; cbn; rewrite ?st_bind_unfold;
      [destruct (handle_insert i b) as [? [?|?|]]|destruct (handle_batch_insert l b) as [? [?|?|]]|..]; done.
  - intros Hr. exfalso. revert Hr Ec. destruct c as [i|l|rq|]; cbn; rewrite ?st_bind_unfold;
      [destruct (handle_insert i b) as [? [?|?|]]|destruct (handle_batch_insert l b) as [? [?|?|]]|..]; done.
Qed.
End commands_engine.

(** ** The file of the log only grows while commands are handled *)

Lemma bufwriter_write_all_grows bs (w w' : BufWriter (list byte)) o :
  bufwriter_write_all bs w = (w', o) -> bw_inner w `prefix_of` bw_inner w'.
Proof.
  unfold bufwriter_write_all, bufwriter_put, bufwriter_drain. case_if; [rewrite st_bind_unfold|].
  all: cbn; case_if; intros [= <- _]; cbn; try done.
  all: rewrite <- ?app_assoc; by apply prefix_app_r.
Qed.
Lemma wal_write_one_grows r (w w' : BufWriter (list byte)) o :
  wal_write_one r w = (w', o) -> bw_inner w `prefix_of` bw_inner w'.
Proof.
  unfold wal_write_one. rewrite st_bind_unfold. destruct (bufwriter_write_all _ w) as [w1 [[]|e|]] eqn:E1.
  - intros E2. etrans; [by eapply bufwriter_write_all_grows|by eapply bufwriter_write_all_grows].
  - intros [= <- _]. by eapply bufwriter_write_all_grows.
  - intros [= <- _]. by eapply bufwriter_write_all_grows.
Qed.
Lemma wal_write_many_grows rs : forall (w w' : BufWriter (list byte)) o,
  wal_write_many rs w = (w', o) -> bw_inner w `prefix_of` bw_inner w'.
Proof.
  induction rs as [|r rs IH]; intros w w' o; cbn [wal_write_many]; [by intros [= <- _]|].
  rewrite st_bind_unfold. destruct (wal_write_one r w) as [w1 [[]|e|]] eqn:E1.
  - intros E2. etrans; [by eapply wal_write_one_grows|by eapply IH].
  - intros [= <- _]. by eapply wal_write_one_grows.
  - intros [= <- _]. by eapply wal_write_one_grows.
Qed.

Section log_grows.
Context `{SstModule}.
Implicit Types (b : Backend) (e : Engine (list byte)).

Definition wal_grew e e' : Prop := bw_inner (e_wal e) `prefix_of` bw_inner (e_wal e').

Lemma on_memtable_wal {A} (op : st MemTable io_error A) e : e_wal (on_memtable op e).1 = e_wal e.
Proof. unfold on_memtable. by destruct (op (e_memtable e)). Qed.

Lemma insert_record_grows sid ts key value e : wal_grew e (insert_record sid ts key value e).1.
Proof.
  unfold insert_record, wal_grew. rewrite st_bind_unfold. unfold on_wal at 1.
  destruct (wal_write_one _ (e_wal e)) as [w [[]|err|]] eqn:Ew; apply wal_write_one_grows in Ew; [|done..].
  rewrite st_bind_unfold. pose proof (on_memtable_wal (core_memtable_insert (from_raw_parts sid ts (e_seq_counter e) key value)) (e_with_wal e w)) as Em.
  destruct (on_memtable _ (e_with_wal e w)) as [e1 [f|err|]]; rewrite ?st_bind_unfold; cbn [fst] in Em |- *; cbn -[prefix]; rewrite Em; exact Ew.
Qed.
Lemma batch_insert_grows l e : wal_grew e (batch_insert_records l e).1.
Proof.
  unfold batch_insert_records, wal_grew. destruct (batch_records l (e_seq_counter e)) as [rs n]. rewrite st_bind_unfold. unfold on_wal at 1.
  destruct (wal_write_many rs _) as [w [[]|err|]] eqn:Ew; apply wal_write_many_grows in Ew; [|done..].
  by rewrite on_memtable_wal.
Qed.
Lemma handle_one_grows c f b : wal_grew (b_engine b) (b_engine (handle_commands [c] f b).1).
Proof.
  assert (forall (op : st (Engine (list byte)) io_error bool), wal_grew (b_engine b) (op (b_engine b)).1 ->
    wal_grew (b_engine b) (b_engine ((f' ← (fun b => match on_engine op b with (b, Err _) => (b, Ok false) | r => r end);
      handle_commands [] f') b).1)) as Hop.
  { intros op Hop. rewrite st_bind_unfold. unfold on_engine. by destruct (op (b_engine b)) as [e [a|er|]]. }
  destruct c as [i|l|rq|]; [apply Hop, insert_record_grows|apply Hop, batch_insert_grows|..]; unfold wal_grew; reflexivity.
Qed.
End log_grows.

(** ** Inside a turn *)

Lemma cmds_inserts_app l k : cmds_inserts (l ++ k) = cmds_inserts l ++ cmds_inserts k.
Proof. induction l as [|c l IH]; [done|]. destruct c; cbn; rewrite ?IH, <- ?app_assoc; done. Qed.

Section inside.
Context `{SstCodec}.
Implicit Types (b : Backend) (s : Sys).

Lemma batch_records_next l k n : (batch_records (l ++ k) n).2 = (batch_records k (batch_records l n).2).2.
Proof.
  revert n. induction l as [|i l IH]; intros n; cbn [app batch_records]; [done|]. specialize (IH (wrap64 (n + 1))).
  destruct (batch_records (l ++ k) _) as [? ?]. destruct (batch_records l _) as [? ?]. exact IH.
Qed.

(** one command: what it acknowledges, and the numbers it uses up *)
Lemma handle_one_inv c f ins b jobs results :
  sys_inv ins (Build_Sys _ b jobs results) -> Forall insert_ok (cmds_inserts [c]) ->
  e_seq_counter (b_engine b) + blen (cmds_inserts [c]) <= u64_max ->
  exists b' f', handle_commands [c] f b = (b', Ok f') /\ sys_inv (ins ++ turn_records [c] b) (Build_Sys _ b' jobs results) /\
    e_seq_counter (b_engine b') = e_seq_counter (b_engine b) + blen (cmds_inserts [c]) /\
    (batch_records (cmds_inserts [c]) (e_seq_counter (b_engine b))).2 = e_seq_counter (b_engine b') /\
    e_sst_counter (b_engine b') = e_sst_counter (b_engine b).
Proof.
  intros Hinv Hok Hroom. destruct (handle_commands_inv [c] f ins b jobs results Hinv Hok Hroom) as (b' & f' & E & Hi & Hs).
  exists b', f'. split_and!; [done|done|..|done].
  all: destruct (insert_each_inv (cmds_inserts [c]) ins b jobs results Hinv Hok Hroom) as (e' & flags & Ee & _ & Hn & Hb & _).
  all: assert (e_seq_counter (b_engine b') = e_seq_counter e') as Hseq; [|congruence].
  all: destruct c as [i|l|rq|]; cbn [handle_commands cmds_inserts app] in *; rewrite ?app_nil_r in *.
  all: try (cbn in Ee; injection Ee as <- _; by injection E as <-).
  all: rewrite st_bind_unfold in E.
  1,3: cbn [insert_each] in Ee; rewrite st_bind_unfold in Ee; unfold handle_insert, on_engine in E;
    destruct (insert_record _ _ _ _ (b_engine b)) as [e1 [full|err|]]; [|done..]; injection Ee as -> _; by injection E as <-.
  all: unfold handle_batch_insert, on_engine in E;
    rewrite (proj2 (batch_insert_each l (b_engine b) e' (existsb id flags))) in E by eauto; by injection E as <-.
Qed.

Lemma handle_commands_counters ins b jobs results cmds :
  sys_inv ins (Build_Sys _ b jobs results) -> Forall insert_ok (cmds_inserts cmds) ->
  e_seq_counter (b_engine b) + blen (cmds_inserts cmds) <= u64_max ->
  exists b' f, handle_commands cmds false b = (b', Ok f) /\ sys_inv (ins ++ turn_records cmds b) (Build_Sys _ b' jobs results) /\
    e_seq_counter (b_engine b') = e_seq_counter (b_engine b) + blen (cmds_inserts cmds) /\
    (batch_records (cmds_inserts cmds) (e_seq_counter (b_engine b))).2 = e_seq_counter (b_engine b') /\
    e_sst_counter (b_engine b') = e_sst_counter (b_engine b).
Proof.
  intros Hinv. induction cmds as [|c cmds IH] using rev_ind; intros Hok Hroom.
  { exists b, false. cbn. rewrite app_nil_r. split_and!; try done. zlia. }
  rewrite cmds_inserts_app in Hok, Hroom |- *. apply Forall_app in Hok as [Hok Hc]. rewrite blen_app in Hroom |- *.
  pose proof (blen_nonneg (cmds_inserts [c])). destruct IH as (b1 & f1 & E1 & Hinv1 & Hn1 & Hb1 & Hs1); [done|lia|].
  destruct (handle_one_inv c f1 _ b1 jobs results Hinv1 Hc) as (b2 & f2 & E2 & Hinv2 & Hn2 & Hb2 & Hs2); [lia|].
  exists b2, f2. rewrite (handle_commands_app _ _ _ _ _ _ E1). split_and!; [done| |lia| |congruence].
  - unfold turn_records. rewrite cmds_inserts_app, batch_records_app, Hb1, app_assoc. exact Hinv2.
  - by rewrite batch_records_next, Hb1.
Qed.
End inside.

(** ** Between turns the runs are those of CoreSystem *)

Section reduction.
Context {H : Type} `{SstCodec, !MinHeap CoreHeapItem H, !MinHeapLaws CoreHeapItem H, !SstCodecLaws}.
Implicit Types (b : Backend) (s : Sys).

(** a step of the worker does not depend on the engine *)
Lemma worker_step_engine b e jobs results s' :
  worker_step (H := H) (Build_Sys _ (b_with_engine b e) jobs results) s' ->
  exists b2, s_backend s' = b_with_engine b2 e /\ b_engine b2 = b_engine b /\
    worker_step (H := H) (Build_Sys _ b jobs results) (Build_Sys _ b2 (s_jobs s') (s_results s')).
Proof.
  inversion 1 as [? c cmds ? ? E|? pre m id post meta file ? E|? pre tables id post meta file ids ? E|? pre c post ssts ? E]; subst; cbn in *.
  - exists (b_with_cmds b cmds). split_and!; [done|done|by apply worker_take].
  - exists (b_with_ssts b (<[id := file]> (d_ssts b))). split_and!; [done|done|by apply worker_flush].
  - exists (b_with_ssts b (<[id := file]> (d_ssts b))). split_and!; [done|done|by eapply worker_compact].
  - exists (b_with_ssts b ssts). split_and!; [done|done|by eapply worker_fail].
Qed.

(** a state inside a turn: the commands [cmds] have been handled since a
    state of CoreSystem in which the worker was as far as it is now *)
Definition in_turn (s0 : Sys) (ins new : list CoreRecord) (s : Sys) (f : bool) : Prop :=
  exists b cmds, sys_run (H := H) s0 ins (Build_Sys _ b (s_jobs s) (s_results s)) /\
    Forall insert_ok (cmds_inserts cmds) /\ handle_commands cmds false b = (s_backend s, Ok f) /\
    new = turn_records cmds b /\ wal_grew (b_engine b) (b_engine (s_backend s)) /\
    e_seq_counter (b_engine (s_backend s)) = e_seq_counter (b_engine b) + blen (cmds_inserts cmds) /\
    (batch_records (cmds_inserts cmds) (e_seq_counter (b_engine b))).2 = e_seq_counter (b_engine (s_backend s)) /\
    e_sst_counter (b_engine (s_backend s)) = e_sst_counter (b_engine b).
Definition turn_rel (s0 : Sys) (ins new : list CoreRecord) (x : Sys * option bool) : Prop :=
  match x.2 with
  | None => new = [] /\ sys_run (H := H) s0 ins x.1
  | Some f => in_turn s0 ins new x.1 f
  end.

Lemma in_turn_command s0 ins new b jobs results c f b' f' :
  in_turn s0 ins new (Build_Sys _ b jobs results) f -> sys_inv (ins ++ new) (Build_Sys _ b jobs results) ->
  Forall insert_ok (cmds_inserts [c]) -> e_seq_counter (b_engine b) + blen (cmds_inserts [c]) <= u64_max ->
  handle_commands [c] f b = (b', Ok f') ->
  in_turn s0 ins (new ++ turn_records [c] b) (Build_Sys _ b' jobs results) f' /\
  sys_inv (ins ++ new ++ turn_records [c] b) (Build_Sys _ b' jobs results).
Proof.
  intros (b0 & cmds & Hrun & Hok & E & -> & Hg & Hn & Hb & Hs) Hinv Hc Hroom Ec. cbn [s_backend s_jobs s_results] in *.
  destruct (handle_one_inv c f _ b jobs results Hinv Hc Hroom) as (b2 & f2 & E2 & Hinv2 & Hn2 & Hb2 & Hs2).
  rewrite Ec in E2. injection E2 as <- <-. split; [|by rewrite <- app_assoc in Hinv2].
  exists b0, (cmds ++ [c]). rewrite cmds_inserts_app, blen_app. split_and!; [done|by apply Forall_app_2| | | | | |cbn; congruence].
  - by rewrite (handle_commands_app cmds [c] false b0 b f E).
  - unfold turn_records. rewrite cmds_inserts_app, batch_records_app. by rewrite Hb.
  - unfold wal_grew in *; etrans; [exact Hg|]. pose proof (handle_one_grows c f b) as Hgrow. by rewrite Ec in Hgrow.
  - cbn [s_backend]. lia.
  - cbn [s_backend]. by rewrite batch_records_next, Hb.
Qed.

Lemma in_turn_end s0 ins new b jobs results f rename_ok b' :
  in_turn s0 ins new (Build_Sys _ b jobs results) f -> has_room 0 b -> end_turn rename_ok f b = (b', Ok tt) ->
  sys_run (H := H) s0 (ins ++ new) (Build_Sys _ b' jobs results).
Proof.
  intros (b0 & cmds & Hrun & Hok & E & -> & _ & Hn & _ & Hs) [Hr1 Hr2] Ee. cbn in *.
  eapply run_step; [exact Hrun|]. apply (step_commands b0 b' jobs results rename_ok cmds); [done|split; lia|].
  by rewrite turn_commands_end, st_bind_unfold, E.
Qed.

Lemma in_turn_worker s0 ins new s s' f :
  in_turn s0 ins new s f -> worker_step (H := H) s s' -> in_turn s0 ins new s' f.
Proof.
  intros (b0 & cmds & Hrun & Hok & E & -> & Hg & Hn & Hb & Hs) Hw. destruct s as [b jobs results]. cbn in *.
  destruct (handle_commands_engine cmds false b0 b0 b f eq_refl E) as [[e ->] _]. cbn in *.
  destruct (worker_step_engine b0 e jobs results s' Hw) as (b2 & Eb & E2 & Hw2).
  destruct (handle_commands_engine cmds false b0 b2 _ f E2 E) as [_ Ec]. cbn in Ec.
  exists b2, cmds. unfold turn_records. rewrite Eb, E2. cbn. split_and!; try done.
  rewrite <- (app_nil_r ins). eapply run_step; [exact Hrun|]. by apply worker_step_sys.
Qed.

Lemma turn_run_rel limit config s0 ins new x :
  sys_start limit config = Ok s0 -> turn_run (H := H) s0 ins new x -> turn_rel s0 ins new x /\ sys_inv (ins ++ new) x.1.
Proof.
  intros Hstart. induction 1 as [|ins new x recs s f _ [IH Hinv] Hstep|ins new x recs s _ [IH Hinv] Hstep].
  - split; [split; [done|constructor]|]. by destruct (sys_start_inv limit config s0 Hstart).
  - inversion Hstep as [s1|b b' jobs results c f1 f2 Hc Hroom E| | |s1 s2 t Hw]; subst; cbn in *; rewrite ?app_nil_r.
    + destruct IH as [-> Hrun]. split; [|by rewrite app_nil_r in *]. exists (s_backend s), []. cbn. unfold wal_grew.
      destruct s. cbn. split_and!; try done. by rewrite Z.add_0_r.
    + destruct (in_turn_command _ _ _ _ _ _ _ _ _ _ IH Hinv Hc Hroom E). by split.
    + split; [by eapply in_turn_worker|]. rewrite <- (app_nil_r (ins ++ new)). eapply sys_step_inv; [exact Hinv|]. by apply worker_step_sys.
  - assert (sys_run (H := H) s0 (ins ++ new ++ recs) s) as Hrun'.
    { inversion Hstep as [|  |b b' jobs results rn f1 Hroom E|b jobs r results Hroom|s1 s2 t Hw]; subst; cbn in *; rewrite ?app_nil_r.
      - by eapply in_turn_end.
      - destruct IH as [-> Hrun]. eapply (run_step _ _ _ []); [exact Hrun|]. by apply step_result.
      - destruct IH as [-> Hrun]. eapply (run_step _ _ _ []); [exact Hrun|]. by apply worker_step_sys. }
    cbn. split; [done|]. rewrite app_nil_r. by destruct (sys_run_inv s0 limit config _ s Hstart Hrun').
Qed.

(** and every run of CoreSystem is one of these *)
Lemma sys_run_turns s0 ins s limit config :
  sys_start limit config = Ok s0 -> sys_run (H := H) s0 ins s -> turn_run (H := H) s0 ins [] (s, None).
Proof.
  intros Hstart. induction 1 as [|ins s recs s' Hrun IH Hstep]; [constructor|].
  assert (forall s', worker_step (H := H) s s' -> turn_run (H := H) s0 (ins ++ []) [] (s', None)) as Hwork.
  { intros s1 Hw. eapply (turns_between s0 ins [] (s, None) [] s1); [done|by apply turn_works]. }
  destruct Hstep as [b b' jobs results rn cmds Hok [Hr1 Hr2] E|b jobs r results Hroom|b c cmds jobs results E
    |b pre m id post meta file results E|b pre tables id post meta file ids results E|b pre c post ssts results Hssts].
  2:{ eapply (turns_between s0 ins [] (_, None) []); [exact IH|by apply turn_applies]. }
  2-5: apply Hwork; by econstructor.
  destruct (turn_run_rel _ _ _ _ _ _ Hstart IH) as [_ Hinv]. cbn [fst] in Hinv. rewrite app_nil_r in Hinv.
  assert (forall cmds f b1, Forall insert_ok (cmds_inserts cmds) -> e_seq_counter (b_engine b) + blen (cmds_inserts cmds) <= u64_max ->
    handle_commands cmds false b = (b1, Ok f) ->
    turn_run (H := H) s0 ins (turn_records cmds b) (Build_Sys _ b1 jobs results, Some f)) as Hin.
  { clear E Hok Hr1 Hr2 cmds. induction cmds as [|c cmds IHc] using rev_ind; intros f b1 Hok Hroom E.
    - injection E as <- <-. eapply (turns_inside s0 ins [] (_, None) []); [exact IH|apply turn_begins].
    - rewrite cmds_inserts_app in Hok, Hroom. apply Forall_app in Hok as [Hok1 Hok2]. rewrite blen_app in Hroom.
      pose proof (blen_nonneg (cmds_inserts [c])).
      destruct (handle_commands_counters ins b jobs results cmds Hinv Hok1 ltac:(lia)) as (b2 & f2 & E2 & _ & Hn & Hb & _).
      rewrite (handle_commands_app _ _ _ _ _ _ E2) in E. unfold turn_records at 1. rewrite cmds_inserts_app, batch_records_app, Hb.
      eapply turns_inside; [by apply IHc; [|lia|]|]. apply turn_command; [done|lia|done]. }
  destruct (handle_commands_counters ins b jobs results cmds Hinv Hok Hr1) as (b1 & f & E1 & Hinv1 & Hn & _ & Hs).
  rewrite turn_commands_end, st_bind_unfold, E1 in E. rewrite <- (app_nil_r (turn_records cmds b)).
  eapply turns_between; [by apply Hin|]. eapply turn_ends; [|exact E].
  destruct (mi_counters _ _ (inv_mem _ _ Hinv1)) as [Hc _]. cbn in Hc. split; lia.
Qed.
End reduction.
