(* ===== verification/CoreGc.v ===== *)
(** * The deletion of rotated logs

    [apply_flush_result] of storage/backend.rs deletes the logs of flushes
    that have been applied, in the order of their numbers. The loop ends; it
    deletes no log before its flush and the next one have been applied; and
    it never passes a number that a compaction has taken. *)
From S2P Require Import Prelude Std Codec CoreProto CoreStorage CoreIter CoreEngine CoreBackend CoreSystem CoreTurns.

Section gc.
Context `{SstModule}.
Implicit Types (b : Backend).

(** the flushes that have been applied, from the next log to delete on *)
Definition applied_from b : gset Z := filter (fun j => b_next_wal_to_del b <= j) (b_applied_flushes b).

Lemma delete_wals_ends fuel : forall b,
  0 <= b_next_wal_to_del b -> (forall j, j ∈ b_applied_flushes b -> j < u64_max) -> (size (applied_from b) < fuel)%nat ->
  let b' := delete_wals fuel b in
  ~ (b_next_wal_to_del b' ∈ b_applied_flushes b' /\ wrap64 (b_next_wal_to_del b' + 1) ∈ b_applied_flushes b').
Proof.
  induction fuel as [|fuel IH]; intros b Hn Happ Hf; [lia|]. cbn [delete_wals].
  destruct (bool_decide (b_next_wal_to_del b ∈ b_applied_flushes b) && _) eqn:E.
  2:{ intros [H1 H2]. by rewrite !bool_decide_eq_true_2 in E. }
  apply andb_true_iff in E as [E1%bool_decide_eq_true E2%bool_decide_eq_true]. pose proof (Happ _ E1) as Hlt.
  set (b1 := match bmap_get _ _ with Some _ => _ | None => _ end).
  assert (b_applied_flushes b1 = b_applied_flushes b) as E4 by (unfold b1; by destruct (bmap_get _ _)).
  assert (wrap64 (b_next_wal_to_del b + 1) = b_next_wal_to_del b + 1) as Ew
    by (unfold wrap64, u64_max in *; apply Z.mod_small; lia).
  rewrite Ew. apply IH; cbn; rewrite ?E4; [lia|done|].
  eapply Nat.lt_le_trans; [|by apply Nat.lt_succ_r, Hf].
  apply subset_size. unfold applied_from. cbn. rewrite ?E4. split; [set_unfold; intros j [? ?]; split; [lia|done]|].
  intros Hsub. specialize (Hsub (b_next_wal_to_del b)). set_unfold. destruct Hsub as [? _]; [split; [lia|done]|]. lia.
Qed.

(** the condition of the loop *)
Definition gc_more b : Prop := b_next_wal_to_del b ∈ b_applied_flushes b /\ wrap64 (b_next_wal_to_del b + 1) ∈ b_applied_flushes b.

(** one call of the loop *)
Lemma delete_wals_once b : 1 <= b_next_wal_to_del b -> (forall j, j ∈ b_applied_flushes b -> j < u64_max) ->
  (forall id w, bmap_get id (b_stale_wals b) = Some w -> w = id) ->
  let b' := delete_wals (S (size (b_applied_flushes b))) b in
  ~ gc_more b' /\ b_applied_flushes b' = b_applied_flushes b /\ b_engine b' = b_engine b /\ io_cmds b' = io_cmds b /\
  (forall id, d_wals b' !! id = d_wals b !! id \/
     (d_wals b' !! id = None /\ id ∈ b_applied_flushes b /\ wrap64 (id + 1) ∈ b_applied_flushes b)) /\
  (forall c, c ∉ b_applied_flushes b -> b_next_wal_to_del b <= c ->
     b_next_wal_to_del b' <= c /\ forall id, c <= id -> d_wals b' !! id = d_wals b !! id).
Proof.
  intros Hn Happ Hst b'. destruct (delete_wals_spec (S (size (b_applied_flushes b))) b Hn Happ Hst) as (Eb & Hle & Hj & _ & Hw).
  fold b' in Eb, Hle, Hj, Hw. assert (b_applied_flushes b' = b_applied_flushes b) as Ea by (by rewrite Eb).
  split_and!; [|done|by rewrite Eb..| |].
  - apply delete_wals_ends; [lia|done|]. apply Nat.lt_succ_r, subseteq_size. unfold applied_from. set_solver.
  - intros id. destruct (Hw id) as [?|[? Hr]]; [by left|right]. destruct (Hj id Hr). done.
  - intros c Hc Hnc. assert (b_next_wal_to_del b' <= c) as Hstop.
    { destruct (decide (b_next_wal_to_del b' <= c)); [done|]. destruct (Hj c) as [? _]; [lia|done]. }
    split; [done|]. intros id Hid. destruct (Hw id) as [?|[_ Hr]]; [done|lia].
Qed.
End gc.

(** ** What a step does to the numbers *)

Section effects.
Context `{SstCodec}.
Implicit Types (b : Backend).

(** only the log, the commands and the counter may have changed *)
Definition gc_frame b b' : Prop :=
  b_applied_flushes b' = b_applied_flushes b /\ b_next_wal_to_del b' = b_next_wal_to_del b.
(** the counter has been left alone or raised *)
Definition next_number (e e' : Engine (list byte)) : Prop :=
  e_sst_counter e' = e_sst_counter e \/ e_sst_counter e' = wrap64 (e_sst_counter e + 1).

Lemma send_flush_gc rn b b' o : send_flush_cmd rn b = (b', o) -> gc_frame b b' /\ next_number (b_engine b) (b_engine b') /\
  ((io_cmds b' = io_cmds b /\ d_wals b' = d_wals b) \/
   (exists f, d_wals b' = <[e_sst_counter (b_engine b) := f]> (d_wals b)) /\
   (io_cmds b' = io_cmds b \/ exists m, io_cmds b' = io_cmds b ++ [ResyncWal; FlushMemtable m (e_sst_counter (b_engine b))])).
Proof.
  unfold send_flush_cmd. destruct (is_memtable_empty (b_engine b)); [intros [= <- _]; split_and!; [done|by left|by left]|].
  unfold prepare_flush. cbn [core_memtable_freeze]. unfold rotate_wal, on_engine. cbn [b_engine b_with_engine]. rewrite flush_wal_buffer_vec.
  destruct rn; cbn [negb]; [|intros [= <- _]; split_and!; [done|by right|by left]]. intros [= <- _]. unfold gc_frame, next_number.
  split; [by unfold io_send; cbn; destruct (io_alive b) eqn:Ea; cbn; rewrite ?Ea|].
  split; [right; by unfold io_send; cbn; destruct (io_alive b) eqn:Ea; cbn; rewrite ?Ea|]. right. unfold io_send. cbn. destruct (io_alive b) eqn:Ea; cbn; rewrite ?Ea; cbn; (split; [by eexists|]); [right|by left].
  eexists. by rewrite <- app_assoc.
Qed.

Lemma turn_commands_gc rn cmds b b' : turn_commands rn cmds b = (b', Ok tt) -> gc_frame b b' /\ exists e f,
  handle_commands cmds false b = (b_with_engine b e, Ok f) /\ next_number e (b_engine b') /\
  ((io_cmds b' = io_cmds b /\ d_wals b' = d_wals b) \/
   (exists f, d_wals b' = <[e_sst_counter e := f]> (d_wals b)) /\
   (io_cmds b' = io_cmds b \/ exists m, io_cmds b' = io_cmds b ++ [ResyncWal; FlushMemtable m (e_sst_counter e)])).
Proof.
  unfold turn_commands. rewrite st_bind_unfold. destruct (handle_commands cmds false b) as [b1 [f|er|]] eqn:E; [|done..].
  destruct (handle_commands_frame _ _ _ _ _ E) as [e ->]. rewrite st_bind_unfold. unfold ignore_err, send_wal_sync_cmd, on_engine.
  cbn [b_engine b_with_engine]. rewrite flush_wal_buffer_vec. destruct f.
  - destruct (send_flush_cmd rn _) as [b2 o] eqn:Es. apply send_flush_gc in Es as (Hg & Hnn & Hc). cbn in Hnn, Hc.
    destruct o; intros [= <-]; (split; [exact Hg|]); by exists e, true.
  - intros [= <-]. split; [done|]. exists e, false. split_and!; [done|by left|by left].
Qed.

Lemma send_compaction_gc b : let b' := send_compaction_cmd b in
  gc_frame b b' /\ d_wals b' = d_wals b /\
  next_number (b_engine b) (b_engine b') /\
  (io_cmds b' = io_cmds b \/ (exists tables, io_cmds b' = io_cmds b ++ [CompactSSTables tables (e_sst_counter (b_engine b))]) /\
     e_sst_counter (b_engine b') = wrap64 (e_sst_counter (b_engine b) + 1)).
Proof.
  unfold send_compaction_cmd, next_number. destruct (negb _); [split_and!; [done|done|by left|by left]|].
  destruct (_ <? 2); [split_and!; [done|done|by left|by left]|].
  unfold allocate_sstable_id, io_send. cbn. destruct (io_alive b); (split_and!; [done|done|by right|]); [right; split; [by eexists|done]|by left].
Qed.
End effects.

(** ** Numbers taken by compactions *)

Section system_gc.
Context {H : Type} `{SstCodec, !MinHeap CoreHeapItem H, !MinHeapLaws CoreHeapItem H, !SstCodecLaws}.
Implicit Types (b : Backend) (s : Sys).

(** a flush with number [id] is on its way *)
Definition flush_waiting (cmds : list IoCommand) (results : list IoResult) (id : Z) : Prop :=
  (exists m, FlushMemtable m id ∈ cmds) \/ exists meta, FlushResult meta ∈ results /\ meta_id meta = id.
Definition compaction_pending (cmds : list IoCommand) (c : Z) : Prop := exists tables, CompactSSTables tables c ∈ cmds.

(** [c] is not the number of a flush, and the deletion has not passed it *)
Definition stuck_at (c : Z) b (jobs : list IoCommand) (results : list IoResult) : Prop :=
  c < e_sst_counter (b_engine b) /\ (c ∉ b_applied_flushes b) /\ b_next_wal_to_del b <= c /\
  ~ flush_waiting (io_cmds b ++ jobs) results c.

Lemma flush_pending_out cmds results id : flush_waiting cmds results id -> id ∈ out_ids cmds results.
Proof.
  intros [(m & Hm)|(meta & Hm & <-)]; [eapply elem_out_cmd; [exact Hm|by apply list_elem_of_singleton]|].
  by apply (elem_out_res (FlushResult meta)).
Qed.
Lemma compaction_pending_out cmds results c : compaction_pending cmds c -> c ∈ out_ids cmds results.
Proof. intros (tables & Hc). eapply elem_out_cmd; [exact Hc|by apply list_elem_of_singleton]. Qed.

(** applying a flush *)
Lemma apply_flush_gc ins b jobs meta results :
  sys_inv ins (Build_Sys _ b jobs (FlushResult meta :: results)) ->
  let b' := (apply_flush_result meta b).1 in
  b_applied_flushes b' = b_applied_flushes b ∪ {[meta_id meta]} /\ e_sst_counter (b_engine b') = e_sst_counter (b_engine b) /\
  io_cmds b' = io_cmds b /\ ~ gc_more b' /\
  (forall id, d_wals b' !! id = d_wals b !! id \/
     (d_wals b' !! id = None /\ id ∈ b_applied_flushes b' /\ wrap64 (id + 1) ∈ b_applied_flushes b')) /\
  (forall c, c ∉ b_applied_flushes b' -> b_next_wal_to_del b <= c ->
     b_next_wal_to_del b' <= c /\ forall id, c <= id -> d_wals b' !! id = d_wals b !! id).
Proof.
  intros [Hm _ Hl Hio]. cbn in Hm, Hl, Hio. destruct (mi_counters _ _ Hm) as [_ Hc].
  apply io_inv_pop in Hio as (_ & _ & _ & Hid & _). cbn [res_out] in Hid. unfold apply_flush_result. cbn [fst].
  set (b1 := b_with_applied _ _ _). destruct (delete_wals_once b1) as (Hend & Ea & Ee & Eio & Hdel & Hstop).
  - cbn. apply (li_next _ _ Hl).
  - intros j. cbn. rewrite elem_of_union, elem_of_singleton. intros [Hj| ->]; [|lia]. apply (li_applied _ _ Hl) in Hj. lia.
  - cbn. apply (li_stale _ _ Hl).
  - set (b2 := delete_wals _ b1) in *. clearbody b2. cbn. rewrite Ea, Ee, Eio. split_and!; try done.
Qed.

(** the result of a task *)
Lemma turn_result_gc ins b jobs r results :
  sys_inv ins (Build_Sys _ b jobs (r :: results)) -> ~ gc_more b ->
  let b' := turn_result r b in
  ~ gc_more b' /\ b_applied_flushes b' = b_applied_flushes b ∪ (match r with FlushResult meta => {[meta_id meta]} | _ => ∅ end) /\
  (forall id, d_wals b' !! id = d_wals b !! id \/
     (d_wals b' !! id = None /\ id ∈ b_applied_flushes b' /\ wrap64 (id + 1) ∈ b_applied_flushes b')) /\
  (forall c, c ∉ b_applied_flushes b' -> b_next_wal_to_del b <= c ->
     b_next_wal_to_del b' <= c /\ forall id, c <= id -> d_wals b' !! id = d_wals b !! id) /\
  next_number (b_engine b) (b_engine b') /\
  (io_cmds b' = io_cmds b \/ (exists tables, io_cmds b' = io_cmds b ++ [CompactSSTables tables (e_sst_counter (b_engine b))]) /\
     e_sst_counter (b_engine b') = wrap64 (e_sst_counter (b_engine b) + 1)).
Proof.
  intros Hinv Hmore.
  assert (exists b1 more, turn_result r b = (if (more : bool) then send_compaction_cmd b1 else b1) /\
    b_applied_flushes b1 = b_applied_flushes b ∪ (match r with FlushResult meta => {[meta_id meta]} | _ => ∅ end) /\
    e_sst_counter (b_engine b1) = e_sst_counter (b_engine b) /\ io_cmds b1 = io_cmds b /\ ~ gc_more b1 /\
    (forall id, d_wals b1 !! id = d_wals b !! id \/
       (d_wals b1 !! id = None /\ id ∈ b_applied_flushes b1 /\ wrap64 (id + 1) ∈ b_applied_flushes b1)) /\
    (forall c, c ∉ b_applied_flushes b1 -> b_next_wal_to_del b <= c ->
       b_next_wal_to_del b1 <= c /\ forall id, c <= id -> d_wals b1 !! id = d_wals b !! id)) as (b1 & more & E & Ea & Ec & Eio & Hend & Hdel & Hstop).
  { unfold turn_result. destruct r as [meta|meta ids].
    - pose proof (apply_flush_gc ins b jobs meta results Hinv) as Hg. destruct (apply_flush_result meta b) as [b1 more]. cbn in Hg. by exists b1, more.
    - destruct (apply_compaction_spec meta ids b) as [_ Eb]. destruct (apply_compaction_result meta ids b) as [b1 more]. cbn in Eb.
      exists b1, more. rewrite Eb. cbn. split_and!; try done; [set_solver|by left]. }
  rewrite E. destruct more.
  - destruct (send_compaction_gc b1) as ([E1 E2] & E3 & Hnn & Hcmd). unfold gc_more, next_number in *. rewrite E1, E2, E3, <- Eio, <- Ec. by split_and!.
  - split_and!; try done; by left.
Qed.

(** what every step keeps *)
Definition gc_inv s : Prop := ~ gc_more (s_backend s) /\
  forall c, compaction_pending (io_cmds (s_backend s) ++ s_jobs s) c -> stuck_at c (s_backend s) (s_jobs s) (s_results s).

Definition gc_step s s' : Prop :=
  b_applied_flushes (s_backend s) ⊆ b_applied_flushes (s_backend s') /\
  (forall id, is_Some (d_wals (s_backend s) !! id) -> is_Some (d_wals (s_backend s') !! id) \/
     (id ∈ b_applied_flushes (s_backend s') /\ wrap64 (id + 1) ∈ b_applied_flushes (s_backend s'))) /\
  forall c, stuck_at c (s_backend s) (s_jobs s) (s_results s) -> stuck_at c (s_backend s') (s_jobs s') (s_results s') /\
    forall id f, c <= id -> d_wals (s_backend s) !! id = Some f -> d_wals (s_backend s') !! id = Some f.

(** steps of the worker leave what counts here alone *)
Lemma worker_gc s s' : worker_step (H := H) s s' -> (gc_more (s_backend s') <-> gc_more (s_backend s)) /\ gc_step s s' /\
  forall c, compaction_pending (io_cmds (s_backend s') ++ s_jobs s') c -> compaction_pending (io_cmds (s_backend s) ++ s_jobs s) c.
Proof.
  assert (forall b b' jobs jobs' results results', b_engine b' = b_engine b -> b_applied_flushes b' = b_applied_flushes b ->
    b_next_wal_to_del b' = b_next_wal_to_del b -> d_wals b' = d_wals b ->
    (forall id, flush_waiting (io_cmds b' ++ jobs') results' id -> flush_waiting (io_cmds b ++ jobs) results id) ->
    (forall c, compaction_pending (io_cmds b' ++ jobs') c -> compaction_pending (io_cmds b ++ jobs) c) ->
    (gc_more b' <-> gc_more b) /\ gc_step (Build_Sys _ b jobs results) (Build_Sys _ b' jobs' results') /\
    forall c, compaction_pending (io_cmds b' ++ jobs') c -> compaction_pending (io_cmds b ++ jobs) c) as Hframe.
  { intros b b' jobs jobs' results results' Ee Ea En Ew Hfl Hc. unfold gc_more, gc_step, stuck_at. cbn. rewrite Ea, En, Ee, Ew.
    split_and!; [done|done|by left| |done]. intros c (? & ? & ? & Hno). split; [|done]. split_and!; try done. by intros ?%Hfl. }
  destruct 1 as [b c cmds jobs results E|b pre m id post meta file results E|b pre tables id post meta file ids results E|b pre c post ssts results E];
    apply Hframe; try done; cbn.
  - intros id. unfold flush_waiting. rewrite E. destruct c; cbn [spawn]; set_solver.
  - intros id. unfold compaction_pending. rewrite E. destruct c; cbn [spawn]; set_solver.
  - intros i [(m' & Hm)|(meta' & Hm & <-)]; [left; exists m'; set_solver|].
    apply elem_of_app in Hm as [Hm|[= ->]%list_elem_of_singleton]; [right; by exists meta'|left]. exists m.
    pose proof (write_id id (cmt_bset m) (blen (cmt_bset m))) as Hid. unfold handle_flush in E. rewrite E in Hid. cbn in Hid. subst. set_solver.
  - intros i (t & Ht). exists t. set_solver.
  - intros i [(m' & Hm)|(meta' & Hm & <-)]; [left; exists m'; set_solver|].
    apply elem_of_app in Hm as [Hm|Hm%list_elem_of_singleton]; [right; by exists meta'|done].
  - intros i (t & Ht). exists t. set_solver.
  - intros i [(m' & Hm)|?]; [left; exists m'; set_solver|by right].
  - intros i (t & Ht). exists t. set_solver.
Qed.

(** a number that has just been taken *)
Lemma fresh_number ins b jobs results : sys_inv ins (Build_Sys _ b jobs results) -> let c := e_sst_counter (b_engine b) in
  (c ∉ b_applied_flushes b) /\ b_next_wal_to_del b <= c /\ ~ flush_waiting (io_cmds b ++ jobs) results c.
Proof.
  intros [Hm _ Hl Hio] c. cbn in Hm, Hl, Hio. assert (c ∉ b_applied_flushes b) as Hc by (intros [Hj _]%(li_applied _ _ Hl); lia).
  split_and!; [done| |intros [Hlt _]%flush_pending_out%(ii_out_new _ _ _ _ _ Hio); lia].
  destruct (decide (b_next_wal_to_del b <= c)); [done|]. exfalso. apply Hc, (li_next _ _ Hl).
  destruct (mi_counters _ _ Hm). lia.
Qed.

Lemma next_number_le e e' : 1 <= e_sst_counter e -> e_sst_counter e + 1 <= u64_max -> next_number e e' -> e_sst_counter e <= e_sst_counter e'.
Proof. intros H1' Hroom [->| ->]; [lia|]. unfold wrap64, u64_max in *. rewrite Z.mod_small; lia. Qed.

Lemma commands_gc ins b b' jobs results rn cmds :
  sys_inv ins (Build_Sys _ b jobs results) -> Forall insert_ok (cmds_inserts cmds) -> has_room (blen (cmds_inserts cmds)) b ->
  turn_commands rn cmds b = (b', Ok tt) ->
  (gc_more b' <-> gc_more b) /\ gc_step (Build_Sys _ b jobs results) (Build_Sys _ b' jobs results) /\
  forall c, compaction_pending (io_cmds b' ++ jobs) c -> compaction_pending (io_cmds b ++ jobs) c.
Proof.
  intros Hinv Hok [Hr1 Hr2] E. destruct (turn_commands_gc rn cmds b b' E) as ([Ea En] & e & f & Eh & Hnn & Hcase).
  destruct (handle_commands_inv cmds false ins b jobs results Hinv Hok Hr1) as (b1 & f1 & Eh' & _ & Hs).
  rewrite Eh in Eh'. injection Eh' as <- _. cbn in Hs.
  destruct (mi_counters _ _ (inv_mem _ _ Hinv)) as [_ Hc]. cbn in Hc.
  apply next_number_le in Hnn; [|lia..]. unfold gc_more, gc_step. cbn. rewrite Ea, En.
  assert (forall id f, d_wals b !! id = Some f -> d_wals b' !! id = Some f) as Hkeep.
  { intros id g Hg. destruct Hcase as [[_ ->]|[[x ->] _]]; [done|]. destruct (li_logs _ _ (inv_log _ _ Hinv) id g Hg) as [Hlt _]. cbn in Hlt.
    rewrite lookup_insert_ne by lia. done. }
  split_and!; [done|done|intros id [g Hg]; left; eauto| |].
  - intros c (Hlt & Hna & Hnx & Hno). split; [|eauto]. split_and!; [lia|by rewrite Ea|by rewrite En|]. intros [(m & Hm)|Hr]; apply Hno; [|by right].
    destruct Hcase as [[Ei _]|[_ [Ei|(m' & Ei)]]]; rewrite Ei in Hm; [by left; exists m..|]. left. exists m.
    rewrite <- app_assoc, !elem_of_app, !elem_of_cons in Hm. rewrite elem_of_app. destruct Hm as [?|[[Hm|[[= _ Hid]|Hm]]|?]]; [by left|done|lia|by apply not_elem_of_nil in Hm|by right].
  - intros c (t & Ht). exists t. destruct Hcase as [[Ei _]|[_ [Ei|(m' & Ei)]]]; rewrite Ei in Ht; [done..|].
    rewrite <- app_assoc, !elem_of_app, !elem_of_cons in Ht. rewrite elem_of_app. destruct Ht as [?|[[Hm|[Hm|Hm]]|?]]; [by left|done|done|by apply not_elem_of_nil in Hm|by right].
Qed.

Lemma result_gc ins b jobs r results :
  sys_inv ins (Build_Sys _ b jobs (r :: results)) -> has_room 0 b -> gc_inv (Build_Sys _ b jobs (r :: results)) ->
  gc_inv (Build_Sys _ (turn_result r b) jobs results) /\
  gc_step (Build_Sys _ b jobs (r :: results)) (Build_Sys _ (turn_result r b) jobs results).
Proof.
  intros Hinv [_ Hroom] [Hmore Hcomp]. destruct (turn_result_gc ins b jobs r results Hinv Hmore) as (Hm' & Ea & Hdel & Hstop & Hnn & Hcmds).
  destruct (mi_counters _ _ (inv_mem _ _ Hinv)) as [_ Hc]. cbn in Hc, Hmore, Hcomp.
  pose proof (next_number_le _ _ (proj1 Hc) Hroom Hnn) as Hle.
  assert (forall c, ~ flush_waiting (io_cmds b ++ jobs) (r :: results) c -> c ∉ b_applied_flushes b -> b_next_wal_to_del b <= c ->
    c < e_sst_counter (b_engine (turn_result r b)) ->
    stuck_at c (turn_result r b) jobs results /\ forall id f, c <= id -> d_wals b !! id = Some f -> d_wals (turn_result r b) !! id = Some f) as Hkeep.
  { intros c Hno Hna Hnx Hlt. assert (c ∉ b_applied_flushes (turn_result r b)) as Hna'.
    { rewrite Ea. destruct r as [meta|meta ids]; [|set_solver]. rewrite not_elem_of_union, not_elem_of_singleton. split; [done|].
      intros ->. apply Hno. right. exists meta. split; [by left|done]. }
    destruct (Hstop c Hna' Hnx) as [Hn Hlogs]. split; [|intros id f Hid Hf; by rewrite Hlogs].
    split_and!; [done|done|done|]. intros [(m & Hm)|(meta & Hr & Hid)]; apply Hno; [|right; exists meta; split; [by right|done]].
    left. exists m. destruct Hcmds as [Ei|[(t & Ei) _]]; rewrite Ei in Hm; [done|].
    rewrite <- app_assoc, !elem_of_app, list_elem_of_singleton in Hm. rewrite elem_of_app. destruct Hm as [?|[Hm|?]]; [by left|done|by right]. }
  split; [split; [done|]|split_and!]; cbn [s_backend s_jobs s_results].
  - intros c (t & Ht). destruct Hcmds as [Ei|[(t' & Ei) Ec]]; rewrite Ei in Ht.
    + destruct (Hcomp c) as (Hlt & Hna & Hnx & Hno); [by exists t|]. apply Hkeep; try done. lia.
    + rewrite <- app_assoc, !elem_of_app, list_elem_of_singleton in Ht.
      assert (compaction_pending (io_cmds b ++ jobs) c \/ c = e_sst_counter (b_engine b)) as [Hold| ->].
      { destruct Ht as [?|[[= _ ->]|?]]; [left; exists t; apply elem_of_app; by left|by right|left; exists t; apply elem_of_app; by right]. }
      * destruct (Hcomp c Hold) as (Hlt & Hna & Hnx & Hno). apply Hkeep; try done. lia.
      * destruct (fresh_number ins b jobs (r :: results) Hinv) as (Hna & Hnx & Hno). apply Hkeep; try done.
        rewrite Ec. unfold wrap64, u64_max in *. rewrite Z.mod_small; lia.
  - rewrite Ea. set_solver.
  - intros id Hs. destruct (Hdel id) as [->|(_ & ? & ?)]; [by left|by right].
  - intros c (Hlt & Hna & Hnx & Hno). apply Hkeep; try done. lia.
Qed.

Lemma sys_step_gc ins s recs s' : sys_inv ins s -> gc_inv s -> sys_step (H := H) s recs s' -> gc_inv s' /\ gc_step s s'.
Proof.
  intros Hinv Hgc Hstep.
  assert (forall s s', gc_inv s -> (gc_more (s_backend s') <-> gc_more (s_backend s)) /\ gc_step s s' /\
    (forall c, compaction_pending (io_cmds (s_backend s') ++ s_jobs s') c -> compaction_pending (io_cmds (s_backend s) ++ s_jobs s) c) ->
    gc_inv s' /\ gc_step s s') as Hframe.
  { intros s1 s2 [Hm Hc] (Hmore & Hst & Hp). split; [|done]. split; [by rewrite Hmore|]. intros c Hpc. by apply Hst, Hc, Hp. }
  destruct Hstep as [b b' jobs results rn cmds Hok Hroom E|b jobs r results Hroom|b c cmds jobs results E
    |b pre m id post meta file results E|b pre tables id post meta file ids results E|b pre c post ssts results E].
  - apply Hframe; [done|]. by eapply commands_gc.
  - by eapply result_gc.
  - by apply Hframe, worker_gc, worker_take.
  - by apply Hframe, worker_gc, worker_flush.
  - by eapply Hframe, worker_gc, worker_compact.
  - by eapply Hframe, worker_gc, worker_fail.
Qed.

Lemma sys_run_gc limit config s0 ins s : sys_start limit config = Ok s0 -> sys_run (H := H) s0 ins s -> gc_inv s.
Proof.
  intros Hstart. induction 1 as [|ins s recs s' Hrun IH Hstep].
  - unfold sys_start, engine_open, recover_all in Hstart. cbn in Hstart. injection Hstart as <-. split.
    + intros [Hin _]. by apply not_elem_of_empty in Hin.
    + intros c (t & Ht). by apply not_elem_of_nil in Ht.
  - destruct (sys_run_inv s0 limit config ins s Hstart Hrun) as [Hinv _]. by apply (sys_step_gc ins s recs s').
Qed.

Lemma sys_run_app s0 ins s more s' : sys_run (H := H) s0 ins s -> sys_run (H := H) s more s' -> sys_run (H := H) s0 (ins ++ more) s'.
Proof.
  intros Hrun. induction 1 as [|more s1 recs s2 _ IH Hstep]; [by rewrite app_nil_r|]. rewrite app_assoc. by eapply run_step.
Qed.

(** C21: the deletion of rotated logs, in every run. In each reachable state
    the loop of [apply_flush_result] has run to its end: its condition is
    false. A log goes only once its flush and the flush with the next number
    have been applied. But numbers are shared with compactions, and once one
    has been given to a compaction it never becomes that of an applied
    flush: in every later state the deletion has not passed it, and every
    log from that number on is still there, unchanged. *)
Theorem wal_gc_ends (limit : Z) (config : BackendConfig) (s0 s s' : Sys) (ins more : list CoreRecord)
    (Hstart : sys_start limit config = Ok s0) (Hrun : sys_run (H := H) s0 ins s) (Hlater : sys_run (H := H) s more s') :
  let b := s_backend s in let b' := s_backend s' in
  ~ (b_next_wal_to_del b' ∈ b_applied_flushes b' /\ wrap64 (b_next_wal_to_del b' + 1) ∈ b_applied_flushes b') /\
  (forall id, is_Some (d_wals b !! id) -> d_wals b' !! id = None ->
     id ∈ b_applied_flushes b' /\ wrap64 (id + 1) ∈ b_applied_flushes b') /\
  (forall tables c, CompactSSTables tables c ∈ io_cmds b ++ s_jobs s ->
     (c ∉ b_applied_flushes b') /\ b_next_wal_to_del b' <= c /\
     forall id f, c <= id -> d_wals b !! id = Some f -> d_wals b' !! id = Some f).
Proof.
  pose proof (sys_run_gc limit config s0 ins s Hstart Hrun) as Hgc. intros b b'. subst b b'.
  assert (gc_inv s' /\ gc_step s s') as [[Hmore _] (_ & Hdel & Hkeep)].
  { clear -Hstart Hrun Hgc Hlater MinHeapLaws0 H2. induction Hlater as [|more s1 recs s2 Hrun1 [IHg (IHa & IHd & IHk)] Hstep].
    - split; [done|]. split_and!; [done|by left|]. intros c Hc. by split.
    - destruct (sys_run_inv s0 limit config _ s1 Hstart (sys_run_app _ _ _ _ _ Hrun Hrun1)) as [Hinv _].
      destruct (sys_step_gc _ _ _ _ Hinv IHg Hstep) as [Hg (Ha & Hd & Hk)]. split; [done|]. split_and!; [set_solver| |].
      + intros id Hid. destruct (IHd id Hid) as [Hid1|[? ?]]; [by apply Hd|right; set_solver].
      + intros c Hc. destruct (IHk c Hc) as [Hc1 Hl1]. destruct (Hk c Hc1) as [Hc2 Hl2]. split; [done|]. eauto. }
  split_and!; [done| |].
  - intros id Hid Hnone. destruct (Hdel id Hid) as [[f Hf]|?]; [by rewrite Hnone in Hf|done].
  - intros tables c Hc. destruct Hgc as [_ Hgc]. destruct (Hkeep c) as [(_ & ? & ? & _) Hlogs]; [by apply Hgc; exists tables|]. by split_and!.
Qed.
End system_gc.
