(* ===== verification/CoreSafety.v ===== *)
(** * What the backend promises in every reachable state

    Every acknowledged record can be read, and is on disk once its turn has
    ended; a query answers from all acknowledged records; no turn panics and
    every task can end. All of it follows from the invariant of CoreSystem,
    for the steps of CoreTurns where the moments inside a turn matter. *)
From S2P Require Import Prelude Std Codec CoreProto CoreStorage CoreIter CoreEngine CoreBackend CoreSystem CoreTurns.

(** the file of the active log, a rotated log or an SST has [r] *)
Definition on_disk `{SstCodec} (b : Backend) (r : CoreRecord) : Prop :=
  log_has (bw_inner (e_wal (b_engine b))) r \/
  (exists id f, d_wals b !! id = Some f /\ log_has f r) \/
  (exists id rs hint, d_ssts b !! id = Some (write_to_file id rs hint).2 /\ table_ok rs /\ r ∈ rs).

(** the bytes of [r] are in a file: in that of the active log, behind those
    of other records, in a rotated log or in an SST *)
Definition in_file `{SstCodec} (b : Backend) (r : CoreRecord) : Prop :=
  (exists rs, r ∈ rs /\ wal_wires rs `prefix_of` bw_inner (e_wal (b_engine b))) \/
  (exists id f, d_wals b !! id = Some f /\ log_has f r) \/
  (exists id rs hint, d_ssts b !! id = Some (write_to_file id rs hint).2 /\ table_ok rs /\ r ∈ rs).
(** they are in the file of the active log and the buffer in front of it *)
Definition in_log `{SstCodec} (b : Backend) (r : CoreRecord) : Prop :=
  exists rs, r ∈ rs /\ bw_total (e_wal (b_engine b)) = wal_wires rs.

(** a query that the wire format can carry *)
Definition range_req_ok (q : RangeReq) : Prop :=
  in_i64 (rng_source_id q) /\ in_i64 (rng_start_ts q) /\ in_i64 (rng_end_ts q) /\ in_u32 (blen (rng_key q)).

Definition req_match (q : RangeReq) (r : CoreRecord) : bool :=
  core_query_match (rng_source_id q) (rng_key q) (rng_start_ts q) (rng_end_ts q) (rng_filter q) r.

(** batches: full ones, then at most one that is not *)
Definition batched {A} (size : Z) (batches : list (list A)) : Prop :=
  exists full last, batches = full ++ last /\ Forall (fun l => blen l = size) full /\
    (last = [] \/ exists l, last = [l] /\ 1 <= blen l < size).

Lemma range_loop_ok size records : 1 <= size -> Forall rec_ok records -> forall batch, blen batch < size ->
  exists batches ps, range_loop size records batch None = (batches, Ok tt) /\ batched size batches /\
    concat batches = batch ++ ps /\ Forall2 (fun r p => proto_record_try_from r = Ok p) records ps.
Proof.
  intros Hsize. induction 1 as [|r records (_ & _ & p & Hp) _ IH]; intros batch Hb; cbn [range_loop].
  - exists (send_last None batch), []. rewrite app_nil_r. split_and!; [done| | |constructor].
    + exists [], (send_last None batch). split_and!; [done|constructor|]. destruct batch; [by left|right]. eexists. split; [done|]. zlia.
    + destruct batch; [done|]. cbn. by rewrite app_nil_r.
  - rewrite Hp. case_if.
    + destruct (IH [] ltac:(zlia)) as (batches & ps & E & (full & last & -> & Hf & Hl) & Hc & H2). cbn [send_batch]. rewrite E.
      exists ((batch ++ [p]) :: full ++ last), (p :: ps). split_and!; [done| | |by constructor].
      * exists ((batch ++ [p]) :: full), last. split_and!; [done| |done]. constructor; [zlia|done].
      * cbn [concat]. rewrite Hc. by rewrite <- app_assoc.
    + destruct (IH (batch ++ [p]) ltac:(zlia)) as (batches & ps & E & Hbt & Hc & H2).
      exists batches, (p :: ps). split_and!; [done|done| |by constructor]. by rewrite Hc, <- app_assoc.
Qed.

Section claims.
Context {H : Type} `{SstCodec, !MinHeap CoreHeapItem H, !MinHeapLaws CoreHeapItem H, !SstCodecLaws}.

Lemma in_tables_file e (ssts : Directory) r : in_tables e ssts r ->
  exists id rs hint, ssts !! id = Some (write_to_file id rs hint).2 /\ table_ok rs /\ r ∈ rs.
Proof. intros (id & meta & file & rs & _ & Hfile & <- & (Hok & hint & E) & Hin). exists (meta_id meta), rs, hint. by rewrite E. Qed.

(** the active log is a sequence of records, of which [log_has] reads all *)
Lemma log_has_wires ins b r : mem_inv ins (b_engine b) -> log_inv ins b ->
  log_has (bw_total (e_wal (b_engine b))) r -> in_log b r.
Proof.
  intros Hm Hl (rs & E & Hr). destruct (li_active _ _ Hl) as (A & EA & HA). exists A. split; [|done].
  rewrite EA, (recover_ok A (Forall_sub _ _ _ HA (mi_ok _ _ Hm))) in E. by injection E as ->.
Qed.

Lemma flushed_total b : flushed b -> bw_inner (e_wal (b_engine b)) = bw_total (e_wal (b_engine b)).
Proof. unfold flushed, bw_total. intros ->. by rewrite app_nil_r. Qed.

Lemma run_on_disk limit config s0 s ins r :
  sys_start limit config = Ok s0 -> sys_run (H := H) s0 ins s -> r ∈ ins -> on_disk (s_backend s) r /\ in_file (s_backend s) r.
Proof.
  intros Hstart Hrun Hr. destruct (sys_run_inv s0 limit config ins s Hstart Hrun) as [Hinv Hf].
  pose proof (flushed_total _ Hf) as Ht. unfold on_disk, in_file. rewrite Ht.
  destruct (li_durable _ _ (inv_log _ _ Hinv) r Hr) as [Hlog|[?|?%in_tables_file]]; [|by split; right; left|by split; right; right].
  split; [by left|]. left. destruct (log_has_wires _ _ _ (inv_mem _ _ Hinv) (inv_log _ _ Hinv) Hlog) as (rs & Hin & E).
  exists rs. by rewrite E.
Qed.

Lemma in_turn_file limit config s0 s ins new f r :
  sys_start limit config = Ok s0 -> in_turn (H := H) s0 ins new s f -> r ∈ ins -> in_file (s_backend s) r.
Proof.
  intros Hstart (b & cmds & Hrun & _ & E & _ & Hg & _) Hr. destruct (run_on_disk _ _ _ _ _ _ Hstart Hrun Hr) as [_ Hf].
  destruct (handle_commands_engine cmds false b b _ f eq_refl E) as [[e Eb] _]. unfold in_file in *. rewrite Eb in Hg |- *. cbn in *.
  destruct Hf as [(rs & Hin & Hpre)|?]; [left|by right]. exists rs. split; [done|]. by etrans.
Qed.

(** C2: nothing acknowledged is lost, at any moment. Commands of a turn are
    handled and acknowledged one by one, while tasks of the worker end, fail
    or are still queued in any order, and the renaming of a log may fail. In
    every state that this reaches from an empty directory each acknowledged
    record is in a memtable or in a table that queries read. The bytes of
    all that was acknowledged in turns that have ended ([ins]) are in a
    file: the active log, a rotated log or an SST; only records of the turn
    under way ([new]) may still be in the buffer of the log. Between turns
    there are none of these, and each record is where a restart reads it. *)
Theorem backend_no_loss (limit : Z) (config : BackendConfig) (s0 s : Sys) (t : option bool) (ins new : list CoreRecord)
    (Hstart : sys_start limit config = Ok s0) (Hrun : turn_run (H := H) s0 ins new (s, t)) :
  let b := s_backend s in
  (forall r, r ∈ ins ++ new -> r ∈ in_memory (b_engine b) \/ in_tables (b_engine b) (d_ssts b) r) /\
  (forall r, r ∈ ins -> in_file b r) /\
  (forall r, r ∈ new -> in_file b r \/ in_log b r) /\
  (t = None -> new = [] /\ forall r, r ∈ ins -> on_disk b r).
Proof.
  intros b. destruct (turn_run_rel _ _ _ _ _ _ Hstart Hrun) as [Hrel Hinv]. cbn in Hinv. split_and!.
  - intros r Hr. by apply (inv_sst _ _ Hinv).
  - intros r Hr. destruct t as [f|]; cbn in Hrel; [by eapply in_turn_file|]. destruct Hrel as [_ Hs]. by eapply run_on_disk.
  - intros r Hr. destruct (li_durable _ _ (inv_log _ _ Hinv) r ltac:(apply elem_of_app; by right)) as [Hlog|[?|?%in_tables_file]];
      [right|by left; right; left|by left; right; right]. by apply (log_has_wires _ _ _ (inv_mem _ _ Hinv) (inv_log _ _ Hinv)).
  - intros ->. destruct Hrel as [-> Hs]. split; [done|]. intros r Hr. by eapply run_on_disk.
Qed.

Lemma tables_serve ins e (ssts : Directory) sid key s :
  sst_inv ins e ssts -> in_u32 (blen key) ->
  exists rss, Forall2 (sst_serves ssts sid key s) (e_sstable_map e).*2 rss /\
    (forall r, r ∈ concat rss -> r ∈ ins) /\ forall r, in_tables e ssts r -> r ∈ concat rss.
Proof.
  intros Hs Hk. assert (Forall (fun meta => bmap_get (meta_id meta) (e_sstable_map e) = Some meta) (e_sstable_map e).*2) as Hall.
  { apply Forall_fmap, Forall_forall. intros [k m] Hin. cbn. apply (bmap_get_elem _ _ _ (si_sorted _ _ _ Hs)) in Hin.
    by destruct (si_tables _ _ _ Hs k m Hin) as (_ & -> & _). }
  destruct (tables_hold_exist ins e ssts _ Hs Hall) as (rss & Hh). exists rss. split_and!.
  - eapply Forall2_impl; [exact Hh|]. intros meta rs (file & Hf & (Hok & hint & E) & _).
    destruct (write_seek (meta_id meta) rs hint (from_raw_parts sid s 0 key []) Hok) as (pre & post & Hrs & Hseek).
    { by apply extractable_built. }
    rewrite E in Hseek. exists file, pre, post. split_and!; [done|done|apply written_layout; split; [done|by exists hint]|done|].
    intros r Hr Hsid Hkey. pose proof (write_bloom (meta_id meta) rs hint r sid key Hok Hr Hsid Hkey) as Hb. by rewrite E in Hb.
  - by apply (scanners_yield ins ssts (e_sstable_map e).*2).
  - intros r (id & Hhas). apply (tables_hold_elem ins e ssts (e_sstable_map e).*2 rss id); [done|done| |done].
    destruct Hhas as (meta & _ & _ & Hg & _ & <- & _). apply (list_elem_of_fmap_2 meta_id).
    apply (list_elem_of_fmap_2 snd _ (meta_id meta, meta)). by apply (bmap_get_elem _ _ _ (si_sorted _ _ _ Hs)).
Qed.

Lemma query_ok ins s q : sys_inv ins s -> range_req_ok q ->
  let b := s_backend s in
  0 <= rng_start_ts q <= rng_end_ts q -> exists m n out,
    engine_range (H := H) (d_ssts b) (rng_source_id q) (rng_key q) (rng_start_ts q) (rng_end_ts q) (rng_filter q) (b_engine b) = Ok m /\
    core_merge_collect n n m = Ok out /\ bset_sorted sort_key out /\
    (forall r, r ∈ out -> r ∈ ins /\ req_match q r = true) /\
    (forall r, r ∈ ins -> req_match q r = true ->
       source_ts r <> (be_bytes 8 (rng_source_id q), be_bytes 8 (rng_start_ts q)) \/ r ∈ in_memory (b_engine b) -> r ∈ out).
Proof.
  intros Hinv (Hsid & Hs & Ht & Hk) b Hle. pose proof (inv_mem _ _ Hinv) as Hm. pose proof (inv_sst _ _ Hinv) as Hss. fold b in Hm, Hss.
  destruct (tables_serve ins (b_engine b) (d_ssts b) (rng_source_id q) (rng_key q) (rng_start_ts q) Hss Hk) as (rss & Hserve & Hsub & Hcov).
  assert (forall r, r ∈ in_memory (b_engine b) ++ concat rss -> r ∈ ins) as Hins.
  { intros r [?|?]%elem_of_app; [by apply Hm|by apply Hsub]. }
  destruct (engine_range_ok (H := H) (d_ssts b) (b_engine b) rss (rng_source_id q) (rng_key q) (rng_start_ts q) (rng_end_ts q) (rng_filter q))
    as (m & n & out & Er & Ec & Hso & Hout & Hall); try done.
  - apply Hm.
  - apply NoDup_fmap_2_strong; [|apply Hm]. intros x y Hx Hy E%sort_key_seq. apply (ins_inj ins); [apply Hm|by apply Hm..|done].
  - intros r p Hr Hp E%sort_key_seq. apply (ins_inj ins); [apply Hm|by apply Hins..|done].
  - exists m, n, out. split_and!; try done.
    + intros r Hr. destruct (Hout r Hr). split; [by apply Hins|done].
    + intros r Hr Hq Hne. apply Hall; [|done|done]. apply elem_of_app.
      destruct (si_read _ _ _ Hss r Hr) as [?|?]; [by left|right; by apply Hcov].
Qed.

Lemma handle_range_inv ins s q : sys_inv ins s -> range_req_ok q -> 1 <= range_batch_size (b_config (s_backend s)) ->
  0 <= rng_start_ts q <= rng_end_ts q -> exists n batches out,
    handle_range (Heap := H) n None q (s_backend s) = (batches, Ok tt) /\ batched (range_batch_size (b_config (s_backend s))) batches /\
    Forall2 (fun r p => proto_record_try_from r = Ok p) out (concat batches) /\ bset_sorted sort_key out /\
    (forall r, r ∈ out -> r ∈ ins /\ req_match q r = true) /\
    (forall r, r ∈ ins -> req_match q r = true ->
       source_ts r <> (be_bytes 8 (rng_source_id q), be_bytes 8 (rng_start_ts q)) \/ r ∈ in_memory (b_engine (s_backend s)) -> r ∈ out).
Proof.
  intros Hinv Hq Hsize Hle. destruct (query_ok ins s q Hinv Hq Hle) as (m & n & out & Er & Ec & Hso & Hsub & Hall).
  assert (Forall rec_ok out) as Hok.
  { eapply Forall_sub; [|apply (inv_mem _ _ Hinv)]. intros r Hr. by apply Hsub. }
  destruct (range_loop_ok _ out Hsize Hok [] ltac:(zlia)) as (batches & ps & El & Hb & Hc & Hps).
  exists n, batches, out. unfold handle_range. rewrite Er, Ec. cbn in Hc. subst ps. by split_and!.
Qed.

(** C16: in every reachable state a query answers from all acknowledged
    records and nothing else. A reversed or negative window is an error.
    Otherwise the loop of [handle_range] ends without an error, and what it
    sends is, cut into full batches and a rest, the records that match the
    query, each once and in key order; only records already in SSTs whose
    timestamp is exactly the start of the window may be missing. *)
Theorem backend_query_exact (limit : Z) (config : BackendConfig) (s0 s : Sys) (ins : list CoreRecord) (q : RangeReq)
    (Hstart : sys_start limit config = Ok s0) (Hrun : sys_run (H := H) s0 ins s)
    (Hq : range_req_ok q) (Hsize : 1 <= range_batch_size (b_config (s_backend s))) :
  let b := s_backend s in
  (rng_end_ts q < rng_start_ts q \/ rng_start_ts q < 0 -> forall n recv, handle_range (Heap := H) n recv q b = ([], bail)) /\
  (0 <= rng_start_ts q <= rng_end_ts q -> exists n batches out,
    handle_range (Heap := H) n None q b = (batches, Ok tt) /\ batched (range_batch_size (b_config b)) batches /\
    Forall2 (fun r p => proto_record_try_from r = Ok p) out (concat batches) /\ bset_sorted sort_key out /\
    (forall r, r ∈ out -> r ∈ ins /\ req_match q r = true) /\
    (forall r, r ∈ ins -> req_match q r = true ->
       source_ts r <> (be_bytes 8 (rng_source_id q), be_bytes 8 (rng_start_ts q)) \/ r ∈ in_memory (b_engine b) -> r ∈ out)).
Proof.
  intros b. destruct (sys_run_inv s0 limit config ins s Hstart Hrun) as [Hinv _]. split; [|by apply handle_range_inv].
  intros Hbad n recv. unfold handle_range, engine_range, engine_memtable_iter. case_if; [done|]. by if_true.
Qed.

(** C20: the system never gets stuck. In every reachable state a turn with
    valid inserts ends without a panic, and every task that was spawned can
    end with a result: a flush always, and a compaction because its merge
    ends and finds all its tables. *)
Theorem backend_progress (limit : Z) (config : BackendConfig) (s0 s : Sys) (ins : list CoreRecord)
    (Hstart : sys_start limit config = Ok s0) (Hrun : sys_run (H := H) s0 ins s) :
  (forall rename_ok cmds, Forall insert_ok (cmds_inserts cmds) -> has_room (blen (cmds_inserts cmds)) (s_backend s) ->
     exists b', turn_commands rename_ok cmds (s_backend s) = (b', Ok tt)) /\
  (forall tables id, CompactSSTables tables id ∈ s_jobs s ->
     exists out hint, handle_compaction (H := H) (d_ssts (s_backend s)) tables id = Ok (write_to_file id out hint, map meta_id tables) /\
       forall i r, i ∈ map meta_id tables -> table_has (b_engine (s_backend s)) (d_ssts (s_backend s)) i r -> r ∈ out) /\
  (forall job, job ∈ s_jobs s -> job <> ResyncWal -> exists s', sys_step (H := H) s [] s' /\
     length (s_jobs s') = pred (length (s_jobs s)) /\ length (s_results s') = S (length (s_results s))).
Proof.
  destruct (sys_run_inv s0 limit config ins s Hstart Hrun) as [Hinv _].
  assert (forall tables id, CompactSSTables tables id ∈ s_jobs s ->
     exists out hint, handle_compaction (H := H) (d_ssts (s_backend s)) tables id = Ok (write_to_file id out hint, map meta_id tables) /\
       forall i r, i ∈ map meta_id tables -> table_has (b_engine (s_backend s)) (d_ssts (s_backend s)) i r -> r ∈ out) as Hcomp.
  { intros tables id Hin. pose proof (ii_cmds _ _ _ _ _ (inv_io _ _ Hinv)) as Hc. rewrite Forall_forall in Hc.
    destruct (Hc (CompactSSTables tables id)) as [_ Ht]; [apply elem_of_app; by right|].
    destruct (handle_compaction_ok (H := H) ins _ _ tables id (inv_mem _ _ Hinv) (inv_sst _ _ Hinv) Ht) as (out & hint & E & _ & _ & Hcov).
    by exists out, hint. }
  split_and!; [|done|].
  - intros rn cmds Hok Hroom. destruct s as [b jobs results].
    destruct (turn_commands_inv ins b jobs results rn cmds Hinv Hok Hroom) as (b' & E & _). by exists b'.
  - intros job Hin Hne. pose proof Hin as (pre & post & Ej)%list_elem_of_split. destruct s as [b jobs results]. cbn in *. subst jobs.
    assert (length (pre ++ post) = pred (length (pre ++ job :: post))) as Hlen by (rewrite !length_app; cbn; lia).
    destruct job as [|m id|tables id]; [done| |].
    + destruct (handle_flush m id) as [meta file] eqn:E. eexists. split; [by eapply step_flush|]. cbn. split; [exact Hlen|]. rewrite length_app. cbn. lia.
    + destruct (Hcomp tables id Hin) as (out & hint & E & _). destruct (write_to_file id out hint) as [meta file].
      eexists. split; [by eapply step_compact|]. cbn. split; [exact Hlen|]. rewrite length_app. cbn. lia.
Qed.
End claims.
