(* ===== verification/CoreRecover.v ===== *)
(** * Opening an engine on what a crash left

    [Engine::open] on the files of a reachable state of the backend: what the
    logs and the SSTs give back, and what it takes for all acknowledged
    records to be among it. The flush that the backend starts after a
    restart. *)
From S2P Require Import Prelude Std Codec CoreProto CoreStorage CoreIter CoreEngine CoreBackend CoreSystem CoreTurns.

(** ** What [open] relies on of the SST module

    A file ends in a footer of 16 bytes, and reading it gives back the index
    and the bloom filter that [write_to_file] returned. Nothing is assumed of
    how the bytes between the records and the end look to the scan for
    sequence numbers, which reads them as records too. *)
Class SstReopenLaws `{SstCodec} : Prop := {
  reopen_footer id rs hint : table_ok rs -> let m := (write_to_file id rs hint).1 in
    read_footer (write_to_file id rs hint).2 = Ok (meta_index m, meta_index_offset m, meta_bloom m, meta_bloom_offset m);
  reopen_footer_len id rs hint : table_ok rs -> 16 <= blen (write_to_file id rs hint).2
}.

(** ** The logs *)

Definition bset_add_all (s rs : list CoreRecord) : list CoreRecord := foldl (fun s r => bset_insert sort_key r s) s rs.

Lemma bset_add_all_sub s rs r : bset_sorted sort_key s -> r ∈ bset_add_all s rs -> r ∈ s \/ r ∈ rs.
Proof. intros Hs. by apply core_bset_of_spec. Qed.

Lemma extractable_add s rs :
  bset_sorted sort_key s -> (forall r, r ∈ s \/ r ∈ rs -> extractable r = true) -> forallb extractable (bset_add_all s rs) = true.
Proof. intros Hs Hx. apply forallb_forall. intros r Hr%list_elem_of_In. by apply Hx, bset_add_all_sub. Qed.

Lemma bset_extend_all rs : forall s, bset_sorted sort_key s -> (forall r, r ∈ s \/ r ∈ rs -> extractable r = true) ->
  bset_extend s rs = Ok (bset_add_all s rs).
Proof.
  induction rs as [|r rs IH]; intros s Hs Hx; cbn [bset_extend]; [done|].
  assert (core_bset_insert r s = Ok (bset_insert sort_key r s)) as ->.
  { unfold core_bset_insert. destruct s as [|x s]; [done|]. rewrite (Hx r) by (right; by left). cbn [andb].
    rewrite (proj2 (forallb_forall extractable (x :: s))); [done|]. intros q Hq%list_elem_of_In. apply Hx. by left. }
  rewrite ok_bind, IH; [done|by apply bset_insert_sorted|]. intros q [Hq|Hq]; [|apply Hx; right; by right].
  destruct (core_bset_of_spec [r] s Hs) as (_ & Hsub & _). cbn [foldl] in Hsub.
  destruct (Hsub q Hq) as [?| ->%list_elem_of_singleton]; apply Hx; [by left|right; by left].
Qed.

(** what a log gives: nothing when reading it fails *)
Definition readable (f : list byte) : list CoreRecord := match recover_file f with Ok rs => rs | _ => [] end.
Definition log_ok (f : list byte) : Prop := recover_file f <> Panic /\ Forall rec_ok (readable f).

Lemma recover_files_all files : forall s, bset_sorted sort_key s -> Forall log_ok files ->
  (forall r, r ∈ s -> extractable r = true) -> recover_files files s = Ok (bset_add_all s (concat (map readable files))).
Proof.
  induction files as [|f files IH]; intros s Hs Hok Hx; cbn [map recover_files concat]; [done|].
  apply Forall_cons in Hok as [[Hp Hrs] Hok]. unfold readable in Hrs |- * at 1.
  destruct (recover_file f) as [rs|e|]; [|by apply IH|done]. rewrite Forall_forall in Hrs.
  assert (forall r, r ∈ s \/ r ∈ rs -> extractable r = true) as Hx' by (intros r [?|Hr]; [by apply Hx|by apply Hrs]).
  rewrite bset_extend_all, ok_bind, IH; [|by apply core_bset_of_spec|done| |done|done].
  - unfold bset_add_all. by rewrite foldl_app.
  - intros r Hr. by apply Hx', bset_add_all_sub.
Qed.

(** a log that was cut off anywhere *)
Lemma wires_prefix A : forall f, f `prefix_of` wal_wires A ->
  f = wal_wires A \/ exists A1 r A2 k, A = A1 ++ r :: A2 /\ f = wal_wires A1 ++ take k (wal_wire r) /\ Z.of_nat k < blen (wal_wire r).
Proof.
  induction A as [|r A IH]; intros f Hf; [left; by apply prefix_nil_inv|].
  change (wal_wires (r :: A)) with (wal_wire r ++ wal_wires A) in *.
  destruct (decide (length (wal_wire r) <= length f)%nat) as [Hle|Hgt].
  - destruct Hf as [g E]. assert (f = wal_wire r ++ drop (length (wal_wire r)) f) as Ef.
    { rewrite <- (take_drop (length (wal_wire r)) f) at 1. f_equal.
      apply (f_equal (take (length (wal_wire r)))) in E. rewrite take_app_length, take_app_le in E by done. done. }
    set (f1 := drop _ f) in *. clearbody f1. subst f. rewrite <- app_assoc in E. apply app_inv_head in E.
    destruct (IH f1) as [->|(A1 & q & A2 & k & -> & -> & Hk)]; [by exists g|by left|right].
    exists (r :: A1), q, A2, k. split_and!; [done| |done]. change (wal_wires (r :: A1)) with (wal_wire r ++ wal_wires A1). by rewrite app_assoc.
  - right. exists [], r, A, (length f). split_and!; [done| |unfold blen; lia]. cbn. destruct Hf as [g E].
    apply (f_equal (take (length f))) in E. rewrite take_app_length, take_app_le in E by lia. done.
Qed.
Lemma log_prefix_ok A f : Forall rec_ok A -> f `prefix_of` wal_wires A -> log_ok f /\ forall r, r ∈ readable f -> r ∈ A.
Proof.
  intros HA [->|(A1 & r & A2 & k & -> & -> & Hk)]%wires_prefix; unfold log_ok, readable.
  - by rewrite recover_ok.
  - assert (forall q, rec_ok q -> blen q <= VEC_MAX) as Hsz by (intros q (_ & ? & _); unfold VEC_MAX in *; lia).
    apply Forall_app in HA as [HA1 [Hr _]%Forall_cons].
    rewrite recover_file_torn; [|by eapply Forall_impl|by apply Hsz|done]. destruct (Z.of_nat k <? 8).
    + split_and!; [done|done|]. intros q Hq. apply elem_of_app. by left.
    + split_and!; [done|by constructor|]. by intros q ?%not_elem_of_nil.
Qed.

Lemma extract_seq_eq r : extractable r = true -> extract_seq_num r = Ok (rec_seq r).
Proof.
  intros Hx%extractable_len. unfold extract_seq_num. if_false. unfold array_at. rewrite slice_ok by lia. by rewrite ok_bind.
Qed.

Lemma rec_seq_max r : rec_seq r <= u64_max.
Proof.
  unfold rec_seq. pose proof (be_val_bound (take 8 (drop 16 r))) as [_ Hb]. rewrite blen_take in Hb.
  assert (2 ^ (8 * Z.min (Z.of_nat 8) (blen (drop 16 r))) <= 2 ^ 64) by (apply Z.pow_le_mono_r; zlia). unfold u64_max. lia.
Qed.

Lemma open_memtable_ok recs : forall n flag m, core_mt_ok m -> (forall r, r ∈ recs -> extractable r = true) ->
  exists m' n' flag', open_memtable recs n flag m = (m', Ok (n', flag')) /\ core_mt_ok m' /\
    cmt_bset m' = bset_add_all (cmt_bset m) recs /\ n <= n' /\ (n <= u64_max -> n' <= u64_max) /\ (forall r, r ∈ recs -> rec_seq r <= n').
Proof.
  induction recs as [|r recs IH]; intros n flag m Hm Hx; cbn [open_memtable].
  { exists m, n, flag. split_and!; [done..|lia|done|by intros r ?%not_elem_of_nil]. }
  pose proof (rec_seq_max r). pose proof (core_memtable_insert_ok r m (Hx r ltac:(by left)) Hm) as Hins. rewrite st_bind_unfold.
  destruct (core_memtable_insert r m) as [m1 o]. destruct Hins as (-> & Hm1 & _ & Hb).
  rewrite extract_seq_eq by (apply Hx; by left).
  destruct (IH (Z.max n (rec_seq r)) (cmt_limit m <? cmt_sz m + blen r) m1 Hm1) as (m' & n' & flag' & E & Hm' & Hb' & Hn & Hle & Hall).
  { intros q Hq. apply Hx. by right. }
  exists m', n', flag'. split_and!; [done|done|by rewrite Hb', Hb|lia|lia|]. intros q [->|Hq]%elem_of_cons; [lia|by apply Hall].
Qed.

(** ** The SSTs *)

Section open_tables.
Context `{SstCodec, !SstCodecLaws, !SstReopenLaws}.

(** the scan of an SST reads its records first; whatever it takes for
    records behind them only makes the largest number larger *)
Lemma fold_seq_max rs : forall n c,
  let acc := foldl (fun acc rec => match extract_seq_num rec with Ok seq => (Z.max acc.1 seq, acc.2 + 1) | _ => acc end) (n, c) rs in
  n <= acc.1 /\ (n <= u64_max -> acc.1 <= u64_max) /\ forall r, r ∈ rs -> extractable r = true -> rec_seq r <= acc.1.
Proof.
  induction rs as [|r rs IH]; intros n c; cbn [foldl]; [split_and!; [done|done|by intros r ?%not_elem_of_nil]|].
  assert (forall z, extract_seq_num r = Ok z -> z = rec_seq r) as Hz.
  { intros z. unfold extract_seq_num. case_if; [done|]. unfold array_at. rewrite slice_ok by lia. rewrite ok_bind. by intros [= <-]. }
  pose proof (rec_seq_max r). destruct (extract_seq_num r) as [z|e|] eqn:E; cbn [fst snd].
  1: destruct (IH (Z.max n z) (c + 1)) as (Hlo & Hhi & Hall); rewrite (Hz z eq_refl) in *.
  2-3: destruct (IH n c) as (Hlo & Hhi & Hall).
  all: split_and!; [lia|lia|]; intros q [->|Hq]%elem_of_cons Hx; [|by apply Hall].
  - lia.
  - by rewrite extract_seq_eq in E.
  - by rewrite extract_seq_eq in E.
Qed.

Lemma scan_seq_ok id rs hint n recs : table_ok rs -> recover_file (write_to_file id rs hint).2 = Ok recs ->
  exists n' k, scan_seq (write_to_file id rs hint).2 n = Ok (n', k) /\ n <= n' /\ (n <= u64_max -> n' <= u64_max) /\ forall r, r ∈ rs -> rec_seq r <= n'.
Proof.
  intros Hok E. destruct (write_layout id rs hint Hok) as ((tail & Ef) & _ & Hsz & _ & Hx). unfold scan_seq. rewrite E, ok_bind.
  rewrite Ef in E. destruct (recover_file_app rs tail) as (fuel & _ & Er); [eapply Forall_impl; [exact Hsz|cbn; unfold VEC_MAX; lia]|].
  rewrite Er in E. destruct (recover_loop fuel tail) as [extra|e|]; [|done..]. injection E as <-.
  pose proof (fold_seq_max (rs ++ extra) n 0) as (Hlo & Hhi & Hall).
  eexists _, _. split_and!; [f_equal; apply surjective_pairing|exact Hlo|exact Hhi|]. intros r Hr. apply Hall; [apply elem_of_app; by left|].
  rewrite forallb_forall in Hx. by apply Hx, list_elem_of_In.
Qed.

(** a whole SST file *)
Definition sst_file (id : Z) (file : list byte) (rs : list CoreRecord) : Prop :=
  table_ok rs /\ exists hint, file = (write_to_file id rs hint).2.

Lemma sst_file_unique id file rs rs' : sst_file id file rs -> sst_file id file rs' -> rs = rs'.
Proof.
  intros (Hok & hint & ->) (Hok' & hint' & E). pose proof (reopen_footer id rs hint Hok) as F. pose proof (reopen_footer id rs' hint' Hok') as F'.
  cbn in F, F'. rewrite <- E, F in F'. injection F' as _ Eo _ _.
  eapply layout_unique; [by apply (write_layout id)|rewrite E; by apply (write_layout id)|done].
Qed.

(** the scans of all SSTs, up to the first that fails *)
Fixpoint scan_all (ssts : list (Z * list byte)) : outcome io_error unit :=
  match ssts with
  | [] => Ok tt
  | (_, file) :: rest => _ ← recover_file file; scan_all rest
  end.

(** an entry of the table map that [open] made from the file of [rs] *)
Definition reopened (meta : SSTableMeta) (file : list byte) (rs : list CoreRecord) : Prop :=
  table_ok rs /\ exists hint, let '(m, f) := write_to_file (meta_id meta) rs hint in
    file = f /\ meta_index meta = meta_index m /\ meta_index_offset meta = meta_index_offset m /\
    meta_bloom meta = meta_bloom m /\ meta_bloom_offset meta = meta_bloom_offset m /\ meta_file_size meta = blen file.
Definition reopened_has (e : Engine (list byte)) (ssts : Directory) (r : CoreRecord) : Prop :=
  exists id meta file rs, bmap_get id (e_sstable_map e) = Some meta /\ ssts !! id = Some file /\ meta_id meta = id /\
    reopened meta file rs /\ r ∈ rs.

Lemma open_ssts_fails ssts : forall mi ms map,
  (forall id file, (id, file) ∈ ssts -> exists rs, sst_file id file rs) ->
  match scan_all ssts with
  | Ok _ => True
  | Err e => open_ssts ssts mi ms map = Err e
  | Panic => open_ssts ssts mi ms map = Panic
  end.
Proof.
  induction ssts as [|[id file] ssts IH]; intros mi ms map Hfiles; cbn [open_ssts scan_all]; [done|].
  unfold scan_seq. destruct (recover_file file) as [recs|e|] eqn:E; [|done..]. rewrite !ok_bind.
  destruct (Hfiles id file ltac:(by left)) as (rs & Hok & hint & Ef).
  pose proof (reopen_footer_len id rs hint Hok) as Hlen. rewrite <- Ef in Hlen. if_false.
  pose proof (reopen_footer id rs hint Hok) as Hfoot. rewrite <- Ef in Hfoot. rewrite Hfoot, ok_bind.
  apply IH. intros i f Hin. apply Hfiles. by right.
Qed.

Lemma open_ssts_ok ssts : forall mi ms map, NoDup ssts.*1 -> scan_all ssts = Ok tt ->
  (forall id file, (id, file) ∈ ssts -> exists rs, sst_file id file rs) ->
  exists mi' ms' map', open_ssts ssts mi ms map = Ok (mi', ms', map') /\ ms <= ms' /\ (ms <= u64_max -> ms' <= u64_max) /\
    (forall id file rs, (id, file) ∈ ssts -> sst_file id file rs ->
       (exists meta, bmap_get id map' = Some meta /\ meta_id meta = id /\ reopened meta file rs) /\ (forall r, r ∈ rs -> rec_seq r <= ms')) /\
    (forall id, id ∉ ssts.*1 -> bmap_get id map' = bmap_get id map).
Proof.
  induction ssts as [|[id file] ssts IH]; intros mi ms map Hnd Hscan Hfiles; cbn [open_ssts].
  { exists mi, ms, map. split_and!; [done|lia|done|by intros ? ? ? ?%not_elem_of_nil|done]. }
  rewrite fmap_cons, NoDup_cons in Hnd. destruct Hnd as [Hnew Hnd]. cbn in Hnew. cbn [scan_all] in Hscan.
  destruct (Hfiles id file ltac:(by left)) as (rs & Hok & hint & Ef).
  destruct (recover_file file) as [recs|e|] eqn:Er; [|done..]. rewrite ok_bind in Hscan.
  destruct (scan_seq_ok id rs hint ms recs Hok) as (n & k & Es & Hn & Hnle & Hseq); [by rewrite <- Ef|]. rewrite <- Ef in Es. rewrite Es, ok_bind.
  pose proof (reopen_footer_len id rs hint Hok) as Hlen. rewrite <- Ef in Hlen. if_false.
  pose proof (reopen_footer id rs hint Hok) as Hfoot. rewrite <- Ef in Hfoot. rewrite Hfoot, ok_bind. cbn [fst snd].
  set (meta := Build_SSTableMeta _ _ _ _ _ _ _ _).
  assert (reopened meta file rs) as Hmeta.
  { split; [done|]. exists hint. unfold meta. cbn [meta_id]. destruct (write_to_file id rs hint) as [m f]. done. }
  destruct (IH (Z.max mi id) n (bmap_insert id meta map) Hnd Hscan) as (mi' & ms' & map' & E & Hms & Hmle & Hall & Hother).
  { intros i f Hin. apply Hfiles. by right. }
  exists mi', ms', map'. split_and!; [done|lia|tauto| |].
  - intros i f rs' [[= -> ->]|Hin]%elem_of_cons Hf'; [|by apply (Hall i f)].
    rewrite Hother by done. rewrite bmap_get_insert. rewrite (sst_file_unique id file rs' rs) by (done || (split; [done|by exists hint])).
    split; [by exists meta|]. intros r Hr. specialize (Hseq r Hr). lia.
  - intros i Hi. rewrite fmap_cons, not_elem_of_cons in Hi. destruct Hi as [Hne Hi]. rewrite Hother by done.
    apply bmap_get_insert_ne. cbn in Hne. done.
Qed.

(** ** Opening what the backend left *)

(** What a crash leaves: of the active log, the bytes that have reached its
    file, which are some first part of all that was written to it; the
    rotated logs and the SSTs. The logs are listed in any order, the SSTs by
    name. *)
Definition crash_files (b : Backend) (active : list byte) (wals : list (list byte)) (ssts : list (Z * list byte)) : Prop :=
  active `prefix_of` bw_total (e_wal (b_engine b)) /\
  wals ≡ₚ active :: (map_to_list (d_wals b)).*2 /\ ssts ≡ₚ map_to_list (d_ssts b).
(** every SST file has been written completely *)
Definition whole_ssts (ssts : Directory) : Prop := forall id file, ssts !! id = Some file -> exists rs, sst_file id file rs.

Lemma log_has_readable f r : log_has f r <-> r ∈ readable f.
Proof.
  unfold log_has, readable. split; [by intros (rs & -> & Hr)|].
  destruct (recover_file f) as [rs|e|]; [by exists rs|by intros ?%not_elem_of_nil..].
Qed.

(** the records of the logs *)
Definition in_logs (b : Backend) (active : list byte) (r : CoreRecord) : Prop :=
  log_has active r \/ exists id f, d_wals b !! id = Some f /\ log_has f r.

Lemma logs_ok ins b active : mem_inv ins (b_engine b) -> log_inv ins b -> active `prefix_of` bw_total (e_wal (b_engine b)) ->
  let files := active :: (map_to_list (d_wals b)).*2 in
  Forall log_ok files /\ (forall r, r ∈ concat (map readable files) <-> in_logs b active r) /\
  forall r, in_logs b active r -> r ∈ ins.
Proof.
  intros Hm Hl Hpre files. destruct (li_active _ _ Hl) as (A & EA & HA). rewrite EA in Hpre.
  destruct (log_prefix_ok A active (Forall_sub _ _ _ HA (mi_ok _ _ Hm)) Hpre) as [Hok Hin].
  assert (forall id f, d_wals b !! id = Some f -> log_ok f /\ forall r, r ∈ readable f -> r ∈ ins) as Hlogs.
  { intros id f Hf. destruct (li_logs _ _ Hl id f Hf) as (_ & rs & -> & Hrs & _).
    destruct (log_prefix_ok rs (wal_wires rs) (Forall_sub _ _ _ Hrs (mi_ok _ _ Hm))) as [? Hr]; [done|]. split; [done|]. eauto. }
  assert (forall f, f ∈ (map_to_list (d_wals b)).*2 <-> exists id, d_wals b !! id = Some f) as Hel.
  { intros f. rewrite list_elem_of_fmap. split; [intros ([id g] & -> & ?%elem_of_map_to_list); by exists id|].
    intros [id Hf]. exists (id, f). by rewrite elem_of_map_to_list. }
  split_and!.
  - constructor; [done|]. apply Forall_forall. intros f [id Hf]%Hel. by apply (Hlogs id).
  - intros r. unfold in_logs. rewrite list_elem_of_In, in_concat. setoid_rewrite in_map_iff. setoid_rewrite <- list_elem_of_In. split.
    + intros (rs & (f & <- & [->|[id Hf]%Hel]%elem_of_cons) & Hr%log_has_readable); [by left|right; by exists id, f].
    + intros [Hr|(id & f & Hf & Hr)]; apply log_has_readable in Hr; (eexists; split; [|exact Hr]); eexists; (split; [done|]); [by left|].
      right. apply Hel. by exists id.
  - intros r [Hr|(id & f & Hf & Hr)]; apply log_has_readable in Hr; [by apply HA, Hin|by apply (Hlogs id f)].
Qed.
End open_tables.

Section recovery.
Context {H : Type} `{SstCodec, !MinHeap CoreHeapItem H, !MinHeapLaws CoreHeapItem H, !SstCodecLaws, !SstReopenLaws}.

(** what the logs give back: their records, each once *)
Lemma recover_logs ins b active wals :
  mem_inv ins (b_engine b) -> log_inv ins b -> active `prefix_of` bw_total (e_wal (b_engine b)) ->
  wals ≡ₚ active :: (map_to_list (d_wals b)).*2 ->
  exists recs, recover_all wals = Ok recs /\ (forall r, r ∈ recs -> r ∈ ins) /\ bset_sorted sort_key recs /\
    forall r, r ∈ recs <-> in_logs b active r.
Proof.
  intros Hm Hl Hpre Hw. destruct (logs_ok ins b active Hm Hl Hpre) as (Hok & Hcc & Hins). rewrite <- Hw in Hok.
  assert (forall r, r ∈ concat (map readable wals) <-> in_logs b active r) as Hcw.
  { intros r. rewrite <- Hcc. rewrite !list_elem_of_In, !in_concat. setoid_rewrite in_map_iff. setoid_rewrite <- list_elem_of_In. by setoid_rewrite Hw. }
  unfold recover_all. rewrite recover_files_all; [|constructor|done|by intros r ?%not_elem_of_nil].
  destruct (core_bset_of_spec (concat (map readable wals)) []) as (Hs & Hsub & Hcov); [constructor|]. fold (bset_add_all [] (concat (map readable wals))) in *.
  assert (forall r, r ∈ bset_add_all [] (concat (map readable wals)) -> in_logs b active r) as Hin.
  { intros r [?%not_elem_of_nil|Hr]%Hsub; [done|]. by apply Hcw. }
  eexists. split_and!; [done|intros r Hr; by apply Hins, Hin|done|]. intros r. split; [by apply Hin|]. intros Hr.
  destruct (proj1 (list_elem_of_fmap _ _ _) (Hcov r (or_intror (proj2 (Hcw r) Hr)))) as (q & Eq & Hq).
  rewrite (ins_inj ins r q); [done|apply Hm|by apply Hins|by apply Hins, Hin|by apply sort_key_seq].
Qed.

(** the files hold [r]: a log that can be read or an SST *)
Definition recoverable (b : Backend) (active : list byte) (r : CoreRecord) : Prop :=
  in_logs b active r \/ exists id file rs, d_ssts b !! id = Some file /\ sst_file id file rs /\ r ∈ rs.

(** an engine that was opened on the files of [b] *)
Record reopen_ok (ins : list CoreRecord) (b : Backend) (active : list byte) (e : Engine (list byte)) : Prop := {
  ro_all : forall r, r ∈ ins -> recoverable b active r -> r ∈ in_memory e \/ reopened_has e (d_ssts b) r;
  ro_memory : forall r, r ∈ in_memory e <-> in_logs b active r;
  ro_ins : forall r, r ∈ in_memory e -> r ∈ ins;
  ro_mt : core_mt_ok (e_memtable e);
  ro_seq : e_seq_counter e <> 0 -> forall r, r ∈ ins -> recoverable b active r -> rec_seq r < e_seq_counter e
}.

Lemma recovery_inv limit' ins b active wals ssts :
  mem_inv ins (b_engine b) -> log_inv ins b -> crash_files b active wals ssts -> whole_ssts (d_ssts b) ->
  match scan_all ssts with
  | Ok _ => exists e flag, engine_open active wals ssts limit' = Ok (e, flag) /\ reopen_ok ins b active e
  | Err err => engine_open active wals ssts limit' = Err err
  | Panic => engine_open active wals ssts limit' = Panic
  end.
Proof.
  intros Hm Hl (Hpre & Hw & Hp) Hwhole. destruct (recover_logs ins b active wals Hm Hl Hpre Hw) as (recs & Er & Hrin & Hrs & Hrcov).
  pose proof (mi_ok _ _ Hm) as Hok. rewrite Forall_forall in Hok.
  destruct (open_memtable_ok recs 0 false (core_memtable_new limit')) as (m & n & flag & Em & Hmt & Hb & Hn & Hn2 & Hseq);
    [split; [constructor|done]|intros r Hr; by apply Hok, Hrin|].
  assert (forall id file, (id, file) ∈ ssts -> exists rs, sst_file id file rs) as Hfiles.
  { intros id file. rewrite Hp, elem_of_map_to_list. apply Hwhole. }
  pose proof (open_ssts_fails ssts 0 n [] Hfiles) as Hfail. unfold engine_open. rewrite Er, ok_bind, Em.
  destruct (scan_all ssts) as [[]|err|] eqn:Escan; [|by rewrite Hfail..].
  destruct (open_ssts_ok ssts 0 n []) as (mi & ms & map & Eo & Hms & Hms2 & Hall & _); [|done|done|].
  { rewrite Hp. apply NoDup_fst_map_to_list. }
  rewrite Eo, ok_bind. eexists _, flag. split; [reflexivity|].
  assert (forall r, r ∈ cmt_bset m <-> r ∈ recs) as Hmem.
  { cbn in Hb. intros r. rewrite Hb. split; [by intros [?%not_elem_of_nil|?]%bset_add_all_sub; [| |constructor]|]. intros Hr.
    destruct (core_bset_of_spec recs []) as (_ & Hsub & Hcov); [constructor|].
    destruct (proj1 (list_elem_of_fmap _ _ _) (Hcov r (or_intror Hr))) as (q & Eq & Hq).
    destruct (Hsub q Hq) as [?%not_elem_of_nil|Hq']; [done|].
    rewrite (ins_inj ins r q); [done|apply Hm|by apply Hrin..|by apply sort_key_seq]. }
  constructor; unfold in_memory; cbn; rewrite ?app_nil_r.
  - intros r Hr. rewrite Hmem, Hrcov. intros [?|(id & file & rs & Hfile & Hsf & Hrr)]; [by left|right].
    destruct (Hall id file rs) as [(meta & Hg & Hid & Hre) _]; [by rewrite Hp, elem_of_map_to_list|done|].
    by exists id, meta, file, rs.
  - intros r. by rewrite Hmem, Hrcov.
  - intros r. rewrite Hmem. apply Hrin.
  - done.
  - intros Hnz r Hr Hrec. assert (rec_seq r <= ms) as Hmax.
    { destruct Hrec as [Hr'%Hrcov|(id & file & rs & Hfile & Hsf & Hrr)]; [specialize (Hseq r Hr'); lia|].
      apply (Hall id file rs); [|done|done]. by rewrite Hp, elem_of_map_to_list. }
    unfold wrap64, u64_max in *.
    destruct (decide (ms + 1 = 2 ^ 64)) as [E|Hne]; [by rewrite E in Hnz|]. rewrite Z.mod_small; lia.
Qed.

(** with all that was written in the file, everything can be recovered *)
Lemma all_recoverable ins b r : log_inv ins b -> r ∈ ins -> recoverable b (bw_total (e_wal (b_engine b))) r.
Proof.
  intros Hl Hr. destruct (li_durable _ _ Hl r Hr) as [Hlog|[Hlog|(id & meta & file & rs & _ & Hfile & <- & [Hwok Hwf] & Hrr)]];
    [left; by left|left; by right|right].
  exists (meta_id meta), file, rs. destruct Hwf as [hint Hwf]. split_and!; [done| |done]. split; [done|]. exists hint. by rewrite Hwf.
Qed.

(** a restart between turns *)
Lemma recovery_ok limit limit' config s0 s ins wals ssts :
  sys_start limit config = Ok s0 -> sys_run (H := H) s0 ins s ->
  let b := s_backend s in let active := bw_inner (e_wal (b_engine b)) in
  wals ≡ₚ active :: (map_to_list (d_wals b)).*2 -> ssts ≡ₚ map_to_list (d_ssts b) -> whole_ssts (d_ssts b) ->
  match scan_all ssts with
  | Ok _ => exists e flag, engine_open active wals ssts limit' = Ok (e, flag) /\ reopen_ok ins b active e /\
      forall r, r ∈ ins -> r ∈ in_memory e \/ reopened_has e (d_ssts b) r
  | Err err => engine_open active wals ssts limit' = Err err
  | Panic => engine_open active wals ssts limit' = Panic
  end.
Proof.
  intros Hstart Hrun b active Hw Hp Hwhole. destruct (sys_run_inv s0 limit config ins s Hstart Hrun) as [[Hm _ Hl _] Hf]. fold b in Hm, Hl, Hf.
  assert (active = bw_total (e_wal (b_engine b))) as Ha by (unfold active, bw_total; by rewrite Hf, app_nil_r).
  pose proof (recovery_inv limit' ins b active wals ssts Hm Hl ltac:(split_and!; [by rewrite Ha|done|done]) Hwhole) as Hrec.
  destruct (scan_all ssts) as [[]|err|]; [|done..]. destruct Hrec as (e & flag & E & Hro). exists e, flag. split_and!; [done|done|].
  intros r Hr. apply (ro_all _ _ _ _ Hro r Hr). rewrite Ha. by apply (all_recoverable ins).
Qed.

End recovery.

(** ** The flush after a restart *)

Section restart.
Context `{SstCodec}.

(** C39: after a crash in which the first log had been rotated and its SST
    not yet written, the restart renames the new, empty log over it. The
    number of the flush is taken from the SSTs alone, so it is again 1. From
    then on until the flush ends the recovered records are in memory only:
    no log and no SST has them. *)
Theorem restart_overwrites_log (rs : list CoreRecord) (limit : Z) (config : BackendConfig)
    (Hok : Forall rec_ok rs) (Hne : rs <> []) :
  exists e flag, engine_open [] [[]; wal_wires rs] [] limit = Ok (e, flag) /\
    (forall r, r ∈ rs -> sort_key r ∈ sort_key <$> in_memory e) /\
    let b := (engine_loop_start true (backend_new e {[1 := wal_wires rs]} ∅ config)).1 in
    d_wals b = {[1 := []]} /\ bw_inner (e_wal (b_engine b)) = [] /\ d_ssts b = ∅ /\
    recover_all (bw_inner (e_wal (b_engine b)) :: (map_to_list (d_wals b)).*2) = Ok [].
Proof.
  destruct (core_bset_of_spec rs []) as (Hs & Hsub & Hcov); [constructor|]. fold (bset_add_all [] rs) in Hs, Hsub, Hcov.
  assert (recover_all [[]; wal_wires rs] = Ok (bset_add_all [] rs)) as Er.
  { unfold recover_all. pose proof (recover_ok rs Hok) as E. rewrite recover_files_all; [|constructor| |by intros r ?%not_elem_of_nil].
    - cbn [map concat]. unfold readable at 2. by rewrite E, app_nil_r.
    - repeat constructor; [done|by rewrite E|unfold readable; by rewrite E]. }
  rewrite Forall_forall in Hok.
  assert (forall r, r ∈ bset_add_all [] rs -> extractable r = true) as Hx.
  { intros r [?%not_elem_of_nil|Hr]%Hsub; [done|]. by apply Hok. }
  destruct (open_memtable_ok (bset_add_all [] rs) 0 false (core_memtable_new limit)) as (m & n & flag & Em & _ & Hb & _);
    [split; [constructor|done]|done|].
  destruct (core_bset_of_spec (bset_add_all [] rs) []) as (_ & _ & Hcov2); [constructor|].
  assert (forall r, r ∈ rs -> sort_key r ∈ sort_key <$> cmt_bset m) as Hin.
  { intros r Hr. destruct (proj1 (list_elem_of_fmap _ _ _) (Hcov r (or_intror Hr))) as (q & -> & Hq). rewrite Hb. apply Hcov2. by right. }
  unfold engine_open. rewrite Er, ok_bind, Em. cbn [open_ssts]. rewrite ok_bind. eexists _, flag. split; [reflexivity|].
  assert (exists x l, cmt_bset m = x :: l) as (x & l & Ex).
  { destruct rs as [|r rs]; [done|]. specialize (Hin r ltac:(by left)). destruct (cmt_bset m) as [|x l]; [|eauto].
    by apply not_elem_of_nil in Hin. }
  unfold in_memory. cbn [e_memtable e_frozen_memtables fmap list_fmap map concat]. rewrite app_nil_r. split; [done|].
  set (b := (engine_loop_start _ _).1).
  assert (d_wals b = <[1 := []]> {[1 := wal_wires rs]} /\ bw_inner (e_wal (b_engine b)) = [] /\ d_ssts b = ∅) as (Ew & Ei & Es).
  { unfold b, engine_loop_start, ignore_err, send_flush_cmd, is_memtable_empty. cbn. rewrite Ex. cbn.
    unfold rotate_wal. cbn. change (wrap64 (0 + 1)) with 1. done. }
  clearbody b. rewrite Ew, insert_singleton_eq, Ei, Es. by split_and!.
Qed.
End restart.
