(* ===== verification/CoreFiles.v ===== *)
(** * The files by name: what the data directory holds

    The engine and the backend are modelled on the logs and the SSTs by id
    (CoreEngine.v, CoreBackend.v). Here is the layer below, with names:
    the paths of storage/wal.rs, [Wal::open_active], [recover_all],
    [rotate] and [WalSyncer::open], and [Engine::open] of
    storage/engine.rs on a file system, from the directories it creates to
    the ids it parses from the names of the SSTs. [fs_rep] relates a file
    system to logs and SSTs by id; the operations keep it, and opening by
    name is opening by id. How an SST is named is decided by
    storage/sstable.rs, which is not in the repository: a parameter. *)
From S2P Require Import Prelude Std Text Codec CoreProto CoreStorage CoreIter CoreEngine CoreBackend CoreSystem CoreTurns CoreRecover.

(** ** A file system *)

Abbreviation path := (list (list byte)).
Inductive Node := File (content : list byte) | SubDir.
#[export] Instance node_eq_dec : EqDecision Node.
Proof. solve_decision. Defined.
Abbreviation FileSys := (gmap path Node).

(** [SSTableMeta::format_file_path], and the order in which a directory is
    listed *)
Class FileNames := {
  sst_name : Z -> list byte;
  read_order : list (list byte * Node) -> list (list byte * Node)
}.
Class FileNameLaws `{FileNames} : Prop := {
  sst_name_ext id : extension_of (sst_name id) = Some (str "sst");
  sst_name_stem id : 0 <= id <= u64_max -> parse_uint u64_max (file_stem_of (sst_name id)) = Some id;
  read_order_perm l : read_order l ≡ₚ l
}.

Fixpoint name_in (dir p : path) : option (list byte) :=
  match dir, p with
  | [], [name] => Some name
  | d :: dir, c :: p => if decide (d = c) then name_in dir p else None
  | _, _ => None
  end.
Definition entries (fs : FileSys) (dir : path) : list (list byte * Node) :=
  omap (fun '(p, n) => name ← name_in dir p; Some (name, n)) (map_to_list fs).

Section files.
Context `{FileNames}.

Definition read_dir (dir : path) : st FileSys io_error (list (list byte * Node)) := fun fs =>
  match fs !! dir with
  | Some SubDir => (fs, Ok (read_order (entries fs dir)))
  | _ => (fs, bail)
  end.

Fixpoint create_dirs (parent todo : path) : st FileSys io_error unit := fun fs =>
  match todo with
  | [] => (fs, Ok tt)
  | c :: todo =>
      match fs !! (parent ++ [c]) with
      | Some (File _) => (fs, bail)
      | Some SubDir => create_dirs (parent ++ [c]) todo fs
      | None => create_dirs (parent ++ [c]) todo (<[parent ++ [c] := SubDir]> fs)
      end
  end.
Definition create_dir_all (p : path) : st FileSys io_error unit := fun fs =>
  if decide (fs !! p = Some SubDir) then (fs, Ok tt) else create_dirs [] p fs.

(** [OpenOptions] with [create] and without [truncate]: a new file is empty,
    and its directory has to be there *)
Definition open_create (dir : path) (name : list byte) : st FileSys io_error (list byte) := fun fs =>
  match fs !! (dir ++ [name]) with
  | Some (File c) => (fs, Ok c)
  | Some SubDir => (fs, bail)
  | None => if decide (fs !! dir = Some SubDir) then (<[dir ++ [name] := File []]> fs, Ok []) else (fs, bail)
  end.

(** [fs::rename] of a file onto a file or a free name *)
Definition fs_rename (ok : bool) (from to : path) : st FileSys io_error unit := fun fs =>
  match fs !! from, fs !! to with
  | Some (File c), (Some (File _) | None) => if ok then (<[to := File c]> (delete from fs), Ok tt) else (fs, bail)
  | _, _ => (fs, bail)
  end.
Definition fs_remove_file (p : path) : st FileSys io_error unit := fun fs =>
  match fs !! p with
  | Some (File _) => (delete p fs, Ok tt)
  | _ => (fs, bail)
  end.

(** ** storage/wal.rs *)

Definition WAL_DIR : list byte := str "wals".
Definition ACTIVE_WAL_NAME : list byte := str "__active_wal.log".
Definition wal_dir (base : path) : path := base ++ [WAL_DIR].
Definition inactive_wal_name (id : Z) : list byte := str "wal_" ++ fmt_uint_pad 10 id ++ str ".log".
Definition format_inactive_wal_path (base : path) (id : Z) : path := wal_dir base ++ [inactive_wal_name id].
Definition format_active_wal_path (base : path) : path := wal_dir base ++ [ACTIVE_WAL_NAME].

(** the file is opened for appending; the writer's buffer is empty *)
Definition core_wal_open_active (base : path) : st FileSys io_error (BufWriter (list byte)) :=
  active ← open_create (wal_dir base) ACTIVE_WAL_NAME; mret (bufwriter_new active).

(** an entry whose name ends in [.log]; a directory cannot be read and is
    passed over like any log that fails *)
Definition log_content (e : list byte * Node) : option (list byte) :=
  if decide (extension_of e.1 = Some (str "log")) then match e.2 with File c => Some c | SubDir => None end else None.
Definition wal_recover_all (base : path) : st FileSys io_error (list CoreRecord) :=
  files ← read_dir (wal_dir base); st_lift (recover_all (omap log_content files)).

(** [rotate]: what the writer had buffered reaches the file it has open,
    the active log; then the file is renamed and a new one started. If the
    new one cannot be opened the writer still has the renamed file. *)
Definition wal_rotate (rename_ok open_ok : bool) (base : path) (sst_id : Z)
    : st (FileSys * BufWriter (list byte)) io_error path := fun '(fs, w) =>
  match wal_flush_buffer w with
  | (w, Ok _) =>
      let fs := <[format_active_wal_path base := File (bw_inner w)]> fs in
      let rotated_path := format_inactive_wal_path base sst_id in
      match fs_rename rename_ok (format_active_wal_path base) rotated_path fs with
      | (fs, Ok _) =>
          match (if open_ok then core_wal_open_active base fs else (fs, bail)) with
          | (fs, Ok w) => ((fs, w), Ok rotated_path)
          | (fs, Err e) => ((fs, w), Err e)
          | (fs, Panic) => ((fs, w), Panic)
          end
      | (fs, Err e) => ((fs, w), Err e)
      | (fs, Panic) => ((fs, w), Panic)
      end
  | (w, Err e) => ((fs, w), Err e)
  | (w, Panic) => ((fs, w), Panic)
  end.

(** [WalSyncer::open] on the path of the active log *)
Definition wal_syncer_open (base : path) : st FileSys io_error unit :=
  _ ← create_dir_all (wal_dir base); _ ← open_create (wal_dir base) ACTIVE_WAL_NAME; mret tt.

(** ** [Engine::open] *)

Context `{SstCodec}.

Definition sst_entry (e : list byte * Node) : option (list byte * list byte) :=
  match e.2 with
  | File c => if decide (extension_of e.1 = Some (str "sst")) then Some (e.1, c) else None
  | SubDir => None
  end.
Definition name_le (x y : list byte * list byte) : bool := match cmp x.1 y.1 with Gt => false | _ => true end.

(** the loop over the SSTs, sorted by path; the id is the stem of the name *)
Fixpoint open_sst_files (ssts : list (list byte * list byte)) (max_sst_id max_seq_num : Z) (map : list (Z * SSTableMeta))
    : outcome io_error (Z * Z * list (Z * SSTableMeta)) :=
  match ssts with
  | [] => Ok (max_sst_id, max_seq_num, map)
  | (name, content) :: rest =>
      match parse_uint u64_max (file_stem_of name) with
      | None => bail
      | Some file_id =>
          '(max_sst_id, max_seq_num, map) ← open_ssts [(file_id, content)] max_sst_id max_seq_num map;
          open_sst_files rest max_sst_id max_seq_num map
      end
  end.

(** after the directories and the active log are there *)
Definition load_dir (base : path) (memtable_limit : Z) (wal : BufWriter (list byte)) : st FileSys io_error (Engine (list byte) * bool) :=
  recovered ← wal_recover_all base;
  '(memtable, (max_seq_num, needs_flush)) ←
    st_lift (match open_memtable recovered 0 false (core_memtable_new memtable_limit) with
             | (m, Ok x) => Ok (m, x) | (_, Err e) => Err e | (_, Panic) => Panic end);
  files ← read_dir base;
  '(max_sst_id, max_seq_num, map) ←
    st_lift (open_sst_files (stable_sort name_le (omap sst_entry files)) 0 max_seq_num []);
  mret (Build_Engine (list byte) _ wal memtable [] map ∅
          (wrap64 (max_sst_id + 1)) (wrap64 (max_seq_num + 1)) memtable_limit, needs_flush).

Definition open_dir (base : path) (memtable_limit : Z) : st FileSys io_error (Engine (list byte) * bool) :=
  fs ← st_get;
  _ ← (match fs !! base with Some _ => mret tt | None => create_dir_all base end);
  _ ← create_dir_all (wal_dir base);
  wal ← core_wal_open_active base;
  load_dir base memtable_limit wal.
End files.

(** ** Listing *)

Lemma name_in_Some dir p name : name_in dir p = Some name <-> p = dir ++ [name].
Proof.
  revert p. induction dir as [|d dir IH]; intros p; cbn [name_in].
  - destruct p as [|c [|]]; cbn; split; intros E; by simplify_eq.
  - destruct p as [|c p]; [done|]. cbn. destruct (decide (d = c)) as [->|Hne]; [rewrite IH; split; congruence|].
    split; intros E; by simplify_eq.
Qed.
Lemma elem_of_entries fs dir name n : (name, n) ∈ entries fs dir <-> fs !! (dir ++ [name]) = Some n.
Proof.
  unfold entries. rewrite list_elem_of_omap. split.
  - intros ([p m] & Hin%elem_of_map_to_list & E). apply bind_Some in E as (nm & ->%name_in_Some & [= -> ->]). done.
  - intros E. exists (dir ++ [name], n). split; [by apply elem_of_map_to_list|]. by rewrite (proj2 (name_in_Some _ _ name) eq_refl).
Qed.
Lemma entries_nodup fs dir : NoDup (entries fs dir).*1.
Proof.
  assert (forall l : list (path * Node), NoDup l.*1 ->
    NoDup (omap (fun '(p, n) => name ← name_in dir p; Some (name, n)) l).*1) as Hl; [|apply Hl, NoDup_fst_map_to_list].
  induction l as [|[p n] l IH]; cbn; intros Hnd; [constructor|]. apply NoDup_cons in Hnd as [Hp Hnd].
  destruct (name_in dir p) as [name|] eqn:E; cbn; [|by apply IH]. constructor; [|by apply IH].
  apply name_in_Some in E as ->. intros ([nm m] & -> & Hin)%list_elem_of_fmap.
  apply list_elem_of_omap in Hin as ([q m'] & Hq & (nm' & ->%name_in_Some & [= <- <-])%bind_Some).
  apply Hp, list_elem_of_fmap. by exists (dir ++ [nm'], m').
Qed.

(** ** Names *)

Lemma inactive_name_ext id : extension_of (inactive_wal_name id) = Some (str "log").
Proof.
  unfold inactive_wal_name. rewrite app_assoc. apply (name_parts (str "wal_" ++ fmt_uint_pad 10 id) (str "log")); [done|].
  apply (bool_decide_eq_false_1 (Byte.x2e ∈ str "log")). reflexivity.
Qed.
Lemma inactive_name_active id : inactive_wal_name id <> ACTIVE_WAL_NAME.
Proof. done. Qed.
(** the padded number identifies the log *)
Lemma inactive_name_inj i j : 0 <= i <= u64_max -> 0 <= j <= u64_max -> inactive_wal_name i = inactive_wal_name j -> i = j.
Proof.
  intros Hi Hj E%(app_inv_head (str "wal_"))%app_inv_tail. apply (parse_fmt_pad u64_max 10) in Hi, Hj. congruence.
Qed.

(** ** Logs and SSTs by id, as files *)

Record fs_rep `{FileNames} (base : path) (fs : FileSys) (active : list byte) (wals : gmap Z (list byte)) (ssts : Directory) : Prop := {
  rep_base : fs !! base = Some SubDir;
  rep_wal_dir : fs !! wal_dir base = Some SubDir;
  rep_active : fs !! format_active_wal_path base = Some (File active);
  rep_wals id c : wals !! id = Some c -> 0 <= id <= u64_max /\ fs !! format_inactive_wal_path base id = Some (File c);
  rep_logs name c : fs !! (wal_dir base ++ [name]) = Some (File c) -> extension_of name = Some (str "log") ->
    name = ACTIVE_WAL_NAME \/ exists id, name = inactive_wal_name id /\ wals !! id = Some c;
  rep_ssts id c : ssts !! id = Some c -> 0 <= id <= u64_max /\ fs !! (base ++ [sst_name id]) = Some (File c);
  rep_tables name c : fs !! (base ++ [name]) = Some (File c) -> extension_of name = Some (str "sst") ->
    exists id, name = sst_name id /\ ssts !! id = Some c
}.

Section listing.
Context `{FileNameLaws}.

Lemma sst_name_inj i j : 0 <= i <= u64_max -> 0 <= j <= u64_max -> sst_name i = sst_name j -> i = j.
Proof. intros Hi Hj E. apply sst_name_stem in Hi, Hj. congruence. Qed.

(** a filter of a listing that keeps each entry of [l], and no other *)
Lemma listing_perm {A} (f : list byte * Node -> option A) (es : list (list byte * Node)) (l : list (list byte * Node)) :
  NoDup es.*1 -> NoDup l.*1 -> (forall e, e ∈ l -> e ∈ es) -> (forall e x, e ∈ es -> f e = Some x -> e ∈ l) ->
  omap f es ≡ₚ omap f l.
Proof.
  intros Hes Hl Hin Hout.
  assert (forall k : list (list byte * Node), omap f k = omap f (filter (fun e => is_Some (f e)) k)) as Hf.
  { induction k as [|e k IH]; [done|]. rewrite filter_cons. cbn. destruct (f e) eqn:E.
    - rewrite decide_True by done. cbn. by rewrite E, IH.
    - by rewrite decide_False by (by intros [? ?]). }
  rewrite (Hf es), (Hf l). apply omap_Permutation, list.NoDup_Permutation; [by apply NoDup_filter, (NoDup_fmap_1 fst)..|].
  intros e. rewrite !list_elem_of_filter. split; intros [[x Hx] He]; (split; [by exists x|]); eauto.
Qed.

Definition log_entries (active : list byte) (wals : gmap Z (list byte)) : list (list byte * Node) :=
  (ACTIVE_WAL_NAME, File active) :: map (fun x => (inactive_wal_name x.1, File x.2)) (map_to_list wals).

Lemma omap_total {A B} (f : A -> option B) (g : A -> B) l : (forall x, x ∈ l -> f x = Some (g x)) -> omap f l = map g l.
Proof. induction l as [|x l IH]; intros Hl; [done|]. cbn. rewrite Hl by left. f_equal. apply IH. intros y Hy. apply Hl. by right. Qed.
Lemma map_fst_nodup {A} (g : Z -> list byte) (h : Z * A -> Node) (m : gmap Z A) :
  (forall i j, is_Some (m !! i) -> is_Some (m !! j) -> g i = g j -> i = j) ->
  NoDup (map (fun x => (g x.1, h x)) (map_to_list m)).*1.
Proof.
  intros Hg. rewrite <- (list_fmap_compose (fun x => (g x.1, h x)) fst). change (fst ∘ _) with (g ∘ @fst Z A).
  rewrite list_fmap_compose. apply NoDup_fmap_2_strong; [|apply NoDup_fst_map_to_list].
  intros i j ([i' c] & -> & Hi%elem_of_map_to_list)%list_elem_of_fmap ([j' d] & -> & Hj%elem_of_map_to_list)%list_elem_of_fmap.
  by apply Hg.
Qed.

(** the logs are listed, whatever else is in the directory *)
Lemma logs_listed base fs active wals ssts : fs_rep base fs active wals ssts ->
  omap log_content (read_order (entries fs (wal_dir base))) ≡ₚ active :: (map_to_list wals).*2.
Proof.
  intros Hr. rewrite read_order_perm. rewrite (listing_perm log_content _ (log_entries active wals)).
  - unfold log_entries. cbn [omap list_omap]. change (log_content (ACTIVE_WAL_NAME, File active)) with (Some active). cbv beta iota.
    constructor. rewrite (omap_total _ (fun e => match e.2 with File c => c | SubDir => [] end)).
    + by rewrite map_map.
    + intros e ([id c] & -> & _)%list_elem_of_fmap. unfold log_content. cbn [fst snd]. by rewrite decide_True by apply inactive_name_ext.
  - apply entries_nodup.
  - unfold log_entries. rewrite fmap_cons. constructor.
    + intros (e & E & ([id c] & -> & _)%list_elem_of_fmap)%list_elem_of_fmap. cbn [fst] in E. by apply (inactive_name_active id).
    + apply map_fst_nodup. intros i j [c Hc] [d Hd] E. apply (rep_wals _ _ _ _ _ Hr) in Hc as [? _], Hd as [? _].
      by apply inactive_name_inj.
  - intros e [->|([id c] & -> & Hin%elem_of_map_to_list)%list_elem_of_fmap]%elem_of_cons; apply elem_of_entries; cbn [fst snd].
    + apply (rep_active _ _ _ _ _ Hr).
    + by apply (rep_wals _ _ _ _ _ Hr) in Hin as [_ ?].
  - intros [nm n] x Hin%elem_of_entries. unfold log_content. cbn [fst snd]. destruct (decide _) as [Hext|]; [|done].
    destruct n as [c|]; [|done]. intros _. destruct (rep_logs _ _ _ _ _ Hr nm c Hin Hext) as [->|(id & -> & Hw)].
    + pose proof (rep_active _ _ _ _ _ Hr) as Ha. unfold format_active_wal_path in Ha. rewrite Hin in Ha. injection Ha as ->. left.
    + right. apply list_elem_of_fmap. exists (id, c). split; [done|]. by apply elem_of_map_to_list.
Qed.

Definition sst_entries (ssts : Directory) : list (list byte * Node) :=
  map (fun x => (sst_name x.1, File x.2)) (map_to_list ssts).

Lemma ssts_listed base fs active wals ssts : fs_rep base fs active wals ssts ->
  omap sst_entry (read_order (entries fs base)) ≡ₚ map (fun x => (sst_name x.1, x.2)) (map_to_list ssts).
Proof.
  intros Hr. rewrite read_order_perm. rewrite (listing_perm sst_entry _ (sst_entries ssts)).
  - unfold sst_entries. rewrite (omap_total _ (fun e => (e.1, match e.2 with File c => c | SubDir => [] end))).
    + by rewrite map_map.
    + intros e ([id c] & -> & _)%list_elem_of_fmap. unfold sst_entry. cbn [fst snd]. by rewrite decide_True by apply sst_name_ext.
  - apply entries_nodup.
  - apply map_fst_nodup. intros i j [c Hc] [d Hd] E. apply (rep_ssts _ _ _ _ _ Hr) in Hc as [? _], Hd as [? _].
    by apply sst_name_inj.
  - intros e ([id c] & -> & Hin%elem_of_map_to_list)%list_elem_of_fmap. apply elem_of_entries. cbn [fst snd].
    by apply (rep_ssts _ _ _ _ _ Hr) in Hin as [_ ?].
  - intros [nm n] x Hin%elem_of_entries. unfold sst_entry. cbn [fst snd]. destruct n as [c|]; [|done].
    destruct (decide _) as [Hext|]; [|done]. intros _. destruct (rep_tables _ _ _ _ _ Hr nm c Hin Hext) as (id & -> & Hs).
    apply list_elem_of_fmap. exists (id, c). split; [done|]. by apply elem_of_map_to_list.
Qed.

(** names back to ids: the loop over names is the loop over ids *)
Lemma open_sst_files_ids `{SstCodec} (l : list (Z * list byte)) : (forall x, x ∈ l -> 0 <= x.1 <= u64_max) ->
  forall mi ms m, open_sst_files (map (fun x => (sst_name x.1, x.2)) l) mi ms m = open_ssts l mi ms m.
Proof.
  induction l as [|[id c] l IH]; intros Hl mi ms m; [done|]. cbn [map open_sst_files fst snd].
  rewrite sst_name_stem by (by apply (Hl (id, c)); left). cbn [open_ssts].
  destruct (scan_seq c ms) as [sc|e|]; cbn; [|done..]. destruct (blen c <? 16); cbn; [done|].
  destruct (read_footer c) as [[[[ix io] bf] bo]|e|]; cbn; [|done..]. apply IH. intros x Hx. apply Hl. by right.
Qed.
End listing.

(** ** Opening by name is opening by id *)

Ltac path_ne := intros E; apply (f_equal length) in E; unfold format_active_wal_path, format_inactive_wal_path, wal_dir in E;
  rewrite ?length_app in E; cbn [length] in E; lia.
Lemma path_inj (p : path) x y : p ++ [x] = p ++ [y] -> x = y.
Proof. by intros [= ?]%app_inv_head. Qed.

Section opening.
Context `{FileNameLaws, SstCodec}.


Lemma load_dir_rep base fs active wals ssts limit : fs_rep base fs active wals ssts ->
  exists ws ss, ws ≡ₚ active :: (map_to_list wals).*2 /\ ss ≡ₚ map_to_list ssts /\
    load_dir base limit (bufwriter_new active) fs = (fs, engine_open active ws ss limit).
Proof.
  intros Hr. eexists. pose proof (ssts_listed _ _ _ _ _ Hr) as Hs.
  rewrite <- (stable_sort_perm name_le) in Hs. apply Permutation_map_inv in Hs as (ss & Es & Hp). exists ss.
  split; [by apply (logs_listed base fs active wals ssts)|]. split; [by symmetry|].
  assert (forall x, x ∈ ss -> 0 <= x.1 <= u64_max) as Hss.
  { intros [id c]. rewrite <- Hp, elem_of_map_to_list. intros [? _]%(rep_ssts _ _ _ _ _ Hr). done. }
  unfold load_dir, wal_recover_all. rewrite !st_bind_unfold. unfold read_dir at 1. rewrite (rep_wal_dir _ _ _ _ _ Hr).
  unfold st_lift at 1, engine_open. destruct (recover_all _) as [recs|e|]; [|done..].
  cbn [mbind outcome_bind]. rewrite st_bind_unfold. unfold st_lift at 1.
  destruct (open_memtable recs 0 false (core_memtable_new limit)) as [m [[n flag]|e|]]; [|done..].
  rewrite st_bind_unfold. unfold read_dir at 1. rewrite (rep_base _ _ _ _ _ Hr). rewrite st_bind_unfold. unfold st_lift.
  rewrite Es, open_sst_files_ids by done. destruct (open_ssts ss 0 n []) as [[[mi ms] map]|e|]; done.
Qed.

(** in an empty file system every directory on the way is created *)
Definition only_dirs (fs : FileSys) : Prop := map_Forall (fun _ n => n = SubDir) fs.
Lemma create_dirs_fresh todo : forall parent fs, only_dirs fs ->
  exists fs', create_dirs parent todo fs = (fs', Ok tt) /\ only_dirs fs' /\ fs ⊆ fs' /\
    (todo <> [] -> fs' !! (parent ++ todo) = Some SubDir) /\
    (forall p, (length (parent ++ todo) < length p)%nat -> fs' !! p = fs !! p).
Proof.
  induction todo as [|c todo IH]; intros parent fs Hd; cbn [create_dirs]; [by exists fs|].
  set (fs1 := match fs !! (parent ++ [c]) with None => <[parent ++ [c] := SubDir]> fs | _ => fs end).
  assert (only_dirs fs1 /\ fs ⊆ fs1 /\ fs1 !! (parent ++ [c]) = Some SubDir) as (Hd1 & Hs1 & Hc1).
  { unfold fs1. destruct (fs !! (parent ++ [c])) as [n|] eqn:E; [by rewrite (Hd _ _ E) in E|].
    split_and!; [by apply map_Forall_insert_2|by apply insert_subseteq|apply lookup_insert_eq]. }
  destruct (IH (parent ++ [c]) fs1 Hd1) as (fs' & E & Hd' & Hs' & Hl & Hlong). rewrite <- app_assoc in Hlong. cbn [app] in Hlong.
  exists fs'. split_and!; [|done|by transitivity fs1| |].
  - unfold fs1 in E. destruct (fs !! (parent ++ [c])) as [n|] eqn:En; [|done]. by rewrite (Hd _ _ En).
  - intros _. destruct todo as [|d todo]; [by eapply lookup_weaken|]. rewrite <- app_assoc in Hl. by apply Hl.
  - intros p Hp. rewrite Hlong by done. unfold fs1. destruct (fs !! (parent ++ [c])); [done|]. apply lookup_insert_ne.
    intros <-. rewrite !length_app in Hp. cbn [length] in Hp. lia.
Qed.
Lemma create_dir_all_fresh p fs : only_dirs fs -> p <> [] ->
  exists fs', create_dir_all p fs = (fs', Ok tt) /\ only_dirs fs' /\ fs ⊆ fs' /\ fs' !! p = Some SubDir /\
    (forall q, (length p < length q)%nat -> fs' !! q = fs !! q).
Proof.
  intros Hd Hp. unfold create_dir_all. destruct (decide _) as [E|_]; [by exists fs|].
  destruct (create_dirs_fresh p [] fs Hd) as (fs' & -> & ? & ? & Hl & ?). exists fs'. split_and!; [done..|by apply Hl|done].
Qed.

(** the first start: the directories and an empty log are created, and the
    engine is the one the runs of the system start from *)
Lemma first_start base limit : base <> [] ->
  exists fs, open_dir base limit ∅ = (fs, engine_open [] [[]] [] limit) /\ fs_rep base fs [] ∅ ∅.
Proof.
  intros Hb. destruct (create_dir_all_fresh base ∅ (map_Forall_empty _) Hb) as (fs1 & E1 & Hd1 & _ & Hb1 & Hl1).
  destruct (create_dir_all_fresh (wal_dir base) fs1 Hd1) as (fs2 & E2 & Hd2 & Hs2 & Hb2 & Hl2); [by destruct base|].
  assert (forall p c, fs2 !! p <> Some (File c)) as Hno by (intros p c E%Hd2; done).
  set (fs3 := <[format_active_wal_path base := File []]> fs2).
  assert (fs_rep base fs3 [] ∅ ∅) as Hr.
  { unfold fs3. split; try done.
    - rewrite lookup_insert_ne by path_ne. by eapply lookup_weaken.
    - by rewrite lookup_insert_ne by path_ne.
    - apply lookup_insert_eq.
    - intros nm c [[E%path_inj [= <-]]|[_ ?%Hno]]%lookup_insert_Some; [|done]. by left.
    - intros nm c [[E _]|[_ ?%Hno]]%lookup_insert_Some; [|done]. exfalso. revert E. path_ne. }
  exists fs3. split; [|done]. destruct (load_dir_rep base fs3 [] ∅ ∅ limit Hr) as (ws & ss & Hw & Hs & E3).
  rewrite map_to_list_empty in Hw, Hs. apply Permutation_singleton_r in Hw as ->. apply Permutation_nil_r in Hs as ->.
  unfold open_dir. rewrite st_bind_unfold. cbn [st_get]. rewrite lookup_empty, st_bind_unfold, E1, st_bind_unfold, E2.
  unfold core_wal_open_active. rewrite !st_bind_unfold. unfold open_create at 1.
  rewrite Hl2, Hl1 by (unfold wal_dir; rewrite !length_app; cbn [length]; lia). rewrite lookup_empty, decide_True by done. exact E3.
Qed.
End opening.

(** ** Operations on files by name keep the correspondence *)

Section keeping.
Context `{FileNameLaws}.
Implicit Types (base : path) (fs : FileSys) (active c : list byte) (wals : gmap Z (list byte)) (ssts : Directory).

(** a file is replaced, created or removed in the directory of the logs *)
Lemma rep_log_change base fs active wals ssts name n active' wals' :
  fs_rep base fs active wals ssts -> n <> Some SubDir ->
  let fs' := partial_alter (fun _ => n) (wal_dir base ++ [name]) fs in
  fs' !! format_active_wal_path base = Some (File active') ->
  (forall id c, wals' !! id = Some c -> 0 <= id <= u64_max /\ fs' !! format_inactive_wal_path base id = Some (File c)) ->
  (forall id c, wals !! id = Some c -> inactive_wal_name id <> name -> wals' !! id = Some c) ->
  (forall c, n = Some (File c) -> extension_of name = Some (str "log") ->
     name = ACTIVE_WAL_NAME \/ exists id, name = inactive_wal_name id /\ wals' !! id = Some c) ->
  fs_rep base fs' active' wals' ssts.
Proof.
  intros Hr Hn fs' Ha Hw Hkeep Hnew. split; [..|done|done| | |].
  - unfold fs'. rewrite lookup_partial_alter_ne by path_ne. apply Hr.
  - unfold fs'. rewrite lookup_partial_alter_ne by path_ne. apply Hr.
  - intros nm c. unfold fs'. destruct (decide (nm = name)) as [->|Hne].
    + rewrite lookup_partial_alter_eq. by apply Hnew.
    + rewrite lookup_partial_alter_ne by (intros E%path_inj; congruence). intros Hl He.
      destruct (rep_logs _ _ _ _ _ Hr nm c Hl He) as [->|(id & -> & Hid)]; [by left|]. right. exists id. eauto.
  - intros id c Hid. unfold fs'. rewrite lookup_partial_alter_ne by path_ne. by apply Hr.
  - intros nm c. unfold fs'. rewrite lookup_partial_alter_ne by path_ne. apply Hr.
Qed.

(** the active log is written *)
Lemma rep_active_written base fs active wals ssts active' : fs_rep base fs active wals ssts ->
  fs_rep base (<[format_active_wal_path base := File active']> fs) active' wals ssts.
Proof.
  intros Hr. apply (rep_log_change base fs active wals ssts ACTIVE_WAL_NAME (Some (File active'))); [done|done|..].
  - apply lookup_partial_alter_eq.
  - intros id c [Hid Hl]%(rep_wals _ _ _ _ _ Hr). split; [done|].
    by rewrite lookup_partial_alter_ne by (intros E%path_inj; by apply (inactive_name_active id)).
  - done.
  - by left.
Qed.
(** the active log has been moved to the name of a rotated one *)
Lemma rep_log_added base fs active wals ssts id c : fs_rep base fs active wals ssts -> 0 <= id <= u64_max ->
  fs_rep base (<[format_inactive_wal_path base id := File c]> fs) active (<[id := c]> wals) ssts.
Proof.
  intros Hr Hid. apply (rep_log_change base fs active wals ssts (inactive_wal_name id) (Some (File c))); [done|done|..].
  - rewrite lookup_partial_alter_ne by (intros E%path_inj; by apply (inactive_name_active id)). apply Hr.
  - intros j d Hj. destruct (decide (j = id)) as [->|Hne].
    + rewrite lookup_insert_eq in Hj. injection Hj as ->. split; [done|]. apply lookup_partial_alter_eq.
    + rewrite lookup_insert_ne in Hj by done. apply (rep_wals _ _ _ _ _ Hr) in Hj as [Hjr Hj]. split; [done|].
      rewrite lookup_partial_alter_ne; [done|]. intros E%path_inj. by apply Hne, inactive_name_inj.
  - intros j d Hj Hne. rewrite lookup_insert_ne; [done|]. by intros ->.
  - intros d [= ->] _. right. exists id. by rewrite lookup_insert_eq.
Qed.
(** a rotated log is removed *)
Lemma rep_log_removed base fs active wals ssts id : fs_rep base fs active wals ssts -> 0 <= id <= u64_max ->
  fs_rep base (delete (format_inactive_wal_path base id) fs) active (delete id wals) ssts.
Proof.
  intros Hr Hid. apply (rep_log_change base fs active wals ssts (inactive_wal_name id) None); [done|done|..].
  - rewrite lookup_partial_alter_ne by (intros E%path_inj; by apply (inactive_name_active id)). apply Hr.
  - intros j d [Hne Hj]%lookup_delete_Some. apply (rep_wals _ _ _ _ _ Hr) in Hj as [Hjr Hj]. split; [done|].
    rewrite lookup_partial_alter_ne; [done|]. intros E%path_inj. by apply Hne, inactive_name_inj.
  - intros j d Hj Hne. rewrite lookup_delete_ne; [done|]. by intros ->.
  - done.
Qed.

(** an SST is written or removed *)
Lemma rep_sst_change base fs active wals ssts id n : fs_rep base fs active wals ssts -> 0 <= id <= u64_max ->
  fs_rep base (partial_alter (fun _ => File <$> n) (base ++ [sst_name id]) fs) active wals (partial_alter (fun _ => n) id ssts).
Proof.
  intros Hr Hid. split.
  - rewrite lookup_partial_alter_ne by path_ne. apply Hr.
  - rewrite lookup_partial_alter_ne; [apply Hr|]. intros E%path_inj. pose proof (sst_name_ext id) as Hx. by rewrite E in Hx.
  - rewrite lookup_partial_alter_ne by path_ne. apply Hr.
  - intros j c. rewrite lookup_partial_alter_ne by path_ne. apply Hr.
  - intros nm c. rewrite lookup_partial_alter_ne by path_ne. apply Hr.
  - intros j c Hj. destruct (decide (j = id)) as [->|Hne].
    + rewrite lookup_partial_alter_eq in Hj. rewrite lookup_partial_alter_eq, Hj. done.
    + rewrite lookup_partial_alter_ne in Hj by done. apply (rep_ssts _ _ _ _ _ Hr) in Hj as [Hjr Hj]. split; [done|].
      rewrite lookup_partial_alter_ne; [done|]. intros E%path_inj. by apply Hne, sst_name_inj.
  - intros nm c. destruct (decide (nm = sst_name id)) as [->|Hne].
    + rewrite lookup_partial_alter_eq. destruct n as [d|]; [|done]. intros [= ->] _. exists id. by rewrite lookup_partial_alter_eq.
    + rewrite lookup_partial_alter_ne by (intros E%path_inj; congruence). intros Hl He.
      destruct (rep_tables _ _ _ _ _ Hr nm c Hl He) as (j & -> & Hj). exists j. split; [done|].
      rewrite lookup_partial_alter_ne; [done|]. by intros ->.
Qed.
End keeping.

(** ** The backend on files by name *)

Section by_name.
Context `{FileNameLaws, SstModule}.
Implicit Types (b : Backend) (base : path) (fs : FileSys).

(** the files of a backend *)
Definition holds base fs b : Prop := fs_rep base fs (bw_inner (e_wal (b_engine b))) (d_wals b) (d_ssts b).

(** deleting by name is deleting by id, also when there is nothing to delete *)
Lemma remove_log base fs active wals ssts id : fs_rep base fs active wals ssts -> 0 <= id <= u64_max ->
  fs_rep base (fs_remove_file (format_inactive_wal_path base id) fs).1 active (delete id wals) ssts.
Proof.
  intros Hr Hid. unfold fs_remove_file. pose proof (rep_log_removed base fs active wals ssts id Hr Hid) as Hd.
  destruct (wals !! id) as [c|] eqn:E.
  - destruct (rep_wals _ _ _ _ _ Hr id c E) as [_ ->]. done.
  - rewrite (delete_id wals id) in Hd |- * by done. destruct (fs !! format_inactive_wal_path base id) as [[c|]|]; done.
Qed.
Lemma remove_sst base fs active wals ssts id : fs_rep base fs active wals ssts -> 0 <= id <= u64_max ->
  fs_rep base (fs_remove_file (base ++ [sst_name id]) fs).1 active wals (delete id ssts).
Proof.
  intros Hr Hid. unfold fs_remove_file. pose proof (rep_sst_change base fs active wals ssts id None Hr Hid) as Hd.
  destruct (ssts !! id) as [c|] eqn:E.
  - destruct (rep_ssts _ _ _ _ _ Hr id c E) as [_ ->]. done.
  - change (partial_alter (fun _ => None) id ssts) with (delete id ssts) in Hd.
    rewrite (delete_id ssts id) in Hd |- * by done. destruct (fs !! (base ++ [sst_name id])) as [[c|]|]; done.
Qed.

(** C18: rotating the log by name does what the backend relies on by id. The
    files before the call are those of the backend; after it they are those
    of the backend after [rotate_wal]: what was buffered has been written,
    the active log is at the name of the given id and an empty one is in its
    place. When the rename fails, which it does on a directory of that name,
    everything stays but the write. When the new log cannot be opened, the
    old one is at its new name, the writer goes on with it, and there is no
    active log. In all cases no path but these two changes. *)
Theorem rotate_refines (rename_ok open_ok : bool) (base : path) (id : Z) (fs : FileSys) (b : Backend)
    (Hid : 0 <= id <= u64_max) (Hfs : holds base fs b) :
  let active := format_active_wal_path base in
  let inactive := format_inactive_wal_path base id in
  let ok := rename_ok && bool_decide (fs !! inactive <> Some SubDir) in
  let b' := (rotate_wal ok id b).1 in
  exists fs' w, wal_rotate rename_ok open_ok base id (fs, e_wal (b_engine b)) =
      ((fs', w), if ok && open_ok then Ok inactive else bail) /\
    (forall p, p <> active -> p <> inactive -> fs' !! p = fs !! p) /\
    (ok && negb open_ok = false ->
       w = e_wal (b_engine b') /\ (rotate_wal ok id b).2 = (if ok then Ok id else bail) /\ holds base fs' b') /\
    (ok && negb open_ok = true ->
       fs' !! active = None /\ w = bufwriter_new (bw_total (e_wal (b_engine b))) /\
       fs' !! inactive = Some (File (bw_total (e_wal (b_engine b))))).
Proof.
  intros active inactive ok b'. unfold b', rotate_wal, on_engine. rewrite flush_wal_buffer_vec. unfold wal_rotate.
  assert (wal_flush_buffer (e_wal (b_engine b)) = (bufwriter_new (bw_total (e_wal (b_engine b))), Ok tt)) as -> by reflexivity.
  set (w := bufwriter_new (bw_total (e_wal (b_engine b)))). unfold synced. fold w.
  cbn [b_engine b_with_engine e_wal e_with_wal fst snd].
  pose proof (rep_active_written base fs _ _ _ (bw_inner w) Hfs) as Hr1. fold active inactive. fold active in Hr1. set (fs1 := <[active := _]> fs) in *.
  assert (inactive <> active) as Hne by (intros E%path_inj; by apply (inactive_name_active id)).
  assert (fs1 !! inactive = fs !! inactive) as Ei by (by apply lookup_insert_ne).
  assert (forall p, p <> active -> fs1 !! p = fs !! p) as Hfr by (intros p Hp; by apply lookup_insert_ne).
  unfold fs_rename. rewrite (rep_active _ _ _ _ _ Hr1 : fs1 !! active = _), Ei. unfold ok.
  destruct (fs !! inactive) as [[c|]|] eqn:En;
    [| |]; rewrite ?(bool_decide_eq_true_2 (_ <> _)), ?andb_true_r, ?(bool_decide_eq_false_2 (_ <> _)), ?andb_false_r by naive_solver;
    try (destruct rename_ok); cbn [negb andb]; try (exists fs1, w; split_and!; [done|by intros; apply Hfr|done|done]).
  all: set (fs2 := <[inactive := File (bw_inner w)]> (delete active fs1)).
  all: assert (fs2 !! active = None) as Ha by (unfold fs2; by rewrite lookup_insert_ne, lookup_delete_eq).
  all: assert (forall p, p <> active -> p <> inactive -> fs2 !! p = fs !! p) as Hfr2
    by (intros p Hp Hq; unfold fs2; rewrite lookup_insert_ne, lookup_delete_ne by done; by apply Hfr).
  all: destruct open_ok; cbn [negb].
  2,4: exists fs2, w; split_and!; [done|done|done|intros _; split_and!; [done|done|apply lookup_insert_eq]].
  all: unfold core_wal_open_active, open_create; rewrite st_bind_unfold.
  all: change (wal_dir base ++ [ACTIVE_WAL_NAME]) with active; rewrite Ha.
  all: rewrite decide_True by (rewrite Hfr2; [apply Hfs|unfold active; path_ne|unfold inactive; path_ne]).
  all: exists (<[active := File []]> fs2), (bufwriter_new []); split_and!; [done| | |done].
  1,3: intros p Hp Hq; rewrite lookup_insert_ne by done; by apply Hfr2.
  all: intros _; split_and!; [done|done|].
  all: pose proof (rep_log_added base _ _ _ _ id (bw_inner w) (rep_active_written base fs1 _ _ _ [] Hr1) Hid) as Hr2.
  all: unfold holds, fs2; cbn; rewrite insert_insert_ne by done.
  all: by rewrite insert_delete_eq.
Qed.

End by_name.

Section restarting.
Context {H : Type} `{FileNameLaws, SstCodec, !MinHeap CoreHeapItem H, !MinHeapLaws CoreHeapItem H, !SstCodecLaws, !SstReopenLaws}.

End restarting.
