(* ===== verification/CoreSync.v ===== *)
(** * Syncing the log: what survives a loss of power

    The fsync side of storage/io_worker.rs, with [WalSyncer] of
    storage/wal.rs and the notification of storage/backend.rs. The worker
    holds one open log file; an fsync makes durable what that file holds. A
    log that is renamed stays open, so the file the syncer holds is either
    the active log or the one that was rotated under some id. Renaming,
    creating and deleting a file are durable at once, and so is an SST when
    its task has ended; of a log, what has been synced survives, and any
    part of what was written after. *)
From S2P Require Import Prelude Std Codec CoreProto CoreStorage CoreIter CoreEngine CoreBackend CoreSystem CoreTurns CoreRecover.

(** ** The syncer and what is durable *)

Record LogSync := {
  (** [wal_syncer]: [None] is the active log, [Some id] the log rotated as [id] *)
  ls_syncer : option Z;
  (** the permit of [wal_sync_notify] *)
  ls_permit : bool;
  (** the part of the active log, and of every rotated log, that is durable *)
  ls_active : list byte;
  ls_rotated : gmap Z (list byte)
}.

Definition log_sync_new : LogSync := {| ls_syncer := None; ls_permit := false; ls_active := []; ls_rotated := ∅ |}.

(** [notify_one]: there is at most one permit *)
Definition notify_one (ls : LogSync) : LogSync :=
  {| ls_syncer := ls_syncer ls; ls_permit := true; ls_active := ls_active ls; ls_rotated := ls_rotated ls |}.

(** the active log is renamed and an empty one created *)
Definition log_renamed (id : Z) (ls : LogSync) : LogSync :=
  {| ls_syncer := match ls_syncer ls with None => Some id | s => s end; ls_permit := ls_permit ls;
     ls_active := []; ls_rotated := <[id := ls_active ls]> (ls_rotated ls) |}.

Section syncing.
Context `{SstModule}.

(** [handle_sync]; [ok]: whether [sync_all] succeeds. A deleted log has no
    content any more. *)
Definition handle_sync (ok : bool) (b : Backend) (ls : LogSync) : LogSync :=
  if negb ok then ls
  else match ls_syncer ls with
       | None => {| ls_syncer := None; ls_permit := ls_permit ls;
                    ls_active := bw_inner (e_wal (b_engine b)); ls_rotated := ls_rotated ls |}
       | Some id => {| ls_syncer := Some id; ls_permit := ls_permit ls; ls_active := ls_active ls;
                       ls_rotated := match d_wals b !! id with
                                     | Some f => <[id := f]> (ls_rotated ls)
                                     | None => ls_rotated ls
                                     end |}
       end.

(** the notification is taken: [wal_sync_notify.notified()] *)
Definition take_permit (ls : LogSync) : LogSync :=
  {| ls_syncer := ls_syncer ls; ls_permit := false; ls_active := ls_active ls; ls_rotated := ls_rotated ls |}.

(** [IoCommand::ResyncWal]: open the active log, sync the old file, switch *)
Definition handle_resync (open_ok ok : bool) (b : Backend) (ls : LogSync) : LogSync :=
  if negb open_ok then ls
  else let ls := handle_sync ok b ls in
       {| ls_syncer := None; ls_permit := ls_permit ls; ls_active := ls_active ls; ls_rotated := ls_rotated ls |}.

(** whether [send_flush_cmd] renames the log *)
Definition rotates (rename_ok : bool) (b : Backend) : bool := rename_ok && negb (is_memtable_empty (b_engine b)).

(** [turn_commands] with the notification and the renaming; [interval_zero]:
    [fsync_interval.is_zero()] *)
Definition turn_sync (interval_zero rename_ok : bool) (cmds : list BackendCommand) (b : Backend) (ls : LogSync)
    : Backend * LogSync * outcome io_error unit :=
  match handle_commands cmds false b with
  | (b, Ok needs_flush) =>
      match send_wal_sync_cmd b with
      | (b, Panic) => (b, ls, Panic)
      | (b, sent) =>
          let ls := match sent with Ok _ => if interval_zero then notify_one ls else ls | _ => ls end in
          if (needs_flush : bool) then
            let ls := if rotates rename_ok b then log_renamed (e_sst_counter (b_engine b)) ls else ls in
            let '(b, o) := ignore_err (send_flush_cmd rename_ok) b in (b, ls, o)
          else (b, ls, Ok tt)
      end
  | (b, Err e) => (b, ls, Err e)
  | (b, Panic) => (b, ls, Panic)
  end.

Lemma turn_sync_turn zero rn cmds b ls :
  let '(b', _, o) := turn_sync zero rn cmds b ls in turn_commands rn cmds b = (b', o).
Proof.
  unfold turn_sync, turn_commands. rewrite st_bind_unfold. destruct (handle_commands cmds false b) as [b1 [flag|e|]]; [|done..].
  rewrite st_bind_unfold. unfold ignore_err. destruct (send_wal_sync_cmd b1) as [b2 [[]|e|]]; [| |done];
    (destruct flag; [by destruct (send_flush_cmd rn b2) as [b3 [[]|?|]]|done]).
Qed.
End syncing.

(** ** The system with its syncer *)

Section sync_system.
Context {H : Type} `{SstCodec, !MinHeap CoreHeapItem H}.

(** A turn of the loop; a sync (a notification when the interval is zero, a
    tick of the timer otherwise); a [ResyncWal] command; and the steps of
    the tasks, which are those that change the tasks or the results. *)
Inductive sync_step (zero reliable : bool) : Sys * LogSync -> list CoreRecord -> Sys * LogSync -> Prop :=
| sync_turn b b' jobs results ls ls' rename_ok cmds :
    Forall insert_ok (cmds_inserts cmds) -> has_room (blen (cmds_inserts cmds)) b ->
    turn_sync zero rename_ok cmds b ls = (b', ls', Ok tt) ->
    sync_step zero reliable (Build_Sys _ b jobs results, ls) (turn_records cmds b) (Build_Sys _ b' jobs results, ls')
| sync_notified s ls ok :
    zero = true -> ls_permit ls = true -> (reliable = true -> ok = true) ->
    sync_step zero reliable (s, ls) [] (s, handle_sync ok (s_backend s) (take_permit ls))
| sync_tick s ls ok :
    zero = false -> (reliable = true -> ok = true) ->
    sync_step zero reliable (s, ls) [] (s, handle_sync ok (s_backend s) ls)
| sync_resync b cmds jobs results ls open_ok ok :
    io_cmds b = ResyncWal :: cmds -> (reliable = true -> open_ok = true /\ ok = true) ->
    sync_step zero reliable (Build_Sys _ b jobs results, ls) []
      (Build_Sys _ (b_with_cmds b cmds) jobs results, handle_resync open_ok ok b ls)
| sync_task s s' ls :
    sys_step (H := H) s [] s' -> (s_jobs s', s_results s') <> (s_jobs s, s_results s) ->
    sync_step zero reliable (s, ls) [] (s', ls).

(** a run all of whose states satisfy [P] *)
Inductive sync_run (zero reliable : bool) (P : Sys -> Prop) (s0 : Sys) : list CoreRecord -> Sys * LogSync -> Prop :=
| sync_start : P s0 -> sync_run zero reliable P s0 [] (s0, log_sync_new)
| sync_more ins x recs y :
    sync_run zero reliable P s0 ins x -> sync_step zero reliable x recs y -> P y.1 -> sync_run zero reliable P s0 (ins ++ recs) y.

Lemma sync_step_sys zero rel s ls recs s' ls' :
  sync_step zero rel (s, ls) recs (s', ls') -> sys_step (H := H) s recs s' \/ (recs = [] /\ s' = s).
Proof.
  inversion 1; subst; [left|by right|by right|left|left]; [|by eapply (step_take b ResyncWal)|done].
  eapply step_commands; [done|done|].
  match goal with E : turn_sync _ _ _ _ _ = _ |- _ => pose proof (turn_sync_turn zero rename_ok cmds b ls) as Ht; by rewrite E in Ht end.
Qed.

(** the syncer observes the system: every run with it is a run without it *)
Lemma sync_run_sys zero rel P s0 ins s ls : sync_run zero rel P s0 ins (s, ls) -> sys_run (H := H) s0 ins s.
Proof.
  remember (s, ls) as x eqn:Ex. intros Hrun. revert s ls Ex. induction Hrun as [|ins [s1 ls1] recs y _ IH Hstep _]; intros s ls Ex.
  - injection Ex as -> _. constructor.
  - subst y. specialize (IH s1 ls1 eq_refl). destruct (sync_step_sys _ _ _ _ _ _ _ Hstep) as [?|[-> ->]]; [by eapply run_step|].
    by rewrite app_nil_r.
Qed.

(** and no step of the system is left out *)
Lemma sys_step_sync zero rel s recs s' ls : sys_step (H := H) s recs s' -> exists ls', sync_step zero rel (s, ls) recs (s', ls').
Proof.
  intros Hstep. pose proof Hstep as Hstep'.
  destruct Hstep as [b b' jobs results rn cmds Hok Hroom E|b jobs r results Hroom|b c cmds jobs results E
    |b pre m id post meta file results E|b pre tables id post meta file ids results E|b pre c post ssts results Hssts].
  - destruct (turn_sync zero rn cmds b ls) as [[b2 ls'] o] eqn:Et. pose proof (turn_sync_turn zero rn cmds b ls) as Ht.
    rewrite Et, E in Ht. injection Ht as <- <-. exists ls'. by eapply sync_turn.
  - exists ls. apply sync_task; [done|]. cbn. intros [= Hr]. by apply (f_equal length) in Hr; cbn in Hr; lia.
  - destruct c as [|m id|tables id]; eexists.
    + by apply (sync_resync zero rel b cmds jobs results ls true true).
    + apply sync_task; [done|]. cbn. intros [= Hr]. apply (f_equal length) in Hr. rewrite length_app in Hr. cbn in Hr. lia.
    + apply sync_task; [done|]. cbn. intros [= Hr]. apply (f_equal length) in Hr. rewrite length_app in Hr. cbn in Hr. lia.
  - exists ls. apply sync_task; [done|]. cbn. intros [= Hr _]. apply (f_equal length) in Hr. rewrite !length_app in Hr. cbn in Hr. lia.
  - exists ls. apply sync_task; [done|]. cbn. intros [= Hr _]. apply (f_equal length) in Hr. rewrite !length_app in Hr. cbn in Hr. lia.
  - exists ls. apply sync_task; [done|]. cbn. intros [= Hr]. apply (f_equal length) in Hr. rewrite !length_app in Hr. cbn in Hr. lia.
Qed.
End sync_system.

(** ** What the steps do to the logs *)

Section log_effects.
Context `{SstModule}.
Implicit Types (b : Backend) (ls : LogSync).

Definition is_resync (c : IoCommand) : bool := match c with ResyncWal => true | _ => false end.
(** the [ResyncWal] commands that are waiting *)
Definition resyncs (cmds : list IoCommand) : nat := length (List.filter is_resync cmds).

Lemma resyncs_app l k : resyncs (l ++ k) = (resyncs l + resyncs k)%nat.
Proof. unfold resyncs. by rewrite List.filter_app, length_app. Qed.

(** a turn leaves the rotated logs alone, or renames the active one *)
Lemma turn_sync_effect zero rn cmds b ls b' ls' :
  turn_sync zero rn cmds b ls = (b', ls', Ok tt) ->
  io_alive b' = io_alive b /\ exists e2 flag ls2, handle_commands cmds false b = (b_with_engine b e2, Ok flag) /\
    (ls2 = ls \/ ls2 = notify_one ls) /\
    ((d_wals b' = d_wals b /\ io_cmds b' = io_cmds b /\ ls' = ls2) \/
     exists f m, d_wals b' = <[e_sst_counter e2 := f]> (d_wals b) /\ ls' = log_renamed (e_sst_counter e2) ls2 /\
       bw_inner (e_wal (b_engine b')) = [] /\
       io_cmds b' = io_cmds b ++ (if io_alive b then [ResyncWal; FlushMemtable m (e_sst_counter e2)] else [])).
Proof.
  unfold turn_sync. destruct (handle_commands cmds false b) as [b1 [flag|e|]] eqn:E1; [|done..].
  destruct (handle_commands_frame _ _ _ _ _ E1) as [e2 ->]. unfold send_wal_sync_cmd, on_engine. cbn [b_engine b_with_engine].
  rewrite flush_wal_buffer_vec. set (ls2 := if zero then notify_one ls else ls).
  assert (ls2 = ls \/ ls2 = notify_one ls) as Hls2 by (unfold ls2; destruct zero; auto). clearbody ls2.
  destruct flag; [|intros [= <- <-]; split; [done|]; exists e2, false, ls2; split_and!; auto].
  unfold rotates, ignore_err, send_flush_cmd. cbn [b_engine b_with_engine].
  change (is_memtable_empty (synced e2)) with (is_memtable_empty e2).
  destruct (is_memtable_empty e2).
  { rewrite andb_false_r. intros [= <- <-]. split; [done|]. exists e2, true, ls2. split_and!; auto. }
  rewrite andb_true_r. unfold prepare_flush. cbn [core_memtable_freeze].
  unfold rotate_wal, on_engine. cbn [b_engine b_with_engine]. rewrite flush_wal_buffer_vec. destruct rn; cbn [negb].
  - intros [= <- <-]. unfold io_send. cbn [io_alive b_with_wals b_with_engine]. destruct (io_alive b) eqn:Ea; cbn; rewrite ?Ea; cbn.
    + split; [done|]. exists e2, true, ls2. split_and!; [done|done|]. right. eexists _, _. split_and!; try done. by rewrite <- app_assoc.
    + split; [done|]. exists e2, true, ls2. split_and!; [done|done|]. right. eexists _, (e_memtable e2). split_and!; try done. by rewrite app_nil_r.
  - intros [= <- <-]. split; [done|]. exists e2, true, ls2. split_and!; auto.
Qed.
End log_effects.
#[global] Arguments resyncs {_} _ : simpl never.

Section task_effects.
Context {H : Type} `{SstCodec, !MinHeap CoreHeapItem H}.
Implicit Types (b : Backend) (ls : LogSync).

Lemma delete_wals_logs fuel b :
  let b' := delete_wals fuel b in
  io_cmds b' = io_cmds b /\ io_alive b' = io_alive b /\ d_wals b' ⊆ d_wals b.
Proof.
  revert b. induction fuel as [|fuel IH]; intros b; cbn; [done|]. destruct (_ && _); [|done].
  match goal with |- context [delete_wals fuel ?x] => destruct (IH x) as (E1 & E2 & Hsub) end. rewrite E1, E2. clear E1 E2 IH.
  destruct (bmap_get _ _) as [w|]; cbn in *; split_and!; try done. etrans; [exact Hsub|]. apply delete_subseteq.
Qed.

Lemma turn_result_logs r b :
  let b' := turn_result r b in
  e_wal (b_engine b') = e_wal (b_engine b) /\ io_alive b' = io_alive b /\ d_wals b' ⊆ d_wals b /\
  resyncs (io_cmds b') = resyncs (io_cmds b).
Proof.
  intros b'. split; [apply turn_result_wal|]. subst b'.
  assert (forall b, let b' := send_compaction_cmd b in
    io_alive b' = io_alive b /\ d_wals b' = d_wals b /\ resyncs (io_cmds b') = resyncs (io_cmds b)) as Hsend.
  { intros b0. unfold send_compaction_cmd. destruct (negb _); [done|]. destruct (_ <? 2); [done|]. unfold allocate_sstable_id, io_send. cbn -[resyncs].
    destruct (io_alive b0) eqn:Ea; cbn -[resyncs]; [|done]. rewrite resyncs_app. split_and!; [done|done|apply Nat.add_0_r]. }
  assert (forall b1 (more : bool), io_alive b1 = io_alive b -> d_wals b1 ⊆ d_wals b -> io_cmds b1 = io_cmds b ->
    let b' := if more then send_compaction_cmd b1 else b1 in
    io_alive b' = io_alive b /\ d_wals b' ⊆ d_wals b /\ resyncs (io_cmds b') = resyncs (io_cmds b)) as Hafter.
  { cbv zeta. intros b1 [] <- Hsub <-; [|done]. by destruct (Hsend b1) as (-> & -> & ->). }
  unfold turn_result. destruct r as [meta|meta ids].
  - unfold apply_flush_result. match goal with |- context [delete_wals ?n ?x] => destruct (delete_wals_logs n x) as (E1 & E2 & E3) end.
    by apply Hafter.
  - destruct (apply_compaction_spec meta ids b) as [_ E]. destruct (apply_compaction_result meta ids b) as [b1 more]. cbn in E.
    apply Hafter; by rewrite E.
Qed.

Lemma task_logs s s' recs :
  sys_step (H := H) s recs s' -> (s_jobs s', s_results s') <> (s_jobs s, s_results s) ->
  let b := s_backend s in let b' := s_backend s' in
  e_wal (b_engine b') = e_wal (b_engine b) /\ io_alive b' = io_alive b /\ d_wals b' ⊆ d_wals b /\
  resyncs (io_cmds b') = resyncs (io_cmds b).
Proof.
  destruct 1 as [| |b c cmds jobs results E| | |]; cbn; intros Hne; try done; [apply turn_result_logs|].
  rewrite E. by destruct c.
Qed.

(** ** Logs that have been synced *)

(** the worker is there and not more than one [ResyncWal] behind *)
Definition prompt (s : Sys) : Prop := io_alive (s_backend s) = true /\ (resyncs (io_cmds (s_backend s)) <= 1)%nat.

(** the syncer holds the active log when no [ResyncWal] waits; every rotated
    log it does not hold has been synced *)
Definition sync_inv (s : Sys) ls : Prop :=
  (ls_syncer ls = None <-> resyncs (io_cmds (s_backend s)) = 0%nat) /\
  forall id f, d_wals (s_backend s) !! id = Some f -> ls_syncer ls <> Some id -> ls_rotated ls !! id = Some f.

Lemma sync_inv_logs s s' ls ls' :
  sync_inv s ls -> ls_syncer ls' = ls_syncer ls -> ls_rotated ls' = ls_rotated ls -> d_wals (s_backend s') ⊆ d_wals (s_backend s) ->
  resyncs (io_cmds (s_backend s')) = resyncs (io_cmds (s_backend s)) -> sync_inv s' ls'.
Proof.
  intros [Hs Hl] Es Er Hsub Hn. split; [by rewrite Es, Hn|]. intros id f Hf. rewrite Es, Er. apply Hl. by eapply lookup_weaken.
Qed.

Lemma handle_sync_inv s ok ls : sync_inv s ls -> sync_inv s (handle_sync ok (s_backend s) ls).
Proof.
  intros [Hs Hl]. unfold handle_sync. destruct ok; cbn [negb]; [|by split]. destruct (ls_syncer ls) as [i|] eqn:Es; split; cbn; try done.
  intros id f Hf Hne. destruct (d_wals (s_backend s) !! i) as [g|]; [|by apply Hl].
  rewrite lookup_insert_ne by congruence. by apply Hl.
Qed.

Lemma sync_step_inv zero s ls recs s' ls' :
  sync_inv s ls -> prompt s -> prompt s' -> sync_step (H := H) zero true (s, ls) recs (s', ls') -> sync_inv s' ls'.
Proof.
  intros Hinv [Ha Hn] [_ Hn'] Hstep.
  inversion Hstep as [b b' jobs results ls1 ls1' rn cmds _ _ E|s1 ls1 ok _ _ Hrel|s1 ls1 ok _ Hrel
    |b cmds jobs results ls1 oo ok E Hrel|s1 s2 ls1 Hsys Hne]; subst.
  - destruct (turn_sync_effect _ _ _ _ _ _ _ E) as (_ & e2 & flag & ls2 & _ & Hls2 & [(Ew & Ec & ->)|(f & m & Ew & -> & _ & Ec)]).
    + apply (sync_inv_logs _ _ _ _ Hinv); cbn; [by destruct Hls2 as [->| ->]..|by rewrite Ew|by rewrite Ec].
    + cbn in Ha, Hn'. rewrite Ha in Ec. rewrite Ec, resyncs_app in Hn'. change (resyncs [_; _]) with 1%nat in Hn'.
      destruct Hinv as [Hs Hl]. cbn in Hs, Hl. assert (ls_syncer ls = None) as Hnone by (apply Hs; lia).
      assert (ls_syncer ls2 = None /\ ls_rotated ls2 = ls_rotated ls) as [Es Er] by (by destruct Hls2 as [->| ->]).
      unfold sync_inv, log_renamed. cbn. rewrite Es, Er, Ew, Ec, resyncs_app. change (resyncs [_; _]) with 1%nat. split; [split; [done|lia]|].
      intros id g Hg Hne. assert (id <> e_sst_counter e2) by congruence. rewrite lookup_insert_ne in Hg |- * by done. apply Hl; congruence.
  - apply handle_sync_inv. by destruct Hinv.
  - by apply handle_sync_inv.
  - destruct (Hrel eq_refl) as [-> ->]. apply (handle_sync_inv _ true) in Hinv. destruct Hinv as [Hs Hl]. cbn [s_backend] in *.
    rewrite E in Hn. change (S (resyncs cmds) <= 1)%nat in Hn. unfold handle_resync. cbn [negb]. split; [cbn; split; [intros _; lia|done]|].
    intros id f Hf _. destruct (decide (ls_syncer (handle_sync true b ls) = Some id)) as [Hi|]; [|by apply Hl].
    unfold handle_sync in Hi |- *. cbn [negb] in *. destruct (ls_syncer ls) as [i|] eqn:Es; cbn in Hi |- *; [|done]. injection Hi as ->.
    cbn in Hf. rewrite Hf. apply lookup_insert_eq.
  - destruct (task_logs _ _ _ Hsys Hne) as (_ & _ & Hsub & Hr). by apply (sync_inv_logs _ _ _ _ Hinv).
Qed.
End task_effects.

(** ** Loss of power *)

(** what was synced survives, with any part of what was written after it *)
Definition survives (synced content image : list byte) : Prop := synced `prefix_of` image /\ image `prefix_of` content.

(** the logs found after a loss of power *)
Definition power_loss `{SstModule} (b : Backend) (ls : LogSync) (active : list byte) (logs : gmap Z (list byte)) : Prop :=
  survives (ls_active ls) (bw_inner (e_wal (b_engine b))) active /\ dom logs = dom (d_wals b) /\
  forall id f g, d_wals b !! id = Some f -> logs !! id = Some g -> survives (default [] (ls_rotated ls !! id)) f g.

Lemma survives_all f image : survives f f image -> image = f.
Proof. intros [H1 H2]. by apply (anti_symm prefix). Qed.

Section sync_claims.
Context {H : Type} `{SstCodec, !MinHeap CoreHeapItem H, !MinHeapLaws CoreHeapItem H, !SstCodecLaws, !SstReopenLaws}.
Implicit Types (b : Backend) (ls : LogSync).

Lemma sync_run_inv zero limit config s0 ins s ls :
  sys_start limit config = Ok s0 -> sync_run (H := H) zero true prompt s0 ins (s, ls) -> sync_inv s ls /\ prompt s.
Proof.
  intros Hstart. remember (s, ls) as x eqn:Ex. intros Hrun. revert s ls Ex.
  induction Hrun as [Hp|ins [s1 ls1] recs y _ IH Hstep Hp]; intros s ls Ex.
  - injection Ex as <- <-. split; [|done]. unfold sys_start in Hstart. cbn in Hstart. injection Hstart as <-. split; cbn; [done|].
    by intros id f; rewrite lookup_empty.
  - subst y. destruct (IH s1 ls1 eq_refl) as [Hi Hp1]. split; [|done]. by eapply sync_step_inv.
Qed.

(** with the worker idle and the active log synced, every log is durable *)
Lemma synced_logs s ls active logs :
  sync_inv s ls -> ResyncWal ∉ io_cmds (s_backend s) ->
  power_loss (s_backend s) (handle_sync true (s_backend s) ls) active logs ->
  active = bw_inner (e_wal (b_engine (s_backend s))) /\ logs = d_wals (s_backend s).
Proof.
  intros [Hs Hl] Hidle. assert (ls_syncer ls = None) as Hnone.
  { apply Hs. unfold resyncs. destruct (List.filter is_resync _) as [|c l] eqn:E; [done|]. exfalso. apply Hidle.
    assert (In c (c :: l)) as Hc by (by left). rewrite <- E in Hc. apply filter_In in Hc as [Hc Hr]. by destruct c; [apply list_elem_of_In|..]. }
  unfold handle_sync. rewrite Hnone. cbn [negb]. intros (Ha & Hd & Hlogs). cbn in Ha, Hlogs. split; [by apply survives_all|].
  apply map_eq. intros id. destruct (logs !! id) as [g|] eqn:Eg.
  - assert (id ∈ dom (d_wals (s_backend s))) as [f Hf]%elem_of_dom by (rewrite <- Hd; by apply elem_of_dom_2 in Eg).
    specialize (Hlogs id f g Hf Eg). rewrite (Hl id f Hf) in Hlogs by congruence. cbn in Hlogs. by rewrite Hf, (survives_all _ _ Hlogs).
  - symmetry. apply not_elem_of_dom. rewrite <- Hd. by apply not_elem_of_dom.
Qed.

(** C5: a sync makes everything acknowledged survive a loss of power. When
    syncs succeed and the worker is never more than one [ResyncWal] behind,
    then after a sync, between turns and in a state in which no [ResyncWal]
    waits and no SST is half-written: what the loss of power leaves of the
    logs, together with the SSTs and the names of all files, opens if the
    SSTs can be scanned, and [Engine::open] then has every acknowledged
    record; if not, it fails with the error of the scan. *)
Theorem sync_power_loss (zero : bool) (limit limit' : Z) (config : BackendConfig) (s0 s : Sys) (ins : list CoreRecord) (ls : LogSync)
    (active : list byte) (logs : gmap Z (list byte)) (wals : list (list byte)) (ssts : list (Z * list byte))
    (Hstart : sys_start limit config = Ok s0) (Hrun : sync_run (H := H) zero true prompt s0 ins (s, ls))
    (Hidle : ResyncWal ∉ io_cmds (s_backend s))
    (Hloss : power_loss (s_backend s) (handle_sync true (s_backend s) ls) active logs)
    (Hwals : wals ≡ₚ active :: (map_to_list logs).*2) (Hssts : ssts ≡ₚ map_to_list (d_ssts (s_backend s)))
    (Hwhole : whole_ssts (d_ssts (s_backend s))) :
  match scan_all ssts with
  | Ok _ => exists e flag, engine_open active wals ssts limit' = Ok (e, flag) /\
      (forall r, r ∈ ins -> r ∈ in_memory e \/ reopened_has e (d_ssts (s_backend s)) r) /\
      forall r, r ∈ in_memory e -> r ∈ ins
  | Err err => engine_open active wals ssts limit' = Err err
  | Panic => engine_open active wals ssts limit' = Panic
  end.
Proof.
  destruct (sync_run_inv _ _ _ _ _ _ _ Hstart Hrun) as [Hinv _]. destruct (synced_logs s ls active logs Hinv Hidle Hloss) as [-> ->].
  pose proof (recovery_ok limit limit' config s0 s ins wals ssts Hstart (sync_run_sys _ _ _ _ _ _ _ Hrun) Hwals Hssts Hwhole) as Hrec.
  destruct (scan_all ssts) as [[]|err|]; [|done..]. destruct Hrec as (e & flag & E & Hro & Hall). exists e, flag. split_and!; [done|done|apply Hro].
Qed.

(** C38: a notification can be spent on the wrong file. When the worker
    takes the permit of a sync before the [ResyncWal] that was sent before
    it, it syncs the old log, then switches to the active one without
    syncing it: no permit and no [ResyncWal] is left, nothing of the active
    log has become durable, and a loss of power may leave it as it was. *)
Theorem sync_notification_lost (b : Backend) (cmds : list IoCommand) (jobs : list IoCommand) (results : list IoResult) (ls : LogSync) (id : Z)
    (Hpermit : ls_permit ls = true) (Hold : ls_syncer ls = Some id) (Hcmds : io_cmds b = ResyncWal :: cmds)
    (Hone : (resyncs (io_cmds b) <= 1)%nat) (Hactive : prefix (ls_active ls) (bw_inner (e_wal (b_engine b)))) :
  exists ls1 ls2, sync_step (H := H) true true (Build_Sys _ b jobs results, ls) [] (Build_Sys _ b jobs results, ls1) /\
    sync_step (H := H) true true (Build_Sys _ b jobs results, ls1) [] (Build_Sys _ (b_with_cmds b cmds) jobs results, ls2) /\
    ls_permit ls2 = false /\ (ResyncWal ∉ cmds) /\ ls_syncer ls2 = None /\ ls_active ls2 = ls_active ls /\
    survives (ls_active ls2) (bw_inner (e_wal (b_engine (b_with_cmds b cmds)))) (ls_active ls).
Proof.
  exists (handle_sync true b (take_permit ls)), (handle_resync true true b (handle_sync true b (take_permit ls))).
  split; [by apply (sync_notified true true (Build_Sys _ b jobs results))|]. split; [by apply sync_resync|].
  assert (forall l, ls_syncer l = Some id -> let l' := handle_sync true b l in
    ls_permit l' = ls_permit l /\ ls_active l' = ls_active l /\ ls_syncer l' = Some id) as Hsync.
  { intros l Hl. unfold handle_sync. by rewrite Hl. }
  destruct (Hsync (take_permit ls) Hold) as (P1 & A1 & S1). destruct (Hsync _ S1) as (P2 & A2 & _).
  unfold handle_resync. cbn [negb ls_permit ls_active ls_syncer]. rewrite P2, P1, A2, A1. split_and!; [done| |done|done|by split].
  intros Hin. rewrite Hcmds in Hone. apply list_elem_of_split in Hin as (l & k & ->).
  change (ResyncWal :: l ++ ResyncWal :: k) with ([ResyncWal] ++ l ++ [ResyncWal] ++ k) in Hone. rewrite !resyncs_app in Hone.
  change (resyncs [ResyncWal]) with 1%nat in Hone. lia.
Qed.

(** A log the syncer has passed over is never synced. Once a rotated log
    is not the file the syncer holds, as when two logs are rotated before the
    worker handles the first [ResyncWal], no later step makes more of it
    durable. *)
Theorem skipped_log_never_synced (zero reliable : bool) (limit : Z) (config : BackendConfig) (s0 s s' : Sys)
    (ins recs : list CoreRecord) (ls ls' : LogSync) (id : Z) (f : list byte)
    (Hstart : sys_start limit config = Ok s0) (Hrun : sync_run (H := H) zero reliable (fun _ => True) s0 ins (s, ls))
    (Hstep : sync_step (H := H) zero reliable (s, ls) recs (s', ls'))
    (Hlog : d_wals (s_backend s) !! id = Some f) (Hpassed : ls_syncer ls <> Some id) :
  ls_rotated ls' !! id = ls_rotated ls !! id /\ ls_syncer ls' <> Some id.
Proof.
  destruct (sys_run_inv s0 limit config ins s Hstart (sync_run_sys _ _ _ _ _ _ _ Hrun)) as [Hinv _].
  assert (forall ok l, ls_syncer l <> Some id -> let l' := handle_sync ok (s_backend s) l in
    ls_rotated l' !! id = ls_rotated l !! id /\ ls_syncer l' <> Some id) as Hsync.
  { intros ok l Hl. unfold handle_sync. destruct ok; cbn [negb]; [|done]. destruct (ls_syncer l) as [i|] eqn:E; [|done]. cbn. split; [|done].
    destruct (d_wals (s_backend s) !! i); [|done]. apply lookup_insert_ne. congruence. }
  inversion Hstep as [b b' jobs results ls1 ls1' rn cmds Hok [Hroom _] E|s1 ls1 ok _ _ Hrel|s1 ls1 ok _ Hrel
    |b cmds jobs results ls1 oo ok E Hrel|s1 s2 ls1 Hsys Hne]; subst.
  - destruct (turn_sync_effect _ _ _ _ _ _ _ E) as (_ & e2 & flag & ls2 & Eh & Hls2 & Hcase).
    assert (ls_rotated ls2 = ls_rotated ls /\ ls_syncer ls2 = ls_syncer ls) as [Er Es] by (by destruct Hls2 as [->| ->]).
    destruct Hcase as [(_ & _ & ->)|(g & m & Ew & -> & _ & _)]; [by rewrite Er, Es|].
    destruct (handle_commands_inv cmds false ins b jobs results Hinv Hok Hroom) as (b1 & fl & E1 & _ & Hc). rewrite Eh in E1.
    injection E1 as <- _. cbn in Hc. destruct (li_logs _ _ (inv_log _ _ Hinv) id f Hlog) as [Hid _]. cbn in Hid.
    unfold log_renamed. cbn. rewrite lookup_insert_ne by lia. rewrite Er, Es. split; [done|].
    destruct (ls_syncer ls); [done|]. intros [= Ei]. lia.
  - destruct (Hsync ok (take_permit ls) Hpassed) as [E1 E2]. by split.
  - by apply Hsync.
  - unfold handle_resync. destruct oo; cbn [negb]; [|done]. cbn [s_backend] in Hsync. by destruct (Hsync ok ls Hpassed) as [E1 _].
  - done.
Qed.
End sync_claims.
