(* ===== verification/CoreMetered.v ===== *)
(** * The backend with its metrics

    storage/backend.rs, storage/engine.rs and storage/wal.rs with the
    counters, gauges and latencies they keep (metrics.rs), which the models
    of those files leave out. Times that pass are arguments. A range query
    runs in a task of its own, which counts when it ends: the tasks that have
    been spawned are part of the state, as are the snapshots that have been
    sent back. *)
From S2P Require Import Prelude Std Float Metrics Codec CoreProto CoreStorage CoreIter CoreEngine CoreBackend CoreSystem.

(** ** Changes of the metrics *)

Section changes.
Context `{HdrHist}.

Definition on_wal_metrics (f : WalMetrics -> WalMetrics) (m : Metrics) : Metrics :=
  {| m_wal := f (m_wal m); m_engine := m_engine m; m_server := m_server m |}.
Definition on_engine_metrics (f : EngineMetrics -> EngineMetrics) (m : Metrics) : Metrics :=
  {| m_wal := m_wal m; m_engine := f (m_engine m); m_server := m_server m |}.

(** records written to the log *)
Definition wal_wrote (count bytes : Z) (w : WalMetrics) : WalMetrics :=
  {| wm_write_count := counter_inc count (wm_write_count w); wm_write_bytes := counter_inc bytes (wm_write_bytes w);
     wm_sync_count := wm_sync_count w; wm_sync_latency := wm_sync_latency w |}.

(** the counters of inserts, of queries, the gauges, the work of the worker *)
Definition em_inserts (ins batch recs fails : Z) (lat blat : Hist -> Hist) (e : EngineMetrics) : EngineMetrics :=
  {| em_insert_count := counter_inc ins (em_insert_count e); em_batch_insert_count := counter_inc batch (em_batch_insert_count e);
     em_records_inserted := counter_inc recs (em_records_inserted e); em_insert_failures := counter_inc fails (em_insert_failures e);
     em_range_count := em_range_count e; em_range_failures := em_range_failures e; em_records_scanned := em_records_scanned e;
     em_memtable_bytes := em_memtable_bytes e; em_memtable_limit := em_memtable_limit e; em_sstable_count := em_sstable_count e;
     em_flush_count := em_flush_count e; em_compaction_count := em_compaction_count e;
     em_insert_latency := lat (em_insert_latency e); em_batch_insert_latency := blat (em_batch_insert_latency e);
     em_range_latency := em_range_latency e; em_flush_duration := em_flush_duration e;
     em_compaction_duration := em_compaction_duration e |}.
Definition em_ranges (count fails scanned : Z) (lat : Hist -> Hist) (e : EngineMetrics) : EngineMetrics :=
  {| em_insert_count := em_insert_count e; em_batch_insert_count := em_batch_insert_count e;
     em_records_inserted := em_records_inserted e; em_insert_failures := em_insert_failures e;
     em_range_count := counter_inc count (em_range_count e); em_range_failures := counter_inc fails (em_range_failures e);
     em_records_scanned := counter_inc scanned (em_records_scanned e);
     em_memtable_bytes := em_memtable_bytes e; em_memtable_limit := em_memtable_limit e; em_sstable_count := em_sstable_count e;
     em_flush_count := em_flush_count e; em_compaction_count := em_compaction_count e;
     em_insert_latency := em_insert_latency e; em_batch_insert_latency := em_batch_insert_latency e;
     em_range_latency := lat (em_range_latency e); em_flush_duration := em_flush_duration e;
     em_compaction_duration := em_compaction_duration e |}.
Definition em_gauges (bytes limit ssts : Z -> Z) (e : EngineMetrics) : EngineMetrics :=
  {| em_insert_count := em_insert_count e; em_batch_insert_count := em_batch_insert_count e;
     em_records_inserted := em_records_inserted e; em_insert_failures := em_insert_failures e;
     em_range_count := em_range_count e; em_range_failures := em_range_failures e; em_records_scanned := em_records_scanned e;
     em_memtable_bytes := bytes (em_memtable_bytes e); em_memtable_limit := limit (em_memtable_limit e);
     em_sstable_count := ssts (em_sstable_count e);
     em_flush_count := em_flush_count e; em_compaction_count := em_compaction_count e;
     em_insert_latency := em_insert_latency e; em_batch_insert_latency := em_batch_insert_latency e;
     em_range_latency := em_range_latency e; em_flush_duration := em_flush_duration e;
     em_compaction_duration := em_compaction_duration e |}.
Definition em_worker (flushes compactions : Z) (lat clat : Hist -> Hist) (e : EngineMetrics) : EngineMetrics :=
  {| em_insert_count := em_insert_count e; em_batch_insert_count := em_batch_insert_count e;
     em_records_inserted := em_records_inserted e; em_insert_failures := em_insert_failures e;
     em_range_count := em_range_count e; em_range_failures := em_range_failures e; em_records_scanned := em_records_scanned e;
     em_memtable_bytes := em_memtable_bytes e; em_memtable_limit := em_memtable_limit e; em_sstable_count := em_sstable_count e;
     em_flush_count := counter_inc flushes (em_flush_count e); em_compaction_count := counter_inc compactions (em_compaction_count e);
     em_insert_latency := em_insert_latency e; em_batch_insert_latency := em_batch_insert_latency e;
     em_range_latency := em_range_latency e; em_flush_duration := lat (em_flush_duration e);
     em_compaction_duration := clat (em_compaction_duration e) |}.
End changes.

(** ** The log and the engine *)

(** an operation that leaves the metrics alone, and a change of the metrics *)
Definition unmetered {S E A} `{HdrHist} (op : st S E A) : st (S * Metrics) E A := fun '(s, m) =>
  let '(s, o) := op s in (s, m, o).
Definition metering {S E} `{HdrHist} (f : Metrics -> Metrics) : st (S * Metrics) E unit := fun '(s, m) => (s, f m, Ok tt).

Section metered_engine.
Context {W : Type} `{Write W, SstModule, HdrHist}.

(** [write_one] counts the bytes of the record only *)
Definition wal_write_one_m (rec : CoreRecord) : st (BufWriter W * Metrics) io_error unit :=
  _ ← unmetered (wal_write_one rec);
  metering (on_wal_metrics (wal_wrote 1 (core_record_len rec))).
(** [write_many] counts the length prefixes too *)
Definition wal_write_many_m (recs : list CoreRecord) : st (BufWriter W * Metrics) io_error unit :=
  _ ← unmetered (wal_write_many recs);
  metering (on_wal_metrics (wal_wrote (blen recs) (foldl (fun n r => wrap64 (n + (8 + core_record_len r))) 0 recs))).

Definition on_wal_m {A} (op : st (BufWriter W * Metrics) io_error A) : st (Engine W * Metrics) io_error A := fun '(e, m) =>
  let '((w, m), o) := op (e_wal e, m) in (e_with_wal e w, m, o).

Definition insert_record_m (source_id ts : Z) (key value : list byte) : st (Engine W * Metrics) io_error bool := fun em =>
  let rec := from_raw_parts source_id ts (e_seq_counter em.1) key value in
  (_ ← on_wal_m (wal_write_one_m rec);
   needs_flush ← unmetered (on_memtable (core_memtable_insert rec));
   _ ← unmetered (st_modify (fun e => e_with_seq_counter e (wrap64 (e_seq_counter e + 1))));
   mret needs_flush) em.

Definition batch_insert_records_m (inserts : list Insert) : st (Engine W * Metrics) io_error bool := fun '(e, m) =>
  let '(records, seq) := batch_records inserts (e_seq_counter e) in
  (_ ← on_wal_m (wal_write_many_m records);
   unmetered (on_memtable (insert_all records false))) (e_with_seq_counter e seq, m).

Definition memtable_size (e : Engine W) : Z := cmt_sz (e_memtable e).

(** [set_metrics] of the engine *)
Definition engine_set_metrics (e : Engine W) (m : Metrics) : Metrics :=
  on_engine_metrics (em_gauges id (gauge_set (cmt_limit (e_memtable e))) id) m.
End metered_engine.

(** ** The handlers of the backend *)

Record Metered (Heap : Type) `{SstModule, HdrHist} := {
  mb_backend : Backend;
  mb_metrics : Metrics;
  mb_ranges : list (CoreMergeIter Heap);
  mb_snapshots : list MetricsSnapshot
}.
Arguments mb_backend {Heap _ _} _.
Arguments mb_metrics {Heap _ _} _.
Arguments mb_ranges {Heap _ _} _.
Arguments mb_snapshots {Heap _ _} _.
Arguments Build_Metered {Heap _ _} _ _ _ _.

Section metered_backend.
Context {Heap : Type} `{SstModule, !MinHeap CoreHeapItem Heap, HdrHist}.
#[local] Abbreviation Metered := (Metered Heap).

Definition mb_with (x : Metered) (b : Backend) (m : Metrics) : Metered := Build_Metered b m (mb_ranges x) (mb_snapshots x).

(** both insert handlers: [failed] counts when the engine fails, [done] else *)
Definition handle_metered (op : st (Engine (list byte) * Metrics) io_error bool) (failed done : Metrics -> Metrics)
    : st Metered io_error bool := fun x =>
  let '((e, m), o) := op (b_engine (mb_backend x), mb_metrics x) in
  let b := b_with_engine (mb_backend x) e in
  match o with
  | Ok needs_flush => (mb_with x b (done m), Ok needs_flush)
  | Err _ => (mb_with x b (failed m), Ok false)
  | Panic => (mb_with x b m, Panic)
  end.

Definition handle_insert_m (t : f64) (i : Insert) : st Metered io_error bool :=
  handle_metered (insert_record_m (ins_source_id i) (ins_ts i) (ins_key i) (ins_value i))
    (on_engine_metrics (em_inserts 0 0 0 1 id id)) (on_engine_metrics (em_inserts 1 0 1 0 (latency_record_instant t) id)).
Definition handle_batch_insert_m (t : f64) (inserts : list Insert) : st Metered io_error bool :=
  let count := blen inserts in
  handle_metered (batch_insert_records_m inserts)
    (on_engine_metrics (em_inserts 0 0 0 count id id)) (on_engine_metrics (em_inserts 0 1 count 0 id (latency_record_instant t))).

(** [handle_range] up to the task it spawns *)
Definition handle_range_m (r : RangeReq) : st Metered io_error unit := fun x =>
  let b := mb_backend x in
  match engine_range (H := Heap) (d_ssts b) (rng_source_id r) (rng_key r) (rng_start_ts r) (rng_end_ts r) (rng_filter r) (b_engine b) with
  | Ok iter => (Build_Metered b (mb_metrics x) (mb_ranges x ++ [iter]) (mb_snapshots x), Ok tt)
  | Err _ => (mb_with x b (on_engine_metrics (em_ranges 0 1 0 id) (mb_metrics x)), Ok tt)
  | Panic => (x, Panic)
  end.

(** the loop of the task, with the number of records it has taken from the
    iterator *)
Fixpoint range_loop_m (range_batch_size : Z) (records : list CoreRecord) (batch : list ProtoRecord) (recv : option nat) (scanned : Z)
    : list (list ProtoRecord) * outcome io_error unit * Z :=
  match records with
  | [] => (send_last recv batch, Ok tt, scanned)
  | storage_rec :: rest =>
      let scanned := wrap64 (scanned + 1) in
      match proto_record_try_from storage_rec with
      | Ok proto_rec =>
          let batch := batch ++ [proto_rec] in
          if range_batch_size <=? blen batch then
            match send_batch recv batch with
            | Some recv => let '(sent, o, n) := range_loop_m range_batch_size rest [] recv scanned in (batch :: sent, o, n)
            | None => ([], Ok tt, scanned)
            end
          else range_loop_m range_batch_size rest batch recv scanned
      | Err err => (send_last recv batch, Err err, scanned)
      | Panic => ([], Panic, scanned)
      end
  end.

(** the task: what it sends and the metrics it leaves; [n] bounds the records
    of the iterator *)
Definition range_task (n : nat) (t : f64) (recv : option nat) (range_batch_size : Z) (iter : CoreMergeIter Heap) (m : Metrics)
    : list (list ProtoRecord) * outcome io_error unit * Metrics :=
  match core_merge_collect n n iter with
  | Ok records =>
      let '(sent, o, scanned) := range_loop_m range_batch_size records [] recv 0 in
      match o with
      | Panic => (sent, o, m)
      | _ =>
          let m := match o with Err _ => on_engine_metrics (em_ranges 0 1 0 id) m | _ => m end in
          (sent, o, on_engine_metrics (em_ranges 1 0 scanned (latency_record_instant t)) m)
      end
  | Err err => ([], Err err, m)
  | Panic => ([], Panic, m)
  end.

(** [Command::Metrics]: the snapshot goes back as JSON *)
Definition handle_metrics_m : st Metered io_error unit :=
  st_modify (fun x => Build_Metered (mb_backend x) (mb_metrics x) (mb_ranges x) (mb_snapshots x ++ [metrics_snapshot (mb_metrics x)])).

(** each command comes with the time its handler takes *)
Fixpoint handle_commands_m (cmds : list (BackendCommand * f64)) (needs_flush : bool) : st Metered io_error bool :=
  match cmds with
  | [] => mret needs_flush
  | (CmdInsert i, t) :: rest => f ← handle_insert_m t i; handle_commands_m rest f
  | (CmdBatchInsert l, t) :: rest => f ← handle_batch_insert_m t l; handle_commands_m rest f
  | (CmdRange r, _) :: rest => _ ← handle_range_m r; handle_commands_m rest needs_flush
  | (CmdMetrics, _) :: rest => _ ← handle_metrics_m; handle_commands_m rest needs_flush
  end.

Definition on_backend {A} (op : st Backend io_error A) : st Metered io_error A := fun x =>
  let '(b, o) := op (mb_backend x) in (mb_with x b (mb_metrics x), o).

(** the end of a turn *)
Definition set_gauges (x : Metered) : Metered :=
  let e := b_engine (mb_backend x) in
  mb_with x (mb_backend x) (on_engine_metrics (em_gauges (gauge_set (memtable_size e)) id (gauge_set (sstable_count e))) (mb_metrics x)).

Definition turn_commands_m (rename_ok : bool) (cmds : list (BackendCommand * f64)) : st Metered io_error unit :=
  needs_flush ← handle_commands_m cmds false;
  _ ← on_backend (ignore_err send_wal_sync_cmd);
  _ ← (if (needs_flush : bool) then on_backend (ignore_err (send_flush_cmd rename_ok)) else mret tt);
  st_modify set_gauges.

(** a turn that takes a result; [t]: the time since its task began *)
Definition turn_result_m (t : f64) (r : IoResult) (x : Metered) : Metered :=
  let '(b, more, f) := match r with
                       | FlushResult m =>
                           let '(b, more) := apply_flush_result m (mb_backend x) in
                           (b, more, em_worker 1 0 (latency_record_instant t) id)
                       | CompactionResult m ids =>
                           let '(b, more) := apply_compaction_result m ids (mb_backend x) in
                           (b, more, em_worker 0 1 id (latency_record_instant t))
                       end in
  set_gauges (mb_with x (if (more : bool) then send_compaction_cmd b else b) (on_engine_metrics f (mb_metrics x))).
End metered_backend.

(** ** Runs of the metered system *)

Section metered_system.
Context {Heap : Type} `{SstCodec, !MinHeap CoreHeapItem Heap, HdrHist}.
#[local] Abbreviation Metered := (Metered Heap).

Definition met_sys (x : Metered) (jobs : list IoCommand) (results : list IoResult) : Sys := Build_Sys _ (mb_backend x) jobs results.

(** A turn that takes commands, a turn that takes a result, the end of the
    task of a query, and the steps of the I/O worker, which leave the engine
    alone and take no result. *)
Inductive met_step : Metered * list IoCommand * list IoResult -> list CoreRecord -> Metered * list IoCommand * list IoResult -> Prop :=
| met_commands x x' jobs results rename_ok cmds :
    Forall insert_ok (cmds_inserts cmds.*1) -> has_room (blen (cmds_inserts cmds.*1)) (mb_backend x) ->
    turn_commands_m rename_ok cmds x = (x', Ok tt) ->
    met_step (x, jobs, results) (turn_records cmds.*1 (mb_backend x)) (x', jobs, results)
| met_result x t r jobs results :
    has_room 0 (mb_backend x) -> met_step (x, jobs, r :: results) [] (turn_result_m t r x, jobs, results)
| met_range b m pre iter post snaps jobs results n t recv sent o m' :
    range_task n t recv (range_batch_size (b_config b)) iter m = (sent, o, m') ->
    met_step (Build_Metered b m (pre ++ iter :: post) snaps, jobs, results) [] (Build_Metered b m' (pre ++ post) snaps, jobs, results)
| met_worker x b' jobs results jobs' results' :
    sys_step (H := Heap) (met_sys x jobs results) [] (Build_Sys _ b' jobs' results') ->
    b_engine b' = b_engine (mb_backend x) -> (length results <= length results')%nat ->
    met_step (x, jobs, results) [] (mb_with x b' (mb_metrics x), jobs', results').

(** [Runtime::spawn] sets the metrics of the engine before the loop starts *)
Definition met_start (s0 : Sys) : Metered * list IoCommand * list IoResult :=
  let b := s_backend s0 in
  (Build_Metered b (engine_set_metrics (b_engine b) metrics_default) [] [], s_jobs s0, s_results s0).

Inductive met_run (s0 : Sys) : list CoreRecord -> Metered * list IoCommand * list IoResult -> Prop :=
| met_run_start : met_run s0 [] (met_start s0)
| met_run_step ins x recs y : met_run s0 ins x -> met_step x recs y -> met_run s0 (ins ++ recs) y.
End metered_system.

(** ** The metered operations are the operations *)

Lemma core_memtable_insert_no_err r m m' err : core_memtable_insert r m <> (m', Err err).
Proof.
  unfold core_memtable_insert. destruct (core_bset_insert r (cmt_bset m)) as [s|e|] eqn:E; try done.
  unfold core_bset_insert in E. destruct (cmt_bset m); [done|]. by case_if.
Qed.

Lemma length_batch_records l n : length (batch_records l n).1 = length l.
Proof.
  revert n. induction l as [|i l IH]; intros n; cbn [batch_records]; [done|]. specialize (IH (wrap64 (n + 1))).
  destruct (batch_records l _) as [? ?]. cbn in *. by rewrite IH.
Qed.

Section erasure.
Context `{SstModule, HdrHist}.
Implicit Types (e : Engine (list byte)) (m : Metrics).

Lemma insert_record_m_eq sid ts k v e m :
  insert_record_m sid ts k v (e, m) =
    let '(e', o) := insert_record sid ts k v e in
    (e', on_wal_metrics (wal_wrote 1 (core_record_len (from_raw_parts sid ts (e_seq_counter e) k v))) m, o).
Proof.
  unfold insert_record_m, insert_record. cbn [fst]. set (rec := from_raw_parts _ _ _ _ _). rewrite !st_bind_unfold.
  unfold on_wal_m, wal_write_one_m, on_wal. rewrite st_bind_unfold. unfold unmetered at 1.
  destruct (wal_write_many_vec [rec] (e_wal e)) as [w Ew]. cbn [wal_write_many] in Ew. rewrite st_bind_unfold in Ew.
  destruct (wal_write_one rec (e_wal e)) as [w1 [[]|?|]]; [|done..]. cbn [metering]. rewrite !st_bind_unfold. unfold unmetered at 1.
  destruct (on_memtable _ _) as [e1 [full|?|]]; done.
Qed.

Lemma batch_insert_records_m_eq l e m :
  exists f, batch_insert_records_m l (e, m) =
    (let '(e', o) := batch_insert_records l e in (e', on_wal_metrics f m, o)) /\
    forall w, wm_write_count (f w) = counter_inc (blen l) (wm_write_count w) /\ wm_sync_count (f w) = wm_sync_count w.
Proof.
  unfold batch_insert_records_m, batch_insert_records. destruct (batch_records l (e_seq_counter e)) as [recs seq] eqn:Er.
  eexists (wal_wrote (blen recs) _). rewrite !st_bind_unfold. unfold on_wal_m, wal_write_many_m, on_wal. rewrite st_bind_unfold.
  unfold unmetered at 1. cbn [e_wal e_with_seq_counter].
  destruct (wal_write_many_vec recs (e_wal e)) as [w Ew]. rewrite Ew. cbn [metering]. unfold unmetered.
  split; [by destruct (on_memtable _ _)|]. intros w'. cbn. split; [|done]. f_equal. unfold blen. f_equal.
  by rewrite <- (length_batch_records l (e_seq_counter e)), Er.
Qed.
End erasure.

(** ** What the counters say *)

Section counting.
Context {Heap : Type} `{SstCodec, !MinHeap CoreHeapItem Heap, HdrHist}.
#[local] Abbreviation Metered := (Metered Heap).
Implicit Types (x : Metered) (m : Metrics) (n : Z).

(** [n] records have been acknowledged, each written to the log once; no
    insert has failed; syncs of the log are not counted *)
Definition counts n m : Prop :=
  em_records_inserted (m_engine m) = wrap64 n /\ wm_write_count (m_wal m) = wrap64 n /\
  em_insert_failures (m_engine m) = 0 /\ wm_sync_count (m_wal m) = 0.

(** a snapshot counts the records acknowledged at some point before *)
Definition snap_counts n (s : MetricsSnapshot) : Prop :=
  exists k, 0 <= k <= n /\ es_records_inserted (ms_engine s) = wrap64 k /\ ws_write_count (ms_wal s) = wrap64 k /\
    es_insert_failures (ms_engine s) = 0 /\ ws_sync_count (ms_wal s) = 0.

Definition counted n x : Prop := 0 <= n /\ counts n (mb_metrics x) /\ Forall (snap_counts n) (mb_snapshots x).

Lemma counted_more n k x b m :
  counted n x -> 0 <= k -> counts (n + k) m -> counted (n + k) (mb_with x b m).
Proof.
  intros (Hn & _ & Hs) Hk Hm. split_and!; [lia|done|]. eapply Forall_impl; [exact Hs|].
  intros s (j & Hj & ?). exists j. split; [lia|done].
Qed.
Lemma counted_same n x b m : counted n x -> counts n m -> counted n (mb_with x b m).
Proof. intros Hc Hm. rewrite <- (Z.add_0_r n). apply counted_more; [done|lia|by rewrite Z.add_0_r]. Qed.

(** a metered insert that the engine does not fail *)
Lemma handle_metered_ok op op' failed done f n k x x' flag :
  counted n x -> 0 <= k ->
  (forall e e' err, op' e <> (e', Err err)) ->
  op (b_engine (mb_backend x), mb_metrics x) = (let '(e', o) := op' (b_engine (mb_backend x)) in (e', on_wal_metrics f (mb_metrics x), o)) ->
  (forall m, counts n m -> counts (n + k) (done (on_wal_metrics f m))) ->
  handle_metered op failed done x = (x', Ok flag) ->
  (match on_engine op' (mb_backend x) with (b, Err _) => (b, Ok false) | r => r end) = (mb_backend x', Ok flag) /\
  counted (n + k) x'.
Proof.
  intros Hc Hk Hne Eop Hdone. unfold handle_metered, on_engine. rewrite Eop. specialize (Hne (b_engine (mb_backend x))).
  destruct (op' _) as [e' [fl|err|]]; [|by destruct (Hne e' err)|done]. intros [= <- <-]. split; [done|].
  apply counted_more; try done. apply Hdone. by destruct Hc as (_ & ? & _).
Qed.

Lemma insert_no_err sid ts k v (e e' : Engine (list byte)) err : insert_record sid ts k v e <> (e', Err err).
Proof.
  unfold insert_record. set (rec := from_raw_parts _ _ _ _ _). rewrite st_bind_unfold. unfold on_wal.
  destruct (wal_write_many_vec [rec] (e_wal e)) as [w Ew]. cbn [wal_write_many] in Ew. rewrite st_bind_unfold in Ew.
  destruct (wal_write_one rec (e_wal e)) as [w1 [[]|?|]]; [|done..]. rewrite st_bind_unfold. unfold on_memtable.
  pose proof (core_memtable_insert_no_err rec (e_memtable (e_with_wal e w1))) as Hne.
  destruct (core_memtable_insert _ _) as [m' [?|er|]]; [done|by destruct (Hne m' er)|done].
Qed.
Lemma batch_no_err l (e e' : Engine (list byte)) err : batch_insert_records l e <> (e', Err err).
Proof.
  unfold batch_insert_records. destruct (batch_records l _) as [recs seq]. rewrite st_bind_unfold. unfold on_wal.
  destruct (wal_write_many_vec recs (e_wal (e_with_seq_counter e seq))) as [w ->]. unfold on_memtable.
  match goal with |- context [insert_all recs false ?m] => pose proof (insert_all_no_err recs false m) as Hne end.
  destruct (insert_all _ _ _) as [m' [?|er|]]; [done|by destruct (Hne m' er)|done].
Qed.

Lemma counter_inc_wrap a n : counter_inc a (wrap64 n) = wrap64 (n + a).
Proof. unfold counter_inc, wrap64. by rewrite Zplus_mod_idemp_l. Qed.

Lemma handle_insert_m_ok t i n x x' flag : counted n x -> handle_insert_m t i x = (x', Ok flag) ->
  handle_insert i (mb_backend x) = (mb_backend x', Ok flag) /\ counted (n + 1) x'.
Proof.
  intros Hc. eapply handle_metered_ok; [done|lia|intros; apply insert_no_err|apply insert_record_m_eq|].
  intros m (E1 & E2 & E3 & E4). unfold counts. cbn. by rewrite E1, E2, E3, E4, !counter_inc_wrap.
Qed.
Lemma handle_batch_insert_m_ok t l n x x' flag : counted n x -> handle_batch_insert_m t l x = (x', Ok flag) ->
  handle_batch_insert l (mb_backend x) = (mb_backend x', Ok flag) /\ counted (n + blen l) x'.
Proof.
  intros Hc. destruct (batch_insert_records_m_eq l (b_engine (mb_backend x)) (mb_metrics x)) as (f & E & Hf).
  eapply handle_metered_ok; [done|apply blen_nonneg|intros; apply batch_no_err|exact E|].
  intros m (E1 & E2 & E3 & E4). unfold counts. cbn. destruct (Hf (m_wal m)) as [-> ->].
  by rewrite E1, E2, E3, E4, !counter_inc_wrap.
Qed.

(** the commands of a turn *)
Lemma handle_commands_m_ok cmds : forall flag n x x' f, counted n x -> handle_commands_m cmds flag x = (x', Ok f) ->
  handle_commands cmds.*1 flag (mb_backend x) = (mb_backend x', Ok f) /\ counted (n + blen (cmds_inserts cmds.*1)) x'.
Proof.
  induction cmds as [|[[i|l|r|] t] cmds IH]; intros flag n x x' f Hc; cbn [handle_commands_m fmap list_fmap fst handle_commands cmds_inserts].
  - intros [= <- <-]. by rewrite Z.add_0_r.
  - rewrite !st_bind_unfold. destruct (handle_insert_m t i x) as [x1 [fl|?|]] eqn:E; [|done..]. intros E'.
    apply handle_insert_m_ok with (n := n) in E as [-> Hc1]; [|done]. apply IH with (n := n + 1) in E' as [-> Hc2]; [|done].
    split; [done|]. rewrite blen_cons. by replace (n + (1 + _)) with (n + 1 + blen (cmds_inserts cmds.*1)) by lia.
  - rewrite !st_bind_unfold. destruct (handle_batch_insert_m t l x) as [x1 [fl|?|]] eqn:E; [|done..]. intros E'.
    apply handle_batch_insert_m_ok with (n := n) in E as [-> Hc1]; [|done]. apply IH with (n := n + blen l) in E' as [-> Hc2]; [|done].
    split; [done|]. by rewrite blen_app, Z.add_assoc.
  - rewrite !st_bind_unfold. unfold handle_range_m. destruct (engine_range _ _ _ _ _ _ _) as [it|?|]; [| |done];
      intros E; (apply IH with (n := n) in E as [E Hc2]; [by split|]); try done.
  - rewrite !st_bind_unfold. cbn [handle_metrics_m st_modify]. intros E. apply IH with (n := n) in E as [E Hc2]; [by split|].
    destruct Hc as (Hn & Hm & Hs). split_and!; try done. apply Forall_app; split; [done|]. constructor; [|done].
    exists n. split; [lia|]. unfold counts in Hm. cbn. naive_solver.
Qed.

(** the gauges show the engine *)
Definition gauges_ok (limit : Z) (x : Metered) : Prop :=
  let e := b_engine (mb_backend x) in let g := m_engine (mb_metrics x) in
  em_memtable_bytes g = wrap_i64 (memtable_size e) /\ em_sstable_count g = wrap_i64 (sstable_count e) /\
  em_memtable_limit g = wrap_i64 limit.

Lemma handle_commands_m_limit cmds flag x x' f : handle_commands_m cmds flag x = (x', Ok f) ->
  em_memtable_limit (m_engine (mb_metrics x')) = em_memtable_limit (m_engine (mb_metrics x)).
Proof.
  revert flag x. induction cmds as [|[[i|l|r|] t] cmds IH]; intros flag x; cbn [handle_commands_m]; [by intros [= <- <-]|..];
    rewrite st_bind_unfold.
  - unfold handle_insert_m, handle_metered. rewrite insert_record_m_eq. destruct (insert_record _ _ _ _ _) as [e' [fl|?|]]; [| |done];
      intros E%IH; by rewrite E.
  - unfold handle_batch_insert_m, handle_metered. destruct (batch_insert_records_m_eq l (b_engine (mb_backend x)) (mb_metrics x)) as (g & -> & _).
    destruct (batch_insert_records _ _) as [e' [fl|?|]]; [| |done]; intros E%IH; by rewrite E.
  - unfold handle_range_m. destruct (engine_range _ _ _ _ _ _ _) as [it|?|]; [| |done]; intros E%IH; by rewrite E.
  - cbn [handle_metrics_m st_modify]. intros E%IH. by rewrite E.
Qed.

Lemma turn_commands_m_ok rn cmds limit n x x' : counted n x -> gauges_ok limit x -> turn_commands_m rn cmds x = (x', Ok tt) ->
  turn_commands rn cmds.*1 (mb_backend x) = (mb_backend x', Ok tt) /\ counted (n + blen (cmds_inserts cmds.*1)) x' /\ gauges_ok limit x'.
Proof.
  intros Hc (_ & _ & Hl). unfold turn_commands_m, turn_commands. rewrite !st_bind_unfold.
  destruct (handle_commands_m cmds false x) as [x1 [f|?|]] eqn:E; [|done..]. pose proof (handle_commands_m_limit _ _ _ _ _ E) as Hl1.
  apply handle_commands_m_ok with (n := n) in E as [-> Hc1]; [|done]. rewrite !st_bind_unfold. unfold on_backend at 1.
  destruct (ignore_err send_wal_sync_cmd (mb_backend x1)) as [b2 [[]|?|]]; [|done..]. rewrite !st_bind_unfold.
  assert (forall b x', (set_gauges (mb_with x1 b (mb_metrics x1))) = x' ->
    mb_backend x' = b /\ counted (n + blen (cmds_inserts cmds.*1)) x' /\ gauges_ok limit x') as Hend.
  { intros b x2 <-. split; [done|]. pose proof Hc1 as (_ & Hm1 & _). split; [by apply counted_same; [apply counted_same|]|].
    unfold gauges_ok. cbn. by rewrite Hl1. }
  destruct f.
  - unfold on_backend. destruct (ignore_err (send_flush_cmd rn) b2) as [b3 [[]|?|]] eqn:E3; cbn [mb_backend mb_with]; rewrite E3; [|done..].
    intros [= E']. by destruct (Hend b3 x' E') as (-> & ?).
  - cbn. intros [= E']. by destruct (Hend b2 x' E') as (-> & ?).
Qed.

Lemma turn_result_m_ok t r limit n x : counted n x -> gauges_ok limit x ->
  mb_backend (turn_result_m t r x) = turn_result r (mb_backend x) /\ counted n (turn_result_m t r x) /\ gauges_ok limit (turn_result_m t r x).
Proof.
  intros Hc (_ & _ & Hl). unfold turn_result_m, turn_result. pose proof Hc as (_ & Hm & _).
  destruct r as [meta|meta ids]; [destruct (apply_flush_result _ _) as [b []]|destruct (apply_compaction_result _ _ _) as [b []]];
    (split; [done|split; [by apply counted_same; [apply counted_same|]|by unfold gauges_ok; cbn; rewrite Hl]]).
Qed.
End counting.

(** ** The tasks of queries *)

Section range_tasks.
Context {Heap : Type} `{SstModule, !MinHeap CoreHeapItem Heap, HdrHist}.

(** the task sends what [range_loop] sends; one whose receiver stays has
    scanned everything unless a record cannot be converted *)
Lemma range_loop_m_eq size records : forall batch recv scanned,
  (range_loop_m size records batch recv scanned).1 = range_loop size records batch recv.
Proof.
  induction records as [|r records IH]; intros batch recv scanned; cbn [range_loop_m range_loop]; [done|].
  destruct (proto_record_try_from r) as [p|e|]; [|done..]. destruct (size <=? _); [|apply IH].
  destruct (send_batch recv _) as [recv'|]; [|done]. rewrite <- (IH [] recv' (wrap64 (scanned + 1))).
  by destruct (range_loop_m _ _ _ _ _) as [[sent o] n].
Qed.

Lemma range_loop_m_scanned size records : forall batch scanned sent k,
  range_loop_m size records batch None (wrap64 scanned) = (sent, Ok tt, k) -> k = wrap64 (scanned + blen records).
Proof.
  induction records as [|r records IH]; intros batch scanned sent k; cbn [range_loop_m].
  - intros [= _ <-]. by rewrite Z.add_0_r.
  - destruct (proto_record_try_from r) as [p|e|]; [|done..]. rewrite blen_cons, Z.add_assoc.
    change (wrap64 (wrap64 scanned + 1)) with (counter_inc 1 (wrap64 scanned)). rewrite counter_inc_wrap.
    destruct (size <=? _); [|apply IH]. cbn [send_batch].
    destruct (range_loop_m _ _ _ _ _) as [[sent' o] n] eqn:E. intros [= _ -> <-]. by eapply IH.
Qed.

(** the counters of inserts do not change *)
Lemma range_task_counts n t recv size it m : exists f,
  (range_task (Heap := Heap) n t recv size it m).2 = on_engine_metrics f m /\
  forall e, em_records_inserted (f e) = em_records_inserted e /\ em_insert_failures (f e) = em_insert_failures e /\
    em_memtable_bytes (f e) = em_memtable_bytes e /\ em_sstable_count (f e) = em_sstable_count e /\
    em_memtable_limit (f e) = em_memtable_limit e.
Proof.
  unfold range_task. destruct (core_merge_collect n n it) as [records|e|].
  2,3: exists (fun e => e); by destruct m.
  destruct (range_loop_m _ _ _ _ _) as [[sent o] scanned]. destruct o as [[]|err|].
  - by eexists (em_ranges 1 0 scanned _).
  - by eexists (fun e => em_ranges 1 0 scanned _ (em_ranges 0 1 0 id e)).
  - exists (fun e => e). by destruct m.
Qed.
End range_tasks.

(** ** Every run *)

Section metered_runs.
Context {Heap : Type} `{SstCodec, !MinHeap CoreHeapItem Heap, HdrHist}.
#[local] Abbreviation Metered := (Metered Heap).

Lemma start_limit limit config s0 : sys_start limit config = Ok s0 ->
  memtable_size (b_engine (s_backend s0)) = 0 /\ sstable_count (b_engine (s_backend s0)) = 0 /\
  cmt_limit (e_memtable (b_engine (s_backend s0))) = limit.
Proof. unfold sys_start, engine_open, recover_all. cbn. by intros [= <-]. Qed.

Lemma met_step_ok limit n (x x' : Metered) jobs jobs' results results' recs :
  counted n x -> gauges_ok limit x -> met_step (x, jobs, results) recs (x', jobs', results') ->
  (sys_step (H := Heap) (met_sys x jobs results) recs (met_sys x' jobs' results') \/ recs = [] /\ met_sys x' jobs' results' = met_sys x jobs results) /\
  counted (n + blen recs) x' /\ gauges_ok limit x'.
Proof.
  intros Hc Hg. inversion 1; subst.
  - match goal with E : turn_commands_m _ _ _ = _ |- _ => apply turn_commands_m_ok with (limit := limit) (n := n) in E as (E & Hc' & Hg'); [|done..] end.
    split; [left; by eapply step_commands|]. split; [|done]. unfold turn_records. unfold blen at 1. by rewrite length_batch_records.
  - destruct (turn_result_m_ok t r limit n x Hc Hg) as (E & Hc' & Hg'). rewrite Z.add_0_r. split; [left|done].
    unfold met_sys. rewrite E. by constructor.
  - rewrite Z.add_0_r. split; [by right|].
    match goal with E : range_task ?n ?t ?recv ?size ?it ?m = _ |- _ => destruct (range_task_counts n t recv size it m) as (f & Ef & Hf); rewrite E in Ef; cbn in Ef; subst end.
    destruct Hc as (Hn & (E1 & E2 & E3 & E4) & Hs). unfold gauges_ok in Hg. cbn in *.
    match goal with Hf : forall e, em_records_inserted (?f e) = _ /\ _, m : Metrics |- _ => destruct (Hf (m_engine m)) as (F1 & F2 & F3 & F4 & F5) end.
    unfold counted, counts, gauges_ok. cbn. rewrite F1, F2, F3, F4, F5. destruct Hg as (G1 & G2 & G3). by split_and!.
  - rewrite Z.add_0_r. pose proof Hc as (_ & Hm & _). split; [by left|]. split; [by apply counted_same|].
    unfold gauges_ok in *. cbn. by match goal with E : b_engine _ = b_engine _ |- _ => rewrite E end.
Qed.

(** C15: what the metrics say is so. In every run of the backend, with
    inserts, batches, queries and snapshots in any order: the run is one of
    the backend without metrics; [records_inserted] and [wal.write_count] are
    the number of acknowledged records (modulo 2^64) and no insert has
    failed; the gauges hold the size and the limit of the memtable and the
    number of SSTs of the engine; every snapshot that was sent back has the
    count of some earlier moment. [wal.sync_count] stays 0: no code counts
    syncs. *)
Theorem metrics_exact (limit : Z) (config : BackendConfig) (s0 : Sys) (ins : list CoreRecord) (x : Metered)
    (jobs : list IoCommand) (results : list IoResult)
    (Hstart : sys_start limit config = Ok s0) (Hrun : met_run s0 ins (x, jobs, results)) :
  let m := mb_metrics x in let e := b_engine (mb_backend x) in
  sys_run (H := Heap) s0 ins (met_sys x jobs results) /\
  em_records_inserted (m_engine m) = wrap64 (blen ins) /\ wm_write_count (m_wal m) = wrap64 (blen ins) /\
  em_insert_failures (m_engine m) = 0 /\ wm_sync_count (m_wal m) = 0 /\
  em_memtable_bytes (m_engine m) = wrap_i64 (memtable_size e) /\ em_memtable_limit (m_engine m) = wrap_i64 limit /\
  em_sstable_count (m_engine m) = wrap_i64 (sstable_count e) /\
  Forall (snap_counts (blen ins)) (mb_snapshots x).
Proof.
  assert (sys_run (H := Heap) s0 ins (met_sys x jobs results) /\ counted (blen ins) x /\ gauges_ok limit x)
    as (Hr & (_ & (E1 & E2 & E3 & E4) & Hs) & (G1 & G2 & G3)); [|by split_and!].
  remember (x, jobs, results) as y eqn:Ey. revert x jobs results Ey. induction Hrun as [|ins [[x1 j1] r1] recs y _ IH Hstep]; intros x jobs results Ey.
  - injection Ey as <- <- <-. destruct (start_limit limit config s0 Hstart) as (L1 & L2 & L3). split; [|split].
    + unfold met_sys. cbn. destruct s0. constructor.
    + by split; [|split; [|constructor]].
    + unfold gauges_ok. cbn. unfold gauge_set. by rewrite L1, L2, L3.
  - subst y. destruct (IH x1 j1 r1 eq_refl) as (Hr & Hc & Hg).
    destruct (met_step_ok limit _ _ _ _ _ _ _ _ Hc Hg Hstep) as ([Hs|[-> Hs]] & Hc' & Hg').
    + rewrite blen_app. split; [by eapply run_step|done].
    + rewrite app_nil_r, Hs. by rewrite Z.add_0_r in Hc'.
Qed.
End metered_runs.
