(* ===== verification/CoreServer.v ===== *)
(** * The server's connection handler and the client of logregator-core

    server.rs, client.rs and the counters of metrics.rs they change. The handler
    is written against an interface of the engine ([EngineService]: the
    commands it sends and the answers it waits for), as the server only holds
    the sending end of a channel; the backend is one instance. A connection is
    the bytes that have arrived, [Framed]'s write buffer and the bytes that
    have been flushed to the socket; writing to the socket does not fail. *)
From S2P Require Import Prelude Std Metrics Codec CoreProto CoreStorage CoreIter CoreEngine CoreBackend.

(** ** The server's counters *)

Definition inc_accepted (m : ServerMetrics) : ServerMetrics :=
  {| connections_accepted := counter_inc 1 (connections_accepted m); connections_active := connections_active m;
     frames_read := frames_read m; frames_written := frames_written m |}.
Definition add_active (d : Z) (m : ServerMetrics) : ServerMetrics :=
  {| connections_accepted := connections_accepted m; connections_active := gauge_add d (connections_active m);
     frames_read := frames_read m; frames_written := frames_written m |}.
Definition inc_read (n : Z) (m : ServerMetrics) : ServerMetrics :=
  {| connections_accepted := connections_accepted m; connections_active := connections_active m;
     frames_read := counter_inc n (frames_read m); frames_written := frames_written m |}.
Definition inc_written (n : Z) (m : ServerMetrics) : ServerMetrics :=
  {| connections_accepted := connections_accepted m; connections_active := connections_active m;
     frames_read := frames_read m; frames_written := counter_inc n (frames_written m) |}.

(** ** What the handler asks of the engine

    Errors carry the text that [format!] makes of them. *)
Class EngineService (S : Type) := {
  svc_insert : Insert -> S -> S * outcome (list byte) unit;
  svc_batch_insert : list Insert -> S -> S * outcome (list byte) unit;
  (** the batches of records that arrive, then the result *)
  svc_range : RangeReq -> S -> list (list ProtoRecord) * outcome (list byte) unit;
  svc_metrics : S -> outcome (list byte) (list byte)
}.

(** ** A connection *)

Record Conn (S : Type) := {
  cn_in : list byte; cn_buf : list byte; cn_out : list byte; cn_metrics : ServerMetrics; cn_engine : S
}.
Arguments cn_in {S} c.
Arguments cn_buf {S} c.
Arguments cn_out {S} c.
Arguments cn_metrics {S} c.
Arguments cn_engine {S} c.

(** [Framed::next] when no more bytes arrive: a message, the end of the
    stream, or an error when bytes are left that are no message *)
Definition framed_next {M} (decode : st (list byte) io_error (option M)) (buf : list byte)
    : list byte * outcome io_error (option M) :=
  match decode buf with
  | (rest, Ok None) => (rest, if bool_decide (rest = []) then Ok None else io_other)
  | r => r
  end.

(** [write_record_frame]: a record frame written without the codec *)
Definition write_record_frame (rec : ProtoRecord) : st (list byte) io_error unit := fun buf =>
  let start := blen buf in
  let buf := buf ++ be_bytes 4 0 in
  let buf := buf ++ [u8_of 0x82] in
  let buf := buf ++ be_bytes 8 (pr_source_id rec) in
  let buf := buf ++ be_bytes 8 (pr_ts rec) in
  let buf := buf ++ be_bytes 8 (pr_seq rec) in
  let buf := buf ++ be_bytes 4 (wrap32 (blen (pr_key rec))) in
  let buf := buf ++ pr_key rec in
  let buf := buf ++ be_bytes 4 (wrap32 (blen (pr_value rec))) in
  let buf := buf ++ pr_value rec in
  let frame_len := blen buf - start - 4 in
  copy_into start (start + 4) (be_bytes 4 (wrap32 frame_len)) buf.

Definition FLUSH_THRESHOLD : Z := 8192.

Section server.
Context {S : Type} `{EngineService S}.
#[local] Abbreviation Conn := (Conn S).

Definition with_metrics (f : ServerMetrics -> ServerMetrics) (c : Conn) : Conn :=
  Build_Conn S (cn_in c) (cn_buf c) (cn_out c) (f (cn_metrics c)) (cn_engine c).
Definition with_buf (buf : list byte) (c : Conn) : Conn :=
  Build_Conn S (cn_in c) buf (cn_out c) (cn_metrics c) (cn_engine c).
Definition with_in (rest : list byte) (c : Conn) : Conn :=
  Build_Conn S rest (cn_buf c) (cn_out c) (cn_metrics c) (cn_engine c).
Definition with_engine (e : S) (c : Conn) : Conn :=
  Build_Conn S (cn_in c) (cn_buf c) (cn_out c) (cn_metrics c) e.
(** [framed.flush] *)
Definition conn_flush (c : Conn) : Conn :=
  Build_Conn S (cn_in c) [] (cn_out c ++ cn_buf c) (cn_metrics c) (cn_engine c).

Definition on_buf (op : st (list byte) io_error unit) : st Conn io_error unit := fun c =>
  let '(buf, o) := op (cn_buf c) in (with_buf buf c, o).

(** [framed.send] *)
Definition conn_send (msg : ServerMessage) : st Conn io_error unit :=
  _ ← on_buf (server_codec_encode msg); st_modify conn_flush.

(** the reply to an insert *)
Definition insert_reply (res : outcome (list byte) unit) : ServerMessage :=
  match res with Ok _ => SmInsertOk | Err e => SmError e | Panic => SmError [] end.

Fixpoint write_records (records : list ProtoRecord) : st Conn io_error unit :=
  match records with
  | [] => mret tt
  | rec :: rest => _ ← on_buf (write_record_frame rec); write_records rest
  end.

(** the loop over the batches of a range *)
Fixpoint write_batches (batches : list (list ProtoRecord)) : st Conn io_error unit :=
  match batches with
  | [] => mret tt
  | records :: rest =>
      _ ← write_records records;
      _ ← st_modify (fun c => if FLUSH_THRESHOLD <? blen (cn_buf c) then conn_flush c else c);
      write_batches rest
  end.

(** "engine closed" *)
Definition engine_closed : list byte := map u8_of [101; 110; 103; 105; 110; 101; 32; 99; 108; 111; 115; 101; 100].

(** [Panic]: the engine went away without an answer *)
Definition range_reply (res : outcome (list byte) unit) : ServerMessage :=
  match res with Ok _ => SmRangeEnd | Err e => SmError e | Panic => SmError engine_closed end.

(** the text around an error of the metrics command *)
Definition metrics_error (e : list byte) : list byte :=
  map u8_of [123; 34; 101; 114; 114; 111; 114; 34; 58; 32; 34] ++ e ++ map u8_of [34; 125].

(** one message; an engine that goes away makes the handler fail *)
Definition handle_msg (msg : ClientMessage) : st Conn io_error unit := fun c =>
  match msg with
  | CmInsert i =>
      match svc_insert i (cn_engine c) with
      | (e, Panic) => (with_engine e c, io_other)
      | (e, res) => (_ ← st_modify (with_metrics (inc_written 1)); conn_send (insert_reply res)) (with_engine e c)
      end
  | CmBatchInsert l =>
      match svc_batch_insert l (cn_engine c) with
      | (e, Panic) => (with_engine e c, io_other)
      | (e, res) => (_ ← st_modify (with_metrics (inc_written 1)); conn_send (insert_reply res)) (with_engine e c)
      end
  | CmRange r =>
      let '(batches, res) := svc_range r (cn_engine c) in
      (_ ← write_batches batches;
       _ ← st_modify conn_flush;
       _ ← st_modify (with_metrics (inc_written (blen (concat batches))));
       _ ← st_modify (with_metrics (inc_written 1));
       conn_send (range_reply res)) c
  | CmPing => (_ ← st_modify (with_metrics (inc_written 1)); conn_send SmPong) c
  | CmMetrics =>
      match svc_metrics (cn_engine c) with
      | Panic => (c, io_other)
      | Ok json => (_ ← st_modify (with_metrics (inc_written 1)); conn_send (SmMetrics json)) c
      | Err e => (_ ← st_modify (with_metrics (inc_written 1)); conn_send (SmMetrics (metrics_error e))) c
      end
  end.

(** the loop over the messages; every message takes bytes off the input *)
Fixpoint conn_loop (fuel : nat) : st Conn io_error unit := fun c =>
  match fuel with
  | O => (c, Panic)
  | Datatypes.S fuel =>
      match framed_next server_codec_decode (cn_in c) with
      | (rest, Ok None) => (with_in rest c, Ok tt)
      | (rest, Ok (Some msg)) =>
          (_ ← st_modify (with_metrics (inc_read 1)); _ ← handle_msg msg; conn_loop fuel) (with_in rest c)
      | (rest, Err e) => (with_metrics (inc_read 1) (with_in rest c), Err e)
      | (rest, Panic) => (with_in rest c, Panic)
      end
  end.

(** [handle_conn] *)
Definition handle_conn : st Conn io_error unit := fun c =>
  (_ ← st_modify (with_metrics (add_active 1));
   _ ← conn_loop (Datatypes.S (length (cn_in c)));
   st_modify (with_metrics (add_active (-1)))) c.

(** what [run_main_loop] does with a connection it has accepted *)
Definition accept_conn (input : list byte) (m : ServerMetrics) (engine : S) : Conn * outcome io_error unit :=
  handle_conn (with_metrics (fun m => add_active 1 (inc_accepted m)) (Build_Conn S input [] [] m engine)).
End server.

(** ** The client *)

(** what the client waits for after a request *)
Inductive ClientReply :=
| CrDone
| CrRecords (v : list ProtoRecord)
| CrMetrics (json : list byte)
| CrRefused (e : list byte)     (* the server's error message *)
| CrUnexpected (m : ServerMessage)
| CrBroken                      (* the connection failed or was closed *).

(** [ping], [insert], [batch_insert] and [get_metrics] expect one answer *)
Definition client_one (expect : ServerMessage -> option ClientReply) (buf : list byte) : list byte * outcome io_error ClientReply :=
  match framed_next client_codec_decode buf with
  | (rest, Ok (Some m)) =>
      (rest, Ok (match expect m with
                 | Some r => r
                 | None => match m with SmError e => CrRefused e | _ => CrUnexpected m end
                 end))
  | (rest, Panic) => (rest, Panic)
  | (rest, _) => (rest, Ok CrBroken)
  end.
Definition client_ping : list byte -> list byte * outcome io_error ClientReply :=
  client_one (fun m => match m with SmPong => Some CrDone | _ => None end).
Definition client_insert : list byte -> list byte * outcome io_error ClientReply :=
  client_one (fun m => match m with SmInsertOk => Some CrDone | _ => None end).
Definition client_batch_insert : list byte -> list byte * outcome io_error ClientReply := client_insert.
Definition client_get_metrics : list byte -> list byte * outcome io_error ClientReply :=
  client_one (fun m => match m with SmMetrics json => Some (CrMetrics json) | _ => None end).

(** the loop of [range] *)
Fixpoint client_range (fuel : nat) (v : list ProtoRecord) (buf : list byte) : list byte * outcome io_error ClientReply :=
  match fuel with
  | O => (buf, Panic)
  | S fuel =>
      match framed_next client_codec_decode buf with
      | (rest, Ok (Some (SmRangeRecord r))) => client_range fuel (v ++ [r]) rest
      | (rest, Ok (Some SmRangeEnd)) => (rest, Ok (CrRecords v))
      | (rest, Ok (Some (SmError e))) => (rest, Ok (CrRefused e))
      | (rest, Ok (Some m)) => (rest, Ok (CrUnexpected m))
      | (rest, Panic) => (rest, Panic)
      | (rest, _) => (rest, Ok CrBroken)
      end
  end.

(** ** The backend behind the interface

    A command is served in a turn of its own; [show_error] is the text of an
    error and [json] the snapshot of the metrics. *)
Section backend_service.
Context {Heap : Type} `{SstModule, !MinHeap CoreHeapItem Heap}.
Context (rename_ok : bool) (n : nat) (show_error : io_error -> list byte) (json : list byte).

Definition shown {A} (o : outcome io_error A) : outcome (list byte) unit :=
  match o with Ok _ => Ok tt | Err e => Err (show_error e) | Panic => Panic end.

Definition backend_service : EngineService Backend := {|
  svc_insert i b := ((turn_commands rename_ok [CmdInsert i] b).1,
    shown (on_engine (insert_record (ins_source_id i) (ins_ts i) (ins_key i) (ins_value i)) b).2);
  svc_batch_insert l b := ((turn_commands rename_ok [CmdBatchInsert l] b).1, shown (on_engine (batch_insert_records l) b).2);
  svc_range r b := let '(batches, o) := handle_range (Heap := Heap) n None r b in (batches, shown o);
  svc_metrics b := Ok json
|}.
End backend_service.

(** ** A connection against a reference: one list of answers per request *)

Definition request_bytes (m : ClientMessage) : list byte := frame (client_message_bytes m).
Definition answer_bytes (m : ServerMessage) : list byte := frame (server_message_bytes m).

Section reference.
Context {S : Type} `{EngineService S}.
Implicit Types (c : Conn S).

Definition answer (msg : ClientMessage) (e : S) : S * list ServerMessage :=
  match msg with
  | CmInsert i => let '(e', res) := svc_insert i e in (e', [insert_reply res])
  | CmBatchInsert l => let '(e', res) := svc_batch_insert l e in (e', [insert_reply res])
  | CmRange r => let '(batches, res) := svc_range r e in (e, map SmRangeRecord (concat batches) ++ [range_reply res])
  | CmPing => (e, [SmPong])
  | CmMetrics => (e, [SmMetrics (match svc_metrics e with Ok j => j | Err er => metrics_error er | Panic => [] end)])
  end.
Fixpoint answers (msgs : list ClientMessage) (e : S) : S * list ServerMessage :=
  match msgs with
  | [] => (e, [])
  | m :: rest => let '(e1, l) := answer m e in let '(e2, k) := answers rest e1 in (e2, l ++ k)
  end.

(** the engine answers, with messages the format can carry *)
Definition answerable (msg : ClientMessage) (e : S) : Prop :=
  match msg with
  | CmInsert i => (svc_insert i e).2 <> Panic
  | CmBatchInsert l => (svc_batch_insert l e).2 <> Panic
  | CmMetrics => svc_metrics e <> Panic
  | _ => True
  end /\ Forall server_message_ok (answer msg e).2.
Fixpoint all_answerable (msgs : list ClientMessage) (e : S) : Prop :=
  match msgs with
  | [] => True
  | m :: rest => answerable m e /\ all_answerable rest (answer m e).1
  end.

Lemma write_record_frame_eq rec buf : write_record_frame rec buf = server_codec_encode (SmRangeRecord rec) buf.
Proof.
  unfold write_record_frame, server_codec_encode, put_frame, server_message_bytes, proto_encode_record, put_str.
  cbv zeta. by rewrite <- !app_assoc.
Qed.

Lemma encode_answer msg buf : server_message_ok msg -> server_codec_encode msg buf = (buf ++ answer_bytes msg, Ok tt).
Proof. intros [Hl _]. by apply put_frame_ok. Qed.

Lemma conn_send_ok msg c : server_message_ok msg ->
  conn_send msg c = (Build_Conn S (cn_in c) [] (cn_out c ++ cn_buf c ++ answer_bytes msg) (cn_metrics c) (cn_engine c), Ok tt).
Proof. intros Hm. unfold conn_send. rewrite st_bind_unfold. unfold on_buf. by rewrite encode_answer. Qed.

(** nothing but the written bytes changes, wherever they are *)
Definition writes c c' (bytes : list byte) : Prop :=
  cn_out c' ++ cn_buf c' = (cn_out c ++ cn_buf c) ++ bytes /\
  cn_in c' = cn_in c /\ cn_metrics c' = cn_metrics c /\ cn_engine c' = cn_engine c.

Lemma write_records_ok records : forall c, Forall server_message_ok (map SmRangeRecord records) ->
  exists c', write_records records c = (c', Ok tt) /\ writes c c' (concat (map answer_bytes (map SmRangeRecord records))).
Proof.
  unfold writes. induction records as [|r records IH]; intros c Hok; cbn [write_records].
  { exists c. cbn. by rewrite app_nil_r. }
  apply Forall_cons in Hok as [Hr Hok]. rewrite st_bind_unfold. unfold on_buf. rewrite write_record_frame_eq, encode_answer by done.
  destruct (IH (with_buf (cn_buf c ++ answer_bytes (SmRangeRecord r)) c) Hok) as (c' & E & Hb & Hi & Hm & He).
  exists c'. split; [done|]. split_and!; [|done..]. rewrite Hb. cbn. by rewrite <- !app_assoc.
Qed.

Lemma write_batches_ok batches : forall c, Forall server_message_ok (map SmRangeRecord (concat batches)) ->
  exists c', write_batches batches c = (c', Ok tt) /\ writes c c' (concat (map answer_bytes (map SmRangeRecord (concat batches)))).
Proof.
  induction batches as [|records batches IH]; intros c Hok; cbn [write_batches].
  { exists c. unfold writes. cbn. by rewrite app_nil_r. }
  cbn [concat] in Hok. rewrite map_app in Hok. apply Forall_app in Hok as [Hr Hok].
  destruct (write_records_ok records c Hr) as (c1 & E1 & Hb1 & Hi1 & Hm1 & He1). rewrite st_bind_unfold, E1, st_bind_unfold. cbn [st_modify].
  set (c2 := if _ : bool then _ else _).
  assert (cn_out c2 ++ cn_buf c2 = cn_out c1 ++ cn_buf c1 /\ cn_in c2 = cn_in c1 /\ cn_metrics c2 = cn_metrics c1 /\ cn_engine c2 = cn_engine c1)
    as (Hb2 & Hi2 & Hm2 & He2) by (unfold c2; case_if; cbn; by rewrite ?app_nil_r).
  destruct (IH c2 Hok) as (c' & E & Hb & Hi & Hm & He). exists c'. split; [done|].
  unfold writes. split_and!; [|congruence..]. rewrite Hb, Hb2, Hb1. cbn [concat]. by rewrite !map_app, concat_app, <- !app_assoc.
Qed.

Lemma handle_msg_ok msg c : cn_buf c = [] -> answerable msg (cn_engine c) ->
  let '(e', l) := answer msg (cn_engine c) in
  handle_msg msg c = (Build_Conn S (cn_in c) [] (cn_out c ++ concat (map answer_bytes l))
    (match msg with CmRange _ => inc_written 1 (inc_written (blen l - 1) (cn_metrics c)) | _ => inc_written 1 (cn_metrics c) end) e', Ok tt).
Proof.
  intros Hbuf [Hal Hok]. destruct msg as [i|r|l| |]; cbn [answer handle_msg] in *.
  - destruct (svc_insert i (cn_engine c)) as [e' [[]|er|]]; cbn in Hal, Hok; [..|done]; apply Forall_inv in Hok;
      rewrite st_bind_unfold; cbn [st_modify insert_reply]; rewrite conn_send_ok by exact Hok; cbn; by rewrite Hbuf, app_nil_r.
  - destruct (svc_range r (cn_engine c)) as [batches res]. cbn [snd] in Hok. apply Forall_app in Hok as [Hr Hres].
    apply Forall_inv in Hres. destruct (write_batches_ok batches c Hr) as (c1 & E & Hb & Hi & Hm & He).
    rewrite st_bind_unfold, E, !st_bind_unfold. cbn [st_modify]. rewrite !st_bind_unfold. cbn [st_modify]. rewrite st_bind_unfold.
    cbn [st_modify]. rewrite conn_send_ok by done. cbn. rewrite Hi, Hm, He, Hb, Hbuf, app_nil_r, map_app, concat_app. cbn.
    rewrite app_nil_r, <- app_assoc. do 3 f_equal. rewrite blen_app. unfold blen. rewrite length_map. cbn. f_equal. lia.
  - destruct (svc_batch_insert l (cn_engine c)) as [e' [[]|er|]]; cbn in Hal, Hok; [..|done]; apply Forall_inv in Hok;
      rewrite st_bind_unfold; cbn [st_modify insert_reply]; rewrite conn_send_ok by exact Hok; cbn; by rewrite Hbuf, app_nil_r.
  - destruct (svc_metrics (cn_engine c)) as [j|er|]; cbn in Hal, Hok; [..|done]; apply Forall_inv in Hok;
      rewrite st_bind_unfold; cbn [st_modify insert_reply]; rewrite conn_send_ok by exact Hok; cbn; by rewrite Hbuf, app_nil_r.
  - apply Forall_inv in Hok. rewrite st_bind_unfold. cbn [st_modify]. rewrite conn_send_ok by done. cbn. by rewrite Hbuf, app_nil_r.
Qed.

Lemma framed_next_request m rest : client_message_ok m ->
  framed_next server_codec_decode (request_bytes m ++ rest) = (rest, Ok (Some m)).
Proof.
  intros Hm. pose proof Hm as [Hl _]. destruct (client_body_ok m Hm) as (t & body & Eb & Hb).
  unfold framed_next, request_bytes, server_codec_decode. rewrite Eb in *. by rewrite (take_frame_ok client_message_body t body m).
Qed.
Lemma framed_next_answer m rest : server_message_ok m ->
  framed_next client_codec_decode (answer_bytes m ++ rest) = (rest, Ok (Some m)).
Proof.
  intros Hm. pose proof Hm as [Hl _]. destruct (server_body_ok m Hm) as (t & body & Eb & Hb).
  unfold framed_next, answer_bytes, client_codec_decode. rewrite Eb in *. by rewrite (take_frame_ok server_message_body t body m).
Qed.

Lemma wrap64_add a v : wrap64 (wrap64 v + a) = wrap64 (v + a).
Proof. unfold wrap64. by rewrite Zplus_mod_idemp_l. Qed.

(** what serving requests does to the counters of frames *)
Definition counted (msgs : list ClientMessage) (l : list ServerMessage) (m m' : ServerMetrics) : Prop :=
  connections_accepted m' = connections_accepted m /\ connections_active m' = connections_active m /\
  (in_u64 (frames_read m) -> frames_read m' = wrap64 (frames_read m + blen msgs)) /\
  (in_u64 (frames_written m) -> frames_written m' = wrap64 (frames_written m + blen l)).

Lemma wrap64_u64 z : in_u64 (wrap64 z).
Proof. unfold in_u64, wrap64, u64_max. pose proof (Z.mod_pos_bound z (2 ^ 64)). lia. Qed.
Lemma wrap64_id z : in_u64 z -> wrap64 z = z.
Proof. unfold in_u64, wrap64, u64_max. intros. apply Z.mod_small. lia. Qed.

Lemma counted_one msg e m : let l := (answer msg e).2 in
  counted [msg] l m (match msg with CmRange _ => inc_written 1 (inc_written (blen l - 1) (inc_read 1 m)) | _ => inc_written 1 (inc_read 1 m) end).
Proof.
  intros l. destruct msg as [i|r|k| |]; cbn in l; unfold l, counted.
  2:{ destruct (svc_range r e) as [bs res]. cbn. split_and!; try done. intros _. rewrite counter_inc_inc. f_equal. lia. }
  1,2: destruct (_ : S * outcome (list byte) unit) as [e' res]; cbn; by split_and!.
  1,2: cbn; by split_and!.
Qed.

Lemma counted_trans msgs l msgs' l' m1 m2 m3 :
  counted msgs l m1 m2 -> counted msgs' l' m2 m3 -> counted (msgs ++ msgs') (l ++ l') m1 m3.
Proof.
  intros (A1 & B1 & C1 & D1) (A2 & B2 & C2 & D2). unfold counted. split_and!; [congruence..| |].
  - intros Hr. rewrite C2, C1 by (done || rewrite ?C1 by done; apply wrap64_u64). rewrite wrap64_add, blen_app. f_equal. lia.
  - intros Hr. rewrite D2, D1 by (done || rewrite ?D1 by done; apply wrap64_u64). rewrite wrap64_add, blen_app. f_equal. lia.
Qed.

Lemma conn_loop_ok msgs : forall fuel c,
  cn_in c = concat (map request_bytes msgs) -> cn_buf c = [] -> Forall client_message_ok msgs ->
  all_answerable msgs (cn_engine c) -> (length msgs < fuel)%nat ->
  exists m', conn_loop fuel c = (Build_Conn S [] [] (cn_out c ++ concat (map answer_bytes (answers msgs (cn_engine c)).2)) m'
      (answers msgs (cn_engine c)).1, Ok tt) /\
    counted msgs (answers msgs (cn_engine c)).2 (cn_metrics c) m'.
Proof.
  induction msgs as [|m msgs IH]; intros [|fuel] c Hin Hbuf Hok Hans Hf; try lia; cbn [conn_loop].
  - cbn in Hin. rewrite Hin. cbn. destruct c as [ci cb co cm ce]. cbn in *. subst. exists cm. rewrite app_nil_r. split; [done|].
    unfold counted. split_and!; try done; intros Hr; by rewrite Z.add_0_r, wrap64_id.
  - apply Forall_cons in Hok as [Hm Hok]. destruct Hans as [Ha Hans]. cbn [map concat] in Hin. rewrite Hin, framed_next_request by done.
    set (c1 := with_in _ c). rewrite st_bind_unfold. cbn [st_modify]. set (c2 := with_metrics (inc_read 1) c1).
    pose proof (handle_msg_ok m c2 Hbuf Ha) as Hmsg. pose proof (counted_one m (cn_engine c) (cn_metrics c)) as Hc1.
    change (cn_engine c2) with (cn_engine c) in Hmsg. cbn [answers].
    destruct (answer m (cn_engine c)) as [e1 l] eqn:Ea. cbn [fst snd] in *. rewrite st_bind_unfold, Hmsg.
    match goal with |- context [conn_loop fuel ?x] => destruct (IH fuel x) as (m' & E & Hc); [done|done|done|done|cbn in Hf; lia|] end.
    cbn [cn_engine cn_out cn_metrics] in E, Hc. rewrite E. exists m'. destruct (answers msgs e1) as [e2 k]. cbn [fst snd] in *.
    split; [by rewrite map_app, concat_app, app_assoc|]. by apply (counted_trans [m] l msgs k _ _ _ Hc1).
Qed.

Lemma length_requests msgs : (length msgs <= length (concat (map request_bytes msgs)))%nat.
Proof.
  induction msgs as [|m msgs IH]; cbn [map concat length]; [lia|]. rewrite length_app.
  assert (4 <= length (request_bytes m))%nat by (unfold request_bytes, frame; rewrite length_app, length_be_bytes; lia). lia.
Qed.

(** the connection gauge goes up twice and down once *)
Lemma accept_conn_ok msgs m e :
  Forall client_message_ok msgs -> all_answerable msgs e -> - 2 ^ 62 <= connections_active m <= 2 ^ 62 ->
  exists m', accept_conn (concat (map request_bytes msgs)) m e =
    (Build_Conn S [] [] (concat (map answer_bytes (answers msgs e).2)) m' (answers msgs e).1, Ok tt) /\
    connections_active m' = connections_active m + 1 /\ connections_accepted m' = wrap64 (connections_accepted m + 1) /\
    (in_u64 (frames_read m) -> frames_read m' = wrap64 (frames_read m + blen msgs)) /\
    (in_u64 (frames_written m) -> frames_written m' = wrap64 (frames_written m + blen (answers msgs e).2)).
Proof.
  intros Hok Hans Hact. unfold accept_conn, handle_conn. rewrite st_bind_unfold. cbn [st_modify]. rewrite st_bind_unfold.
  set (c := with_metrics (add_active 1) _).
  destruct (conn_loop_ok msgs (Datatypes.S (length (cn_in c))) c) as (m1 & E & Ha & Hb & Hr & Hw); try done.
  { cbn. pose proof (length_requests msgs). lia. }
  change (cn_engine c) with e in *. change (cn_in c) with (concat (map request_bytes msgs)) in E. cbn [cn_in with_metrics]. rewrite E.
  eexists. split; [reflexivity|]. cbn in Ha, Hb, Hr, Hw |- *. split_and!; [|done|done|done].
  rewrite Hb, (gauge_add_small 1 (connections_active m)) by (unfold in_i64; lia).
  rewrite (gauge_add_small 1) by (unfold in_i64; lia). rewrite gauge_add_small by (unfold in_i64; lia). lia.
Qed.
End reference.

Section conn_claims.
Context {S : Type} `{EngineService S}.

(** C22: a connection serves pipelined requests in order. Whatever requests
    arrive, as long as the engine answers, the handler ends without an error;
    the bytes on the socket are exactly the frames of the answers, request by
    request, although records of a range are written around the codec and the
    buffer is flushed in between; and both frame counters count them. But the
    gauge of active connections still counts the connection after it has
    closed: it is raised by the accepting loop and again by the handler. *)
Theorem server_conn_spec (msgs : list ClientMessage) (m : ServerMetrics) (e : S)
    (Hok : Forall client_message_ok msgs) (Hans : all_answerable msgs e)
    (Hact : - 2 ^ 62 <= connections_active m <= 2 ^ 62)
    (Hread : in_u64 (frames_read m)) (Hwritten : in_u64 (frames_written m)) :
  exists m', accept_conn (concat (map request_bytes msgs)) m e =
    (Build_Conn S [] [] (concat (map answer_bytes (answers msgs e).2)) m' (answers msgs e).1, Ok tt) /\
    connections_active m' = connections_active m + 1 /\
    frames_read m' = wrap64 (frames_read m + blen msgs) /\
    frames_written m' = wrap64 (frames_written m + blen (answers msgs e).2).
Proof.
  destruct (accept_conn_ok msgs m e Hok Hans Hact) as (m' & E & Ha & _ & Hr & Hw). exists m'. split_and!; auto.
Qed.

Lemma client_range_reads records : forall fuel v rest (fin : ServerMessage),
  Forall server_message_ok (map SmRangeRecord records) -> server_message_ok fin -> (length records < fuel)%nat ->
  (fin = SmRangeEnd \/ exists e, fin = SmError e) ->
  client_range fuel v (concat (map answer_bytes (map SmRangeRecord records ++ [fin])) ++ rest) =
  (rest, Ok (match fin with SmError e => CrRefused e | _ => CrRecords (v ++ records) end)).
Proof.
  induction records as [|r records IH]; intros [|fuel] v rest fin Hok Hfin Hf Hend; cbn in Hf; try lia;
    cbn [map app concat client_range].
  - rewrite app_nil_r, framed_next_answer by done. destruct Hend as [->|[e ->]]; by rewrite ?app_nil_r.
  - apply Forall_cons in Hok as [Hr Hok]. rewrite <- app_assoc, framed_next_answer by done. rewrite IH by (done || lia).
    by rewrite <- app_assoc.
Qed.

Lemma length_answers l : (length l <= length (concat (map answer_bytes l)))%nat.
Proof.
  induction l as [|m l IH]; cbn [map concat length]; [lia|]. rewrite length_app.
  assert (4 <= length (answer_bytes m))%nat by (unfold answer_bytes, frame; rewrite length_app, length_be_bytes; lia). lia.
Qed.

Lemma range_wire_ok r m e :
  client_message_ok (CmRange r) -> answerable (CmRange r) e -> - 2 ^ 62 <= connections_active m <= 2 ^ 62 ->
  exists c, accept_conn (request_bytes (CmRange r)) m e = (c, Ok tt) /\ cn_engine c = e /\
    client_range (Datatypes.S (length (cn_out c))) [] (cn_out c) =
    ([], Ok (match range_reply (svc_range r e).2 with SmError er => CrRefused er | _ => CrRecords (concat (svc_range r e).1) end)).
Proof.
  intros Hok Hans Hact. destruct (accept_conn_ok [CmRange r] m e) as (m' & E & _).
  - by apply Forall_singleton.
  - split; [exact Hans|done].
  - done.
  - cbn [map concat] in E. rewrite app_nil_r in E. rewrite E. eexists. split; [reflexivity|]. cbn [cn_out cn_engine].
    destruct Hans as [_ Hans]. cbn [answers answer] in *. destruct (svc_range r e) as [bs res]. cbn [fst snd] in *. rewrite app_nil_r.
    split; [done|]. apply Forall_app in Hans as [Hr Hfin%Forall_inv].
    rewrite <- (app_nil_r (concat (map answer_bytes _))) at 2. rewrite client_range_reads; try done.
    + pose proof (length_answers (map SmRangeRecord (concat bs) ++ [range_reply res])) as Hl. rewrite length_app, length_map in Hl.
      lia.
    + destruct res as [[]|er|]; cbn; [by left|by right; eexists..].
Qed.

(** A range request over the wire. What the client's [range] returns for
    the bytes the server writes is what the engine answered: all the records
    of all batches in order when the engine ends without an error, and the
    text of the error otherwise, whatever was sent before it. *)
Theorem range_over_wire (r : RangeReq) (m : ServerMetrics) (e : S)
    (Hok : client_message_ok (CmRange r)) (Hans : answerable (CmRange r) e)
    (Hact : - 2 ^ 62 <= connections_active m <= 2 ^ 62) :
  exists c, accept_conn (request_bytes (CmRange r)) m e = (c, Ok tt) /\
    client_range (Datatypes.S (length (cn_out c))) [] (cn_out c) =
    ([], Ok (match (svc_range r e).2 with
             | Ok _ => CrRecords (concat (svc_range r e).1)
             | Err er => CrRefused er
             | Panic => CrRefused engine_closed
             end)).
Proof.
  destruct (range_wire_ok r m e Hok Hans Hact) as (c & E & _ & Hc). exists c. split; [done|].
  rewrite Hc. by destruct (svc_range r e) as [bs [[]|er|]].
Qed.
End conn_claims.
