(* ===== verification/CoreRuntime.v ===== *)
(** * Starting the daemon: runtime.rs of logregator-core, and logregatord

    [RuntimeBuilder] and what [spawn] starts; the options of the server
    binary, of its tracing and of the client binary. What the system answers
    is an argument ([SpawnEnv]); a task that has been spawned keeps running
    whatever [spawn] returns, so the tasks are the state of [spawn]. *)
From S2P Require Import Prelude Std Text Float Metrics Codec CoreProto CoreStorage CoreIter CoreEngine CoreBackend CoreSystem CoreMetered CoreServer.

(** ** RuntimeBuilder *)

Record RuntimeBuilder := {
  rb_data_dir : option (list byte);
  rb_server_addr : option (list byte);
  rb_channel_capacity : option Z;
  rb_memtable_limit_bytes : option Z;
  rb_profile_mem : Z;
  rb_fsync_interval_ms : Z;
  rb_backend_config : BackendConfig
}.

Definition runtime_builder_new : RuntimeBuilder := Build_RuntimeBuilder None None None None 0 0 backend_config_default.

Definition rb_set_data_dir (path : list byte) (b : RuntimeBuilder) : RuntimeBuilder :=
  Build_RuntimeBuilder (Some path) (rb_server_addr b) (rb_channel_capacity b) (rb_memtable_limit_bytes b)
    (rb_profile_mem b) (rb_fsync_interval_ms b) (rb_backend_config b).
Definition rb_set_server_addr (addr : list byte) (b : RuntimeBuilder) : RuntimeBuilder :=
  Build_RuntimeBuilder (rb_data_dir b) (Some addr) (rb_channel_capacity b) (rb_memtable_limit_bytes b)
    (rb_profile_mem b) (rb_fsync_interval_ms b) (rb_backend_config b).
Definition rb_set_channel_capacity (cap : Z) (b : RuntimeBuilder) : RuntimeBuilder :=
  Build_RuntimeBuilder (rb_data_dir b) (rb_server_addr b) (Some cap) (rb_memtable_limit_bytes b)
    (rb_profile_mem b) (rb_fsync_interval_ms b) (rb_backend_config b).
Definition rb_set_memtable_limit_bytes (bytes : Z) (b : RuntimeBuilder) : RuntimeBuilder :=
  Build_RuntimeBuilder (rb_data_dir b) (rb_server_addr b) (rb_channel_capacity b) (Some bytes)
    (rb_profile_mem b) (rb_fsync_interval_ms b) (rb_backend_config b).
Definition rb_set_profile_mem (profile : Z) (b : RuntimeBuilder) : RuntimeBuilder :=
  Build_RuntimeBuilder (rb_data_dir b) (rb_server_addr b) (rb_channel_capacity b) (rb_memtable_limit_bytes b)
    profile (rb_fsync_interval_ms b) (rb_backend_config b).
Definition rb_set_fsync_interval_ms (ms : Z) (b : RuntimeBuilder) : RuntimeBuilder :=
  Build_RuntimeBuilder (rb_data_dir b) (rb_server_addr b) (rb_channel_capacity b) (rb_memtable_limit_bytes b)
    (rb_profile_mem b) ms (rb_backend_config b).
Definition rb_set_config (f : BackendConfig -> BackendConfig) (b : RuntimeBuilder) : RuntimeBuilder :=
  Build_RuntimeBuilder (rb_data_dir b) (rb_server_addr b) (rb_channel_capacity b) (rb_memtable_limit_bytes b)
    (rb_profile_mem b) (rb_fsync_interval_ms b) (f (rb_backend_config b)).
Definition rb_set_command_batch_size (sz : Z) : RuntimeBuilder -> RuntimeBuilder := rb_set_config (fun c =>
  {| command_batch_size := sz; range_batch_size := range_batch_size c; max_sstable_count := max_sstable_count c |}).
Definition rb_set_range_batch_size (sz : Z) : RuntimeBuilder -> RuntimeBuilder := rb_set_config (fun c =>
  {| command_batch_size := command_batch_size c; range_batch_size := sz; max_sstable_count := max_sstable_count c |}).
Definition rb_set_max_sstable_count (n : Z) : RuntimeBuilder -> RuntimeBuilder := rb_set_config (fun c =>
  {| command_batch_size := command_batch_size c; range_batch_size := range_batch_size c; max_sstable_count := n |}).

(** ** [spawn] *)

(** what a data directory holds: the active log, all logs in the order of the
    listing, the rotated ones by id, and the SSTs *)
Record DataDir := {
  dir_active : list byte; dir_wals : list (list byte); dir_rotated : gmap Z (list byte); dir_ssts : list (Z * list byte)
}.
Definition empty_dir : DataDir := {| dir_active := []; dir_wals := [[]]; dir_rotated := ∅; dir_ssts := [] |}.

(** the directory at a path, whether the syncer opens the log there, the
    parser of socket addresses, and the address a listener gets *)
Record SpawnEnv (Addr : Type) := {
  env_dir : list byte -> outcome io_error DataDir;
  env_syncer : list byte -> bool;
  env_parse_addr : list byte -> option Addr;
  env_bind : Addr -> option Addr
}.
Arguments env_dir {Addr} _ _.
Arguments env_syncer {Addr} _ _.
Arguments env_parse_addr {Addr} _ _.
Arguments env_bind {Addr} _ _.

Inductive Task (Addr : Type) `{SstModule, HdrHist} :=
| TaskIoWorker (timer : bool)
| TaskBackend (b : Backend) (m : Metrics)
| TaskServer (addr : Addr).
Arguments TaskIoWorker {Addr _ _} timer.
Arguments TaskBackend {Addr _ _} b m.
Arguments TaskServer {Addr _ _} addr.

Record Runtime (Addr : Type) `{HdrHist} := { rt_metrics : Metrics; rt_server_addr : Addr; rt_has_stats : bool }.
Arguments rt_metrics {Addr _} _.
Arguments rt_server_addr {Addr _} _.
Arguments rt_has_stats {Addr _} _.
Arguments Build_Runtime {Addr _} _ _ _.

Section spawning.
Context {Addr : Type} `{SstCodec, HdrHist} (env : SpawnEnv Addr).
#[local] Abbreviation Task := (Task Addr).

(** [.context(..)?] of an option *)
Definition required {A} (o : option A) : st (list Task) io_error A := st_lift (match o with Some a => Ok a | None => bail end).

(** [mpsc::channel]: the capacity is between 1 and [usize::MAX >> 3] *)
Definition channel_new (capacity : Z) : st (list Task) io_error unit :=
  st_lift (if (1 <=? capacity) && (capacity <=? 2 ^ 61 - 1) then Ok tt else Panic).

Definition spawn_task (t : Task) : st (list Task) io_error unit := st_modify (fun ts => ts ++ [t]).

Definition runtime_spawn (rb : RuntimeBuilder) : st (list Task) io_error (Runtime Addr) :=
  data_dir ← required (rb_data_dir rb);
  server_addr ← required (rb_server_addr rb);
  channel_capacity ← required (rb_channel_capacity rb);
  let memtable_limit := default 0 (rb_memtable_limit_bytes rb) in
  _ ← channel_new channel_capacity;
  dir ← st_lift (env_dir env data_dir);
  opened ← st_lift (engine_open (dir_active dir) (dir_wals dir) (dir_ssts dir) memtable_limit);
  let engine := opened.1 in
  let metrics := engine_set_metrics engine metrics_default in
  _ ← channel_new channel_capacity;
  _ ← channel_new channel_capacity;
  _ ← (if env_syncer env data_dir then mret tt else st_lift bail);
  let backend := backend_new engine (dir_rotated dir) (list_to_map (dir_ssts dir)) (rb_backend_config rb) in
  _ ← spawn_task (TaskIoWorker (negb (rb_fsync_interval_ms rb =? 0)));
  _ ← spawn_task (TaskBackend backend metrics);
  addr ← required (env_parse_addr env server_addr);
  bound ← required (env_bind env addr);
  _ ← spawn_task (TaskServer bound);
  mret (Build_Runtime metrics bound (0 <? rb_profile_mem rb)).
End spawning.

(** ** logregatord: the server binary *)

Inductive Profile := ProfileNone | ProfileFlame | ProfileConsole | ProfileBoth.
Definition profile_as_str (p : Profile) : list byte :=
  match p with
  | ProfileNone => str "none" | ProfileFlame => str "flame" | ProfileConsole => str "console" | ProfileBoth => str "both"
  end.
Definition profile_from_str (s : list byte) : Profile :=
  if decide (s = str "flame") then ProfileFlame
  else if decide (s = str "console") then ProfileConsole
  else if decide (s = str "both") then ProfileBoth
  else ProfileNone.
Definition profile_parser (arg : list byte) : option Profile :=
  if decide (arg = str "none") then Some ProfileNone
  else if decide (arg = str "flame") then Some ProfileFlame
  else if decide (arg = str "console") then Some ProfileConsole
  else if decide (arg = str "both") then Some ProfileBoth
  else None.

Inductive LevelFilter := LevelOff | LevelError | LevelWarn | LevelInfo | LevelDebug | LevelTrace.
(** no character outside ASCII has one of these letters as its lower case *)
Definition parse_level (s : list byte) : LevelFilter :=
  let s := to_lowercase s in
  if decide (s = str "off") then LevelOff
  else if decide (s = str "error") then LevelError
  else if decide (s = str "warn") then LevelWarn
  else if decide (s = str "info") then LevelInfo
  else if decide (s = str "debug") then LevelDebug
  else if decide (s = str "trace") then LevelTrace
  else LevelInfo.

Record TracingConfig := { tc_profile : Profile; tc_flame_output : option (list byte); tc_log_level : LevelFilter }.
Definition tracing_from_cli (profile : Profile) (flame_output : option (list byte)) (log_level : list byte) : TracingConfig :=
  {| tc_profile := profile; tc_flame_output := flame_output; tc_log_level := parse_level log_level |}.

Record ServerArgs := {
  sa_addr : list byte; sa_data_dir : option (list byte); sa_batch_size : Z;
  sa_profile : Profile; sa_flame_output : option (list byte); sa_log_level : list byte;
  sa_memtable_mb : Z; sa_fsync_interval : Z; sa_command_batch_size : Z; sa_range_batch_size : Z; sa_max_sstable_count : Z
}.

(** the default directory: [<cwd>/server_data/<milliseconds>] *)
Definition server_dir (cwd : list byte) (now_ms : Z) (args : ServerArgs) : list byte :=
  match sa_data_dir args with
  | Some d => d
  | None => cwd ++ str "/server_data/" ++ fmt_uint now_ms
  end.

Definition server_builder (cwd : list byte) (now_ms : Z) (args : ServerArgs) : RuntimeBuilder :=
  rb_set_max_sstable_count (sa_max_sstable_count args)
  (rb_set_range_batch_size (sa_range_batch_size args)
  (rb_set_command_batch_size (sa_command_batch_size args)
  (rb_set_fsync_interval_ms (sa_fsync_interval args)
  (rb_set_memtable_limit_bytes (wrap64 (wrap64 (sa_memtable_mb args * 1024) * 1024))
  (rb_set_channel_capacity (sa_batch_size args)
  (rb_set_server_addr (sa_addr args)
  (rb_set_data_dir (server_dir cwd now_ms args) runtime_builder_new))))))).

(** ** logregatord: the client binary *)

Inductive CliCommand :=
| CliInsert (source_id timestamp : Z) (key value : list byte)
| CliRange (source_id start_timestamp end_timestamp : Z) (key : list byte) (filter : option (list byte))
| CliBatchInsert (path : list byte).

(** [timestamp_parser]: a Unix time, or what [DateTime<Utc>] parses, in seconds *)
Definition timestamp_parser (parse_datetime : list byte -> option Z) (arg : list byte) : option Z :=
  match parse_i64 arg with Some n => Some n | None => parse_datetime arg end.

(** the request of a command; [BatchInsert] is not implemented *)
Definition cli_request (cmd : CliCommand) : outcome io_error ClientMessage :=
  match cmd with
  | CliInsert sid ts key value => Ok (CmInsert {| ins_source_id := sid; ins_ts := ts; ins_key := key; ins_value := value |})
  | CliRange sid s e key filter =>
      Ok (CmRange {| rng_source_id := sid; rng_key := key; rng_start_ts := s; rng_end_ts := e; rng_filter := default [] filter |})
  | CliBatchInsert _ => Panic
  end.

(** [run_main] after the connection is made: an error of the request is
    logged ([true]) and the run ends well all the same *)
Definition cli_run (reply : ClientMessage -> outcome io_error ClientReply) (cmd : CliCommand) : outcome io_error bool :=
  msg ← cli_request cmd;
  r ← reply msg;
  Ok (match r with CrDone | CrRecords _ => false | _ => true end).

(** ** What [spawn] leaves running *)

Section spawn_facts.
Context {Addr : Type} `{SstCodec, HdrHist} (env : SpawnEnv Addr).

(** everything up to the tasks works *)
Definition can_start (rb : RuntimeBuilder) (d a : list byte) (dir : DataDir) (e : Engine (list byte)) : Prop :=
  rb_data_dir rb = Some d /\ rb_server_addr rb = Some a /\
  (exists c, rb_channel_capacity rb = Some c /\ 1 <= c <= 2 ^ 61 - 1) /\
  env_dir env d = Ok dir /\
  (exists f, engine_open (dir_active dir) (dir_wals dir) (dir_ssts dir) (default 0 (rb_memtable_limit_bytes rb)) = Ok (e, f)) /\
  env_syncer env d = true.

Definition spawned_backend (rb : RuntimeBuilder) (dir : DataDir) (e : Engine (list byte)) : Backend :=
  backend_new e (dir_rotated dir) (list_to_map (dir_ssts dir)) (rb_backend_config rb).
Definition spawned_tasks (rb : RuntimeBuilder) (dir : DataDir) (e : Engine (list byte)) : list (Task Addr) :=
  [TaskIoWorker (negb (rb_fsync_interval_ms rb =? 0));
   TaskBackend (spawned_backend rb dir e) (engine_set_metrics e metrics_default)].

Lemma channel_new_ok c (ts : list (Task Addr)) : 1 <= c <= 2 ^ 61 - 1 -> channel_new c ts = (ts, Ok tt).
Proof. intros Hc. unfold channel_new, st_lift. by rewrite (proj2 (Z.leb_le 1 c)), (proj2 (Z.leb_le c _)) by lia. Qed.

Lemma spawn_starts rb d a dir e ts : can_start rb d a dir e ->
  runtime_spawn env rb ts =
    match env_parse_addr env a ≫= env_bind env with
    | Some bound => (ts ++ spawned_tasks rb dir e ++ [TaskServer bound],
        Ok (Build_Runtime (engine_set_metrics e metrics_default) bound (0 <? rb_profile_mem rb)))
    | None => (ts ++ spawned_tasks rb dir e, bail)
    end.
Proof.
  intros (Hd & Ha & (c & Hc & Hr) & Hdir & (f & He) & Hs). unfold runtime_spawn, required, st_lift, spawn_task, spawned_tasks.
  rewrite Hd, Ha, Hc, st_bind_unfold, st_bind_unfold, st_bind_unfold. cbv zeta. rewrite st_bind_unfold, channel_new_ok by done.
  rewrite st_bind_unfold, Hdir, st_bind_unfold, He. cbv zeta. rewrite st_bind_unfold, channel_new_ok by done.
  rewrite st_bind_unfold, channel_new_ok by done. rewrite st_bind_unfold, Hs. cbn [mret st_ret fst].
  rewrite st_bind_unfold. cbn [st_modify]. rewrite st_bind_unfold. cbn [st_modify]. rewrite st_bind_unfold.
  destruct (env_parse_addr env a) as [addr|]; cbn [mbind option_bind]; [|by rewrite <- app_assoc].
  rewrite st_bind_unfold. destruct (env_bind env addr) as [bound|]; [|by rewrite <- app_assoc].
  rewrite st_bind_unfold. cbn. by rewrite <- !app_assoc.
Qed.

Lemma spawn_nothing rb ts : (runtime_spawn env rb ts).1 = ts \/ exists d a dir e, can_start rb d a dir e.
Proof.
  unfold can_start, runtime_spawn, required, st_lift. rewrite st_bind_unfold.
  destruct (rb_data_dir rb) as [d|]; [|by left]. rewrite st_bind_unfold.
  destruct (rb_server_addr rb) as [a|]; [|by left]. rewrite st_bind_unfold.
  destruct (rb_channel_capacity rb) as [c|]; [|by left]. cbv zeta. rewrite st_bind_unfold.
  unfold channel_new at 1. unfold st_lift. destruct (_ && _) eqn:Hc; [|by left].
  apply andb_true_iff in Hc as [Hc1%Z.leb_le Hc2%Z.leb_le]. rewrite st_bind_unfold.
  destruct (env_dir env d) as [dir|err|] eqn:Hdir; [|by left..]. rewrite st_bind_unfold.
  destruct (engine_open _ _ _ _) as [[e f]|err|] eqn:He; [|by left..]. cbv zeta.
  rewrite st_bind_unfold, channel_new_ok by lia. rewrite st_bind_unfold, channel_new_ok by lia. rewrite st_bind_unfold.
  destruct (env_syncer env d) eqn:Hs; [|by left]. right. exists d, a, dir, e. by split_and!; eauto.
Qed.

(** What [spawn] starts. When the options are there, the capacity is
    one a channel can have, the directory opens and the log can be synced,
    the I/O worker and the backend are started in this order; the server
    follows if its address parses and can be bound. If it does not, [spawn]
    fails and the two tasks go on running on the directory. In every other
    case nothing is started. *)
Theorem runtime_spawn_spec (rb : RuntimeBuilder) (ts : list (Task Addr)) :
  (forall d a dir e, can_start rb d a dir e ->
    runtime_spawn env rb ts =
      match env_parse_addr env a ≫= env_bind env with
      | Some bound => (ts ++ spawned_tasks rb dir e ++ [TaskServer bound],
          Ok (Build_Runtime (engine_set_metrics e metrics_default) bound (0 <? rb_profile_mem rb)))
      | None => (ts ++ spawned_tasks rb dir e, bail)
      end) /\
  ((forall d a dir e, ~ can_start rb d a dir e) -> (runtime_spawn env rb ts).1 = ts).
Proof.
  split; [intros d a dir e; apply spawn_starts|]. intros Hno.
  destruct (spawn_nothing rb ts) as [|(d & a & dir & e & Hc)]; [done|]. by destruct (Hno d a dir e).
Qed.
End spawn_facts.

(** ** The daemon on an empty directory *)

Section daemon.
Context {Addr : Type} `{SstCodec, HdrHist} (env : SpawnEnv Addr).

Definition args_config (args : ServerArgs) : BackendConfig :=
  {| command_batch_size := sa_command_batch_size args; range_batch_size := sa_range_batch_size args;
     max_sstable_count := sa_max_sstable_count args |}.

(** C37: the daemon starts the system the other theorems are about. With a
    channel size from 1 and a memtable of less than 2^44 MB, on an empty
    directory and an address it can bind, the server binary starts the
    worker, the backend and the server; the backend it starts and its metrics
    are the start of the (metered) system with the options of the command
    line, the limit of the memtable in bytes. *)
Theorem daemon_start (cwd : list byte) (now_ms : Z) (args : ServerArgs) (bound : Addr)
    (Hcap : 1 <= sa_batch_size args <= 2 ^ 61 - 1) (Hmb : 0 <= sa_memtable_mb args < 2 ^ 44)
    (Hdir : env_dir env (server_dir cwd now_ms args) = Ok empty_dir) (Hsync : env_syncer env (server_dir cwd now_ms args) = true)
    (Hbind : env_parse_addr env (sa_addr args) ≫= env_bind env = Some bound) :
  exists b m s0,
    runtime_spawn env (server_builder cwd now_ms args) [] =
      ([TaskIoWorker (negb (sa_fsync_interval args =? 0)); TaskBackend b m; TaskServer bound], Ok (Build_Runtime m bound false)) /\
    sys_start (sa_memtable_mb args * 2 ^ 20) (args_config args) = Ok s0 /\
    forall Heap (hp : MinHeap CoreHeapItem Heap), met_start (Heap := Heap) s0 = (Build_Metered (engine_loop_start true b).1 m [] [], [], []).
Proof.
  set (limit := sa_memtable_mb args * 2 ^ 20).
  assert (wrap64 (wrap64 (sa_memtable_mb args * 1024) * 1024) = limit) as Hlim.
  { unfold wrap64, limit. change (2 ^ 44) with 17592186044416 in Hmb. change (2 ^ 20) with 1048576. change (2 ^ 64) with 18446744073709551616.
    rewrite (Z.mod_small (sa_memtable_mb args * 1024)) by lia. rewrite Z.mod_small by lia. lia. }
  assert (exists e, engine_open [] [[]] [] limit = Ok (e, false)) as [e He] by (unfold engine_open, recover_all; cbn; by eexists).
  pose proof (spawn_starts env (server_builder cwd now_ms args) (server_dir cwd now_ms args) (sa_addr args) empty_dir e []) as E.
  rewrite Hbind in E.
  eexists _, _, (Build_Sys _ (engine_loop_start true (backend_new e ∅ ∅ (args_config args))).1 [] []). split_and!.
  - rewrite E; [reflexivity|]. unfold can_start. cbn. split_and!; try done; [by eexists|]. exists false. by rewrite Hlim.
  - unfold sys_start. by rewrite He.
  - intros Heap hp. unfold met_start. cbn [s_backend s_jobs s_results]. do 2 f_equal. injection He as <-. done.
Qed.
End daemon.

(** a profile's name is what the command line takes for it *)
Lemma profile_roundtrip p : profile_parser (profile_as_str p) = Some p /\ profile_from_str (profile_as_str p) = p.
Proof. by destruct p. Qed.

(** ** A directory, an address and a port *)

#[local] Instance no_sst : SstModule :=
  {| BloomFilter := unit; IndexBlock := unit; bloom_contains _ _ _ := true; binary_seek _ _ := 0 |}.
#[local] Instance no_sst_codec : SstCodec :=
  {| read_footer _ := bail; write_to_file id rs _ := (Build_SSTableMeta _ id tt 0 tt 0 (blen rs) 0, []) |}.
#[local] Existing Instance list_hist.

Definition demo_env : SpawnEnv Z := {|
  env_dir _ := Ok empty_dir; env_syncer _ := true;
  env_parse_addr s := parse_uint u16_max s; env_bind a := if a =? 0 then Some 40000 else Some a
|}.
Definition demo_args (addr : list byte) : ServerArgs := {|
  sa_addr := addr; sa_data_dir := None; sa_batch_size := 1024; sa_profile := ProfileNone; sa_flame_output := None;
  sa_log_level := str "info"; sa_memtable_mb := 32; sa_fsync_interval := 0; sa_command_batch_size := 512;
  sa_range_batch_size := 1024; sa_max_sstable_count := 8
|}.

Lemma daemon_start_witness :
  exists b m, runtime_spawn demo_env (server_builder (str "/srv") 5 (demo_args (str "4321"))) [] =
    ([TaskIoWorker false; TaskBackend b m; TaskServer 4321], Ok (Build_Runtime m 4321 false)) /\
    e_memtable_limit_bytes (b_engine b) = 33554432.
Proof.
  destruct (daemon_start demo_env (str "/srv") 5 (demo_args (str "4321")) 4321) as (b & m & s0 & E & _);
    [cbn; lia|cbn; lia|reflexivity|reflexivity|reflexivity|].
  exists b, m. split; [exact E|]. vm_compute in E. injection E as <- _. reflexivity.
Defined.

(** an address that does not parse: the tasks are left *)
Lemma runtime_spawn_spec_witness :
  exists b m, runtime_spawn demo_env (server_builder (str "/srv") 5 (demo_args (str "host:4321"))) [] =
    ([TaskIoWorker false; TaskBackend b m], bail).
Proof.
  destruct (runtime_spawn_spec demo_env (server_builder (str "/srv") 5 (demo_args (str "host:4321"))) []) as [Hs _].
  eexists _, _. erewrite (Hs (server_dir (str "/srv") 5 (demo_args (str "host:4321"))) (str "host:4321") empty_dir).
  - reflexivity.
  - unfold can_start. split_and!; [reflexivity|reflexivity|eexists; split; [reflexivity|cbn; lia]|reflexivity|eexists; reflexivity|reflexivity].
Defined.
