(* ===== verification/CoreSession.v ===== *)
(** * A session: the methods of the client against the server

    Each method of client.rs sends one message and reads its answer. A client
    that makes several calls on one connection, before or after it reads the
    answers, gets for each what the engine answered to it. *)
From S2P Require Import Prelude Std Metrics Codec CoreProto CoreServer.

(** ** The methods *)

Inductive ClientCall :=
| CallPing
| CallInsert (insert : Insert)
| CallBatchInsert (records : list Insert)
| CallRange (range : RangeReq)
| CallMetrics.

Definition call_message (c : ClientCall) : ClientMessage :=
  match c with
  | CallPing => CmPing
  | CallInsert i => CmInsert i
  | CallBatchInsert records => CmBatchInsert records
  | CallRange r => CmRange r
  | CallMetrics => CmMetrics
  end.

(** the two directions of the connection *)
Record Client := { cl_sent : list byte; cl_recv : list byte }.

(** [self.framed.send(msg).await?] *)
Definition client_send (msg : ClientMessage) : st Client io_error unit := fun c =>
  let '(sent, o) := client_codec_encode msg (cl_sent c) in ({| cl_sent := sent; cl_recv := cl_recv c |}, o).
(** the [match] on [self.framed.next().await], and the loop of [range] *)
Definition client_receive (call : ClientCall) : st Client io_error ClientReply := fun c =>
  let '(rest, o) :=
    match call with
    | CallPing => client_ping (cl_recv c)
    | CallInsert _ => client_insert (cl_recv c)
    | CallBatchInsert _ => client_batch_insert (cl_recv c)
    | CallRange _ => client_range (S (length (cl_recv c))) [] (cl_recv c)
    | CallMetrics => client_get_metrics (cl_recv c)
    end in
  ({| cl_sent := cl_sent c; cl_recv := rest |}, o).

(** requests sent one after the other, and their answers read in order *)
Fixpoint client_send_all (calls : list ClientCall) : st Client io_error unit :=
  match calls with
  | [] => mret tt
  | call :: calls => _ ← client_send (call_message call); client_send_all calls
  end.
Fixpoint client_receive_all (calls : list ClientCall) : st Client io_error (list ClientReply) :=
  match calls with
  | [] => mret []
  | call :: calls => r ← client_receive call; rs ← client_receive_all calls; mret (r :: rs)
  end.

(** ** What each call should get *)

Section session.
Context {S : Type} `{EngineService S}.

Definition done_or_refused (o : outcome (list byte) unit) : ClientReply :=
  match o with Ok _ => CrDone | Err e => CrRefused e | Panic => CrRefused [] end.
Definition call_reply (call : ClientCall) (e : S) : S * ClientReply :=
  match call with
  | CallPing => (e, CrDone)
  | CallInsert i => let '(e', o) := svc_insert i e in (e', done_or_refused o)
  | CallBatchInsert l => let '(e', o) := svc_batch_insert l e in (e', done_or_refused o)
  | CallRange r =>
      let '(batches, o) := svc_range r e in
      (e, match o with Ok _ => CrRecords (concat batches) | Err er => CrRefused er | Panic => CrRefused engine_closed end)
  | CallMetrics => (e, CrMetrics (match svc_metrics e with Ok j => j | Err er => metrics_error er | Panic => [] end))
  end.
Fixpoint call_replies (calls : list ClientCall) (e : S) : S * list ClientReply :=
  match calls with
  | [] => (e, [])
  | call :: calls => let '(e, r) := call_reply call e in let '(e, rs) := call_replies calls e in (e, r :: rs)
  end.

Lemma client_send_all_ok calls : forall c, Forall (fun call => client_message_ok (call_message call)) calls ->
  client_send_all calls c =
    ({| cl_sent := cl_sent c ++ concat (map request_bytes (map call_message calls)); cl_recv := cl_recv c |}, Ok tt).
Proof.
  induction calls as [|call calls IH]; intros c Hok; [cbn; by rewrite app_nil_r; destruct c|].
  apply Forall_cons in Hok as [[Hc _] Hok]. cbn [client_send_all]. rewrite st_bind_unfold. unfold client_send, client_codec_encode at 1.
  rewrite put_frame_ok by done. rewrite IH by done. cbn [cl_sent cl_recv map concat]. by rewrite <- app_assoc.
Qed.

Lemma client_one_reads expect m rest : server_message_ok m ->
  client_one expect (answer_bytes m ++ rest) =
    (rest, Ok (match expect m with Some r => r | None => match m with SmError e => CrRefused e | _ => CrUnexpected m end end)).
Proof. intros Hm. unfold client_one. by rewrite framed_next_answer. Qed.

(** an answer to a call, followed by anything, is read up to its end *)
Lemma client_receive_ok call e sent rest : answerable (call_message call) e ->
  client_receive call {| cl_sent := sent; cl_recv := concat (map answer_bytes (answer (call_message call) e).2) ++ rest |} =
    ({| cl_sent := sent; cl_recv := rest |}, Ok (call_reply call e).2) /\
  (answer (call_message call) e).1 = (call_reply call e).1.
Proof.
  intros [Hal Hok]. unfold client_receive. cbn [cl_recv cl_sent].
  destruct call as [|i|l|r|]; cbn [call_message answer call_reply] in *.
  - apply Forall_inv in Hok. cbn [snd map concat]. rewrite app_nil_r. unfold client_ping. by rewrite client_one_reads.
  - destruct (svc_insert i e) as [e' o]. cbn [fst snd map concat] in *. apply Forall_inv in Hok. rewrite app_nil_r.
    unfold client_insert. rewrite client_one_reads by done. by destruct o as [[]|er|].
  - destruct (svc_batch_insert l e) as [e' o]. cbn [fst snd map concat] in *. apply Forall_inv in Hok. rewrite app_nil_r.
    unfold client_batch_insert, client_insert. rewrite client_one_reads by done. by destruct o as [[]|er|].
  - destruct (svc_range r e) as [bs o]. cbn [fst snd] in *. apply Forall_app in Hok as [Hr Hfin%Forall_inv].
    rewrite client_range_reads; try done; [by destruct o as [[]|er|]| |by destruct o as [[]|er|]; cbn; eauto].
    pose proof (length_answers (map SmRangeRecord (concat bs) ++ [range_reply o])) as Hl. rewrite length_app, length_map in Hl.
    rewrite length_app. cbn [length] in Hl. lia.
  - apply Forall_inv in Hok. cbn [snd map concat] in *. rewrite app_nil_r. unfold client_get_metrics. by rewrite client_one_reads.
Qed.

Lemma client_receive_all_ok calls : forall e sent, all_answerable (map call_message calls) e ->
  client_receive_all calls {| cl_sent := sent; cl_recv := concat (map answer_bytes (answers (map call_message calls) e).2) |} =
    ({| cl_sent := sent; cl_recv := [] |}, Ok (call_replies calls e).2) /\
  (answers (map call_message calls) e).1 = (call_replies calls e).1.
Proof.
  induction calls as [|call calls IH]; intros e sent Hans; [done|]. destruct Hans as [Ha Hans]. cbn [map answers call_replies client_receive_all].
  destruct (client_receive_ok call e sent (concat (map answer_bytes (answers (map call_message calls) (answer (call_message call) e).1).2)) Ha)
    as [Er Ee].
  destruct (IH _ sent Hans) as [Ers Ees]. rewrite Ee in *.
  destruct (answer (call_message call) e) as [e1 l] eqn:Ea. cbn [fst snd] in *. subst e1.
  destruct (call_reply call e) as [e1 r]. cbn [fst snd] in *.
  destruct (answers (map call_message calls) e1) as [e2 k], (call_replies calls e1) as [e3 rs]. cbn [fst snd] in *. split; [|done].
  rewrite map_app, concat_app, st_bind_unfold, Er, st_bind_unfold, Ers. done.
Qed.

(** C23: every call of a client gets its own answer. Let a client make any
    calls whose messages the format can carry, to an engine that answers:
    all requests are sent, the server serves the connection without an
    error, and reading the answers in the order of the calls gives for each
    exactly what the engine answered when it was its turn, nothing else and
    nothing left over; the engine has seen the calls in this order. *)
Theorem session_over_wire (calls : list ClientCall) (m : ServerMetrics) (e : S)
    (Hok : Forall (fun call => client_message_ok (call_message call)) calls)
    (Hans : all_answerable (map call_message calls) e) (Hact : - 2 ^ 62 <= connections_active m <= 2 ^ 62) :
  exists sent c, client_send_all calls {| cl_sent := []; cl_recv := [] |} = ({| cl_sent := sent; cl_recv := [] |}, Ok tt) /\
    accept_conn sent m e = (c, Ok tt) /\
    client_receive_all calls {| cl_sent := sent; cl_recv := cn_out c |} =
      ({| cl_sent := sent; cl_recv := [] |}, Ok (call_replies calls e).2) /\
    cn_engine c = (call_replies calls e).1.
Proof.
  rewrite client_send_all_ok by done. cbn [cl_sent cl_recv app]. eexists _.
  destruct (accept_conn_ok (map call_message calls) m e) as (m' & E & _); [by apply Forall_map|done|done|].
  eexists. split; [done|]. split; [exact E|]. cbn [cn_out cn_engine]. by apply client_receive_all_ok.
Qed.
End session.
