(* ===== verification/CoreWire.v ===== *)
(** * From the client to the disk and back

    The connection handler in front of the backend: an insert that the client
    sees acknowledged is an acknowledged record of the system, and a range
    that the client asks for answers from all of them. *)
From S2P Require Import Prelude Std Metrics Codec CoreProto CoreStorage CoreIter CoreEngine CoreBackend CoreSystem CoreSafety CoreServer.

(** a record on its way to the client: same fields, one byte more *)
Lemma proto_record_ok r p : proto_record_try_from r = Ok p -> blen r < u32_max -> server_message_ok (SmRangeRecord p).
Proof.
  unfold proto_record_try_from, extract_all_fields_owned. destruct (extract_all_fields_ref r) as [[[[[sid ts] seq] k] v]| |] eqn:E; [|done..].
  rewrite ok_bind. destruct (utf8_valid k) eqn:Ek; [|done]. destruct (utf8_valid v) eqn:Ev; [|done]. cbn. intros [= <-] Hlen.
  apply extract_all_sound in E as ((Hs & Ht & Hq & Hk & Hv) & rest & ->). rewrite blen_app, from_raw_parts_len in Hlen by done.
  split; [|by split_and!]. cbn. unfold proto_encode_record, put_str. cbn. unfold in_u32. zlia.
Qed.

Section wire.
Context {H : Type} `{SstCodec, !MinHeap CoreHeapItem H, !MinHeapLaws CoreHeapItem H, !SstCodecLaws}.
Context (rename_ok : bool) (show_error : io_error -> list byte) (json : list byte).

(** the backend as the engine of a connection; [n] bounds the records a
    query goes through *)
Definition wire_service (n : nat) : EngineService Backend := backend_service (Heap := H) rename_ok n show_error json.

(** In every reachable state, a client that sends a valid insert over a
    connection gets it acknowledged, and the backend is then in a reachable
    state in which that record is among the acknowledged ones. *)
Theorem wire_insert (limit : Z) (config : BackendConfig) (s0 s : Sys) (ins : list CoreRecord) (i : Insert) (n : nat) (m : ServerMetrics)
    (Hstart : sys_start limit config = Ok s0) (Hrun : sys_run (H := H) s0 ins s)
    (Hi : client_message_ok (CmInsert i)) (Hroom : has_room 1 (s_backend s))
    (Hact : - 2 ^ 62 <= connections_active m <= 2 ^ 62) :
  let e := b_engine (s_backend s) in
  exists c, accept_conn (H := wire_service n) (request_bytes (CmInsert i)) m (s_backend s) = (c, Ok tt) /\
    client_insert (cn_out c) = ([], Ok CrDone) /\
    sys_run (H := H) s0 (ins ++ [from_raw_parts (ins_source_id i) (ins_ts i) (e_seq_counter e) (ins_key i) (ins_value i)])
      (Build_Sys _ (cn_engine c) (s_jobs s) (s_results s)).
Proof.
  intros e. destruct (sys_run_inv s0 limit config ins s Hstart Hrun) as [Hinv _]. destruct s as [b jobs results]. cbn in *.
  assert (Forall insert_ok (cmds_inserts [CmdInsert i])) as Hok by (apply Forall_singleton, Hi).
  destruct (turn_commands_inv ins b jobs results rename_ok [CmdInsert i] Hinv Hok Hroom) as (b' & Et & _).
  destruct (insert_sys_inv ins b jobs results i Hinv) as (e' & full & Ei & _); [apply Hi|apply Hroom|].
  destruct (accept_conn_ok (H := wire_service n) [CmInsert i] m b) as (m' & E & _).
  - by apply Forall_singleton.
  - split; [|done]. split; cbn; unfold on_engine; rewrite Ei; cbn; [done|]. apply Forall_singleton. by split.
  - done.
  - cbn [map concat] in E. rewrite app_nil_r in E. rewrite E. eexists. split; [reflexivity|].
    assert (answers (H := wire_service n) [CmInsert i] b = (b', [SmInsertOk])) as Ea.
    { cbn [answers answer svc_insert wire_service backend_service]. unfold on_engine. by rewrite Ei, Et. }
    rewrite Ea. cbn [cn_out cn_engine fst snd map concat]. split.
    + by vm_compute.
    + eapply run_step; [exact Hrun|]. exact (step_commands b b' jobs results rename_ok [CmdInsert i] Hok Hroom Et).
Qed.

(** C3: in every reachable state, a client that asks for a range over a
    connection gets, sorted and each once, acknowledged records that match
    and no others; only records already in SSTs with exactly the start
    timestamp may be missing. *)
Theorem wire_query (limit : Z) (config : BackendConfig) (s0 s : Sys) (ins : list CoreRecord) (q : RangeReq) (m : ServerMetrics)
    (Hstart : sys_start limit config = Ok s0) (Hrun : sys_run (H := H) s0 ins s)
    (Hq : client_message_ok (CmRange q)) (Hwin : 0 <= rng_start_ts q <= rng_end_ts q)
    (Hsize : 1 <= range_batch_size (b_config (s_backend s))) (Hsmall : forall r, r ∈ ins -> blen r < u32_max)
    (Hact : - 2 ^ 62 <= connections_active m <= 2 ^ 62) :
  exists n c v out, accept_conn (H := wire_service n) (request_bytes (CmRange q)) m (s_backend s) = (c, Ok tt) /\
    cn_engine c = s_backend s /\
    client_range (S (length (cn_out c))) [] (cn_out c) = ([], Ok (CrRecords v)) /\
    Forall2 (fun r p => proto_record_try_from r = Ok p) out v /\ bset_sorted sort_key out /\
    (forall r, r ∈ out -> r ∈ ins /\ req_match q r = true) /\
    (forall r, r ∈ ins -> req_match q r = true ->
       source_ts r <> (be_bytes 8 (rng_source_id q), be_bytes 8 (rng_start_ts q)) \/ r ∈ in_memory (b_engine (s_backend s)) -> r ∈ out).
Proof.
  destruct (sys_run_inv s0 limit config ins s Hstart Hrun) as [Hinv _].
  assert (range_req_ok q) as Hq' by (destruct Hq as (_ & ? & [_ ?] & ? & ? & _); done).
  destruct (handle_range_inv ins s q Hinv Hq' Hsize Hwin) as (n & batches & out & Eh & _ & Hconv & Hso & Hsub & Hall).
  destruct (range_wire_ok (H := wire_service n) q m (s_backend s)) as (c & Ec & Ee & Ev); [done| |done|].
  { split; [done|]. cbn. rewrite Eh. cbn. apply Forall_app_2; [|apply Forall_singleton; by split].
    apply Forall_fmap, Forall_forall. intros p Hp. destruct (proj1 (list_elem_of_lookup _ _) Hp) as [k Hk].
    destruct (Forall2_lookup_r _ _ _ _ _ Hconv Hk) as (r & Hr & E). eapply proto_record_ok; [exact E|].
    apply Hsmall, Hsub. by eapply list_elem_of_lookup_2. }
  exists n, c, (concat batches), out. split_and!; try done. rewrite Ev. cbn. by rewrite Eh.
Qed.
End wire.
