(* ===== verification/Tracing.v ===== *)
(** * Installing the tracing subscribers: logregatord/src/_tracing.rs

    Which layers [init] installs, and the file of the flame graph. A layer of
    the [tracing] crates is the options it was built with. *)
From S2P Require Import Prelude Std Text Codec CoreStorage CoreFiles CoreRuntime.

Inductive TracingLayer :=
(** what a formatting layer prints, and the level it is filtered by *)
| FmtLayer (file line_number target : bool) (level : LevelFilter)
| FlameLayer (p : path)
| ConsoleLayer.
#[export] Instance level_filter_eq_dec : EqDecision LevelFilter.
Proof. solve_decision. Defined.
#[export] Instance tracing_layer_eq_dec : EqDecision TracingLayer.
Proof. solve_decision. Defined.

(** the file system, and the global subscriber: it can be set once *)
Record TracingWorld := { tw_fs : FileSys; tw_subscriber : option (list TracingLayer) }.
(** [_guard]: whether the handle keeps a writer that has to be flushed *)
Record TracingHandle := { th_guard : bool }.

Definition on_fs {A} (op : st FileSys io_error A) : st TracingWorld io_error A := fun w =>
  let '(fs, o) := op (tw_fs w) in ({| tw_fs := fs; tw_subscriber := tw_subscriber w |}, o).
(** [.init()], which panics when there is a subscriber *)
Definition subscriber_init (layers : list TracingLayer) : st TracingWorld io_error unit := fun w =>
  match tw_subscriber w with
  | Some _ => (w, Panic)
  | None => ({| tw_fs := tw_fs w; tw_subscriber := Some layers |}, Ok tt)
  end.

(** [File::create]: an existing file is truncated *)
Definition file_create (p : path) : st FileSys io_error unit := fun fs =>
  match fs !! p with
  | Some SubDir => (fs, bail)
  | Some (File _) => (<[p := File []]> fs, Ok tt)
  | None => if decide (removelast p = [] \/ fs !! removelast p = Some SubDir) then (<[p := File []]> fs, Ok tt) else (fs, bail)
  end.
(** the parent of a path of one name is the empty path, which is there *)
Definition open_flame_writer (p : path) : st FileSys io_error unit :=
  _ ← (match p with [] => mret tt | _ => create_dir_all (removelast p) end); file_create p.

Definition default_flame_path (ms : Z) : path := [str "prof"; str "tracing"; fmt_uint ms ++ str ".folded"].
Definition tracing_config_default : TracingConfig := {| tc_profile := ProfileNone; tc_flame_output := None; tc_log_level := LevelInfo |}.

(** [init]; [resolve] is where a path of the command line leads, [ms] the
    clock *)
Definition tracing_init (resolve : list byte -> path) (ms : Z) (config : TracingConfig) : st TracingWorld io_error TracingHandle :=
  let path := match tc_flame_output config with Some p => resolve p | None => default_flame_path ms end in
  let level := tc_log_level config in
  match tc_profile config with
  | ProfileNone =>
      _ ← subscriber_init [FmtLayer true true true level];
      mret {| th_guard := false |}
  | ProfileFlame =>
      _ ← on_fs (open_flame_writer path);
      _ ← subscriber_init [FlameLayer path; FmtLayer true true false level];
      mret {| th_guard := true |}
  | ProfileConsole =>
      _ ← subscriber_init [FmtLayer false false true level; ConsoleLayer];
      mret {| th_guard := false |}
  | ProfileBoth =>
      _ ← on_fs (open_flame_writer path);
      _ ← subscriber_init [ConsoleLayer; FlameLayer path; FmtLayer true true false level];
      mret {| th_guard := true |}
  end.

(** ** What is installed *)

Definition has_flame (p : Profile) : bool := match p with ProfileFlame | ProfileBoth => true | _ => false end.
Definition has_console (p : Profile) : bool := match p with ProfileConsole | ProfileBoth => true | _ => false end.
Definition is_flame (l : TracingLayer) : bool := match l with FlameLayer _ => true | _ => false end.
Definition is_console (l : TracingLayer) : bool := match l with ConsoleLayer => true | _ => false end.
Definition fmt_levels (layers : list TracingLayer) : list LevelFilter :=
  omap (fun l => match l with FmtLayer _ _ _ lv => Some lv | _ => None end) layers.

Lemma file_create_there p fs fs' : file_create p fs = (fs', Ok tt) -> fs' !! p = Some (File []).
Proof.
  unfold file_create. destruct (fs !! p) as [[c|]|]; [|done|case_decide; [|done]]; intros [= <-]; apply lookup_insert_eq.
Qed.

Lemma open_flame_there p fs fs' : open_flame_writer p fs = (fs', Ok tt) -> fs' !! p = Some (File []).
Proof.
  unfold open_flame_writer. rewrite st_bind_unfold. destruct (_ fs) as [fs1 [[]| |]]; [|done..]. apply file_create_there.
Qed.

(** When [init] succeeds, the layers are those of the profile, one formatting
    layer at the level asked for, and with a flame graph there is an empty
    file for it and a guard; without one the file system is as it was. A
    second [init] does not return. *)
Lemma tracing_init_ok resolve ms config w w' h :
  tracing_init resolve ms config w = (w', Ok h) ->
  let path := match tc_flame_output config with Some p => resolve p | None => default_flame_path ms end in
  tw_subscriber w = None /\ exists layers, tw_subscriber w' = Some layers /\
    existsb is_flame layers = has_flame (tc_profile config) /\ existsb is_console layers = has_console (tc_profile config) /\
    fmt_levels layers = [tc_log_level config] /\ th_guard h = has_flame (tc_profile config) /\
    (if has_flame (tc_profile config) then tw_fs w' !! path = Some (File []) else tw_fs w' = tw_fs w) /\
    forall config2, (tracing_init resolve ms config2 w').2 <> Ok h.
Proof.
  intros E path.
  assert (forall config2 layers, tw_subscriber w' = Some layers -> (tracing_init resolve ms config2 w').2 <> Ok h) as Hagain.
  { intros c2 layers Hs. unfold tracing_init, subscriber_init, on_fs.
    destruct (tc_profile c2); rewrite st_bind_unfold; rewrite ?Hs; try done.
    all: destruct (open_flame_writer _ (tw_fs w')) as [fs [[]| |]]; [|done..]; by rewrite st_bind_unfold. }
  unfold tracing_init in E. fold path in E. unfold subscriber_init, on_fs in E.
  destruct (tc_profile config) eqn:Ep; rewrite st_bind_unfold in E.
  2, 4: destruct (open_flame_writer path (tw_fs w)) as [fs [[]| |]] eqn:Ef; [|done..]; rewrite st_bind_unfold in E; cbn in E.
  all: destruct (tw_subscriber w) as [?|]; [done|]; injection E as <- <-; split; [done|]; eexists; split; [reflexivity|];
    split_and!; try done; try (by eapply open_flame_there); intros c2; by eapply Hagain.
Qed.

Example tracing_init_demo :
  (tracing_init (fun p => [p]) 1700 (tracing_from_cli ProfileBoth None (str "DEBUG")) {| tw_fs := ∅; tw_subscriber := None |}).1
  = {| tw_fs := <[default_flame_path 1700 := File []]> (<[[str "prof"; str "tracing"] := SubDir]> {[[str "prof"] := SubDir]});
       tw_subscriber := Some [ConsoleLayer; FlameLayer (default_flame_path 1700); FmtLayer true true false LevelDebug] |}.
Proof. vm_compute. reflexivity. Qed.
