(* ===== verification/CoreListen.v ===== *)
(** * Listening and many connections: [Server::new], [Server::run_main_loop],
    [Client::connect]

    server.rs and client.rs around [CoreServer]'s handler of one connection.
    The calls on sockets ([socket2], [tokio]) are inputs: which of them fail.
    Connections run side by side; they share the engine, which takes one
    command at a time, and the metrics. *)
From S2P Require Import Prelude Std Metrics Codec CoreProto CoreStorage CoreServer.

(** ** [Server::new] *)

Inductive IpAddr := IpV4 (a b c d : Z) | IpV6 (a : Z).
Record SocketAddr := { sa_ip : IpAddr; sa_port : Z }.
#[export] Instance ip_addr_eq_dec : EqDecision IpAddr.
Proof. solve_decision. Defined.
#[export] Instance socket_addr_eq_dec : EqDecision SocketAddr.
Proof. solve_decision. Defined.
(** [Server::ADDR] *)
Definition SERVER_ADDR : SocketAddr := {| sa_ip := IpV4 127 0 0 1; sa_port := 4321 |}.

Inductive Domain := DomainV4 | DomainV6.
Definition is_ipv4 (a : SocketAddr) : bool := match sa_ip a with IpV4 _ _ _ _ => true | IpV6 _ => false end.

(** a socket and the calls made on it *)
Record Socket := { so_domain : Domain; so_reuse : bool; so_nonblocking : bool; so_bound : option SocketAddr; so_backlog : option Z }.
Inductive SocketCall := CallSocket | CallReuse | CallNonblocking | CallBind | CallListen | CallFromStd.
#[export] Instance socket_call_eq_dec : EqDecision SocketCall.
Proof. solve_decision. Defined.

Definition socket_call {A} (fails : SocketCall -> bool) (c : SocketCall) (a : A) : outcome io_error A := if fails c then bail else Ok a.

(** the listener is the socket; [fails]: the calls that do *)
Definition server_new (fails : SocketCall -> bool) (addr : option SocketAddr) : outcome io_error Socket :=
  let addr := default SERVER_ADDR addr in
  let domain := if is_ipv4 addr then DomainV4 else DomainV6 in
  socket ← socket_call fails CallSocket (Build_Socket domain false false None None);
  socket ← socket_call fails CallReuse (Build_Socket (so_domain socket) true (so_nonblocking socket) (so_bound socket) (so_backlog socket));
  socket ← socket_call fails CallNonblocking (Build_Socket (so_domain socket) (so_reuse socket) true (so_bound socket) (so_backlog socket));
  socket ← socket_call fails CallBind (Build_Socket (so_domain socket) (so_reuse socket) (so_nonblocking socket) (Some addr) (so_backlog socket));
  socket ← socket_call fails CallListen (Build_Socket (so_domain socket) (so_reuse socket) (so_nonblocking socket) (so_bound socket) (Some 1024));
  socket_call fails CallFromStd socket.

(** [Server::addr] *)
Definition server_addr (s : Socket) : outcome io_error SocketAddr := unwrap (so_bound s).

(** [Client::connect]: [set_nodelay] may fail, which is ignored *)
Definition client_connect {C} (connects : option C) : outcome io_error C := match connects with Some c => Ok c | None => bail end.

Lemma server_new_ok fails addr s : server_new fails addr = Ok s ->
  s = Build_Socket (if is_ipv4 (default SERVER_ADDR addr) then DomainV4 else DomainV6) true true (Some (default SERVER_ADDR addr)) (Some 1024) /\
  (forall c, fails c = false) /\ server_addr s = Ok (default SERVER_ADDR addr).
Proof.
  unfold server_new, socket_call. destruct (fails CallSocket) eqn:E1, (fails CallReuse) eqn:E2, (fails CallNonblocking) eqn:E3,
    (fails CallBind) eqn:E4, (fails CallListen) eqn:E5, (fails CallFromStd) eqn:E6; try done.
  intros [= <-]. split_and!; [done|by intros []|done].
Qed.
(** ** [run_main_loop] *)

Inductive ConnStatus := ConnOpen | ConnClosed | ConnFailed.
(** a connection: what its client sends, the bytes still under way, those
    that have arrived, and those written *)
Record LiveConn := {
  lc_script : list ClientMessage; lc_wire : list byte; lc_in : list byte; lc_out : list byte; lc_status : ConnStatus
}.
Record MainLoop (S : Type) := { ml_accepting : bool; ml_conns : list LiveConn; ml_metrics : ServerMetrics; ml_engine : S }.
Arguments ml_accepting {S} m.
Arguments ml_conns {S} m.
Arguments ml_metrics {S} m.
Arguments ml_engine {S} m.

Section main_loop.
Context {S : Type} `{EngineService S}.

Definition conn_of (c : LiveConn) (rest : list byte) (s : MainLoop S) : Conn S := Build_Conn S rest [] (lc_out c) (ml_metrics s) (ml_engine s).
(** one turn of the handler's loop: [framed.next()] gave [msg] *)
Definition conn_turn (msg : ClientMessage) : st (Conn S) io_error unit :=
  _ ← st_modify (with_metrics (inc_read 1)); handle_msg msg.

Definition set_conn (i : nat) (c : LiveConn) (m : ServerMetrics) (e : S) (s : MainLoop S) : MainLoop S :=
  Build_MainLoop S (ml_accepting s) (<[i := c]> (ml_conns s)) m e.

Inductive loop_step : MainLoop S -> MainLoop S -> Prop :=
(** [accept] returns a connection, whose handler starts *)
| loop_accept s script : ml_accepting s = true -> Forall client_message_ok script ->
    loop_step s (Build_MainLoop S true (ml_conns s ++ [Build_LiveConn script (concat (map request_bytes script)) [] [] ConnOpen])
      (add_active 1 (add_active 1 (inc_accepted (ml_metrics s)))) (ml_engine s))
(** [accept] fails: [run_main_loop] returns, the handlers go on *)
| loop_accept_error s : loop_step s (Build_MainLoop S false (ml_conns s) (ml_metrics s) (ml_engine s))
(** some bytes arrive *)
| loop_arrive s i c k : ml_conns s !! i = Some c -> lc_status c = ConnOpen ->
    loop_step s (set_conn i (Build_LiveConn (lc_script c) (drop k (lc_wire c)) (lc_in c ++ take k (lc_wire c)) (lc_out c) ConnOpen) (ml_metrics s) (ml_engine s) s)
(** a whole message has arrived and is served *)
| loop_serve s i c rest msg c' : ml_conns s !! i = Some c -> lc_status c = ConnOpen ->
    server_codec_decode (lc_in c) = (rest, Ok (Some msg)) -> conn_turn msg (conn_of c rest s) = (c', Ok tt) ->
    loop_step s (set_conn i (Build_LiveConn (lc_script c) (lc_wire c) (cn_in c') (cn_out c') ConnOpen) (cn_metrics c') (cn_engine c') s)
(** the handler fails: at the message, or at bytes that are none *)
| loop_fail_msg s i c rest msg c' o : ml_conns s !! i = Some c -> lc_status c = ConnOpen ->
    server_codec_decode (lc_in c) = (rest, Ok (Some msg)) -> conn_turn msg (conn_of c rest s) = (c', o) -> o <> Ok tt ->
    loop_step s (set_conn i (Build_LiveConn (lc_script c) (lc_wire c) (cn_in c') (cn_out c') ConnFailed) (cn_metrics c') (cn_engine c') s)
| loop_fail_frame s i c rest o : ml_conns s !! i = Some c -> lc_status c = ConnOpen ->
    server_codec_decode (lc_in c) = (rest, o) -> (forall r, o <> Ok r) ->
    loop_step s (set_conn i (Build_LiveConn (lc_script c) (lc_wire c) rest (lc_out c) ConnFailed)
      (match o with Err _ => inc_read 1 (ml_metrics s) | _ => ml_metrics s end) (ml_engine s) s)
(** the client has closed the connection, after its last byte *)
| loop_close s i c : ml_conns s !! i = Some c -> lc_status c = ConnOpen -> lc_wire c = [] -> lc_in c = [] ->
    loop_step s (set_conn i (Build_LiveConn (lc_script c) [] [] (lc_out c) ConnClosed) (add_active (-1) (ml_metrics s)) (ml_engine s) s).

Definition loop_start (m : ServerMetrics) (e : S) : MainLoop S := Build_MainLoop S true [] m e.

(** ** One order for all requests *)

(** a history: which connection's request the engine served *)
Definition served (i : nat) (h : list (nat * ClientMessage)) : list ClientMessage := (List.filter (fun x => bool_decide (x.1 = i)) h).*2.
(** the answers of connection [i] when the history is served one by one *)
Fixpoint answers_to (i : nat) (h : list (nat * ClientMessage)) (e : S) : list ServerMessage :=
  match h with
  | [] => []
  | (j, msg) :: rest => (if bool_decide (j = i) then (answer msg e).2 else []) ++ answers_to i rest (answer msg e).1
  end.

Lemma answers_fst_snoc l m (e : S) : (answers (l ++ [m]) e).1 = (answer m (answers l e).1).1.
Proof.
  revert e. induction l as [|x l IH]; intros e; cbn [app answers].
  - cbn. by destruct (answer m e) as [e1 k].
  - destruct (answer x e) as [e1 k]. specialize (IH e1). destruct (answers (l ++ [m]) e1), (answers l e1). exact IH.
Qed.
Lemma answers_fst_cons m l (e : S) : (answers (m :: l) e).1 = (answers l (answer m e).1).1.
Proof. cbn. destruct (answer m e) as [e1 k]. cbn. by destruct (answers l e1). Qed.
Lemma answers_to_snoc i h j m (e : S) :
  answers_to i (h ++ [(j, m)]) e = answers_to i h e ++ (if bool_decide (j = i) then (answer m (answers h.*2 e).1).2 else []).
Proof.
  revert e. induction h as [|[k x] h IH]; intros e; cbn [app answers_to fmap list_fmap]; [by rewrite app_nil_r|].
  rewrite IH, <- app_assoc. cbn [snd]. by rewrite answers_fst_cons.
Qed.
Lemma served_snoc i h j m : served i (h ++ [(j, m)]) = served i h ++ (if bool_decide (j = i) then [m] else []).
Proof. unfold served. rewrite List.filter_app, fmap_app. cbn. by case_bool_decide. Qed.
Lemma served_fresh i h : Forall (fun x => (x.1 < i)%nat) h -> served i h = [].
Proof. intros Hh. unfold served. induction Hh as [|x h Hx Hh IH]; [done|]. cbn. by rewrite bool_decide_eq_false_2 by lia. Qed.
Lemma answers_to_fresh i h (e : S) : Forall (fun x => (x.1 < i)%nat) h -> answers_to i h e = [].
Proof.
  intros Hh. revert e. induction Hh as [|[j m] h Hx Hh IH]; intros e; [done|]. cbn in *. by rewrite bool_decide_eq_false_2, IH by lia.
Qed.

(** what has arrived of some requests is no message yet, or starts with the
    first *)
Lemma decode_arrived rem buf wire : Forall client_message_ok rem -> buf ++ wire = concat (map request_bytes rem) ->
  server_codec_decode buf = (buf, Ok None) \/
  exists m rem' rest, rem = m :: rem' /\ buf = request_bytes m ++ rest /\ server_codec_decode buf = (rest, Ok (Some m)).
Proof.
  intros Hok Hb. destruct Hok as [|m rem Hm Hok]; cbn [map concat] in Hb; [apply app_eq_nil in Hb as [-> ->]; by left|].
  pose proof Hm as [Hl _]. destruct (client_body_ok m Hm) as (t & body & Eb & Hbody).
  destruct (Nat.lt_ge_cases (length buf) (length (request_bytes m))) as [Hlt|Hge].
  - left. assert (buf = take (length buf) (request_bytes m)) as E.
    { rewrite <- (take_app_length buf wire) at 1. rewrite Hb. by rewrite take_app_le by lia. }
    unfold request_bytes in *. rewrite E. unfold server_codec_decode. by apply take_frame_partial.
  - right. exists m, rem. assert (exists rest, buf = request_bytes m ++ rest) as [rest ->].
    { exists (drop (length (request_bytes m)) buf). assert (take (length (request_bytes m)) buf = request_bytes m) as E.
      { rewrite <- (take_app_le buf wire) by lia. rewrite Hb. by rewrite take_app_length. }
      by rewrite <- E at 1; rewrite take_drop. }
    exists rest. split_and!; try done. unfold server_codec_decode, request_bytes. rewrite Eb in *. by apply take_frame_ok.
Qed.

(** *** Connections and a history

    A history with answers: which connection's request was served, and what
    was written for it. *)

Abbreviation history := (list (nat * ClientMessage * list ServerMessage)).
(** what connection [i] was sent *)
Definition given (i : nat) (h : history) : list ServerMessage := concat (List.filter (fun x => bool_decide (x.1.1 = i)) h).*2.

Lemma given_snoc i h j m l : given i (h ++ [(j, m, l)]) = given i h ++ (if bool_decide (j = i) then l else []).
Proof. unfold given. rewrite List.filter_app, fmap_app, concat_app. cbn. case_bool_decide; cbn; by rewrite ?app_nil_r. Qed.
Lemma given_fresh i h : Forall (fun x => (x.1.1 < i)%nat) h -> given i h = [].
Proof. intros Hh. unfold given. induction Hh as [|x h Hx Hh IH]; [done|]. cbn. by rewrite bool_decide_eq_false_2 by lia. Qed.

Record conn_inv (i : nat) (h : history) (c : LiveConn) : Prop := {
  ci_status : lc_status c <> ConnFailed;
  ci_script : Forall client_message_ok (lc_script c);
  ci_left : exists rem, lc_script c = served i h.*1 ++ rem /\ lc_in c ++ lc_wire c = concat (map request_bytes rem) /\
    (lc_status c = ConnClosed -> rem = []);
  ci_out : lc_out c = concat (map answer_bytes (given i h))
}.
Record conns_inv (h : history) (cs : list LiveConn) : Prop := {
  ch_ids : Forall (fun x => (x.1.1 < length cs)%nat) h;
  ch_conns : forall i c, cs !! i = Some c -> conn_inv i h c
}.
(** the engine answers whatever has arrived *)
Definition all_waiting (Q : ClientMessage -> Prop) (cs : list LiveConn) : Prop :=
  Forall (fun c => forall rest msg, server_codec_decode (lc_in c) = (rest, Ok (Some msg)) -> Q msg) cs.

(** a message that has arrived whole is answered *)
Lemma conn_turn_ok msg c rest s : answerable msg (ml_engine s) ->
  exists c', conn_turn msg (conn_of c rest s) = (c', Ok tt) /\ cn_in c' = rest /\ cn_engine c' = (answer msg (ml_engine s)).1 /\
    cn_out c' = lc_out c ++ concat (map answer_bytes (answer msg (ml_engine s)).2) /\
    frames_read (cn_metrics c') = counter_inc 1 (frames_read (ml_metrics s)).
Proof.
  intros Ha. unfold conn_turn. rewrite st_bind_unfold. cbn [st_modify].
  pose proof (handle_msg_ok msg (with_metrics (inc_read 1) (conn_of c rest s)) eq_refl Ha) as Hh.
  change (cn_engine (with_metrics (inc_read 1) (conn_of c rest s))) with (ml_engine s) in Hh.
  destruct (answer msg (ml_engine s)) as [e' l]. rewrite Hh. eexists. split; [reflexivity|]. split_and!; [done|done|done|]. by destruct msg.
Qed.

Lemma set_conn_inv h i c c' cs : cs !! i = Some c -> Forall (fun x => (x.1.1 < length cs)%nat) h ->
  (forall j d, j <> i -> cs !! j = Some d -> conn_inv j h d) -> conn_inv i h c' -> conns_inv h (<[i := c']> cs).
Proof.
  intros Hc Hids Ho Hi. split; [by rewrite length_insert|]. intros j d. destruct (decide (j = i)) as [->|Hne].
  - rewrite list_lookup_insert_eq by (by eapply lookup_lt_Some). by intros [= <-].
  - rewrite list_lookup_insert_ne by done. by apply Ho.
Qed.

(** what the decoder says of an open connection *)
Lemma conn_decode i h c rest o : conn_inv i h c -> server_codec_decode (lc_in c) = (rest, o) ->
  o = Ok None \/ exists m rem, o = Ok (Some m) /\ client_message_ok m /\ lc_script c = served i h.*1 ++ m :: rem /\
    rest ++ lc_wire c = concat (map request_bytes rem).
Proof.
  intros [Hs Hscr (rem & E1 & E2 & E3) Hout] Hd.
  assert (Forall client_message_ok rem) as Hrem by (rewrite E1 in Hscr; by apply Forall_app in Hscr as [_ ?]).
  destruct (decode_arrived rem (lc_in c) (lc_wire c) Hrem E2) as [E|(m1 & rem' & rest1 & -> & Ein & E)]; rewrite Hd in E; injection E as -> ->; [by left|].
  right. apply Forall_cons in Hrem as [Hm _]. exists m1, rem'. split_and!; try done. cbn [map concat] in E2. rewrite Ein, <- app_assoc in E2.
  by apply app_inv_head in E2.
Qed.

(** the next request of a connection joins the history *)
Lemma conn_inv_other i h j m l c : j <> i -> conn_inv j h c -> conn_inv j (h ++ [(i, m, l)]) c.
Proof.
  intros Hne [A B C D]. split; try done; rewrite ?fmap_app, ?given_snoc; cbn [fmap list_fmap fst];
    rewrite ?served_snoc, bool_decide_eq_false_2 by done; by rewrite app_nil_r.
Qed.
Lemma conn_inv_serve i h m l rem c rest : conn_inv i h c -> lc_script c = served i h.*1 ++ m :: rem ->
  rest ++ lc_wire c = concat (map request_bytes rem) ->
  conn_inv i (h ++ [(i, m, l)]) (Build_LiveConn (lc_script c) (lc_wire c) rest (lc_out c ++ concat (map answer_bytes l)) ConnOpen).
Proof.
  intros [Hs Hscr _ Hout] E1 E2. split; cbn; [done|done| |].
  - exists rem. rewrite fmap_app. cbn. rewrite served_snoc, bool_decide_eq_true_2 by done. split_and!; [by rewrite <- app_assoc|done|done].
  - by rewrite given_snoc, bool_decide_eq_true_2, map_app, concat_app, Hout by done.
Qed.

(** A step either leaves the engine and the history alone, or serves the next
    request of one connection. *)
Lemma loop_step_history h s s' : conns_inv h (ml_conns s) -> all_waiting (fun msg => answerable msg (ml_engine s)) (ml_conns s) -> loop_step s s' ->
  (ml_engine s' = ml_engine s /\ conns_inv h (ml_conns s') /\ frames_read (ml_metrics s') = frames_read (ml_metrics s)) \/
  exists i c rest msg, ml_conns s !! i = Some c /\ server_codec_decode (lc_in c) = (rest, Ok (Some msg)) /\ client_message_ok msg /\
    ml_engine s' = (answer msg (ml_engine s)).1 /\ conns_inv (h ++ [(i, msg, (answer msg (ml_engine s)).2)]) (ml_conns s') /\
    frames_read (ml_metrics s') = counter_inc 1 (frames_read (ml_metrics s)).
Proof.
  intros Hinv Hw Hstep. pose proof Hinv as [Hids Hconns]. unfold all_waiting in Hw. rewrite Forall_lookup in Hw.
  destruct Hstep as [s script Hacc Hok|s|s i c k Hc Ho|s i c rest msg c' Hc Ho Hd Ht|s i c rest msg c' o Hc Ho Hd Ht Hno|s i c rest o Hc Ho Hd Hno|s i c Hc Ho Hwr Hi].
  - left. split_and!; [done| |done]. split.
    + eapply Forall_impl; [exact Hids|]. intros x Hx. cbn in *. rewrite length_app. lia.
    + intros i c [Hc|[Hl Hc]]%lookup_app_Some; [by apply Hconns|]. apply list_lookup_singleton_Some in Hc as [Hz <-].
      assert (i = length (ml_conns s)) as -> by lia. split; cbn; [done|done| |by rewrite given_fresh].
      exists script. rewrite served_fresh; [done|]. by apply Forall_fmap.
  - by left.
  - left. split_and!; [done| |done]. pose proof (Hconns _ _ Hc) as [Hs Hscr (rem & E1 & E2 & E3) Hout].
    eapply set_conn_inv; [exact Hc|done|by intros; apply Hconns|]. split; cbn; try done. exists rem. split_and!; [done| |done]. by rewrite <- app_assoc, take_drop.
  - right. pose proof (Hconns _ _ Hc) as Hci. destruct (conn_decode _ _ _ _ _ Hci Hd) as [|(m1 & rem & [= <-] & Hm & E1 & E2)]; [done|].
    destruct (conn_turn_ok msg c rest s (Hw _ _ Hc _ _ Hd)) as (c1 & E & Hin & Hen & Ho1 & Hfr). rewrite Ht in E. injection E as <-.
    exists i, c, rest, msg. split_and!; try done. eapply set_conn_inv; [exact Hc| | |].
    + apply Forall_app; split; [done|]. apply Forall_singleton. cbn. by eapply lookup_lt_Some.
    + intros j d Hne Hj. apply conn_inv_other; [done|]. by apply Hconns.
    + rewrite Hin, Ho1. by eapply conn_inv_serve.
  - exfalso. destruct (conn_turn_ok msg c rest s (Hw _ _ Hc _ _ Hd)) as (c1 & E & _). rewrite Ht in E. by injection E as _ ->.
  - exfalso. destruct (conn_decode _ _ _ _ _ (Hconns _ _ Hc) Hd) as [->|(m1 & rem & -> & _)]; by eapply Hno.
  - left. split_and!; [done| |done]. pose proof (Hconns _ _ Hc) as [Hs Hscr (rem & E1 & E2 & E3) Hout].
    eapply set_conn_inv; [exact Hc|done|by intros; apply Hconns|]. split; cbn; try done. exists rem. rewrite Hwr, Hi in E2.
    split_and!; [done|by rewrite <- E2|]. intros _. destruct rem as [|m1 rem]; [done|]. cbn in E2. symmetry in E2. by apply app_eq_nil in E2 as [E2 _].
Qed.

(** the bytes of a connection that are under way arrive *)
Definition arrived (i : nat) (c : LiveConn) (s : MainLoop S) : MainLoop S :=
  set_conn i (Build_LiveConn (lc_script c) (drop (length (lc_wire c)) (lc_wire c)) (lc_in c ++ take (length (lc_wire c)) (lc_wire c)) (lc_out c) ConnOpen)
    (ml_metrics s) (ml_engine s) s.

(** the next request of a connection is at most two steps away: its bytes
    arrive, and it is served *)
Lemma next_served h s i c msg rem : conns_inv h (ml_conns s) -> ml_conns s !! i = Some c -> lc_script c = served i h.*1 ++ msg :: rem ->
  answerable msg (ml_engine s) ->
  exists s' c', loop_step s (arrived i c s) /\ loop_step (arrived i c s) s' /\ ml_conns s' !! i = Some c' /\
    lc_out c' = lc_out c ++ concat (map answer_bytes (answer msg (ml_engine s)).2) /\ ml_engine s' = (answer msg (ml_engine s)).1.
Proof.
  intros [_ Hconns] Hc Escr Ha. pose proof (Hconns _ _ Hc) as [Hst Hscr (rem0 & E1 & E2 & E3) Hout].
  rewrite Escr in E1. apply app_inv_head in E1 as <-.
  assert (lc_status c = ConnOpen) as Ho by (destruct (lc_status c) eqn:E; [done|by specialize (E3 eq_refl)|done]).
  assert (client_message_ok msg) as Hm by (rewrite Escr in Hscr; apply Forall_app in Hscr as [_ Hscr]; by apply Forall_cons in Hscr as [? _]).
  set (c1 := Build_LiveConn (lc_script c) (drop (length (lc_wire c)) (lc_wire c)) (lc_in c ++ take (length (lc_wire c)) (lc_wire c)) (lc_out c) ConnOpen).
  assert (ml_conns (arrived i c s) !! i = Some c1) as Hc1.
  { cbn. apply list_lookup_insert_eq. by eapply lookup_lt_Some. }
  destruct (conn_turn_ok msg c1 (concat (map request_bytes rem)) (arrived i c s) Ha) as (c2 & E & Hin & He & Hout2 & _).
  set (c3 := Build_LiveConn (lc_script c1) (lc_wire c1) (cn_in c2) (cn_out c2) ConnOpen).
  exists (set_conn i c3 (cn_metrics c2) (cn_engine c2) (arrived i c s)), c3. split_and!; [by apply loop_arrive| | |exact Hout2|exact He].
  - eapply loop_serve; [exact Hc1|done| |exact E]. cbn [lc_in c1]. rewrite firstn_all, E2. cbn [map concat].
    pose proof Hm as [Hl _]. destruct (client_body_ok msg Hm) as (t & body & Eb & Hbody).
    unfold server_codec_decode, request_bytes at 1. rewrite Eb in *. by apply take_frame_ok.
  - cbn. apply list_lookup_insert_eq. rewrite length_insert. by eapply lookup_lt_Some.
Qed.

Section linearizable.
Context (P : S -> Prop) (HP : forall msg e, P e -> client_message_ok msg -> answerable msg e /\ P (answer msg e).1).

Record loop_inv (m : ServerMetrics) (e : S) (h : history) (s : MainLoop S) : Prop := {
  li_engine : ml_engine s = (answers h.*1.*2 e).1;
  li_P : P (ml_engine s);
  li_conns : conns_inv h (ml_conns s);
  li_given : forall i, given i h = answers_to i h.*1 e;
  li_read : frames_read (ml_metrics s) = wrap64 (frames_read m + blen h)
}.

Lemma loop_inv_answerable m e h s : loop_inv m e h s -> all_waiting (fun msg => answerable msg (ml_engine s)) (ml_conns s).
Proof.
  intros [_ Hp [_ Hconns] _ _]. apply Forall_lookup. intros i c Hc rest msg Hd.
  destruct (conn_decode _ _ _ _ _ (Hconns _ _ Hc) Hd) as [|(m1 & rem & [= <-] & Hm & _)]; [done|]. by apply HP.
Qed.

Lemma loop_step_inv m e h s s' : loop_inv m e h s -> loop_step s s' -> exists h', loop_inv m e h' s'.
Proof.
  intros Hinv Hstep. pose proof Hinv as [He Hp Hc Hg Hr].
  destruct (loop_step_history h s s' Hc (loop_inv_answerable _ _ _ _ Hinv) Hstep)
    as [(E & Hc' & Hf)|(i & c & rest & msg & _ & _ & Hm & E & Hc' & Hf)].
  - exists h. split; try done; congruence.
  - eexists. split; [| |exact Hc'| |].
    + rewrite E, He, !fmap_app. cbn. by rewrite answers_fst_snoc.
    + rewrite E. by apply HP.
    + intros j. rewrite given_snoc, Hg, fmap_app. cbn. by rewrite answers_to_snoc, He.
    + rewrite Hf, Hr. unfold counter_inc. rewrite wrap64_add, blen_app. f_equal. change (blen [?x]) with 1. lia.
Qed.

Lemma loop_inv_reachable m e s : P e -> in_u64 (frames_read m) -> rtc loop_step (loop_start m e) s -> exists h, loop_inv m e h s.
Proof.
  intros Hp Hr Hs. apply (rtc_invariant loop_step (fun s => exists h, loop_inv m e h s) (loop_start m e) s); [|exact Hs|].
  - intros a b Hab [h Hinv]. by eapply loop_step_inv.
  - exists []. split; cbn; try done. by rewrite Z.add_0_r, wrap64_id.
Qed.
End linearizable.

(** C17: one order for all connections. However connections are accepted,
    their bytes arrive and their handlers take turns: there is one sequence of
    requests, in which each connection's requests come in the order it sent
    them, such that the engine is in the state that serving this sequence one
    by one leads to, each connection has been sent exactly the answers its
    requests get there, and the counter of frames counts it. No handler fails;
    and a connection whose requests are not all answered gets its next answer
    within two steps. [P] is an invariant of the engine under which it answers
    every request. *)
Theorem server_linearizable (P : S -> Prop) (m : ServerMetrics) (e : S) (s : MainLoop S)
    (HP : forall msg e, P e -> client_message_ok msg -> answerable msg e /\ P (answer msg e).1)
    (He : P e) (Hm : in_u64 (frames_read m)) (Hs : rtc loop_step (loop_start m e) s) :
  exists h, ml_engine s = (answers h.*2 e).1 /\ frames_read (ml_metrics s) = wrap64 (frames_read m + blen h) /\
    forall i c, ml_conns s !! i = Some c ->
      lc_status c <> ConnFailed /\ lc_out c = concat (map answer_bytes (answers_to i h e)) /\
      (lc_script c = served i h \/
       exists msg rem s' c', lc_script c = served i h ++ msg :: rem /\ rtc loop_step s s' /\ ml_conns s' !! i = Some c' /\
         lc_out c' = lc_out c ++ concat (map answer_bytes (answer msg (ml_engine s)).2)).
Proof.
  destruct (loop_inv_reachable P HP m e s He Hm Hs) as [h Hinv]. pose proof Hinv as [Hen Hp Hc Hg Hr]. exists h.*1.
  split_and!; [done|by rewrite Hr; unfold blen; rewrite length_fmap|].
  intros i c Hi. destruct (ch_conns _ _ Hc i c Hi) as [Hst Hscr (rem & E1 & _) Hout]. split_and!; [done|by rewrite Hout, Hg|].
  destruct rem as [|msg rem]; [left; by rewrite app_nil_r in E1|right].
  assert (client_message_ok msg) as Hmsg by (rewrite E1 in Hscr; apply Forall_app in Hscr as [_ Hscr]; by apply Forall_cons in Hscr as [? _]).
  destruct (next_served h s i c msg rem Hc Hi E1) as (s' & c' & S1 & S2 & Hc' & Ho & _); [by apply HP|].
  exists msg, rem, s', c'. split_and!; try done. by eapply rtc_l, rtc_once.
Qed.
End main_loop.

(** ** Two connections *)

(** an engine that counts inserts and answers every range with as many empty
    batches *)
#[local] Instance count_service : EngineService Z := {|
  svc_insert _ n := (n + 1, Ok tt); svc_batch_insert l n := (n + blen l, Ok tt); svc_range _ _ := ([], Ok tt); svc_metrics _ := Ok []
|}.
Lemma count_answerable msg (e : Z) : answerable msg e.
Proof. destruct msg; (split; [done|]); cbn; apply Forall_singleton; by vm_compute. Qed.

Definition demo_metrics : ServerMetrics := Build_ServerMetrics 0 0 0 0.
(** the first has sent a ping and half of an insert, the second an insert that
    is served first *)
Definition demo_script : list ClientMessage := [CmPing; CmInsert sample_insert].
Definition demo_loop : MainLoop Z :=
  Eval vm_compute in
  Build_MainLoop Z true
    [Build_LiveConn demo_script (drop 10 (concat (map request_bytes demo_script))) (drop 5 (take 10 (concat (map request_bytes demo_script))))
       (answer_bytes SmPong) ConnOpen;
     Build_LiveConn [CmInsert sample_insert] [] [] (answer_bytes SmInsertOk) ConnOpen]
    (Build_ServerMetrics 2 4 2 2) 1.
Lemma demo_script_ok : Forall client_message_ok demo_script.
Proof. repeat constructor; try by vm_compute. all: apply sample_insert_ok. Qed.

Lemma demo_loop_reachable : rtc loop_step (loop_start demo_metrics 0) demo_loop.
Proof.
  eapply rtc_l; [apply (loop_accept _ demo_script); [done|apply demo_script_ok]|].
  eapply rtc_l; [apply (loop_accept _ [CmInsert sample_insert]); [done|exact (Forall_inv_tail demo_script_ok)]|].
  eapply rtc_l; [by eapply (loop_arrive _ 1 _ 100)|].
  eapply rtc_l; [eapply (loop_serve _ 1); [reflexivity|reflexivity|vm_compute; reflexivity|vm_compute; reflexivity]|].
  eapply rtc_l; [by eapply (loop_arrive _ 0 _ 10)|].
  eapply rtc_l; [eapply (loop_serve _ 0); [reflexivity|reflexivity|vm_compute; reflexivity|vm_compute; reflexivity]|].
  match goal with |- rtc _ ?x _ => replace x with demo_loop by (vm_compute; reflexivity) end. apply rtc_refl.
Qed.

Lemma server_linearizable_witness :
  exists h, ml_engine demo_loop = (answers h.*2 0).1 /\ wrap64 (blen h) = 2 /\
    forall c, ml_conns demo_loop !! 1%nat = Some c -> lc_out c = concat (map answer_bytes (answers_to 1 h 0)).
Proof.
  destruct (server_linearizable (fun _ => True) demo_metrics 0 demo_loop) as (h & E & Er & Hc); [|done|by vm_compute|exact demo_loop_reachable|].
  - intros msg e _ _. split; [apply count_answerable|done].
  - exists h. split; [exact E|]. split; [exact (eq_sym Er)|]. intros c H1. by apply (Hc 1%nat c).
Defined.
