(* ===== verification/CoreDaemon.v ===== *)
(** * The whole daemon

    Connections, backend and I/O worker together: the main loop of server.rs
    ([CoreListen]) in front of the backend of [CoreSystem], whose flushes and
    compactions go on between the steps of the loop. The theorem gives all
    clients one order of requests, and every answer in it is the one the
    acknowledged records call for. *)
From S2P Require Import Prelude Std Metrics Codec CoreProto CoreStorage CoreIter CoreEngine CoreBackend CoreSystem CoreSafety CoreServer CoreWire CoreListen.

(** ** What does not change *)

Section config.
Context {H : Type} `{SstCodec, !MinHeap CoreHeapItem H}.

Lemma delete_wals_config fuel b : b_config (delete_wals fuel b) = b_config b.
Proof.
  revert b. induction fuel as [|fuel IH]; intros b; [done|]. cbn. case_match; [|done]. rewrite IH. by destruct (bmap_get _ _).
Qed.
Lemma remove_tables_config ids b : b_config (remove_tables ids b) = b_config b.
Proof. revert b. induction ids as [|id ids IH]; intros b; [done|]. cbn. by rewrite IH. Qed.
Lemma send_compaction_config b : b_config (send_compaction_cmd b) = b_config b.
Proof.
  unfold send_compaction_cmd. destruct (negb _); [done|]. cbv zeta. destruct (_ <? 2); [done|].
  destruct (allocate_sstable_id _) as [e id]. unfold io_send. by destruct (io_alive _).
Qed.
Lemma turn_result_config r b : b_config (turn_result r b) = b_config b.
Proof.
  unfold turn_result, apply_flush_result, apply_compaction_result. destruct r as [m|m ids]; cbv zeta;
    destruct (needs_compaction _); rewrite ?send_compaction_config; cbn [b_config b_with_engine];
    by rewrite ?delete_wals_config, ?remove_tables_config.
Qed.

Lemma on_engine_config {A} (op : st (Engine (list byte)) io_error A) b : b_config (on_engine op b).1 = b_config b.
Proof. unfold on_engine. by destruct (op (b_engine b)). Qed.
Lemma handle_commands_config cmds : forall flag b, b_config (handle_commands cmds flag b).1 = b_config b.
Proof.
  induction cmds as [|c cmds IH]; intros flag b; [done|]. destruct c as [i|l|q|]; cbn [handle_commands]; [| |apply IH..].
  - rewrite st_bind_unfold. unfold handle_insert. pose proof (on_engine_config (insert_record (ins_source_id i) (ins_ts i) (ins_key i) (ins_value i)) b) as E.
    destruct (on_engine _ b) as [b1 [f| |]]; cbn in *; [by rewrite IH|by rewrite IH|done].
  - rewrite st_bind_unfold. unfold handle_batch_insert. pose proof (on_engine_config (batch_insert_records l) b) as E.
    destruct (on_engine _ b) as [b1 [f| |]]; cbn in *; [by rewrite IH|by rewrite IH|done].
Qed.
Lemma send_flush_config rn b : b_config (send_flush_cmd rn b).1 = b_config b.
Proof.
  unfold send_flush_cmd. destruct (is_memtable_empty _); [done|]. destruct (prepare_flush (b_engine b)) as [e [fm id]]. unfold rotate_wal.
  pose proof (on_engine_config flush_wal_buffer (b_with_engine b e)) as E. destruct (on_engine _ _) as [b1 [[]| |]]; cbn in E; [|done..].
  destruct rn; cbn; [|done]. unfold io_send. cbn. by destruct (io_alive b1) eqn:E2; cbn; rewrite ?E2.
Qed.
Lemma ignore_err_config {A} (op : st Backend io_error A) b : b_config (op b).1 = b_config b -> b_config (ignore_err op b).1 = b_config b.
Proof. unfold ignore_err. by destruct (op b) as [b1 []]. Qed.
Lemma turn_commands_config rn cmds b : b_config (turn_commands rn cmds b).1 = b_config b.
Proof.
  unfold turn_commands. rewrite st_bind_unfold. pose proof (handle_commands_config cmds false b) as E.
  destruct (handle_commands cmds false b) as [b1 [flag| |]]; cbn in E; [|done..]. rewrite st_bind_unfold.
  pose proof (ignore_err_config send_wal_sync_cmd b1 (on_engine_config _ _)) as E1.
  destruct (ignore_err send_wal_sync_cmd b1) as [b2 [[]| |]]; cbn in E1; [|cbn; congruence..].
  destruct flag; [|cbn; congruence]. rewrite (ignore_err_config _ b2 (send_flush_config _ _)). congruence.
Qed.

Lemma sys_step_config s recs s' : sys_step (H := H) s recs s' -> b_config (s_backend s') = b_config (s_backend s).
Proof.
  destruct 1 as [b b' jobs results rn cmds _ _ E| | | | |]; try done; cbn.
  - pose proof (turn_commands_config rn cmds b) as Hc. by rewrite E in Hc.
  - apply turn_result_config.
Qed.
Lemma sys_run_config limit config s0 ins s :
  sys_start limit config = Ok s0 -> sys_run (H := H) s0 ins s -> b_config (s_backend s) = config.
Proof.
  intros Hs. induction 1 as [|ins s recs s' _ IH Hstep]; [by destruct (sys_start_inv limit config s0 Hs) as (_ & _ & ?)|].
  by rewrite (sys_step_config _ _ _ Hstep).
Qed.
End config.

(** ** More fuel changes no query *)

Section fuel.
Context {H : Type} `{SstCodec, !MinHeap CoreHeapItem H}.

Lemma merge_next_more n n' (m : CoreMergeIter H) :
  (n <= n')%nat -> (core_merge_next n m).2 <> Panic -> core_merge_next n' m = core_merge_next n m.
Proof.
  revert n' m. induction n as [|n IH]; intros n' m Hle; [done|]. destruct n' as [|n']; [lia|]. cbn [core_merge_next].
  destruct (heap_pop (cm_heap m)) as [[x h]|]; [|done]. cbv zeta. destruct (refil _ _) as [m1 [[]| |]]; [|done..].
  destruct (cm_last_item m1) as [prev|]; [|done]. destruct (core_record_cmp prev _) as [[]| |]; try done. apply IH. lia.
Qed.
Lemma merge_collect_more k n k' n' (m : CoreMergeIter H) :
  (k <= k')%nat -> (n <= n')%nat -> core_merge_collect k n m <> Panic -> core_merge_collect k' n' m = core_merge_collect k n m.
Proof.
  revert k' m. induction k as [|k IH]; intros k' m Hk Hn; [done|]. destruct k' as [|k']; [lia|]. cbn [core_merge_collect]. intros Hp.
  assert ((core_merge_next n m).2 <> Panic) as Hm by (intros E; apply Hp; destruct (core_merge_next n m) as [m1 o]; cbn in E; by subst o).
  rewrite (merge_next_more n n') by done. destruct (core_merge_next n m) as [m1 [[r|]| |]]; try done.
  rewrite IH; [done|lia|done|]. by intros E; rewrite E in Hp.
Qed.
(** a query that has ended with some fuel has the same answer with more *)
Lemma handle_range_more n n' q b :
  (n <= n')%nat -> (handle_range (Heap := H) n None q b).2 <> Panic -> handle_range (Heap := H) n' None q b = handle_range (Heap := H) n None q b.
Proof.
  unfold handle_range. intros Hn Hp. destruct (engine_range _ _ _ _ _ _ _) as [it| |]; [|done..].
  rewrite (merge_collect_more n n n' n'); [done|done..|]. intros E. by rewrite E in Hp.
Qed.
End fuel.

(** ** Sizes *)

(** a record that fits in an answer *)
Definition small_record (r : CoreRecord) : Prop := blen r < u32_max.

Lemma insert_small i seq :
  blen (insert_body i) <= 2 ^ 31 -> small_record (from_raw_parts (ins_source_id i) (ins_ts i) seq (ins_key i) (ins_value i)).
Proof. unfold small_record, from_raw_parts, insert_body, put_str, u32_max. zlia. Qed.
Lemma batch_small l : forall seq, blen (concat (map insert_body l)) <= 2 ^ 31 -> Forall small_record (batch_records l seq).1.
Proof.
  induction l as [|i l IH]; intros seq; cbn [map concat batch_records]; [constructor|]. rewrite blen_app.
  pose proof (blen_nonneg (insert_body i)). pose proof (blen_nonneg (concat (map insert_body l))). intros Hl.
  specialize (IH (wrap64 (seq + 1))). destruct (batch_records l _) as [recs seq']. cbn [fst] in *.
  constructor; [apply insert_small; lia|apply IH; lia].
Qed.

(** ** The daemon *)

(** the commands a message becomes *)
Definition msg_cmds (msg : ClientMessage) : list BackendCommand :=
  match msg with CmInsert i => [CmdInsert i] | CmBatchInsert l => [CmdBatchInsert l] | _ => [] end.

(** An answer that the acknowledged records [ins] call for, and the records
    [recs] that the message adds to them. A range answers with the matching
    records, sorted and each once; only one with exactly the start timestamp
    may be missing. *)
Definition answered (ins : list CoreRecord) (msg : ClientMessage) (ans : list ServerMessage) (recs : list CoreRecord) : Prop :=
  match msg with
  | CmInsert _ | CmBatchInsert _ => ans = [SmInsertOk] /\ exists seq, recs = (batch_records (cmds_inserts (msg_cmds msg)) seq).1
  | CmRange q =>
      recs = [] /\
      (~ 0 <= rng_start_ts q <= rng_end_ts q -> exists e, ans = [SmError e]) /\
      (0 <= rng_start_ts q <= rng_end_ts q -> exists v out, ans = map SmRangeRecord v ++ [SmRangeEnd] /\
         Forall2 (fun r p => proto_record_try_from r = Ok p) out v /\ bset_sorted sort_key out /\
         (forall r, r ∈ out -> r ∈ ins /\ req_match q r = true) /\
         (forall r, r ∈ ins -> req_match q r = true ->
            source_ts r <> (be_bytes 8 (rng_source_id q), be_bytes 8 (rng_start_ts q)) -> r ∈ out))
  | CmPing => recs = [] /\ ans = [SmPong]
  | CmMetrics => recs = [] /\ exists j, ans = [SmMetrics j]
  end.

(** a history in which every answer is the one that the records acknowledged
    before it call for, and those records *)
Inductive trace : list (nat * ClientMessage * list ServerMessage) -> list CoreRecord -> Prop :=
| trace_nil : trace [] []
| trace_snoc h ins i msg ans recs : trace h ins -> answered ins msg ans recs -> trace (h ++ [(i, msg, ans)]) (ins ++ recs).

Section daemon.
Context {H : Type} `{SstCodec, !MinHeap CoreHeapItem H, !MinHeapLaws CoreHeapItem H, !SstCodecLaws}.
Context (show_error : io_error -> list byte) (json : list byte).

Record Daemon := { dm_accepting : bool; dm_conns : list LiveConn; dm_metrics : ServerMetrics; dm_sys : Sys }.
(** the main loop's part, and putting it back *)
Definition dm_loop (d : Daemon) : MainLoop Backend := Build_MainLoop Backend (dm_accepting d) (dm_conns d) (dm_metrics d) (s_backend (dm_sys d)).
Definition dm_put (l : MainLoop Backend) (s : Sys) : Daemon :=
  Build_Daemon (ml_accepting l) (ml_conns l) (ml_metrics l) (Build_Sys _ (ml_engine l) (s_jobs s) (s_results s)).
Definition daemon_start (m : ServerMetrics) (s : Sys) : Daemon := dm_put (loop_start m (s_backend s)) s.

(** a query has ended with [n] *)
Definition query_ended (n : nat) (b : Backend) (msg : ClientMessage) : Prop :=
  match msg with CmRange q => (handle_range (Heap := H) n None q b).2 <> Panic | _ => True end.
(** the counters are far from 2^64, the message below 2 GiB, and [n] enough *)
Definition can_serve (n : nat) (b : Backend) (msg : ClientMessage) : Prop :=
  has_room (blen (cmds_inserts (msg_cmds msg))) b /\ blen (client_message_bytes msg) <= 2 ^ 31 /\ query_ended n b msg.

(** a step of the server's tasks, or of the worker and its results *)
Inductive daemon_step : Daemon -> Daemon -> Prop :=
| daemon_serve d n rename_ok l : all_waiting (can_serve n (s_backend (dm_sys d))) (dm_conns d) ->
    loop_step (H := wire_service (H := H) rename_ok show_error json n) (dm_loop d) l -> daemon_step d (dm_put l (dm_sys d))
| daemon_work d s : sys_step (H := H) (dm_sys d) [] s -> daemon_step d (Build_Daemon (dm_accepting d) (dm_conns d) (dm_metrics d) s).

Context (Hjson : server_message_ok (SmMetrics json)) (Herr : forall e, server_message_ok (SmError (show_error e))).

(** what serving a message does *)
Definition serves (ins : list CoreRecord) (s : Sys) (msg : ClientMessage) (r : Backend * list ServerMessage) : Prop :=
  Forall server_message_ok r.2 /\ exists recs, answered ins msg r.2 recs /\ Forall small_record recs /\
    forall s0, sys_run (H := H) s0 ins s -> sys_run (H := H) s0 (ins ++ recs) (Build_Sys _ r.1 (s_jobs s) (s_results s)).

Lemma serves_stay ins s msg ans : Forall server_message_ok ans -> answered ins msg ans [] -> serves ins s msg (s_backend s, ans).
Proof. intros Ho Ha. split; [done|]. exists []. split_and!; [done|done|]. intros s0. rewrite app_nil_r. by destruct s. Qed.

Lemma serve_cmds ins s rn msg b' :
  sys_inv ins s -> client_message_ok msg -> has_room (blen (cmds_inserts (msg_cmds msg))) (s_backend s) ->
  blen (client_message_bytes msg) <= 2 ^ 31 -> match msg with CmInsert _ | CmBatchInsert _ => True | _ => False end ->
  (turn_commands rn (msg_cmds msg) (s_backend s)).1 = b' -> serves ins s msg (b', [SmInsertOk]).
Proof.
  intros Hinv Hm Hroom Hsize Hmsg E. destruct s as [b jobs results]. cbn [s_backend] in *.
  assert (Forall insert_ok (cmds_inserts (msg_cmds msg))) as Hok.
  { destruct Hm as [_ Hm], msg; cbn in *; try done; [by apply Forall_singleton|rewrite app_nil_r; apply Hm]. }
  destruct (turn_commands_inv ins b jobs results rn (msg_cmds msg) Hinv Hok Hroom) as (b1 & Et & _). rewrite Et in E. cbn in E. subst b1.
  split; [apply Forall_singleton; by split|]. exists (turn_records (msg_cmds msg) b). split_and!.
  - destruct msg; try done; (split; [done|]); by exists (e_seq_counter (b_engine b)).
  - unfold turn_records. apply batch_small. destruct msg; cbn in *; try done; rewrite ?app_nil_r; revert Hsize; zlia.
  - intros s0 Hrun. eapply run_step; [exact Hrun|]. by eapply step_commands.
Qed.

Lemma serve_range ins s n q :
  sys_inv ins s -> Forall small_record ins -> 1 <= range_batch_size (b_config (s_backend s)) -> client_message_ok (CmRange q) ->
  query_ended n (s_backend s) (CmRange q) ->
  serves ins s (CmRange q) (answer (H := wire_service (H := H) true show_error json n) (CmRange q) (s_backend s)).
Proof.
  intros Hinv Hsmall Hb Hq Hend. assert (range_req_ok q) as Hq' by (destruct Hq as (_ & ? & [_ ?] & ? & ? & _); done).
  cbn [answer svc_range wire_service backend_service]. cbn in Hend.
  destruct (decide (0 <= rng_start_ts q <= rng_end_ts q)) as [Hw|Hw].
  - destruct (handle_range_inv ins s q Hinv Hq' Hb Hw) as (n0 & batches & out & Eh & _ & Hconv & Hso & Hsub & Hall).
    assert (handle_range (Heap := H) n None q (s_backend s) = (batches, Ok tt)) as ->.
    { rewrite <- Eh. destruct (Nat.le_ge_cases n n0) as [Hl|Hl]; [symmetry|]; apply handle_range_more; try done. by rewrite Eh. }
    cbn [shown range_reply]. apply serves_stay.
    + apply Forall_app_2; [|apply Forall_singleton; by split]. apply Forall_fmap, Forall_forall. intros p Hp.
      destruct (proj1 (list_elem_of_lookup _ _) Hp) as [k Hk]. destruct (Forall2_lookup_r _ _ _ _ _ Hconv Hk) as (r & Hr & E).
      eapply proto_record_ok; [exact E|]. rewrite Forall_forall in Hsmall. apply Hsmall, Hsub. by eapply list_elem_of_lookup_2.
    + split_and!; [done|done|]. intros _. exists (concat batches), out. split_and!; try done. intros r Hr Hm Hne. apply Hall; [done|done|by left].
  - assert (handle_range (Heap := H) n None q (s_backend s) = ([], bail)) as ->.
    { unfold handle_range, engine_range, engine_memtable_iter. case_if; [done|]. by if_true. }
    cbn. apply serves_stay; [apply Forall_singleton, Herr|]. split_and!; [done| |done]. intros _. by eexists.
Qed.

(** Whatever has arrived and can be served is answered as the acknowledged
    records call for. *)
Lemma serve_any ins s n rn msg :
  sys_inv ins s -> Forall small_record ins -> 1 <= range_batch_size (b_config (s_backend s)) -> client_message_ok msg ->
  can_serve n (s_backend s) msg -> let I := wire_service (H := H) rn show_error json n in
  answerable (H := I) msg (s_backend s) /\ serves ins s msg (answer (H := I) msg (s_backend s)).
Proof.
  intros Hinv Hsmall Hb Hm (Hroom & Hsize & Hend) I.
  assert (match msg with CmInsert i => (svc_insert (EngineService := I) i (s_backend s)).2 = Ok tt
                       | CmBatchInsert l => (svc_batch_insert (EngineService := I) l (s_backend s)).2 = Ok tt | _ => True end) as Hok.
  { destruct s as [b jobs results]. destruct msg as [i|q|l| |]; try done; cbn in *; unfold on_engine.
    - destruct (insert_sys_inv ins b jobs results i Hinv) as (e' & full & -> & _); [apply Hm|apply Hroom|done].
    - destruct Hm as (_ & Hl & _). rewrite app_nil_r in Hroom.
      destruct (insert_each_inv l ins b jobs results Hinv Hl) as (e' & flags & E & _); [apply Hroom|].
      by rewrite (proj2 (batch_insert_each l (b_engine b) e' (existsb id flags))) by eauto. }
  assert (serves ins s msg (answer (H := I) msg (s_backend s))) as Hs.
  { destruct msg as [i|q|l| |]; cbn [answer].
    - destruct (svc_insert i (s_backend s)) as [b' res] eqn:E. cbn in Hok. subst res.
      eapply (serve_cmds ins s rn (CmInsert i)); try done. by injection E.
    - by apply serve_range.
    - destruct (svc_batch_insert l (s_backend s)) as [b' res] eqn:E. cbn in Hok. subst res.
      eapply (serve_cmds ins s rn (CmBatchInsert l)); try done. by injection E.
    - cbn. apply serves_stay; [by apply Forall_singleton|]. by split_and!; [|eexists].
    - cbn. apply serves_stay; [apply Forall_singleton; by split|done]. }
  split; [|done]. split; [|apply Hs]. destruct msg; try done; by rewrite Hok.
Qed.

Record daemon_inv (s0 : Sys) (h : list (nat * ClientMessage * list ServerMessage)) (ins : list CoreRecord) (d : Daemon) : Prop := {
  di_trace : trace h ins;
  di_run : sys_run (H := H) s0 ins (dm_sys d);
  di_small : Forall small_record ins;
  di_conns : conns_inv h (dm_conns d)
}.

Section reachable.
Context (limit : Z) (config : BackendConfig) (s0 : Sys).
Context (Hstart : sys_start limit config = Ok s0) (Hbatch : 1 <= range_batch_size config).

Lemma daemon_batch h ins d : daemon_inv s0 h ins d -> 1 <= range_batch_size (b_config (s_backend (dm_sys d))).
Proof. intros Hinv. by rewrite (sys_run_config limit config s0 ins _ Hstart (di_run _ _ _ _ Hinv)). Qed.

Lemma daemon_waiting h ins d msg i c rest : daemon_inv s0 h ins d -> dm_conns d !! i = Some c ->
  server_codec_decode (lc_in c) = (rest, Ok (Some msg)) -> client_message_ok msg.
Proof.
  intros [_ _ _ [_ Hconns]] Hc Hd. by destruct (conn_decode _ _ _ _ _ (Hconns _ _ Hc) Hd) as [|(m1 & rem & [= <-] & Hm & _)].
Qed.

Lemma daemon_step_inv h ins d d' : daemon_inv s0 h ins d -> daemon_step d d' -> exists h' ins', daemon_inv s0 h' ins' d'.
Proof.
  intros Hinv Hstep. pose proof Hinv as [Ht Hrun Hsmall Hconns].
  destruct (sys_run_inv s0 limit config ins _ Hstart Hrun) as [Hsys _]. pose proof (daemon_batch _ _ _ Hinv) as Hb.
  destruct Hstep as [d n rn l Hw Hl|d s Hs].
  - assert (forall i c rest msg, dm_conns d !! i = Some c -> server_codec_decode (lc_in c) = (rest, Ok (Some msg)) ->
      let I := wire_service (H := H) rn show_error json n in
      answerable (H := I) msg (s_backend (dm_sys d)) /\ serves ins (dm_sys d) msg (answer (H := I) msg (s_backend (dm_sys d)))) as Hserve.
    { intros i c rest msg Hc Hd. apply serve_any; [done|done|done|by eapply daemon_waiting|]. unfold all_waiting in Hw. rewrite Forall_lookup in Hw. by eapply Hw. }
    destruct (loop_step_history (H := wire_service (H := H) rn show_error json n) h (dm_loop d) l Hconns) as [(E & Hc & _)|(i & c & rest & msg & Hc & Hd & Hm & E & Hc' & _)]; [|done| |].
    + apply Forall_lookup. intros i c Hc rest msg Hd. by eapply Hserve.
    + exists h, ins. split; cbn; try done. rewrite E. cbn. by destruct (dm_sys d).
    + destruct (Hserve i c rest msg Hc Hd) as [_ [_ (recs & Ha & Hrs & Hr)]]. eexists _, (ins ++ recs). split; [|..|exact Hc'].
      * by apply trace_snoc.
      * cbn. rewrite E. by apply Hr.
      * by apply Forall_app.
  - exists h, ins. split; cbn; try done. rewrite <- (app_nil_r ins). by eapply run_step.
Qed.

Lemma daemon_reach_inv m d : rtc daemon_step (daemon_start m s0) d -> exists h ins, daemon_inv s0 h ins d.
Proof.
  intros Hd. apply (rtc_invariant daemon_step (fun d => exists h ins, daemon_inv s0 h ins d) (daemon_start m s0) d); [|exact Hd|].
  - intros a b Hab (h & ins & Hinv). by eapply daemon_step_inv.
  - exists [], []. split; cbn; [constructor| |constructor|by split]. destruct s0. constructor.
Qed.

(** the queries that have arrived all end *)
Lemma queries_end h ins d : daemon_inv s0 h ins d ->
  exists n0, forall n, (n0 <= n)%nat -> all_waiting (query_ended n (s_backend (dm_sys d))) (dm_conns d).
Proof.
  intros Hinv. pose proof Hinv as [_ Hrun _ _]. destruct (sys_run_inv s0 limit config ins _ Hstart Hrun) as [Hsys _].
  pose proof (daemon_batch _ _ _ Hinv) as Hb. unfold all_waiting.
  assert (Forall (fun c => forall rest msg, server_codec_decode (lc_in c) = (rest, Ok (Some msg)) -> client_message_ok msg) (dm_conns d)) as Hok.
  { apply Forall_lookup. intros i c Hc rest msg. by eapply daemon_waiting. }
  induction Hok as [|c cs Hc _ (n0 & IH)]; [by exists O|].
  assert (exists n1, forall n rest msg, (n1 <= n)%nat -> server_codec_decode (lc_in c) = (rest, Ok (Some msg)) ->
    query_ended n (s_backend (dm_sys d)) msg) as [n1 Hn1].
  { destruct (server_codec_decode (lc_in c)) as [rest0 [[msg0|]| |]] eqn:E; try (exists O; intros; congruence).
    destruct msg0 as [|q| | |]; try (exists O; by intros n rest msg _ [= _ <-]).
    destruct (Hc rest0 (CmRange q) eq_refl) as (_ & Hq). assert (range_req_ok q) as Hq' by (destruct Hq as (? & [_ ?] & ? & ? & _); done).
    destruct (decide (0 <= rng_start_ts q <= rng_end_ts q)) as [Hw|Hw].
    - destruct (handle_range_inv ins _ q Hsys Hq' Hb Hw) as (n1 & batches & out & Eh & _). exists n1. intros n rest msg Hn [= _ <-]. cbn.
      rewrite (handle_range_more n1 n); [by rewrite Eh|done|by rewrite Eh].
    - exists O. intros n rest msg _ [= _ <-]. cbn. unfold handle_range, engine_range, engine_memtable_iter. case_if; [done|]. by if_true. }
  exists (Nat.max n0 n1). intros n Hn. constructor; [|apply IH; lia]. intros rest msg. apply Hn1. lia.
Qed.
End reachable.

(** C1: the whole daemon answers every client from the records all clients
    have inserted. Start from an empty directory, let connections come and go,
    their bytes arrive in any pieces, their requests be served in any order,
    and memtables be flushed, tables compacted and background tasks fail in
    between. There is one history of served requests such that every
    connection's requests are in it in the order they were sent and it has
    been written exactly their answers; an insert in it was acknowledged and
    its record, with a number of its own, is one of the system's; and every range in it was answered with
    the matching records inserted before it, by whichever connection, sorted
    and each once, in memory or on disk (one with exactly the start timestamp
    may be missing once it is on disk). No handler fails, and every query
    that has arrived ends. *)
Theorem daemon_answers (limit : Z) (config : BackendConfig) (s0 : Sys) (m : ServerMetrics) (d : Daemon)
    (Hstart : sys_start limit config = Ok s0) (Hbatch : 1 <= range_batch_size config) (Hd : rtc daemon_step (daemon_start m s0) d) :
  exists h ins, trace h ins /\ sys_run (H := H) s0 ins (dm_sys d) /\ NoDup (rec_seq <$> ins) /\
    (forall i c, dm_conns d !! i = Some c ->
       lc_status c <> ConnFailed /\ served i h.*1 `prefix_of` lc_script c /\ lc_out c = concat (map answer_bytes (given i h))) /\
    exists n0, forall n, (n0 <= n)%nat -> all_waiting (query_ended n (s_backend (dm_sys d))) (dm_conns d).
Proof.
  destruct (daemon_reach_inv limit config s0 Hstart Hbatch m d Hd) as (h & ins & Hinv). exists h, ins. pose proof Hinv as [Ht Hrun _ [_ Hconns]].
  split_and!; [done|done| | |by eapply queries_end].
  { destruct (sys_run_inv s0 limit config ins _ Hstart Hrun) as [Hsys _]. apply (inv_mem _ _ Hsys). }
  intros i c Hc. destruct (Hconns i c Hc) as [Hst _ (rem & E & _) Hout]. split_and!; [done|by exists rem|done].
Qed.
End daemon.
