(* ===== verification/CoreExamples.v ===== *)
(** * The backend on concrete inputs

    A simple SST format that satisfies what the backend relies on (no bloom
    filter, no index, sixteen zero bytes after the records), a run of the
    system with a flush, and the theorems about the backend at these. *)
From S2P Require Import Prelude Std Text Float Metrics Codec CoreProto CoreStorage CoreIter CoreEngine CoreBackend CoreSystem CoreTurns CoreGc CoreSafety CoreRecover CoreFiles CoreSync CoreMetered CoreServer CoreSession CoreWire CoreListen CoreDaemon.

(** ** A plain SST format *)

#[local] Instance plain_sst : SstModule :=
  {| BloomFilter := unit; IndexBlock := unit; bloom_contains _ _ _ := true; binary_seek _ _ := 0 |}.

(** two empty records stand in for the footer *)
Definition plain_file (rs : list CoreRecord) : list byte := wal_wires (rs ++ [[]; []]).
Definition plain_meta (id : Z) (rs : list CoreRecord) : SSTableMeta :=
  Build_SSTableMeta _ id tt (blen (wal_wires rs)) tt (blen (wal_wires rs)) (blen rs) (blen (plain_file rs)).

#[local] Instance plain_codec : SstCodec :=
  {| read_footer f := Ok (tt, blen f - 16, tt, blen f - 16); write_to_file id rs _ := (plain_meta id rs, plain_file rs) |}.

Lemma plain_file_app rs : plain_file rs = wal_wires rs ++ replicate 16 Byte.x00.
Proof. unfold plain_file, wal_wires. by rewrite map_app, concat_app. Qed.

#[local] Instance plain_laws : SstCodecLaws.
Proof.
  split.
  - done.
  - intros id rs hint (Hsz & Hs & Hx). split_and!; try done. cbn. rewrite plain_file_app. by eexists.
  - done.
  - intros id rs hint target _ _. exists [], rs. split; [done|]. split; [done|]. by left.
Qed.

#[local] Instance plain_reopen : SstReopenLaws.
Proof.
  split.
  - intros id rs hint _. cbn. rewrite plain_file_app. do 2 f_equal; [do 2 f_equal|]; zlia.
  - intros id rs hint _. cbn [write_to_file plain_codec snd]. rewrite plain_file_app. zlia.
Qed.

(** ** A run: an insert that fills the memtable, its flush, and a second insert *)

Definition demo_insert (ts : Z) : Insert :=
  {| ins_source_id := 1; ins_ts := ts; ins_key := [Byte.x6b]; ins_value := [Byte.x76; Byte.x77] |}.
Definition demo_start : Sys :=
  Build_Sys _ (backend_new (Build_Engine (list byte) _ (bufwriter_new []) (core_memtable_new 30) [] [] ∅ 1 1 30) ∅ ∅
    backend_config_default) [] [].

(** after the first turn: the memtable is frozen, its log rotated *)
Definition demo_frozen : Sys := Eval vm_compute in
  Build_Sys _ (turn_commands true [CmdInsert (demo_insert 5)] (s_backend demo_start)).1 [] [].
Definition demo_mt : MemTable := {| cmt_sz := 35; cmt_limit := 30; cmt_bset := [sample_core 5 1] |}.
Definition demo_spawned : Sys :=
  Build_Sys _ (b_with_cmds (s_backend demo_frozen) []) [FlushMemtable demo_mt 1] [].
Definition demo_written : Sys :=
  Build_Sys _ (b_with_ssts (s_backend demo_spawned) {[1 := plain_file [sample_core 5 1]]}) []
    [FlushResult (plain_meta 1 [sample_core 5 1])].
Definition demo_flushed : Sys := Eval vm_compute in
  Build_Sys _ (turn_result (FlushResult (plain_meta 1 [sample_core 5 1])) (s_backend demo_written)) [] [].

(** steps that acknowledge nothing *)
Lemma run_quiet (s0 s s' : Sys) ins :
  sys_run (H := list_heap CoreHeapItem) s0 ins s -> sys_step (H := list_heap CoreHeapItem) s [] s' ->
  sys_run (H := list_heap CoreHeapItem) s0 ins s'.
Proof. intros Hr Hs. rewrite <- (app_nil_r ins). by eapply run_step. Qed.

Lemma demo_start_ok : sys_start 30 backend_config_default = Ok demo_start.
Proof. reflexivity. Qed.

Lemma demo_insert_ok ts : in_i64 ts -> insert_ok (demo_insert ts).
Proof. intros Hts. split; [by unfold in_i64|done|by split|by split]. Qed.

Lemma demo_run_frozen : sys_run (H := list_heap CoreHeapItem) demo_start [sample_core 5 1] demo_frozen.
Proof.
  change [sample_core 5 1] with ([] ++ turn_records [CmdInsert (demo_insert 5)] (s_backend demo_start)).
  eapply run_step; [apply run_start|]. apply (step_commands _ _ [] [] true [CmdInsert (demo_insert 5)]).
  - cbn. apply Forall_singleton, demo_insert_ok. unfold in_i64. lia.
  - by vm_compute.
  - vm_compute. reflexivity.
Qed.

Lemma demo_run_spawned : sys_run (H := list_heap CoreHeapItem) demo_start [sample_core 5 1] demo_spawned.
Proof.
  eapply run_quiet; [eapply run_quiet; [exact demo_run_frozen|]|].
  - apply (step_take _ ResyncWal [FlushMemtable demo_mt 1]). vm_compute. reflexivity.
  - exact (step_take (b_with_cmds (s_backend demo_frozen) [FlushMemtable demo_mt 1]) (FlushMemtable demo_mt 1) [] [] [] eq_refl).
Qed.

Lemma demo_run_written : sys_run (H := list_heap CoreHeapItem) demo_start [sample_core 5 1] demo_written.
Proof.
  eapply run_quiet; [exact demo_run_spawned|].
  exact (step_flush (s_backend demo_spawned) [] demo_mt 1 [] (plain_meta 1 [sample_core 5 1]) (plain_file [sample_core 5 1]) []
    eq_refl).
Qed.

Lemma demo_run_flushed : sys_run (H := list_heap CoreHeapItem) demo_start [sample_core 5 1] demo_flushed.
Proof.
  eapply run_quiet; [exact demo_run_written|].
  assert (demo_flushed = Build_Sys _ (turn_result (FlushResult (plain_meta 1 [sample_core 5 1])) (s_backend demo_written)) [] [])
    as -> by (vm_compute; reflexivity).
  apply (step_result _ [] (FlushResult (plain_meta 1 [sample_core 5 1])) []). by vm_compute.
Qed.

(** ** The theorems at these states *)

(** inside the first turn: the insert has been answered, and its record is
    still in the buffer of the log *)
Definition demo_inside : Sys := Eval vm_compute in
  Build_Sys _ (handle_commands [CmdInsert (demo_insert 5)] false (s_backend demo_start)).1 [] [].
Lemma demo_run_inside : turn_run (H := list_heap CoreHeapItem) demo_start [] [sample_core 5 1] (demo_inside, Some true).
Proof.
  change [sample_core 5 1] with (([] ++ []) ++ turn_records [CmdInsert (demo_insert 5)] (s_backend demo_start)).
  eapply turns_inside; [eapply turns_inside; [apply turns_start|apply turn_begins]|].
  apply (turn_command (s_backend demo_start) (s_backend demo_inside) [] []); [|by vm_compute|vm_compute; reflexivity].
  cbn. apply Forall_singleton, demo_insert_ok. unfold in_i64. lia.
Qed.
Lemma demo_turns_flushed : turn_run (H := list_heap CoreHeapItem) demo_start [sample_core 5 1] [] (demo_flushed, None).
Proof. by eapply sys_run_turns; [apply demo_start_ok|apply demo_run_flushed]. Qed.

Lemma backend_no_loss_witness :
  (bw_inner (e_wal (b_engine (s_backend demo_inside))) = [] /\
   (in_file (s_backend demo_inside) (sample_core 5 1) \/ in_log (s_backend demo_inside) (sample_core 5 1))) /\
  (sample_core 5 1 ∈ in_memory (b_engine (s_backend demo_flushed)) \/
   in_tables (b_engine (s_backend demo_flushed)) (d_ssts (s_backend demo_flushed)) (sample_core 5 1)) /\
  on_disk (s_backend demo_flushed) (sample_core 5 1).
Proof.
  split; [split; [vm_compute; reflexivity|]|].
  - apply (backend_no_loss (H := list_heap CoreHeapItem) 30 backend_config_default demo_start demo_inside (Some true) [] [sample_core 5 1]
      demo_start_ok demo_run_inside). by left.
  - destruct (backend_no_loss (H := list_heap CoreHeapItem) 30 backend_config_default demo_start demo_flushed None [sample_core 5 1] []
      demo_start_ok demo_turns_flushed) as (Hread & _ & _ & Hdisk).
    split; [apply Hread; by left|]. apply Hdisk; [done|by left].
Defined.

Definition demo_query : RangeReq :=
  {| rng_source_id := 1; rng_key := [Byte.x6b]; rng_start_ts := 0; rng_end_ts := 9; rng_filter := [] |}.

(** the record has left the memtable: the answer comes from the SST *)
Lemma backend_query_exact_witness :
  in_memory (b_engine (s_backend demo_flushed)) = [] /\
  exists n batches (out : list CoreRecord), handle_range (Heap := list_heap CoreHeapItem) n None demo_query (s_backend demo_flushed) = (batches, Ok tt) /\
    batched 1024 batches /\ sample_core 5 1 ∈ out.
Proof.
  split; [vm_compute; reflexivity|].
  destruct (proj2 (backend_query_exact (H := list_heap CoreHeapItem) 30 backend_config_default demo_start demo_flushed [sample_core 5 1]
    demo_query demo_start_ok demo_run_flushed ltac:(by vm_compute) ltac:(by vm_compute)) ltac:(by vm_compute))
    as (n & batches & out & E & Hb & _ & _ & _ & Hall).
  exists n, batches, out. split; [exact E|]. split; [exact Hb|]. apply Hall; [by left|by vm_compute|]. left. by vm_compute.
Defined.

Lemma backend_progress_witness :
  exists s', sys_step (H := list_heap CoreHeapItem) demo_spawned [] s' /\ length (s_jobs s') = 0%nat /\ length (s_results s') = 1%nat.
Proof.
  apply (proj2 (proj2 (backend_progress (H := list_heap CoreHeapItem) 30 backend_config_default demo_start demo_spawned [sample_core 5 1]
    demo_start_ok demo_run_spawned)) (FlushMemtable demo_mt 1)); [by left|done].
Defined.


(** names: ten digits and [.sst]; a directory is listed as it is stored *)
#[local] Instance plain_names : FileNames := {| sst_name id := fmt_uint_pad 10 id ++ str ".sst"; read_order l := l |}.
#[local] Instance plain_name_laws : FileNameLaws.
Proof.
  assert (forall id, fmt_uint_pad 10 id <> []) as Hne.
  { intros id E. unfold fmt_uint_pad, fmt_uint in E. cbn [dec_rev rev] in E. by apply app_nil in E as [_ [_ ?]%app_nil]. }
  assert (Byte.x2e ∉ str "sst") as Hdot by by apply (bool_decide_eq_false_1 (Byte.x2e ∈ str "sst")).
  split; [|intros id Hid|done].
  - intros id. by apply (name_parts _ (str "sst")).
  - cbn [sst_name plain_names]. change (str ".sst") with (Byte.x2e :: str "sst").
    rewrite (proj1 (name_parts (fmt_uint_pad 10 id) (str "sst") (Hne id) Hdot)). by apply parse_fmt_pad.
Qed.

(** the files of the run with a flush, on a disk that was empty *)
Definition demo_base : path := [str "data"].
Definition demo_fs : FileSys :=
  <[demo_base ++ [sst_name 1] := File (plain_file [sample_core 5 1])]>
    (<[format_inactive_wal_path demo_base 1 := File (wal_wires [sample_core 5 1])]> (open_dir demo_base 30 ∅).1).
Lemma demo_fs_holds : holds demo_base demo_fs (s_backend demo_flushed).
Proof.
  destruct (first_start demo_base 30) as (fs & E & Hr); [done|].
  assert (demo_fs = <[demo_base ++ [sst_name 1] := File (plain_file [sample_core 5 1])]>
    (<[format_inactive_wal_path demo_base 1 := File (wal_wires [sample_core 5 1])]> fs)) as -> by (unfold demo_fs; by rewrite E).
  unfold holds.
  assert (bw_inner (e_wal (b_engine (s_backend demo_flushed))) = []) as -> by (vm_compute; reflexivity).
  assert (d_wals (s_backend demo_flushed) = <[1 := wal_wires [sample_core 5 1]]> ∅) as -> by (vm_compute; reflexivity).
  assert (d_ssts (s_backend demo_flushed) = <[1 := plain_file [sample_core 5 1]]> ∅) as -> by (vm_compute; reflexivity).
  assert (0 <= 1 <= u64_max) as H1 by (unfold u64_max; lia).
  exact (rep_sst_change demo_base _ _ _ _ 1 (Some (plain_file [sample_core 5 1]))
    (rep_log_added demo_base fs [] ∅ ∅ 1 (wal_wires [sample_core 5 1]) Hr H1) H1).
Qed.


Lemma rotate_refines_witness :
  exists fs', wal_rotate true true demo_base 2 (demo_fs, e_wal (b_engine (s_backend demo_flushed))) =
      ((fs', bufwriter_new []), Ok (format_inactive_wal_path demo_base 2)) /\
    holds demo_base fs' (rotate_wal true 2 (s_backend demo_flushed)).1 /\
    fs' !! (demo_base ++ [sst_name 1]) = Some (File (plain_file [sample_core 5 1])).
Proof.
  destruct (rotate_refines true true demo_base 2 demo_fs (s_backend demo_flushed) ltac:(unfold u64_max; lia) demo_fs_holds)
    as (fs' & w & E & Hfr & Hok & _).
  rewrite (bool_decide_eq_true_2 (_ <> _)) in E, Hok by (by vm_compute). destruct (Hok eq_refl) as (-> & _ & Hh).
  exists fs'. split; [exact E|]. split; [exact Hh|]. rewrite Hfr by (by vm_compute). by vm_compute.
Defined.

(** ** Longer runs, computed *)

Inductive demo_op := OpInsert (ts : Z) | OpResult | OpTake | OpFlush.

Definition demo_exec_one (op : demo_op) (s : Sys) : option (list CoreRecord * Sys) :=
  let b := s_backend s in
  match op with
  | OpInsert ts =>
      let cmds := [CmdInsert (demo_insert ts)] in
      if (0 <=? ts) && (ts <=? 9) && (e_seq_counter (b_engine b) + 1 <=? u64_max) && (e_sst_counter (b_engine b) + 1 <=? u64_max)
      then match turn_commands true cmds b with
           | (b', Ok _) => Some (turn_records cmds b, Build_Sys _ b' (s_jobs s) (s_results s))
           | _ => None
           end
      else None
  | OpResult =>
      match s_results s with
      | r :: results =>
          if (e_seq_counter (b_engine b) + 0 <=? u64_max) && (e_sst_counter (b_engine b) + 1 <=? u64_max)
          then Some ([], Build_Sys _ (turn_result r b) (s_jobs s) results) else None
      | [] => None
      end
  | OpTake =>
      match io_cmds b with c :: cmds => Some ([], Build_Sys _ (b_with_cmds b cmds) (spawn c (s_jobs s)) (s_results s)) | [] => None end
  | OpFlush =>
      match s_jobs s with
      | FlushMemtable m id :: post =>
          let '(meta, file) := handle_flush m id in
          Some ([], Build_Sys _ (b_with_ssts b (<[id := file]> (d_ssts b))) post (s_results s ++ [FlushResult meta]))
      | _ => None
      end
  end.
Fixpoint demo_exec (ops : list demo_op) (s : Sys) : option (list CoreRecord * Sys) :=
  match ops with
  | [] => Some ([], s)
  | op :: ops => x ← demo_exec_one op s; y ← demo_exec ops x.2; Some (x.1 ++ y.1, y.2)
  end.

Lemma demo_exec_one_sound op s recs s' : demo_exec_one op s = Some (recs, s') -> sys_step (H := list_heap CoreHeapItem) s recs s'.
Proof.
  destruct s as [b jobs results]. destruct op as [ts| | |]; unfold demo_exec_one; cbn [s_backend s_jobs s_results].
  - destruct (_ && _) eqn:E; [|done]. rewrite !andb_true_iff, !Z.leb_le in E.
    destruct (turn_commands true _ b) as [b' [[]|e|]] eqn:Et; [|done..]. intros [= <- <-].
    eapply step_commands; [|split; [|lia]|exact Et]; cbn; [|zlia]. apply Forall_singleton, demo_insert_ok. unfold in_i64. lia.
  - destruct results as [|r results]; [done|]. destruct (_ && _) eqn:E; [|done]. rewrite andb_true_iff, !Z.leb_le in E.
    intros [= <- <-]. by apply step_result.
  - destruct (io_cmds b) as [|c cmds] eqn:E; [done|]. intros [= <- <-]. by apply step_take.
  - destruct jobs as [|[|m id|tables id] post]; [done|done| |done]. destruct (handle_flush m id) as [meta file] eqn:E. intros [= <- <-].
    by apply (step_flush b [] m id post meta file).
Qed.
Lemma demo_exec_sound ops : forall s recs s', demo_exec ops s = Some (recs, s') -> sys_run (H := list_heap CoreHeapItem) s recs s'.
Proof.
  induction ops as [|op ops IH]; intros s recs s'; cbn [demo_exec]; [intros [= <- <-]; constructor|].
  intros ([r1 s1] & E1 & ([r2 s2] & E2 & [= <- <-])%bind_Some)%bind_Some. cbn in *. apply (sys_run_app s r1 s1).
  - eapply (run_step s []); [constructor|]. by eapply demo_exec_one_sound.
  - by apply IH.
Qed.

(** a memtable of no bytes: every insert is flushed, and two tables are
    compacted. The first two flushes are applied, number 3 goes to a
    compaction, and the third insert has log 4. *)
Definition gc_demo_start : Sys :=
  Build_Sys _ (backend_new (Build_Engine (list byte) _ (bufwriter_new []) (core_memtable_new 0) [] [] ∅ 1 1 0) ∅ ∅
    backend_config_default) [] [].
Definition gc_demo_ops : list demo_op :=
  [OpInsert 5; OpTake; OpTake; OpFlush; OpResult; OpInsert 6; OpTake; OpTake; OpFlush; OpResult; OpInsert 7].
Definition gc_demo : list CoreRecord * Sys := Eval vm_compute in default ([], gc_demo_start) (demo_exec gc_demo_ops gc_demo_start).
(** later the flush of the third insert is applied too *)
Definition gc_demo_later : list CoreRecord * Sys := Eval vm_compute in
  default ([], gc_demo_start) (demo_exec [OpTake; OpTake; OpTake] gc_demo.2).
Definition gc_demo_end : Sys := Eval vm_compute in
  match s_jobs gc_demo_later.2 with
  | [c; FlushMemtable m id] =>
      let '(meta, file) := handle_flush m id in
      let b := b_with_ssts (s_backend gc_demo_later.2) (<[id := file]> (d_ssts (s_backend gc_demo_later.2))) in
      Build_Sys _ (turn_result (FlushResult meta) b) [c] []
  | _ => gc_demo_later.2
  end.

Lemma gc_demo_runs : sys_run (H := list_heap CoreHeapItem) gc_demo_start gc_demo.1 gc_demo.2 /\
  sys_run (H := list_heap CoreHeapItem) gc_demo.2 [] gc_demo_end.
Proof.
  split; [apply (demo_exec_sound gc_demo_ops); vm_compute; reflexivity|].
  eapply run_quiet; [eapply run_quiet; [apply (demo_exec_sound [OpTake; OpTake; OpTake]); vm_compute; reflexivity|]|].
  - eapply (step_flush _ [_] _ _ []). vm_compute. reflexivity.
  - match goal with |- sys_step ?x _ _ => set (s := x) end.
    assert (gc_demo_end = Build_Sys _ (turn_result (hd (FlushResult (plain_meta 0 [])) (s_results s)) (s_backend s)) (s_jobs s) []) as ->
      by (vm_compute; reflexivity).
    apply (step_result (s_backend s) (s_jobs s) (hd (FlushResult (plain_meta 0 [])) (s_results s)) []). by vm_compute.
Qed.

(** flush 4 is applied, and its log stays *)
Lemma wal_gc_ends_witness :
  4 ∈ b_applied_flushes (s_backend gc_demo_end) /\ b_next_wal_to_del (s_backend gc_demo_end) <= 3 /\
  d_wals (s_backend gc_demo_end) !! 4 = Some (wal_wires [sample_core 7 3]).
Proof.
  split; [by vm_compute|]. destruct gc_demo_runs as [Hr1 Hr2].
  destruct (wal_gc_ends (H := list_heap CoreHeapItem) 0 backend_config_default gc_demo_start gc_demo.2 gc_demo_end gc_demo.1 []
    eq_refl Hr1 Hr2) as (_ & _ & Hstop).
  destruct (Hstop [plain_meta 1 [sample_core 5 1]; plain_meta 2 [sample_core 6 2]] 3) as (_ & Hn & Hlogs).
  - vm_compute. left.
  - split; [exact Hn|]. apply Hlogs; [lia|vm_compute; reflexivity].
Defined.

(** ** A crash inside a turn

    After a turn with one insert, two inserts of 4 KB in one turn: the
    second does not fit into the buffer of the log, so the buffer, which
    ends with its length, is written to the file. A crash at this moment
    leaves a log that cannot be read. *)
Definition torn_start : Sys :=
  Build_Sys _ (backend_new (Build_Engine (list byte) _ (bufwriter_new []) (core_memtable_new 100000) [] [] ∅ 1 1 100000) ∅ ∅
    backend_config_default) [] [].
Definition torn_big (ts : Z) : Insert :=
  {| ins_source_id := 1; ins_ts := ts; ins_key := [Byte.x6b]; ins_value := replicate 4100 Byte.x61 |}.
Definition torn_before : Backend := Eval vm_compute in (turn_commands true [CmdInsert (demo_insert 5)] (s_backend torn_start)).1.
Definition torn_one : Backend := (handle_commands [CmdInsert (torn_big 6)] false torn_before).1.
Definition torn_two : Backend := (handle_commands [CmdInsert (torn_big 7)] false torn_one).1.

Lemma torn_big_ok ts : in_i64 ts -> insert_ok (torn_big ts).
Proof. intros Hts. split; [by unfold in_i64|done|by split|by split; vm_compute]. Qed.

Lemma torn_run : turn_run (H := list_heap CoreHeapItem) torn_start [sample_core 5 1]
  (turn_records [CmdInsert (torn_big 6)] torn_before ++ turn_records [CmdInsert (torn_big 7)] torn_one) (Build_Sys _ torn_two [] [], Some false).
Proof.
  assert (turn_run (H := list_heap CoreHeapItem) torn_start [sample_core 5 1] [] (Build_Sys _ torn_before [] [], None)) as Hrun.
  { eapply sys_run_turns; [reflexivity|]. apply (demo_exec_sound [OpInsert 5]). vm_compute. reflexivity. }
  assert (turn_run (H := list_heap CoreHeapItem) torn_start [sample_core 5 1] ([] ++ []) (Build_Sys _ torn_before [] [], Some false)) as Hin.
  { eapply turns_inside; [exact Hrun|apply turn_begins]. }
  apply (turns_inside torn_start [sample_core 5 1] _ (Build_Sys _ torn_before [] [], Some false)
    (turn_records [CmdInsert (torn_big 6)] torn_before) (Build_Sys _ torn_one [] []) false) in Hin.
  - apply (turns_inside torn_start [sample_core 5 1] _ (Build_Sys _ torn_one [] [], Some false)
      (turn_records [CmdInsert (torn_big 7)] torn_one) (Build_Sys _ torn_two [] []) false) in Hin; [exact Hin|].
    apply (turn_command torn_one torn_two [] [] (CmdInsert (torn_big 7)) false false); [|by vm_compute|vm_compute; reflexivity].
    apply Forall_singleton, torn_big_ok. unfold in_i64. lia.
  - apply (turn_command torn_before torn_one [] [] (CmdInsert (torn_big 6)) false false); [|by vm_compute|vm_compute; reflexivity].
    apply Forall_singleton, torn_big_ok. unfold in_i64. lia.
Qed.

(** The record of the turn before, which was acknowledged and on disk, is
    lost with the rest of the log: the restart succeeds with an empty
    memtable. *)
Theorem torn_log_loses_acknowledged :
  turn_run (H := list_heap CoreHeapItem) torn_start [sample_core 5 1]
    (turn_records [CmdInsert (torn_big 6)] torn_before ++ turn_records [CmdInsert (torn_big 7)] torn_one) (Build_Sys _ torn_two [] [], Some false) /\
  on_disk torn_before (sample_core 5 1) /\
  let log := bw_inner (e_wal (b_engine torn_two)) in
  recover_file log = Err (IoError UnexpectedEof) /\ d_wals torn_two = ∅ /\ d_ssts torn_two = ∅ /\
  exists e flag, engine_open log [log] [] 100000 = Ok (e, flag) /\ in_memory e = [].
Proof.
  split; [exact torn_run|]. split; [left; exists [sample_core 5 1]; split; [vm_compute; reflexivity|by left]|].
  split_and!; [vm_compute; reflexivity..|]. eexists _, _. split; [vm_compute; reflexivity|vm_compute; reflexivity].
Qed.

Lemma restart_overwrites_log_witness :
  exists e flag, engine_open [] [[]; wal_wires [sample_core 5 1]] [] 30 = Ok (e, flag) /\
    let b := (engine_loop_start true (backend_new e {[1 := wal_wires [sample_core 5 1]]} ∅ backend_config_default)).1 in
    recover_all (bw_inner (e_wal (b_engine b)) :: (map_to_list (d_wals b)).*2) = Ok [].
Proof.
  destruct (restart_overwrites_log [sample_core 5 1] 30 backend_config_default) as (e & flag & E & _ & _ & _ & _ & Hr).
  - apply Forall_singleton. split_and!; [reflexivity|by vm_compute|]. eexists. vm_compute. reflexivity.
  - done.
  - exists e, flag. split; [exact E|exact Hr].
Defined.

Lemma engine_batch_insert_equiv_witness :
  exists e', batch_insert_records [demo_insert 5; demo_insert 6] (b_engine (s_backend demo_start)) = (e', Ok true).
Proof.
  eexists.
  refine (proj2 (proj1 (engine_batch_insert_equiv [demo_insert 5; demo_insert 6] (b_engine (s_backend demo_start)) _ true
    (IoError OtherIo))) _).
  exists [true; true]. split; [vm_compute; reflexivity|reflexivity].
Defined.

(** one record in the memtable, one in the SST *)
Definition demo_engine : Engine (list byte) :=
  Build_Engine (list byte) _ (bufwriter_new []) {| cmt_sz := 35; cmt_limit := 30; cmt_bset := [sample_core 7 2] |} []
    [(1, plain_meta 1 [sample_core 5 1])] ∅ 2 3 30.

Lemma engine_range_spec_witness :
  exists m n (out : list CoreRecord),
    engine_range (H := list_heap CoreHeapItem) {[1 := plain_file [sample_core 5 1]]} 1 [Byte.x6b] 0 9 [] demo_engine = Ok m /\
    core_merge_collect n n m = Ok out /\ sample_core 5 1 ∈ out /\ sample_core 7 2 ∈ out.
Proof.
  destruct (proj2 (engine_range_spec (H := list_heap CoreHeapItem) {[1 := plain_file [sample_core 5 1]]} demo_engine [[sample_core 5 1]]
    1 [Byte.x6b] 0 9 [] ltac:(unfold in_i64; lia) ltac:(unfold in_i64; lia) ltac:(unfold in_i64; lia) ltac:(by vm_compute)
    ltac:(apply Forall_singleton; split; [by repeat constructor|reflexivity])
    ltac:(apply NoDup_singleton)
    ltac:(constructor; [|constructor]; exists (plain_file [sample_core 5 1]), [], [sample_core 5 1]; split_and!;
      [reflexivity|reflexivity|apply written_layout; split; [|by exists 1]; split_and!; [by repeat constructor|by repeat constructor|reflexivity]
      |split; [reflexivity|by left]|done])
    ltac:(intros r q Hr Hq; cbn in Hr, Hq; set_unfold in Hr; set_unfold in Hq;
      destruct Hr as [->|[->|[]]], Hq as [->|[->|[]]]; try done; intros E; apply sort_key_seq in E; discriminate E)) ltac:(lia))
    as (m & n & out & Em & En & _ & _ & Hall).
  exists m, n, out. split; [exact Em|]. split; [exact En|].
  split; apply Hall; [by right; left|reflexivity|left; by vm_compute|by left|reflexivity|right; by left].
Defined.

(** ** Connections *)

(** an engine that keeps the inserts and answers a range with a fixed record *)
Definition demo_record : ProtoRecord :=
  {| pr_source_id := 1; pr_ts := 5; pr_seq := 1; pr_key := [Byte.x6b]; pr_value := [Byte.x76; Byte.x77] |}.
Definition list_service : EngineService (list Insert) := {|
  svc_insert i l := (l ++ [i], Ok tt);
  svc_batch_insert k l := (l ++ k, Ok tt);
  svc_range _ _ := ([[demo_record]; [demo_record]], Ok tt);
  svc_metrics _ := Ok []
|}.

Lemma demo_record_ok : server_message_ok (SmRangeRecord demo_record).
Proof. split; [by vm_compute|]. by split_and!; try split. Qed.
Lemma demo_insert_msg_ok : client_message_ok (CmInsert (demo_insert 5)).
Proof. split; [by vm_compute|]. apply demo_insert_ok. unfold in_i64. lia. Qed.
Lemma demo_query_msg_ok : client_message_ok (CmRange demo_query).
Proof. split; [by vm_compute|]. by split_and!; try split. Qed.

Lemma demo_range_answerable (l : list Insert) : answerable (H := list_service) (CmRange demo_query) l.
Proof.
  split; [done|]. repeat (apply Forall_cons; split); [exact demo_record_ok|exact demo_record_ok|by split|by apply Forall_nil_2].
Qed.

Lemma server_conn_spec_witness :
  exists m', accept_conn (H := list_service) (concat (map request_bytes [CmInsert (demo_insert 5); CmRange demo_query; CmPing]))
      server_metrics_default [] =
    (Build_Conn _ [] [] (concat (map answer_bytes [SmInsertOk; SmRangeRecord demo_record; SmRangeRecord demo_record; SmRangeEnd; SmPong]))
       m' [demo_insert 5], Ok tt) /\
    connections_active m' = 1 /\ frames_read m' = 3 /\ frames_written m' = 5.
Proof.
  apply (server_conn_spec (H := list_service) [CmInsert (demo_insert 5); CmRange demo_query; CmPing] server_metrics_default []).
  - repeat (apply Forall_cons; split); [exact demo_insert_msg_ok|exact demo_query_msg_ok|by split; [by vm_compute|]|by apply Forall_nil_2].
  - split; [split; [done|apply Forall_singleton; by split]|]. split; [exact (demo_range_answerable [demo_insert 5])|].
    split; [|done]. split; [done|apply Forall_singleton; by split].
  - by vm_compute.
  - by vm_compute.
  - by vm_compute.
Defined.

Lemma session_over_wire_witness :
  exists sent c, client_send_all [CallInsert (demo_insert 5); CallRange demo_query; CallPing] {| cl_sent := []; cl_recv := [] |} =
      ({| cl_sent := sent; cl_recv := [] |}, Ok tt) /\
    accept_conn (H := list_service) sent server_metrics_default [] = (c, Ok tt) /\
    client_receive_all [CallInsert (demo_insert 5); CallRange demo_query; CallPing] {| cl_sent := sent; cl_recv := cn_out c |} =
      ({| cl_sent := sent; cl_recv := [] |}, Ok [CrDone; CrRecords [demo_record; demo_record]; CrDone]) /\
    cn_engine c = [demo_insert 5].
Proof.
  apply (session_over_wire (H := list_service) [CallInsert (demo_insert 5); CallRange demo_query; CallPing] server_metrics_default []).
  - repeat (apply Forall_cons; split); [exact demo_insert_msg_ok|exact demo_query_msg_ok|by split; [by vm_compute|]|by apply Forall_nil_2].
  - split; [split; [done|apply Forall_singleton; by split]|]. split; [exact (demo_range_answerable [demo_insert 5])|].
    split; [|done]. split; [done|apply Forall_singleton; by split].
  - by vm_compute.
Defined.

Lemma range_over_wire_witness :
  exists c, accept_conn (H := list_service) (request_bytes (CmRange demo_query)) server_metrics_default [] = (c, Ok tt) /\
    client_range (S (length (cn_out c))) [] (cn_out c) = ([], Ok (CrRecords [demo_record; demo_record])).
Proof.
  apply (range_over_wire (H := list_service) demo_query server_metrics_default [] demo_query_msg_ok (demo_range_answerable [])).
  by vm_compute.
Defined.

Lemma wire_insert_witness :
  exists c, accept_conn (H := wire_service (H := list_heap CoreHeapItem) true (fun _ => []) [] 9) (request_bytes (CmInsert (demo_insert 5)))
      server_metrics_default (s_backend demo_start) = (c, Ok tt) /\
    client_insert (cn_out c) = ([], Ok CrDone) /\
    sys_run (H := list_heap CoreHeapItem) demo_start [sample_core 5 1] (Build_Sys _ (cn_engine c) [] []).
Proof.
  apply (wire_insert (H := list_heap CoreHeapItem) true (fun _ => []) [] 30 backend_config_default demo_start demo_start [] (demo_insert 5) 9
    server_metrics_default demo_start_ok (run_start _) demo_insert_msg_ok); by vm_compute.
Defined.

Lemma wire_query_witness :
  exists n c v (out : list CoreRecord),
    accept_conn (H := wire_service (H := list_heap CoreHeapItem) true (fun _ => []) [] n) (request_bytes (CmRange demo_query))
      server_metrics_default (s_backend demo_flushed) = (c, Ok tt) /\
    client_range (S (length (cn_out c))) [] (cn_out c) = ([], Ok (CrRecords v)) /\
    Forall2 (fun r p => proto_record_try_from r = Ok p) out v /\ sample_core 5 1 ∈ out.
Proof.
  destruct (wire_query (H := list_heap CoreHeapItem) true (fun _ => []) [] 30 backend_config_default demo_start demo_flushed [sample_core 5 1]
    demo_query server_metrics_default demo_start_ok demo_run_flushed demo_query_msg_ok ltac:(by vm_compute) ltac:(by vm_compute)
    ltac:(intros r Hr; apply list_elem_of_singleton in Hr as ->; by vm_compute) ltac:(by vm_compute))
    as (n & c & v & out & Ec & _ & Ev & Hc & _ & _ & Hall).
  exists n, c, v, out. split; [exact Ec|]. split; [exact Ev|]. split; [exact Hc|].
  apply Hall; [by left|by vm_compute|]. left. by vm_compute.
Defined.

(** ** Syncing: two inserts fill the memtable of 60 bytes, a third follows *)

#[local] Notation sync_demo_run := (sync_run (H := list_heap CoreHeapItem) true true).

Definition sync_demo_start : Sys :=
  Build_Sys _ (backend_new (Build_Engine (list byte) _ (bufwriter_new []) (core_memtable_new 60) [] [] ∅ 1 1 60) ∅ ∅
    backend_config_default) [] [].
Definition sync_demo_turn1 : Backend * LogSync := Eval vm_compute in
  (turn_sync true true [CmdInsert (demo_insert 5); CmdInsert (demo_insert 6)] (s_backend sync_demo_start) log_sync_new).1.
(** the third insert is in the new log *)
Definition sync_demo_turn2 : Backend * LogSync := Eval vm_compute in
  (turn_sync true true [CmdInsert (demo_insert 7)] sync_demo_turn1.1 sync_demo_turn1.2).1.
Definition sync_demo_flush : IoCommand := Eval vm_compute in nth 1 (io_cmds sync_demo_turn2.1) ResyncWal.
(** the worker switches to it *)
Definition sync_demo_idle : Backend := b_with_cmds sync_demo_turn2.1 [sync_demo_flush].
Definition sync_demo_ls : LogSync := Eval vm_compute in handle_resync true true sync_demo_turn2.1 sync_demo_turn2.2.

Definition sync_demo_ins : list CoreRecord := [sample_core 5 1; sample_core 6 2; sample_core 7 3].

Lemma sync_demo_start_ok : sys_start 60 backend_config_default = Ok sync_demo_start.
Proof. reflexivity. Qed.

Lemma sync_demo_run2 : sync_demo_run prompt sync_demo_start sync_demo_ins (Build_Sys _ sync_demo_turn2.1 [] [], sync_demo_turn2.2).
Proof.
  assert (forall ts, 0 <= ts <= 9 -> insert_ok (demo_insert ts)) as Hi.
  { intros ts Hts. apply demo_insert_ok. unfold in_i64. lia. }
  change sync_demo_ins with (([] ++ turn_records [CmdInsert (demo_insert 5); CmdInsert (demo_insert 6)] (s_backend sync_demo_start)) ++
    turn_records [CmdInsert (demo_insert 7)] sync_demo_turn1.1).
  eapply sync_more; [eapply sync_more; [apply sync_start| |]|apply (sync_turn _ _ sync_demo_turn1.1 _ _ _ sync_demo_turn1.2 _ true)|].
  - split; vm_compute; [done|lia].
  - apply (sync_turn _ _ _ sync_demo_turn1.1 _ _ _ sync_demo_turn1.2 true).
    + cbn. repeat constructor; apply Hi; lia.
    + by vm_compute.
    + vm_compute. reflexivity.
  - split; vm_compute; [done|lia].
  - cbn. repeat constructor; apply Hi; lia.
  - by vm_compute.
  - vm_compute. reflexivity.
  - split; vm_compute; [done|lia].
Qed.

Lemma sync_demo_run3 : sync_demo_run prompt sync_demo_start sync_demo_ins (Build_Sys _ sync_demo_idle [] [], sync_demo_ls).
Proof.
  rewrite <- (app_nil_r sync_demo_ins). eapply sync_more; [exact sync_demo_run2| |split; vm_compute; [done|lia]].
  assert (sync_demo_ls = handle_resync true true sync_demo_turn2.1 sync_demo_turn2.2) as -> by (vm_compute; reflexivity).
  apply sync_resync; [vm_compute; reflexivity|done].
Qed.

(** after a sync both logs survive *)
Lemma sync_power_loss_witness :
  exists e flag, engine_open (wal_wires [sample_core 7 3]) [wal_wires [sample_core 7 3]; wal_wires [sample_core 5 1; sample_core 6 2]] [] 60 = Ok (e, flag) /\
    (sample_core 7 3 ∈ in_memory e \/ reopened_has e ∅ (sample_core 7 3)).
Proof.
  destruct (sync_power_loss (H := list_heap CoreHeapItem) true 60 60 backend_config_default sync_demo_start (Build_Sys _ sync_demo_idle [] [])
    sync_demo_ins sync_demo_ls (wal_wires [sample_core 7 3]) {[1 := wal_wires [sample_core 5 1; sample_core 6 2]]}
    [wal_wires [sample_core 7 3]; wal_wires [sample_core 5 1; sample_core 6 2]] [] sync_demo_start_ok sync_demo_run3)
    as (e & flag & E & Hall & _).
  - vm_compute. intros Hin. inversion Hin as [|? ? ? Hin']; subst. inversion Hin'.
  - split_and!; [split; [by vm_compute; eexists []|by vm_compute; eexists []]|by vm_compute|].
    intros id f g Hf Hg. apply lookup_singleton_Some in Hg as [<- <-]. vm_compute in Hf. injection Hf as <-.
    split; vm_compute; by eexists [].
  - vm_compute. reflexivity.
  - vm_compute. reflexivity.
  - intros id file Hf. vm_compute in Hf. done.
  - exists e, flag. split; [exact E|]. apply Hall. right. right. by left.
Defined.

(** the worker takes the notification first: the third insert is not synced *)
Lemma sync_notification_lost_witness :
  exists ls2, ls_permit ls2 = false /\ ls_syncer ls2 = None /\
    survives (ls_active ls2) (bw_inner (e_wal (b_engine sync_demo_idle))) [] /\
    bw_inner (e_wal (b_engine sync_demo_idle)) = wal_wires [sample_core 7 3].
Proof.
  destruct (sync_notification_lost (H := list_heap CoreHeapItem) sync_demo_turn2.1 [sync_demo_flush] [] [] sync_demo_turn2.2 1)
    as (ls1 & ls2 & _ & _ & Hp & _ & Hs & _ & Hsurv); [reflexivity|reflexivity|vm_compute; reflexivity|vm_compute; lia|vm_compute; by eexists|].
  exists ls2. split; [exact Hp|]. split; [exact Hs|]. split; [exact Hsurv|vm_compute; reflexivity].
Defined.

(** two turns that each fill a memtable of 30 bytes: the second log is passed over *)
Definition skip_turn1 : Backend * LogSync := Eval vm_compute in
  (turn_sync true true [CmdInsert (demo_insert 5)] (s_backend demo_start) log_sync_new).1.
Definition skip_turn2 : Backend * LogSync := Eval vm_compute in
  (turn_sync true true [CmdInsert (demo_insert 6)] skip_turn1.1 skip_turn1.2).1.

Lemma skip_run : sync_demo_run (fun _ => True) demo_start [sample_core 5 1; sample_core 6 2] (Build_Sys _ skip_turn2.1 [] [], skip_turn2.2).
Proof.
  change [sample_core 5 1; sample_core 6 2] with
    (([] ++ turn_records [CmdInsert (demo_insert 5)] (s_backend demo_start)) ++ turn_records [CmdInsert (demo_insert 6)] skip_turn1.1).
  eapply sync_more; [eapply sync_more; [by apply sync_start| |done]| |done].
  - apply (sync_turn _ _ _ skip_turn1.1 _ _ _ skip_turn1.2 true);
      [cbn; repeat constructor; apply demo_insert_ok; unfold in_i64; lia|by vm_compute|vm_compute; reflexivity].
  - apply (sync_turn _ _ skip_turn1.1 skip_turn2.1 _ _ skip_turn1.2 skip_turn2.2 true);
      [cbn; repeat constructor; apply demo_insert_ok; unfold in_i64; lia|by vm_compute|vm_compute; reflexivity].
Qed.

Lemma skipped_log_never_synced_witness :
  d_wals skip_turn2.1 !! 2 = Some (wal_wires [sample_core 6 2]) /\
  ls_rotated (handle_resync true true skip_turn2.1 skip_turn2.2) !! 2 = Some [].
Proof.
  split; [vm_compute; reflexivity|].
  destruct (skipped_log_never_synced (H := list_heap CoreHeapItem) true true 30 backend_config_default demo_start
    (Build_Sys _ skip_turn2.1 [] []) (Build_Sys _ (b_with_cmds skip_turn2.1 (tail (io_cmds skip_turn2.1))) [] [])
    [sample_core 5 1; sample_core 6 2] [] skip_turn2.2 (handle_resync true true skip_turn2.1 skip_turn2.2) 2 (wal_wires [sample_core 6 2])
    demo_start_ok skip_run) as [E _].
  - apply sync_resync; [vm_compute; reflexivity|done].
  - vm_compute. reflexivity.
  - vm_compute. discriminate.
  - rewrite E. vm_compute. reflexivity.
Defined.

(** ** The metrics of a turn: an insert, a snapshot, a batch of two, a query *)

#[local] Existing Instance list_hist.
Definition met_demo_cmds : list (BackendCommand * f64) :=
  [(CmdInsert (demo_insert 5), f64_of_Z 1); (CmdMetrics, f64_of_Z 0);
   (CmdBatchInsert [demo_insert 6; demo_insert 7], f64_of_Z 2); (CmdRange demo_query, f64_of_Z 3)].
Definition met_demo0 : Metered (list_heap CoreHeapItem) :=
  Build_Metered (s_backend demo_start) (engine_set_metrics (b_engine (s_backend demo_start)) metrics_default) [] [].
Definition met_demo : Metered (list_heap CoreHeapItem) := Eval vm_compute in (turn_commands_m true met_demo_cmds met_demo0).1.
Definition met_demo_ins : list CoreRecord := [sample_core 5 1; sample_core 6 2; sample_core 7 3].

Lemma met_demo_turn : turn_commands_m true met_demo_cmds met_demo0 = (met_demo, Ok tt).
Proof. vm_compute. reflexivity. Qed.

Lemma met_demo_run : met_run demo_start met_demo_ins (met_demo, [], []).
Proof.
  assert (met_demo_ins = [] ++ turn_records met_demo_cmds.*1 (mb_backend met_demo0)) as -> by (vm_compute; reflexivity).
  refine (met_run_step demo_start [] (met_demo0, [], []) _ _ (met_run_start demo_start) _).
  refine (met_commands met_demo0 met_demo [] [] true met_demo_cmds _ _ met_demo_turn).
  - cbn. repeat constructor; apply demo_insert_ok; unfold in_i64; lia.
  - by vm_compute.
Qed.

Lemma metrics_exact_witness :
  em_records_inserted (m_engine (mb_metrics met_demo)) = 3 /\ wm_write_count (m_wal (mb_metrics met_demo)) = 3 /\
  map (fun s => es_records_inserted (ms_engine s)) (mb_snapshots met_demo) = [1] /\
  wm_write_bytes (m_wal (mb_metrics met_demo)) = 35 + (43 + 43).
Proof.
  destruct (metrics_exact (Heap := list_heap CoreHeapItem) 30 backend_config_default demo_start met_demo_ins met_demo [] []
    demo_start_ok met_demo_run) as (_ & E1 & E2 & _).
  split; [exact E1|]. split; [exact E2|]. split; vm_compute; reflexivity.
Defined.

(** ** The daemon: one client inserts, the memtable is flushed, another client
    asks *)

#[local] Notation demo_dstep := (daemon_step (H := list_heap CoreHeapItem) (fun _ => []) []).
#[local] Notation demo_service := (wire_service (H := list_heap CoreHeapItem) true (fun _ => []) [] 10).

Definition demo_dm_insert : list ClientMessage := [CmInsert (demo_insert 5)].
Definition demo_dm_query : list ClientMessage := [CmRange demo_query].
Definition demo_dm_start : Daemon := daemon_start server_metrics_default demo_start.
Definition demo_dm_inserted : Daemon := Eval vm_compute in
  Build_Daemon true [Build_LiveConn demo_dm_insert [] [] (answer_bytes SmInsertOk) ConnOpen] (Build_ServerMetrics 1 2 1 1) demo_frozen.
Definition demo_dm_flushed : Daemon := Eval vm_compute in
  Build_Daemon true (dm_conns demo_dm_inserted) (Build_ServerMetrics 1 2 1 1) demo_flushed.
Definition demo_dm_answer : list byte := Eval vm_compute in
  concat (map answer_bytes (answer (H := demo_service) (CmRange demo_query) (s_backend demo_flushed)).2).
Definition demo_dm_done : Daemon := Eval vm_compute in
  Build_Daemon true (dm_conns demo_dm_inserted ++ [Build_LiveConn demo_dm_query [] [] demo_dm_answer ConnOpen])
    (Build_ServerMetrics 2 4 2 3) demo_flushed.

(** what waits can be served: by running the decoder *)
#[local] Ltac demo_waiting :=
  repeat (apply Forall_cons; split); try apply Forall_nil_2; intros rest msg E; vm_compute in E; simplify_eq;
  split_and!; vm_compute; done.
#[local] Ltac demo_loop_step t := eapply rtc_l; [apply (daemon_serve _ _ _ 10 true); [demo_waiting|t]|].
#[local] Ltac demo_done d := match goal with |- rtc _ ?x _ => replace x with d by (vm_compute; reflexivity) end; apply rtc_refl.

Lemma demo_dm_insert_reach : rtc demo_dstep demo_dm_start demo_dm_inserted.
Proof.
  demo_loop_step ltac:(apply (loop_accept _ demo_dm_insert); [done|apply Forall_singleton, demo_insert_msg_ok]).
  demo_loop_step ltac:(by eapply (loop_arrive _ 0 _ 100)).
  demo_loop_step ltac:(eapply (loop_serve _ 0); [reflexivity|reflexivity|vm_compute; reflexivity|vm_compute; reflexivity]).
  demo_done demo_dm_inserted.
Qed.
Lemma demo_dm_flush_reach : rtc demo_dstep demo_dm_inserted demo_dm_flushed.
Proof.
  eapply rtc_l; [apply daemon_work, (step_take _ ResyncWal [FlushMemtable demo_mt 1]); vm_compute; reflexivity|].
  eapply rtc_l; [apply daemon_work; exact (step_take (b_with_cmds (s_backend demo_frozen) [FlushMemtable demo_mt 1]) (FlushMemtable demo_mt 1) [] [] [] eq_refl)|].
  eapply rtc_l; [apply daemon_work; exact (step_flush (s_backend demo_spawned) [] demo_mt 1 [] (plain_meta 1 [sample_core 5 1]) (plain_file [sample_core 5 1]) [] eq_refl)|].
  eapply rtc_l; [apply daemon_work; apply (step_result _ [] (FlushResult (plain_meta 1 [sample_core 5 1])) []); by vm_compute|].
  demo_done demo_dm_flushed.
Qed.
Lemma demo_dm_query_reach : rtc demo_dstep demo_dm_flushed demo_dm_done.
Proof.
  demo_loop_step ltac:(apply (loop_accept _ demo_dm_query); [done|apply Forall_singleton, demo_query_msg_ok]).
  demo_loop_step ltac:(by eapply (loop_arrive _ 1 _ 100)).
  demo_loop_step ltac:(eapply (loop_serve _ 1); [reflexivity|reflexivity|vm_compute; reflexivity|vm_compute; reflexivity]).
  demo_done demo_dm_done.
Qed.

(** the second connection got the first one's record, from the SST *)
Lemma daemon_answers_witness :
  exists h ins, trace h ins /\ NoDup (rec_seq <$> ins) /\ concat (map answer_bytes (given 1 h)) = demo_dm_answer /\ blen demo_dm_answer = 45.
Proof.
  destruct (daemon_answers (H := list_heap CoreHeapItem) (fun _ => []) [] ltac:(by split; [by vm_compute|]) ltac:(intros e; by split; [by vm_compute|])
    30 backend_config_default demo_start server_metrics_default demo_dm_done demo_start_ok ltac:(by vm_compute)
    ltac:(etrans; [exact demo_dm_insert_reach|]; etrans; [exact demo_dm_flush_reach|exact demo_dm_query_reach]))
    as (h & ins & Ht & _ & Hn & Hc & _).
  exists h, ins. split; [exact Ht|]. split; [exact Hn|]. split; [|vm_compute; reflexivity].
  destruct (Hc 1%nat (Build_LiveConn demo_dm_query [] [] demo_dm_answer ConnOpen) eq_refl) as (_ & _ & Ho). exact (eq_sym Ho).
Defined.
