(* ===== verification/CoreIndexed.v ===== *)
(** * An SST format with an index

    A second instance of what the daemon relies on, next to the plain one of
    CoreExamples.v: every sixteenth record has an entry in the index, and
    [binary_seek] finds the last entry whose source and timestamp are not
    after those of the target, as the tests of iter.rs describe it; the index
    is rebuilt when a file is opened. It satisfies the laws, so the theorems
    about the daemon hold for it. *)
From S2P Require Import Prelude Std Text Codec CoreProto CoreStorage CoreIter CoreEngine CoreBackend CoreSystem CoreRecover.

Definition IndexEntry : Type := (list byte * list byte) * Z.
Definition INDEX_INTERVAL : nat := 16.

(** [try_insert]: the [i]-th record, at [off], gets an entry when its turn comes *)
Definition index_try_insert (i : nat) (r : CoreRecord) (off : Z) (idx : list IndexEntry) : list IndexEntry :=
  if (i mod INDEX_INTERVAL =? 0)%nat then idx ++ [(source_ts r, off)] else idx.
Fixpoint index_from (i : nat) (off : Z) (rs : list CoreRecord) (idx : list IndexEntry) : list IndexEntry :=
  match rs with
  | [] => idx
  | r :: rest => index_from (S i) (off + blen (wal_wire r)) rest (index_try_insert i r off idx)
  end.
Definition index_of (rs : list CoreRecord) : list IndexEntry := index_from 0 0 rs [].

Definition entry_before (target : CoreRecord) (e : IndexEntry) : bool :=
  match cmp e.1 (source_ts target) with Gt => false | _ => true end.
Definition index_seek (idx : list IndexEntry) (target : CoreRecord) : Z :=
  match last (List.filter (entry_before target) idx) with Some e => e.2 | None => 0 end.

#[export] Instance indexed_sst : SstModule :=
  {| BloomFilter := unit; IndexBlock := list IndexEntry; bloom_contains _ _ _ := true; binary_seek := index_seek |}.

(** the records, then two empty ones in place of a footer *)
Definition indexed_file (rs : list CoreRecord) : list byte := wal_wires (rs ++ [[]; []]).
Definition indexed_meta (id : Z) (rs : list CoreRecord) : SSTableMeta :=
  Build_SSTableMeta _ id tt (blen (wal_wires rs)) (index_of rs) (blen (wal_wires rs)) (blen rs) (blen (indexed_file rs)).
Definition indexed_footer (f : list byte) : outcome io_error (list IndexEntry * Z * unit * Z) :=
  rs ← recover_file (take (Z.to_nat (blen f - 16)) f);
  Ok (index_of rs, blen f - 16, tt, blen f - 16).
#[export] Instance indexed_codec : SstCodec :=
  {| read_footer := indexed_footer; write_to_file id rs _ := (indexed_meta id rs, indexed_file rs) |}.

(** ** The laws *)

Lemma indexed_file_app rs : indexed_file rs = wal_wires rs ++ replicate 16 Byte.x00.
Proof. unfold indexed_file, wal_wires. by rewrite map_app, concat_app. Qed.

(** every entry points at a record with its source and timestamp *)
Lemma index_from_elem rs : forall i off idx e, e ∈ index_from i off rs idx -> e ∈ idx \/
  exists pre p t, rs = pre ++ p :: t /\ e = (source_ts p, off + blen (wal_wires pre)).
Proof.
  induction rs as [|r rs IH]; intros i off idx e; cbn [index_from]; [by left|]. intros [He|(pre & p & t & -> & ->)]%IH.
  - unfold index_try_insert in He. destruct (_ =? _)%nat; [|by left]. apply elem_of_app in He as [He| ->%list_elem_of_singleton]; [by left|].
    right. exists [], r, rs. split; [done|]. by rewrite Z.add_0_r.
  - right. exists (r :: pre), p, t. split; [done|]. unfold wal_wires. cbn [map concat]. rewrite blen_app, Z.add_assoc. done.
Qed.

Lemma index_seek_ok id rs target :
  exists pre post, rs = pre ++ post /\ seek_ok (indexed_meta id rs) pre post target.
Proof.
  unfold seek_ok. cbn [meta_index indexed_meta binary_seek indexed_sst]. unfold index_seek.
  destruct (last (List.filter (entry_before target) (index_of rs))) as [e|] eqn:E; [|exists [], rs; split; [done|]; by split; [|left]].
  apply last_Some in E as [l' E]. assert (e ∈ List.filter (entry_before target) (index_of rs)) as He by (rewrite E; set_solver).
  apply list_elem_of_In, filter_In in He as [He%list_elem_of_In Hb].
  apply index_from_elem in He as [He%not_elem_of_nil|(pre & p & t & -> & ->)]; [done|]. exists pre, (p :: t).
  split; [done|]. split; [done|]. right. exists p, t. split; [done|]. unfold entry_before in Hb. cbn [fst] in Hb. by destruct (cmp _ _).
Qed.

#[export] Instance indexed_laws : SstCodecLaws.
Proof.
  split.
  - done.
  - intros id rs hint (Hsz & Hs & Hx). split_and!; try done. cbn. rewrite indexed_file_app. by eexists.
  - done.
  - intros id rs hint target _ _. apply index_seek_ok.
Qed.

#[export] Instance indexed_reopen : SstReopenLaws.
Proof.
  split.
  - intros id rs hint (Hsz & _ & _). cbn [write_to_file indexed_codec fst snd read_footer meta_index meta_index_offset meta_bloom meta_bloom_offset indexed_meta].
    unfold indexed_footer. rewrite indexed_file_app. assert (blen (wal_wires rs ++ replicate 16 Byte.x00) - 16 = blen (wal_wires rs)) as -> by zlia.
    rewrite take_app_blen by (unfold blen; lia). by rewrite recover_file_wires by (eapply Forall_impl; [exact Hsz|cbn; lia]).
  - intros id rs hint _. cbn [write_to_file indexed_codec snd]. rewrite indexed_file_app. zlia.
Qed.
