(* ===== verification/CoreTests.v ===== *)
(** * The unit tests of logregator-core, run on the model

    The tests in iter.rs, engine.rs, memtable.rs and wal.rs, as functions that
    are true when every assertion of the test holds; the lemmas at the end of
    each section run them. Files are byte lists, temporary directories an
    empty file system. The tests that write an SST with an index run on the
    format of CoreIndexed.v. *)
From S2P Require Import Prelude Std Text Codec CoreProto CoreStorage CoreIter CoreEngine CoreBackend CoreFiles CoreIndexed.

(** ** Assertions *)

Definition rec (sid ts seq : Z) (k v : String.string) : CoreRecord := from_raw_parts sid ts seq (str k) (str v).
(** [.unwrap()] and a condition; [.is_err()] *)
Definition ok_and {E A} (o : outcome E A) (p : A -> bool) : bool := match o with Ok a => p a | _ => false end.
Definition is_err {E A} (o : outcome E A) : bool := match o with Err _ => true | _ => false end.
Definition ts_is (t : Z) (r : CoreRecord) : bool := ok_and (extract_timestamp r) (Z.eqb t).
Definition seq_is (n : Z) (r : CoreRecord) : bool := ok_and (extract_seq_num r) (Z.eqb n).
Definition sid_is (n : Z) (r : CoreRecord) : bool := ok_and (extract_source_id r) (Z.eqb n).
Definition value_is (v : String.string) (r : CoreRecord) : bool := ok_and (extract_value r) (fun b => bool_decide (b = str v)).
Definition key_is (k : String.string) (r : CoreRecord) : bool := ok_and (extract_key r) (fun b => bool_decide (b = str k)).
Definition len_is {A} (n : nat) (l : list A) : bool := (length l =? n)%nat.
(** the timestamps in order *)
Definition tss_are (l : list Z) (rs : list CoreRecord) : bool := len_is (length l) rs && forallb (fun p => ts_is p.1 p.2) (combine l rs).
Definition nth_is (i : nat) (p : CoreRecord -> bool) (rs : list CoreRecord) : bool := match rs !! i with Some r => p r | None => false end.

(** [iter.collect()] *)
Fixpoint ri_collect (fuel : nat) (it : RecordIter) : outcome io_error (list CoreRecord) :=
  match fuel with
  | O => Panic
  | S fuel =>
      match record_iter_next it with
      | (it, Ok (Some r)) => rs ← ri_collect fuel it; Ok (r :: rs)
      | (_, Ok None) => Ok []
      | (_, Err e) => Err e
      | (_, Panic) => Panic
      end
  end.

(** ** iter.rs: [sstable_iter_tests] *)

Definition make_meta (end_pos : Z) : SSTableMeta := Build_SSTableMeta _ 0 tt end_pos [] end_pos 0 end_pos.
Definition write_sstable (records : list CoreRecord) : list byte := wal_wires records.
Definition collect_filtered (meta : SSTableMeta) (file : list byte) (sid : Z) (key : String.string) (s e : Z) : outcome io_error (list CoreRecord) :=
  it ← sif_new (Some file) meta sid (str key) s e [];
  ri_collect 100 (Filtered it).
Definition collect_plain (records : list CoreRecord) (s e : Z) : outcome io_error (list CoreRecord) :=
  collect_filtered (make_meta (blen (write_sstable records))) (write_sstable records) 1 "sys" s e.

Definition test_iter_all_in_range : bool :=
  ok_and (collect_plain [rec 1 10 0 "sys" "a"; rec 1 20 0 "sys" "b"; rec 1 30 0 "sys" "c"] 10 40) (tss_are [10; 20; 30]).
Definition test_iter_skip_before_start : bool :=
  ok_and (collect_plain [rec 1 5 0 "sys" "too_early"; rec 1 10 0 "sys" "a"; rec 1 20 0 "sys" "b"] 10 30) (tss_are [10; 20]).
Definition test_iter_stop_at_end : bool :=
  ok_and (collect_plain [rec 1 10 0 "sys" "a"; rec 1 20 0 "sys" "b"; rec 1 30 0 "sys" "past_end"] 10 20) (tss_are [10]).
Definition test_iter_empty_range : bool := ok_and (collect_plain [rec 1 10 0 "sys" "a"] 10 10) (len_is 0).
Definition test_iter_empty_file : bool := ok_and (collect_plain [] 0 100) (len_is 0).
Definition test_iter_single_record : bool :=
  ok_and (collect_plain [rec 1 50 0 "sys" "loner"] 0 100) (fun c => len_is 1 c && nth_is 0 (value_is "loner") c).
Definition test_iter_range_before_first_record : bool := ok_and (collect_plain [rec 1 20 0 "sys" "a"] 0 10) (len_is 0).
Definition test_iter_validation : bool :=
  is_err (sif_new (Some []) (make_meta 0) 1 (str "sys") 10 5 []) && is_err (sif_new (Some []) (make_meta 0) 1 (str "sys") (-1) 10 []).
Definition test_iter_source_id_boundary : bool :=
  ok_and (collect_plain [rec 1 10 0 "sys" "a"; rec 1 20 0 "sys" "b"; rec 2 10 0 "sys" "other_source"] 0 100)
    (fun c => len_is 2 c && forallb (sid_is 1) c).

(** what [binary_seek] has to do *)
Definition test_index_binary_seek_empty : bool := index_seek [] (rec 1 100 0 "sys" "") =? 0.
Definition two_entries : list IndexEntry :=
  index_try_insert 16 (rec 1 200 10 "sys" "v") 128 (index_try_insert 0 (rec 1 100 5 "sys" "v") 42 []).
Definition one_entry : list IndexEntry := index_try_insert 0 (rec 1 100 5 "sys" "v") 42 [].
Definition test_index_binary_seek_exact_match : bool := index_seek two_entries (rec 1 100 0 "sys" "") =? 42.
Definition test_index_binary_seek_between_entries : bool := index_seek two_entries (rec 1 150 0 "sys" "") =? 42.
Definition test_index_binary_seek_before_all : bool := index_seek one_entry (rec 1 50 0 "sys" "") =? 0.
Definition test_index_binary_seek_after_all : bool := index_seek one_entry (rec 1 200 0 "sys" "") =? 42.
Definition test_index_binary_seek_ignores_seq_num : bool :=
  index_seek (index_try_insert 16 (rec 1 116 25 "sys" "v") 200 []) (rec 1 116 0 "sys" "") =? 200.
Definition test_index_binary_seek_different_source_id : bool := index_seek one_entry (rec 2 100 0 "sys" "") =? 42.

(** [write_indexed_sstable], and reading it *)
Definition collect_indexed (records : list CoreRecord) (sid s e : Z) : outcome io_error (list CoreRecord) :=
  let '(meta, file) := write_to_file 1 records (blen records) in collect_filtered meta file sid "sys" s e.
(** [(0..n).map(|i| ...)] *)
Definition val_records (n : Z) (sid ts : Z -> Z) : list CoreRecord :=
  map (fun i => from_raw_parts (sid i) (ts i) i (str "sys") (str "val" ++ fmt_uint i)) (seqZ 0 n).
Definition recs33 (first : Z) : list CoreRecord := val_records 33 (fun _ => 1) (fun i => first + i).
Definition in_ts (s e : Z) (r : CoreRecord) : bool := ok_and (extract_timestamp r) (fun t => (s <=? t) && (t <? e)).

Definition test_iter_real_index_returns_all_records : bool :=
  negb (len_is 0 (index_of (recs33 0))) && ok_and (collect_indexed (recs33 0) 1 0 100) (len_is 33).
Definition test_iter_real_index_skips_early_records : bool :=
  (2 <=? blen (index_of (recs33 100))) && ok_and (collect_indexed (recs33 100) 1 116 120) (fun c => len_is 4 c && forallb (in_ts 116 120) c).
Definition test_iter_real_index_skips_early_records_different_source : bool :=
  ok_and (collect_indexed (val_records 48 (fun i => if i <? 16 then 1 else 2) (fun i => 100 + i)) 2 116 120)
    (fun c => len_is 4 c && forallb (fun r => sid_is 2 r && in_ts 116 120 r) c).
Definition test_iter_real_index_range_before_start : bool := ok_and (collect_indexed (recs33 100) 1 0 50) (len_is 0).
Definition test_iter_real_index_range_after_end : bool := ok_and (collect_indexed (recs33 100) 1 200 300) (len_is 0).

Lemma sstable_iter_tests_pass : forallb id
  [test_iter_all_in_range; test_iter_skip_before_start; test_iter_stop_at_end; test_iter_empty_range; test_iter_empty_file;
   test_iter_single_record; test_iter_range_before_first_record; test_iter_validation; test_iter_source_id_boundary;
   test_index_binary_seek_empty; test_index_binary_seek_exact_match; test_index_binary_seek_between_entries;
   test_index_binary_seek_before_all; test_index_binary_seek_after_all; test_index_binary_seek_ignores_seq_num;
   test_index_binary_seek_different_source_id; test_iter_real_index_returns_all_records; test_iter_real_index_skips_early_records;
   test_iter_real_index_skips_early_records_different_source; test_iter_real_index_range_before_start;
   test_iter_real_index_range_after_end] = true.
Proof. vm_compute. reflexivity. Qed.

(** ** iter.rs: [sstable_scanner_tests] *)

Definition scan_all (records : list CoreRecord) (end_pos : Z) : outcome io_error (list CoreRecord) :=
  it ← siu_new (Some (write_sstable records)) (make_meta end_pos);
  ri_collect 100 (Unfiltered it).
Definition scan (records : list CoreRecord) : outcome io_error (list CoreRecord) := scan_all records (blen (write_sstable records)).

Definition test_scanner_all_records : bool := ok_and (scan [rec 1 10 0 "sys" "a"; rec 1 20 0 "sys" "b"; rec 2 30 0 "db" "c"]) (len_is 3).
Definition test_scanner_empty_file : bool := ok_and (scan_all [] 0) (len_is 0).
Definition test_scanner_single_record : bool :=
  ok_and (scan [rec 1 50 0 "sys" "loner"]) (fun c => len_is 1 c && nth_is 0 (value_is "loner") c).
Definition test_scanner_stops_at_bloom_offset : bool := ok_and (scan [rec 1 10 0 "sys" "a"; rec 1 20 0 "sys" "b"]) (len_is 2).
Definition test_scanner_multiple_source_ids : bool :=
  ok_and (scan [rec 1 10 0 "sys" "a"; rec 2 20 0 "db" "b"; rec 1 30 0 "web" "c"; rec 3 40 0 "cache" "d"]) (len_is 4).

Lemma sstable_scanner_tests_pass : forallb id
  [test_scanner_all_records; test_scanner_empty_file; test_scanner_single_record; test_scanner_stops_at_bloom_offset;
   test_scanner_multiple_source_ids] = true.
Proof. vm_compute. reflexivity. Qed.

(** ** iter.rs: [merge_iter_tests] *)

Definition merge_all (mem : option IntoIterFiltered) (ssts : list RecordIter) : outcome io_error (list CoreRecord) :=
  m ← core_merge_new (H := list_heap CoreHeapItem) mem ssts;
  core_merge_collect 100 100 m.
Definition mem_iter (rs : list CoreRecord) (sid : Z) (key filter : String.string) : option IntoIterFiltered :=
  Some (iif_new rs sid (str key) 0 100 (str filter)).

Definition test_merge_memtable_only : bool :=
  ok_and (merge_all (mem_iter [rec 1 10 0 "sys" "a"; rec 1 20 0 "sys" "b"] 1 "sys" "") []) (len_is 2).
Definition test_merge_sstable_only : bool :=
  ok_and (merge_all None [Inmem [rec 1 10 0 "sys" "a"; rec 1 20 0 "sys" "b"]]) (len_is 2).
Definition test_merge_memtable_and_sstable : bool :=
  ok_and (merge_all (mem_iter [rec 1 5 0 "sys" "early"; rec 1 25 0 "sys" "late"] 1 "sys" "")
            [Inmem [rec 1 10 0 "sys" "mid"; rec 1 20 0 "sys" "mid2"]]) (tss_are [5; 10; 20; 25]).
Definition test_merge_multiple_sstables : bool :=
  ok_and (merge_all None [Inmem [rec 1 10 0 "sys" "a"; rec 1 30 0 "sys" "c"]; Inmem [rec 1 20 0 "sys" "b"; rec 1 40 0 "sys" "d"]])
    (tss_are [10; 20; 30; 40]).
Definition test_merge_dedup : bool :=
  ok_and (merge_all None [Inmem [rec 1 10 0 "sys" "dup"; rec 1 30 0 "sys" "c"]; Inmem [rec 1 10 0 "sys" "dup"; rec 1 20 0 "sys" "b"]])
    (tss_are [10; 20; 30]).
Definition test_merge_empty_sstables : bool := ok_and (merge_all None []) (len_is 0).
Definition test_merge_memtable_only_no_matches : bool :=
  ok_and (merge_all (mem_iter [rec 1 10 0 "sys" "a"; rec 1 20 0 "sys" "b"] 2 "other" "") []) (len_is 0).
Definition test_merge_memtable_filter_matches_subset : bool :=
  ok_and (merge_all (mem_iter [rec 1 10 0 "sys" "cpu normal"; rec 1 20 0 "sys" "mem high"; rec 1 30 0 "sys" "disk full";
                               rec 1 40 0 "sys" "memory leak"] 1 "sys" "mem") [])
    (fun c => len_is 2 c && forallb (fun r => value_is "mem high" r || value_is "memory leak" r) c).
Definition test_merge_memtable_filter_no_match : bool :=
  ok_and (merge_all (mem_iter [rec 1 10 0 "sys" "cpu normal"; rec 1 20 0 "sys" "mem high"] 1 "sys" "nonexistent") []) (len_is 0).
Definition test_merge_memtable_filter_with_sstable : bool :=
  ok_and (merge_all (mem_iter [rec 1 5 0 "sys" "early"; rec 1 25 0 "sys" "late"] 1 "sys" "late")
            [Inmem [rec 1 10 0 "sys" "mid"; rec 1 20 0 "sys" "mid2"]]) (tss_are [10; 20; 25]).

Lemma merge_iter_tests_pass : forallb id
  [test_merge_memtable_only; test_merge_sstable_only; test_merge_memtable_and_sstable; test_merge_multiple_sstables; test_merge_dedup;
   test_merge_empty_sstables; test_merge_memtable_only_no_matches; test_merge_memtable_filter_matches_subset;
   test_merge_memtable_filter_no_match; test_merge_memtable_filter_with_sstable] = true.
Proof. vm_compute. reflexivity. Qed.

(** ** memtable.rs: [tests] *)

(** [MemTable::get], for the tests: the last record of that key among those
    of the source and timestamp *)
Fixpoint take_while {A} (p : A -> bool) (l : list A) : list A :=
  match l with x :: rest => if p x then x :: take_while p rest else [] | [] => [] end.
Definition memtable_get (sid ts : Z) (key : String.string) (m : MemTable) : outcome io_error (option CoreRecord) :=
  from ← bset_range sort_key (Included (sort_key (rec sid ts 0 key ""))) Unbounded (cmt_bset m);
  Ok (last (List.filter (key_is key) (take_while (fun r => sid_is sid r && ts_is ts r) from))).

(** [mt.insert] of several records; the answers *)
Fixpoint mt_inserts (rs : list CoreRecord) : st MemTable io_error (list bool) :=
  match rs with
  | [] => mret []
  | r :: rest => b ← core_memtable_insert r; bs ← mt_inserts rest; mret (b :: bs)
  end.
Definition with_memtable (limit : Z) (rs : list CoreRecord) (p : MemTable -> list bool -> bool) : bool :=
  match mt_inserts rs (core_memtable_new limit) with (m, Ok bs) => p m bs | _ => false end.
Definition got (o : outcome io_error (option CoreRecord)) (p : CoreRecord -> bool) : bool :=
  ok_and o (fun x => match x with Some r => p r | None => false end).
Definition got_none (o : outcome io_error (option CoreRecord)) : bool := ok_and o (fun x => match x with Some _ => false | None => true end).

Definition test_memtable_put_and_get : bool :=
  with_memtable 1024 [rec 1 1 0 "log_1" "error on line 42"; rec 1 2 0 "log_2" "user logged in"] (fun m _ =>
    got (memtable_get 1 1 "log_1" m) (value_is "error on line 42") && got_none (memtable_get 1 3 "log_3" m)).
Definition test_memtable_maintains_strict_ordering : bool :=
  with_memtable 1024 [rec 1 102 0 "c_log" "third"; rec 1 100 0 "a_log" "first"; rec 1 101 0 "b_log" "second"] (fun m _ =>
    let iter := cmt_bset m in nth_is 0 (ts_is 100) iter && nth_is 1 (key_is "b_log") iter && nth_is 2 (key_is "c_log") iter && len_is 3 iter).
Definition test_memtable_size_tracking_and_overwrite : bool :=
  let rec1 := rec 1 100 0 "sys_metric" "cpu: 45%" in
  let rec2 := rec 1 100 1 "sys_metric" "cpu: 45%, mem: 80%" in
  (cmt_sz (core_memtable_new 1024) =? 0) && with_memtable 1024 [rec1] (fun m _ => cmt_sz m =? core_record_len rec1) &&
  with_memtable 1024 [rec1; rec2] (fun m _ =>
    (cmt_sz m =? core_record_len rec1 + core_record_len rec2) && got (memtable_get 1 100 "sys_metric" m) (value_is "cpu: 45%, mem: 80%")).
Definition test_memtable_capacity_trigger : bool :=
  with_memtable 100 [rec 1 1 0 "a" "x"; rec 1 2 0 "b" "y"; rec 1 3 0 "c" "this_is_a_massive_string_that_will_overflow_the_limit"]
    (fun _ bs => bool_decide (bs = [false; false; true])).
Definition test_memtable_clear : bool :=
  with_memtable 1024 [rec 1 1 0 "k1" "v1"] (fun m _ =>
    (0 <? cmt_sz m) &&
    let m := core_memtable_clear m in (cmt_sz m =? 0) && got_none (memtable_get 1 1 "k1" m) && len_is 0 (cmt_bset m)).

Lemma memtable_tests_pass : forallb id
  [test_memtable_put_and_get; test_memtable_maintains_strict_ordering; test_memtable_size_tracking_and_overwrite;
   test_memtable_capacity_trigger; test_memtable_clear] = true.
Proof. vm_compute. reflexivity. Qed.

(** ** wal.rs: [tests] *)

#[local] Instance test_names : FileNames := {| sst_name id := fmt_uint_pad 10 id ++ str ".sst"; read_order l := l |}.
Definition test_dir : path := [str "tmp"].

(** opening the active log, writing, and recovering; dropping the writer
    flushes it, as [flush_buffer] does *)
Definition write_and_recover (entries : list CoreRecord) : outcome io_error (list CoreRecord) :=
  match (_ ← create_dir_all (wal_dir test_dir); core_wal_open_active test_dir) ∅ with
  | (fs, Ok wal) =>
      match (_ ← wal_write_many entries; wal_flush_buffer) wal with
      | (wal, Ok _) => (wal_recover_all test_dir (<[format_active_wal_path test_dir := File (bw_inner wal)]> fs)).2
      | (_, Err e) => Err e
      | (_, Panic) => Panic
      end
  | (_, Err e) => Err e
  | (_, Panic) => Panic
  end.
(** equal in the order of records *)
Definition same_record (a b : CoreRecord) : bool := ok_and (core_record_cmp a b) (fun c => match c with Eq => true | _ => false end).
Definition same_records (l k : list CoreRecord) : bool := len_is (length k) l && forallb (fun p => same_record p.1 p.2) (combine l k).

Definition test_wal_persistence : bool :=
  let entry := rec 1 12345 0 "user_1" "login_event" in ok_and (write_and_recover [entry]) (same_records [entry]).
Definition test_wal_ordering : bool :=
  let entries := [rec 1 1 0 "a" "v1"; rec 1 2 0 "b" "v2"; rec 1 3 0 "c" "v3"] in ok_and (write_and_recover entries) (same_records entries).

Lemma wal_tests_pass : forallb id [test_wal_persistence; test_wal_ordering] = true.
Proof. vm_compute. reflexivity. Qed.

(** ** engine.rs: [tests] *)

Abbreviation TestEngine := (Engine (list byte)).
Definition open_engine (limit : Z) : FileSys * outcome io_error TestEngine :=
  let '(fs, o) := open_dir test_dir limit ∅ in (fs, match o with Ok (e, _) => Ok e | Err e => Err e | Panic => Panic end).
(** a fresh engine, what is done to it, and a check of the outcome *)
Definition on_fresh {A} (limit : Z) (ops : st TestEngine io_error A) (p : A -> TestEngine -> bool) : bool :=
  ok_and (open_engine limit).2 (fun e => match ops e with (e, Ok a) => p a e | _ => false end).
Definition ins (ts : Z) (k v : String.string) : st TestEngine io_error bool := insert_record 1 ts (str k) (str v).
Fixpoint ins_all (l : list (Z * String.string * String.string)) : st TestEngine io_error unit :=
  match l with
  | [] => mret tt
  | (ts, k, v) :: rest => _ ← ins ts k v; ins_all rest
  end.
(** [engine.range(1, ...).unwrap().collect()]; no SST is written in these tests *)
Definition range_collect (key : String.string) (s e : Z) (filter : String.string) (en : TestEngine) : outcome io_error (list CoreRecord) :=
  m ← engine_range (H := list_heap CoreHeapItem) ∅ 1 (str key) s e (str filter) en;
  core_merge_collect 100 100 m.
Definition range_is (key : String.string) (s e : Z) (filter : String.string) (en : TestEngine) (p : list CoreRecord -> bool) : bool :=
  ok_and (range_collect key s e filter en) p.
Definition make_insert (ts : Z) (k v : String.string) : Insert := {| ins_source_id := 1; ins_ts := ts; ins_key := str k; ins_value := str v |}.
Definition has_ts (t : Z) (rs : list CoreRecord) : bool := existsb (ts_is t) rs.
Definition has_ts_value (t : Z) (v : String.string) (rs : list CoreRecord) : bool := existsb (fun r => ts_is t r && value_is v r) rs.

Definition test_engine_initialization : bool :=
  let '(fs, o) := open_engine 1024 in
  bool_decide (fs !! test_dir = Some SubDir) && bool_decide (fs !! format_active_wal_path test_dir = Some (File [])) &&
  ok_and o (fun e => e_sst_counter e =? 1).
Definition test_engine_range_validation : bool :=
  on_fresh 1024 (mret tt) (fun _ e => is_err (range_collect "sys" 10 5 "" e) && is_err (range_collect "sys" (-1) 10 "" e)).
Definition test_engine_range_no_matches : bool :=
  on_fresh 1024 (ins 10 "sys" "cpu normal") (fun _ e =>
    range_is "other" 5 15 "" e (len_is 0) && range_is "sys" 20 30 "" e (len_is 0) && range_is "sys" 10 10 "" e (len_is 0)).
Definition test_engine_range_in_memtable_only : bool :=
  on_fresh 1024 (ins_all [(10, "sys", "cpu normal"); (20, "sys", "mem high"); (30, "sys", "disk full")]%string) (fun _ e =>
    range_is "sys" 15 35 "" e (fun r => len_is 2 r && has_ts_value 20 "mem high" r && has_ts_value 30 "disk full" r)).
Definition test_engine_range_start_inclusive_end_exclusive : bool :=
  on_fresh 1024 (ins_all [(10, "sys", "cpu normal"); (20, "sys", "mem high")]%string) (fun _ e =>
    range_is "sys" 10 20 "" e (tss_are [10]) && range_is "sys" 10 30 "" e (len_is 2)).
Definition test_engine_range_key_filtering : bool :=
  on_fresh 50 (ins_all [(10, "sys", "cpu normal"); (20, "db", "query slow"); (30, "sys", "flush_trigger_01"); (40, "db", "connection lost")]%string)
    (fun _ e => range_is "sys" 0 100 "" e (fun r => len_is 2 r && forallb (key_is "sys") r) &&
                range_is "db" 0 100 "" e (fun r => len_is 2 r && forallb (key_is "db") r)).
Definition test_engine_range_across_sstables : bool :=
  on_fresh 50 (ins_all [(10, "sys", "cpu normal"); (20, "sys", "mem high"); (30, "sys", "flush_trigger_01"); (40, "sys", "disk full");
                        (50, "sys", "all good")]%string)
    (fun _ e => range_is "sys" 20 45 "" e (fun r => len_is 3 r && has_ts 20 r && has_ts 30 r && has_ts 40 r)).
Definition test_engine_range_overlapping_sstables : bool :=
  on_fresh 50 (ins_all [(15, "sys", "first flush"); (25, "sys", "flush_trigger_01"); (20, "sys", "second flush entry");
                        (45, "sys", "flush_trigger_02")]%string)
    (fun _ e => range_is "sys" 20 30 "" e (tss_are [20; 25])).
Definition test_engine_range_memtable_and_sstables : bool :=
  on_fresh 50 (ins_all [(10, "sys", "flushed"); (20, "sys", "flush_trigger_01"); (30, "sys", "in memtable")]%string)
    (fun _ e => range_is "sys" 5 35 "" e (fun r => len_is 3 r && has_ts_value 10 "flushed" r && has_ts 20 r && has_ts_value 30 "in memtable" r)).
Definition test_engine_flush_trigger : bool :=
  on_fresh 50 (_ ← ins 1 "k1" "small"; ins 2 "k2" "this_is_a_massive_payload_to_force_a_flush") (fun needs_flush _ => needs_flush).

Definition batch3 (v1 v2 v3 : String.string) : list Insert := [make_insert 10 "sys" v1; make_insert 20 "sys" v2; make_insert 30 "sys" v3].
Definition test_engine_batch_insert_basic : bool :=
  on_fresh 1024 (batch_insert_records (batch3 "cpu normal" "mem high" "disk full")) (fun _ e => range_is "sys" 0 100 "" e (tss_are [10; 20; 30])).
Definition test_engine_batch_insert_seq_nums : bool :=
  ok_and (open_engine 1024).2 (fun e0 =>
    on_fresh 1024 (batch_insert_records (batch3 "a" "b" "c")) (fun _ e =>
      (e_seq_counter e =? e_seq_counter e0 + 3) &&
      range_is "sys" 0 100 "" e (fun r => len_is 3 r && forallb (fun p => seq_is (e_seq_counter e0 + p.1) p.2) (combine [0; 1; 2] r)))).
Definition test_engine_batch_insert_flush_trigger : bool :=
  on_fresh 100 (batch_insert_records [make_insert 1 "sys" "x"; make_insert 2 "sys" "this_is_a_massive_payload_to_force_a_flush"]) (fun b _ => b).
Definition test_engine_batch_insert_with_range : bool :=
  on_fresh 50 (_ ← batch_insert_records [make_insert 5 "sys" "first"; make_insert 10 "sys" "second"]; ins 15 "sys" "third")
    (fun _ e => range_is "sys" 0 20 "" e (tss_are [5; 10; 15])).
Definition test_engine_batch_insert_multiple_batches : bool :=
  on_fresh 1024 (_ ← batch_insert_records [make_insert 10 "sys" "batch1_a"; make_insert 20 "sys" "batch1_b"];
                 batch_insert_records [make_insert 30 "sys" "batch2_a"; make_insert 40 "sys" "batch2_b"])
    (fun _ e => range_is "sys" 0 100 "" e (fun r => len_is 4 r && existsb (value_is "batch1_a") r && existsb (value_is "batch2_b") r)).
Definition three_records : list (Z * String.string * String.string) :=
  [(10, "sys", "cpu normal"); (20, "sys", "mem high"); (30, "sys", "disk full")]%string.
Definition test_engine_range_filter_empty_returns_all : bool :=
  on_fresh 1024 (ins_all three_records) (fun _ e => range_is "sys" 0 100 "" e (len_is 3)).
Definition test_engine_range_filter_partial_match : bool :=
  on_fresh 1024 (ins_all [(10, "sys", "cpu normal"); (20, "sys", "mem high pressure"); (30, "sys", "disk full"); (40, "sys", "memory leak detected")]%string)
    (fun _ e => range_is "sys" 0 100 "mem" e
      (fun r => len_is 2 r && forallb (fun x => value_is "mem high pressure" x || value_is "memory leak detected" x) r)).
Definition test_engine_range_filter_no_match : bool :=
  on_fresh 1024 (ins_all (take 2 three_records)) (fun _ e => range_is "sys" 0 100 "nonexistent" e (len_is 0)).
Definition test_engine_range_filter_works_across_tiers : bool :=
  on_fresh 50 (ins_all [(10, "sys", "cpu normal"); (20, "sys", "first flush trigger"); (30, "sys", "disk full")]%string)
    (fun _ e => range_is "sys" 0 100 "" e (len_is 3) && range_is "sys" 0 100 "cpu" e (len_is 1) && range_is "sys" 0 100 "nonexistent" e (len_is 0)).

Lemma engine_tests_pass : forallb id
  [test_engine_initialization; test_engine_range_validation; test_engine_range_no_matches; test_engine_range_in_memtable_only;
   test_engine_range_start_inclusive_end_exclusive; test_engine_range_key_filtering; test_engine_range_across_sstables;
   test_engine_range_overlapping_sstables; test_engine_range_memtable_and_sstables; test_engine_flush_trigger;
   test_engine_batch_insert_basic; test_engine_batch_insert_seq_nums; test_engine_batch_insert_flush_trigger;
   test_engine_batch_insert_with_range; test_engine_batch_insert_multiple_batches; test_engine_range_filter_empty_returns_all;
   test_engine_range_filter_partial_match; test_engine_range_filter_no_match; test_engine_range_filter_works_across_tiers] = true.
Proof. vm_compute. reflexivity. Qed.
