(* ===== verification/CoreServerTests.v ===== *)
(** * The integration tests of logregator-core/src/server.rs, run on the model

    The whole path: the runtime is spawned on an empty directory, a client
    sends its calls over a connection, the handler decodes them and asks the
    backend, the I/O worker does what it was sent, and the client decodes the
    answers. The text of an error is left out of the model, so the test of an
    invalid range checks that it is refused. *)
From S2P Require Import Prelude Std Text Float Metrics Codec CoreProto CoreStorage CoreIter CoreEngine CoreBackend CoreServer CoreRuntime CoreSession CoreIndexed CoreTests.

(** ** The parameters *)

(** a histogram that keeps every value *)
#[local] Instance test_hist : HdrHist := {|
  Hist := list Z; hist_new _ _ _ := []; hist_record v h := Some (v :: h); hist_is_empty h := len_is 0 h;
  hist_min h := foldr Z.min 0 h; hist_value_at_percentile _ h := foldr Z.max 0 h; hist_max h := foldr Z.max 0 h;
  hist_mean _ := f64_of_Z 0; hist_stdev _ := f64_of_Z 0; hist_len h := blen h
|}.
Definition test_env : SpawnEnv (list byte) :=
  {| env_dir _ := Ok empty_dir; env_syncer _ := true; env_parse_addr a := Some a; env_bind a := Some a |}.

(** ** [setup] *)

Definition test_builder (limit : option Z) : RuntimeBuilder :=
  let b := rb_set_channel_capacity 64 (rb_set_server_addr (str "127.0.0.1:0") (rb_set_data_dir (str "data") runtime_builder_new)) in
  match limit with Some n => rb_set_memtable_limit_bytes n b | None => b end.
(** the backend task of the runtime, in its loop *)
Definition setup_backend (limit : option Z) : option Backend :=
  match runtime_spawn test_env (test_builder limit) [] with
  | ([TaskIoWorker _; TaskBackend b _; TaskServer _], Ok _) => Some (engine_loop_start true b).1
  | _ => None
  end.

(** the worker takes one command; the loop takes the result of its task *)
Definition worker_turn (b : Backend) : Backend :=
  match io_cmds b with
  | FlushMemtable m id :: rest =>
      let '(meta, file) := handle_flush m id in
      turn_result (FlushResult meta) (b_with_ssts (b_with_cmds b rest) (<[id := file]> (d_ssts b)))
  | _ :: rest => b_with_cmds b rest
  | [] => b
  end.
(** until it has nothing left to do: the test's 100 ms *)
Fixpoint worker_idle (fuel : nat) (b : Backend) : Backend :=
  match fuel with O => b | S fuel => worker_idle fuel (worker_turn b) end.

(** calls of a client, one connection, with the handler of the server *)
Definition test_service : EngineService Backend :=
  backend_service (Heap := list_heap CoreHeapItem) true 100 (fun _ => str "error") (str "{}").
Definition client_calls (calls : list ClientCall) (b : Backend) : Backend * outcome io_error (list ClientReply) :=
  match client_send_all calls {| cl_sent := []; cl_recv := [] |} with
  | (c, Ok _) =>
      let '(conn, o) := accept_conn (H := test_service) (cl_sent c) (Build_ServerMetrics 0 0 0 0) b in
      (cn_engine conn, match o with Ok _ => (client_receive_all calls {| cl_sent := []; cl_recv := cn_out conn |}).2 | Err e => Err e | Panic => Panic end)
  | (_, Err e) => (b, Err e)
  | (_, Panic) => (b, Panic)
  end.

Definition on_setup (limit : option Z) (calls : list ClientCall) (p : list ClientReply -> bool) : bool :=
  match setup_backend limit with Some b => ok_and (client_calls calls b).2 p | None => false end.
Definition call_insert (ts : Z) (v : String.string) : ClientCall := CallInsert (make_insert ts "sys" v).
Definition call_range (key : String.string) (s e : Z) : ClientCall :=
  CallRange {| rng_source_id := 1; rng_key := str key; rng_start_ts := s; rng_end_ts := e; rng_filter := [] |}.
(** the last answer is a list of records *)
Definition last_records (p : list ProtoRecord -> bool) (replies : list ClientReply) : bool :=
  match last replies with Some (CrRecords rs) => p rs | _ => false end.
Definition all_done (replies : list ClientReply) : bool := forallb (fun r => match r with CrDone => true | _ => false end) replies.

(** ** The tests *)

Definition test_insert_then_range : bool :=
  on_setup None [call_insert 100 "cpu normal"; call_range "sys" 0 200] (fun r => all_done (take 1 r) && last_records (fun rs =>
    match rs with [x] => (pr_ts x =? 100) && bool_decide (pr_key x = str "sys") && bool_decide (pr_value x = str "cpu normal") | _ => false end) r).
Definition test_range_empty : bool := on_setup None [call_range "nonexistent" 0 100] (last_records (len_is 0)).
Definition test_range_invalid_ts : bool :=
  on_setup None [call_range "sys" 100 0] (fun r => match r with [CrRefused _] => true | _ => false end).
(** the flush has been done when the range is asked for: the records are in
    an SST, and the memtable is empty *)
Definition test_insert_flush_then_range : bool :=
  match setup_backend (Some 80) with
  | Some b =>
      match client_calls [call_insert 10 "small"; call_insert 20 "large_payload_to_force_flush"] b with
      | (b, Ok r) =>
          let b := worker_idle 10 b in
          all_done r && is_memtable_empty (b_engine b) && (sstable_count (b_engine b) =? 1) &&
          ok_and (client_calls [call_range "sys" 0 100] b).2 (last_records (fun rs => bool_decide (map pr_ts rs = [10; 20])))
      | _ => false
      end
  | None => false
  end.
Definition test_multiple_inserts_range_subset : bool :=
  on_setup None (map (fun i => CallInsert {| ins_source_id := 1; ins_ts := i * 10; ins_key := str "sys"; ins_value := str "val_" ++ fmt_uint i |}) (seqZ 0 10) ++
                 [call_range "sys" 20 60]) (fun r => all_done (take 10 r) && last_records (len_is 4) r).

Lemma server_tests_pass : forallb id
  [test_insert_then_range; test_range_empty; test_range_invalid_ts; test_insert_flush_then_range; test_multiple_inserts_range_subset] = true.
Proof. vm_compute. reflexivity. Qed.
