(* ===== verification/Mem.v ===== *)
(** * The memory profiler: logregator-tools/src/mem.rs

    What is read from [/proc/self/status], the task that samples it into a
    bounded channel, and the report. [MemText] has its printed form. *)
From S2P Require Import Prelude Std Text Float Metrics.

Record MemSample := { elapsed_secs : f64; rss_kb : Z; vms_kb : Z; data_kb : Z }.
Record EngineSample := { es_elapsed_secs : f64; es_memtable : Z; es_sst_count : Z; es_rss : Z; es_delta : Z }.
Record MemReport := {
  rss_values : list Z; rss_min : Z; rss_max : Z; rss_avg : Z; rss_sum : Z; rss_last : Z;
  mr_duration : f64; growth_rate_kb : f64; growth_rate_mb : f64; mr_sample_size : Z; mr_engine_samples : list EngineSample
}.

(** ** [read_vm_rss] *)

(** the first word as a number, or 0 *)
Definition vm_value (val : list byte) : Z :=
  default 0 (match split_whitespace val with w :: _ => parse_uint u64_max w | [] => None end).

Definition vm_line (acc : Z * Z * Z) (line : list byte) : Z * Z * Z :=
  let '(rss, vms, data) := acc in
  match strip_prefix (str "VmRSS:") line with
  | Some val => (vm_value val, vms, data)
  | None =>
      match strip_prefix (str "VmSize:") line with
      | Some val => (rss, vm_value val, data)
      | None =>
          match strip_prefix (str "VmData:") line with
          | Some val => (rss, vms, vm_value val)
          | None => acc
          end
      end
  end.

(** [None]: the file cannot be read *)
Definition read_vm_rss (status : option (list byte)) : Z * Z * Z :=
  match status with
  | None => (0, 0, 0)
  | Some s => foldl vm_line (0, 0, 0) (str_lines s)
  end.

(** ** The sampling task *)

Definition SAMPLE_CAPACITY : nat := Z.to_nat 10000.

(** the task waits for a tick or for [stop]; [stop] waits for the task and
    then empties the channel *)
Inductive ProfPhase := Sampling | Stopping | Finished.
Record Profiler := { pr_queue : list MemSample; pr_phase : ProfPhase; pr_result : option (list MemSample) }.

Definition profiler_start : Profiler := {| pr_queue := []; pr_phase := Sampling; pr_result := None |}.

(** [try_send] skips the sample when the channel is full; [send] waits *)
Definition try_send (s : MemSample) (q : list MemSample) : list MemSample :=
  if decide (length q < SAMPLE_CAPACITY)%nat then q ++ [s] else q.

Inductive prof_step : Profiler -> Profiler -> Prop :=
| prof_tick q s : prof_step (Build_Profiler q Sampling None) (Build_Profiler (try_send s q) Sampling None)
| prof_notified q : prof_step (Build_Profiler q Sampling None) (Build_Profiler q Stopping None)
| prof_last q s : (length q < SAMPLE_CAPACITY)%nat ->
    prof_step (Build_Profiler q Stopping None) (Build_Profiler (q ++ [s]) Finished None)
| prof_drain q : prof_step (Build_Profiler q Finished None) (Build_Profiler [] Finished (Some q)).

(** [n] ticks, then [stop] *)
Fixpoint ticks (samples : list MemSample) (q : list MemSample) : list MemSample :=
  match samples with [] => q | s :: rest => ticks rest (try_send s q) end.

(** ** [new_report] *)

Definition list_min (l : list Z) : Z := match l with [] => 0 | x :: l => foldl Z.min x l end.
Definition list_max (l : list Z) : Z := match l with [] => 0 | x :: l => foldl Z.max x l end.

Definition f64_half : f64 := f64_dyadic 1 (-1).

(** every [max(1, n / 20)]-th sample and the last one *)
Definition sample_kept (n i : Z) : bool := (i mod Z.max 1 (n / 20) =? 0) || (i =? n - 1).

Definition rss_near (samples : list MemSample) (elapsed : f64) : Z :=
  match List.find (fun s => f64_lt (f64_abs (f64_sub (elapsed_secs s) elapsed)) f64_half) samples with
  | Some s => rss_kb s
  | None => 0
  end.

Definition engine_sample (samples : list MemSample) (first_bytes i : Z) (e : f64 * Z * Z) : EngineSample :=
  let '(elapsed, mt_bytes, sst_cnt) := e in
  let rss := rss_near samples elapsed in
  {| es_elapsed_secs := elapsed; es_memtable := mt_bytes / 1024; es_sst_count := sst_cnt; es_rss := rss;
     es_delta := if 0 <? i then wrap_i64 (wrap_i64 rss - Z.quot (wrap_i64 first_bytes) 1024) else 0 |}.

Fixpoint engine_samples_from (samples : list MemSample) (first_bytes n i : Z) (l : list (f64 * Z * Z)) : list EngineSample :=
  match l with
  | [] => []
  | e :: rest =>
      let more := engine_samples_from samples first_bytes n (i + 1) rest in
      if sample_kept n i then engine_sample samples first_bytes i e :: more else more
  end.

Definition new_report (samples : list MemSample) (engine_samples : list (f64 * Z * Z)) : option MemReport :=
  match samples with
  | [] => None
  | first :: rest =>
      let values := map rss_kb samples in
      let sum := foldl (fun n v => wrap64 (n + v)) 0 values in
      let lst := List.last samples first in
      let duration := f64_sub (elapsed_secs lst) (elapsed_secs first) in
      let moving := f64_lt (f64_of_Z 0) duration in
      let growth := f64_div (f64_sub (f64_of_Z (rss_kb lst)) (f64_of_Z (rss_kb first))) duration in
      let first_bytes := match engine_samples with (_, b, _) :: _ => b | [] => 0 end in
      Some {| rss_values := values; rss_min := list_min values; rss_max := list_max values; rss_sum := sum;
              rss_avg := sum / blen values; rss_last := rss_kb lst; mr_duration := duration;
              growth_rate_kb := if moving then growth else f64_of_Z 0;
              growth_rate_mb := if moving then f64_div (f64_mul growth duration) (f64_of_Z 1024) else f64_of_Z 0;
              mr_sample_size := 0;
              mr_engine_samples := engine_samples_from samples first_bytes (blen engine_samples) 0 engine_samples |}
  end.

(** ** The status file is read back *)

(** a line of the file, as the kernel writes it *)
Definition status_line (name : list byte) (n : Z) : list byte :=
  name ++ [Byte.x09] ++ fmt_right 8 (fmt_uint n) ++ str " kB".

Definition vm_other (l : list byte) : Prop :=
  line_ok l /\ Forall (fun p => strip_prefix p l = None) [str "VmRSS:"; str "VmSize:"; str "VmData:"].

Lemma digit_cases d : 0 <= d < 10 -> is_space (digit d) = false /\ digit d <> Byte.x0a /\ digit d <> Byte.x0d.
Proof.
  intros Hd. assert (d = 0 \/ d = 1 \/ d = 2 \/ d = 3 \/ d = 4 \/ d = 5 \/ d = 6 \/ d = 7 \/ d = 8 \/ d = 9) as Hc by lia.
  repeat destruct Hc as [->|Hc]; try (by vm_compute). by subst.
Qed.

Lemma vm_value_line n : in_u64 n -> vm_value ([Byte.x09] ++ fmt_right 8 (fmt_uint n) ++ str " kB") = n.
Proof.
  intros Hn. unfold vm_value. cbn [app]. rewrite split_whitespace_blank by done. unfold fmt_right. rewrite <- app_assoc.
  rewrite split_whitespace_blanks.
  2:{ apply Forall_forall. intros b Hb%list_elem_of_In%repeat_spec. by subst. }
  change (str " kB") with (Byte.x20 :: str "kB"). pose proof (parse_fmt_pad u64_max 0 n Hn) as Hp. change (fmt_uint_pad 0 n) with (fmt_uint n) in Hp.
  rewrite split_whitespace_word; [by rewrite Hp| | |done].
  - intros E. by rewrite E in Hp.
  - eapply Forall_impl; [apply fmt_uint_digits|]. intros b (d & Hd & ->). by apply digit_cases.
Qed.

Lemma status_line_ok name n : line_ok name -> line_ok (status_line name n).
Proof.
  intros [Hn _]. split.
  - unfold status_line, fmt_right. rewrite !Forall_app. split_and!; [done|by repeat constructor| | |by repeat constructor].
    + apply Forall_forall. intros b Hb%list_elem_of_In%repeat_spec. by subst.
    + eapply Forall_impl; [apply fmt_uint_digits|]. intros b (d & Hd & ->). apply bool_decide_eq_false_2. by apply digit_cases.
  - unfold status_line, chop_cr. rewrite !app_assoc, rev_app_distr. done.
Qed.

Lemma foldl_vm_other acc ls : Forall vm_other ls -> foldl vm_line acc ls = acc.
Proof.
  induction 1 as [|l ls [_ Hl] _ IH] in acc |- *; cbn; [done|]. apply Forall_cons in Hl as [H1 Hl]. apply Forall_cons in Hl as [H2 Hl].
  apply Forall_inv in Hl as H3. unfold vm_line at 2. destruct acc as [[rss vms] data]. by rewrite H1, H2, H3, IH.
Qed.

(** A status file is read back. In a file whose lines are the three
    [Vm] lines as the kernel prints them, among any other lines, the resident
    size, the virtual size and the data size are those of the three lines. *)
Theorem read_vm_rss_spec (pre mid1 mid2 post : list (list byte)) (rss vms data : Z)
    (Hother : Forall vm_other (pre ++ mid1 ++ mid2 ++ post)) (Hrss : in_u64 rss) (Hvms : in_u64 vms) (Hdata : in_u64 data) :
  read_vm_rss (Some (unlines (pre ++ status_line (str "VmSize:") vms :: mid1 ++ status_line (str "VmRSS:") rss :: mid2 ++
    status_line (str "VmData:") data :: post))) = (rss, vms, data).
Proof.
  apply Forall_app in Hother as [Hpre H1]. apply Forall_app in H1 as [H1 H2]. apply Forall_app in H2 as [H2 H3].
  assert (forall l, Forall vm_other l -> Forall line_ok l) as Hok by (intros l Hl; eapply Forall_impl; [exact Hl|]; by intros ? [? _]).
  unfold read_vm_rss. rewrite str_lines_unlines.
  2:{ apply Forall_app; split; [by apply Hok|]. constructor; [by apply status_line_ok; split; [repeat constructor|]|].
      apply Forall_app; split; [by apply Hok|]. constructor; [by apply status_line_ok; split; [repeat constructor|]|].
      apply Forall_app; split; [by apply Hok|]. constructor; [by apply status_line_ok; split; [repeat constructor|]|by apply Hok]. }
  rewrite foldl_app, (foldl_vm_other _ pre) by done. cbn [foldl]. rewrite foldl_app, (foldl_vm_other _ mid1) by done. cbn [foldl].
  rewrite foldl_app, (foldl_vm_other _ mid2) by done. cbn [foldl]. rewrite (foldl_vm_other _ post) by done.
  unfold vm_line, status_line. rewrite !strip_prefix_app.
  assert (forall p s, strip_prefix (str "VmRSS:") (str "VmSize:" ++ s) = None /\ strip_prefix (str "VmRSS:") (str "VmData:" ++ s) = None /\
    strip_prefix (str "VmSize:") (str "VmData:" ++ p) = None) as Hne by done.
  rewrite !(proj1 (Hne [] _)), (proj1 (proj2 (Hne [] _))), (proj2 (proj2 (Hne _ []))). by rewrite !vm_value_line.
Qed.

(** ** Stopping the profiler *)

Lemma ticks_take samples : forall q, (length q <= SAMPLE_CAPACITY)%nat -> ticks samples q = take SAMPLE_CAPACITY (q ++ samples).
Proof.
  induction samples as [|s samples IH]; intros q Hq; cbn [ticks].
  - rewrite app_nil_r. by rewrite take_ge.
  - unfold try_send. case_decide as Hlt.
    + rewrite IH by (rewrite length_app; cbn; lia). by rewrite <- app_assoc.
    + rewrite IH by done. rewrite !take_app_le by lia. done.
Qed.

Lemma ticks_reachable samples : forall q,
  rtc prof_step (Build_Profiler q Sampling None) (Build_Profiler (ticks samples q) Sampling None).
Proof. induction samples as [|s samples IH]; intros q; [apply rtc_refl|]. eapply rtc_l; [apply (prof_tick q s)|apply IH]. Qed.

(** C40: [stop] hangs after 10 000 samples. The samples that have been taken
    when [stop] is called are the first 10 000 of the run. With fewer, [stop]
    can finish, and whenever it does it returns all of them and a last one;
    with 10 000 or more the task waits for room in the channel, which nobody
    makes: no step is left, and [stop] never returns. *)
Theorem profiler_stop (samples : list MemSample) :
  let stopped := Build_Profiler (ticks samples []) Stopping None in
  rtc prof_step profiler_start stopped /\ ticks samples [] = take SAMPLE_CAPACITY samples /\
  ((length samples < SAMPLE_CAPACITY)%nat ->
     (exists p s, rtc prof_step stopped p /\ pr_result p = Some (samples ++ [s])) /\
     (forall p l, rtc prof_step stopped p -> pr_result p = Some l -> exists s, l = samples ++ [s])) /\
  ((SAMPLE_CAPACITY <= length samples)%nat -> forall p, ~ prof_step stopped p).
Proof.
  pose proof (ticks_take samples [] ltac:(cbn; lia)) as Et. cbn [app] in Et. cbv zeta. rewrite Et. split_and!; [|done| |].
  - rewrite <- Et. eapply rtc_r; [apply ticks_reachable|apply prof_notified].
  - intros Hlt. rewrite take_ge by lia. split.
    + pose (s := {| elapsed_secs := f64_of_Z 0; rss_kb := 0; vms_kb := 0; data_kb := 0 |}). exists (Build_Profiler [] Finished (Some (samples ++ [s]))), s.
      split; [|done]. eapply rtc_l; [by apply (prof_last samples s)|]. apply rtc_once, prof_drain.
    + intros p l Hr Hp. inversion Hr as [x|x y z Hs Hr']; subst; [done|]. inversion Hs; subst. inversion Hr' as [|x' y' z' Hs' Hr'']; subst; [done|].
      inversion Hs'; subst. inversion Hr'' as [|? ? ? Hs'' ?]; subst; [|inversion Hs'']. injection Hp as <-. by eexists.
  - intros Hge p Hs. inversion Hs; subst. match goal with H : (length (take _ _) < _)%nat |- _ => rewrite length_take in H; lia end.
Qed.

(** ** The report *)

Lemma foldl_min_le l x : foldl Z.min x l <= x /\ Forall (fun y => foldl Z.min x l <= y) l.
Proof.
  induction l as [|y l IH] in x |- *; cbn; [split; [lia|constructor]|]. destruct (IH (Z.min x y)) as [H1 H2].
  split; [lia|]. constructor; [lia|done].
Qed.
Lemma foldl_max_ge l x : x <= foldl Z.max x l /\ Forall (fun y => y <= foldl Z.max x l) l.
Proof.
  induction l as [|y l IH] in x |- *; cbn; [split; [lia|constructor]|]. destruct (IH (Z.max x y)) as [H1 H2].
  split; [lia|]. constructor; [lia|done].
Qed.
Lemma list_bounds l : Forall (fun y => list_min l <= y <= list_max l) l.
Proof.
  destruct l as [|x l]; [constructor|]. destruct (foldl_min_le l x) as [H1 H2]. destruct (foldl_max_ge l x) as [H3 H4].
  constructor; [cbn; lia|]. apply Forall_forall. intros y Hy. rewrite Forall_forall in H2, H4. cbn. split; [by apply H2|by apply H4].
Qed.

Lemma sum_wrap l : Forall (fun v => 0 <= v) l -> forall n, 0 <= n -> n + foldr Z.add 0 l <= u64_max ->
  foldl (fun n v => wrap64 (n + v)) n l = n + foldr Z.add 0 l.
Proof.
  induction 1 as [|v l Hv Hl IH]; intros n Hn Hs; cbn in *; [lia|].
  assert (0 <= foldr Z.add 0 l) by (clear -Hl; induction Hl; cbn; lia).
  unfold wrap64 at 2. rewrite Z.mod_small by (unfold u64_max in Hs; lia). rewrite IH by lia. lia.
Qed.
Lemma sum_between lo hi l : Forall (fun y => lo <= y <= hi) l -> lo * blen l <= foldr Z.add 0 l <= hi * blen l.
Proof. induction 1 as [|y l Hy _ IH]; cbn [foldr]; [unfold blen; cbn; lia|]. rewrite blen_cons. lia. Qed.

(** how many samples of the engine are kept *)
Fixpoint kept_from (k : nat) (n i : Z) : Z :=
  match k with O => 0 | S k => (if sample_kept n i then 1 else 0) + kept_from k n (i + 1) end.
Lemma engine_samples_kept samples fb n l : forall i, blen (engine_samples_from samples fb n i l) = kept_from (length l) n i.
Proof.
  induction l as [|e l IH]; intros i; cbn [engine_samples_from kept_from length]; [done|]. rewrite <- IH.
  destruct (sample_kept n i); [by rewrite blen_cons|lia].
Qed.

(** multiples of [q] are [q] apart *)
Lemma kept_bound n q : q = Z.max 1 (n / 20) -> forall k i, 0 <= i -> i + Z.of_nat k <= n ->
  kept_from k n i <= ((i + Z.of_nat k + q - 1) / q - (i + q - 1) / q) + (if i + Z.of_nat k =? n then if (0 <? Z.of_nat k) then 1 else 0 else 0).
Proof.
  intros Hq. assert (0 < q) as Hq0 by lia. induction k as [|k IH]; intros i Hi Hn; cbn [kept_from].
  - change (Z.of_nat 0) with 0. rewrite Z.add_0_r, Z.sub_diag. by destruct (i =? n).
  - specialize (IH (i + 1) ltac:(lia) ltac:(lia)). rewrite Nat2Z.inj_succ in *. replace (i + Z.succ (Z.of_nat k)) with (i + 1 + Z.of_nat k) by lia.
    assert ((i + 1 + q - 1) / q = (i + q - 1) / q + if i mod q =? 0 then 1 else 0) as Hstep.
    { pose proof (Z.div_mod i q ltac:(lia)) as Hd. pose proof (Z.mod_pos_bound i q Hq0) as Hm. set (a := i / q) in *. set (m := i mod q) in *.
      replace (i + 1 + q - 1) with (m + (a + 1) * q) by nia. rewrite Z.div_add, (Z.div_small m) by lia.
      destruct (Z.eqb_spec m 0) as [E|E].
      - replace (i + q - 1) with (q - 1 + a * q) by nia. rewrite Z.div_add, Z.div_small by lia. lia.
      - replace (i + q - 1) with (m - 1 + (a + 1) * q) by nia. rewrite Z.div_add, Z.div_small by lia. lia. }
    unfold sample_kept. rewrite <- Hq. destruct (Z.eqb_spec (i mod q) 0); cbn [orb]; destruct (Z.eqb_spec i (n - 1));
      destruct (Z.eqb_spec (i + 1 + Z.of_nat k) n); destruct (Z.ltb_spec 0 (Z.of_nat k)); destruct (Z.ltb_spec 0 (Z.succ (Z.of_nat k))); lia.
Qed.
Lemma kept_total k : kept_from k (Z.of_nat k) 0 <= 40.
Proof.
  set (n := Z.of_nat k). set (q := Z.max 1 (n / 20)). pose proof (kept_bound n q eq_refl k 0 ltac:(lia) ltac:(unfold n; lia)) as Hb.
  replace (0 + Z.of_nat k + q - 1) with (n + q - 1) in Hb by lia. assert ((0 + q - 1) / q = 0) as E by (apply Z.div_small; lia). rewrite E in Hb.
  assert ((n + q - 1) / q <= 39) as Hle.
  { apply Z.lt_succ_r. apply Z.div_lt_upper_bound; [lia|]. pose proof (Z.div_mod n 20 ltac:(lia)). pose proof (Z.mod_pos_bound n 20 ltac:(lia)).
    destruct (Z.le_gt_cases (n / 20) 1); unfold q; lia. }
  destruct (_ =? _) in Hb; [destruct (_ <? _) in Hb|]; lia.
Qed.

Lemma last_elem {A} (x d : A) l : List.last (x :: l) d ∈ x :: l.
Proof. apply list_elem_of_In. destruct (exists_last (l := x :: l)) as (k & y & ->); [done|]. rewrite last_last. apply in_or_app. by right; left. Qed.

(** The numbers of a report. When the resident sizes add up within 64
    bits, their minimum, average, last value and maximum are in this order of
    bounds; at most 40 samples of the engine are kept, of however many; and
    [sample_size] is 0 whatever the number of samples, as nothing sets it. *)
Theorem mem_report_bounds (samples : list MemSample) (engine_samples : list (f64 * Z * Z)) (r : MemReport)
    (Hrss : Forall (fun s => 0 <= rss_kb s) samples) (Hsum : foldr Z.add 0 (map rss_kb samples) <= u64_max)
    (Hr : new_report samples engine_samples = Some r) :
  rss_min r <= rss_avg r <= rss_max r /\ rss_min r <= rss_last r <= rss_max r /\
  rss_sum r = foldr Z.add 0 (map rss_kb samples) /\ blen (rss_values r) = blen samples /\
  blen (mr_engine_samples r) <= 40 /\ mr_sample_size r = 0.
Proof.
  destruct samples as [|first rest] eqn:Es; [done|]. rewrite <- Es in *.
  assert (new_report samples engine_samples = Some r) as Hr' by done. rewrite Es in Hr' at 1. unfold new_report in Hr'. rewrite <- Es in Hr'.
  injection Hr' as <-. cbn [rss_min rss_avg rss_max rss_last rss_sum rss_values mr_engine_samples mr_sample_size].
  assert (Forall (fun v => 0 <= v) (map rss_kb samples)) as Hpos by (by apply Forall_fmap).
  rewrite sum_wrap by (done || lia). rewrite Z.add_0_l. pose proof (list_bounds (map rss_kb samples)) as Hb.
  pose proof (sum_between _ _ _ Hb) as Hs. assert (0 < blen (map rss_kb samples)) as Hl by (rewrite Es; cbn [map]; rewrite blen_cons; pose proof (blen_nonneg (map rss_kb rest)); lia).
  assert (list_min (map rss_kb samples) <= rss_kb (List.last samples first) <= list_max (map rss_kb samples)) as Hlast.
  { eapply (proj1 (Forall_forall _ _)) in Hb; [apply Hb|]. apply list_elem_of_fmap. exists (List.last samples first). split; [done|].
    rewrite Es. apply last_elem. }
  split_and!.
  - apply Z.div_le_lower_bound; lia.
  - apply Z.lt_succ_r, Z.div_lt_upper_bound; lia.
  - apply Hlast.
  - apply Hlast.
  - done.
  - unfold blen. by rewrite length_map.
  - rewrite engine_samples_kept. apply kept_total.
  - done.
Qed.

(** ** On concrete inputs *)

Lemma read_vm_rss_spec_witness :
  read_vm_rss (Some (unlines [str "Name:	server"; status_line (str "VmSize:") 9000; status_line (str "VmRSS:") 1234;
    status_line (str "VmData:") 77; str "Threads:	9"])) = (1234, 9000, 77).
Proof.
  apply (read_vm_rss_spec [str "Name:	server"] [] [] [str "Threads:	9"] 1234 9000 77); [|by vm_compute..].
  repeat (constructor; [split; [split; [repeat constructor|]|repeat constructor]; by vm_compute|]); constructor.
Defined.

Definition demo_mem (t rss : Z) : MemSample := {| elapsed_secs := f64_of_Z t; rss_kb := rss; vms_kb := 0; data_kb := 0 |}.
Lemma mem_report_bounds_witness :
  exists r, new_report [demo_mem 0 10; demo_mem 1 40; demo_mem 2 25] [(f64_of_Z 1, 2048, 3)] = Some r /\
    rss_min r <= rss_avg r <= rss_max r /\ map es_rss (mr_engine_samples r) = [40].
Proof.
  eexists. split; [reflexivity|]. split; [|vm_compute; reflexivity].
  eapply (mem_report_bounds [demo_mem 0 10; demo_mem 1 40; demo_mem 2 25] [(f64_of_Z 1, 2048, 3)]); [repeat constructor; cbn; lia|by vm_compute|reflexivity].
Defined.
