(* ===== verification/MemText.v ===== *)
(** * The memory report as a text: [new_report_str] and [format_size] of
    logregator-tools/src/mem.rs

    The same numbers as the report of [Mem], and a chart of the resident
    memory. Writing to a [String] does not fail. *)
From S2P Require Import Prelude Std Text Float FloatText Metrics Mem.

Definition format_size (kb : Z) : list byte :=
  if kb <? 1024 then fmt_uint kb ++ str "KB"
  else if kb <? 1024 * 1024 then fmt_fixed 1 (f64_div (f64_of_Z kb) (f64_of_Z 1024)) ++ str "MB"
  else fmt_fixed 1 (f64_div (f64_of_Z kb) (f64_mul (f64_of_Z 1024) (f64_of_Z 1024))) ++ str "GB".

Definition line (s : list byte) : list byte := s ++ [Byte.x0a].
(** cells separated by blanks *)
Fixpoint cells (l : list (list byte)) : list byte :=
  match l with [] => [] | [c] => c | c :: rest => c ++ str " " ++ cells rest end.
Definition r8 := fmt_right_chars 8.
Definition r10 := fmt_right_chars 10.
Definition r12 := fmt_right_chars 12.

(** a line of the engine's samples *)
Definition engine_line (samples : list MemSample) (first_bytes i : Z) (e : f64 * Z * Z) : list byte :=
  let '(elapsed, mt_bytes, sst_cnt) := e in
  let rss := rss_near samples elapsed in
  let delta := if 0 <? i then wrap_i64 (wrap_i64 rss - Z.quot (wrap_i64 first_bytes) 1024) else 0 in
  line (cells [r10 (fmt_fixed 2 elapsed); r12 (fmt_uint (mt_bytes / 1024)); r12 (fmt_uint sst_cnt); r12 (fmt_uint rss); r12 (fmt_int delta)]).
Fixpoint engine_lines (samples : list MemSample) (first_bytes n i : Z) (l : list (f64 * Z * Z)) : list byte :=
  match l with
  | [] => []
  | e :: rest => (if sample_kept n i then engine_line samples first_bytes i e else []) ++ engine_lines samples first_bytes n (i + 1) rest
  end.
Definition engine_section (samples : list MemSample) (engine_samples : list (f64 * Z * Z)) : list byte :=
  match engine_samples with
  | [] => []
  | (_, first_bytes, _) :: _ =>
      line (str "") ++ line (str "==> ENGINE STATE SAMPLES (" ++ fmt_uint (blen engine_samples) ++ str " total) <==") ++
      line (cells [r10 (str "ELAPSED"); r12 (str "MEMTBL_KB"); r12 (str "SST_CNT"); r12 (str "RSS_KB"); r12 (str "DELTA_KB")]) ++
      engine_lines samples first_bytes (blen engine_samples) 0 engine_samples
  end.

(** ** The chart *)

Definition CHART_WIDTH : Z := 60.
(** U+2588 *)
Definition full_block : list byte := [Byte.xe2; Byte.x96; Byte.x88].
Definition bar_len (min max rss : Z) : Z :=
  let range := Z.max (max - min) 1 in
  f64_to_u64 (f64_mul (f64_div (f64_of_Z (rss - min)) (f64_of_Z range)) (f64_of_Z CHART_WIDTH)).
(** [{:-<width$}] of the blocks *)
Definition bar (n : Z) : list byte := fmt_fill Byte.x2d (Z.to_nat CHART_WIDTH) (concat (repeat full_block (Z.to_nat n))).
Definition chart_line (min max : Z) (prev : option f64) (s : MemSample) : list byte :=
  let delta := match prev with
               | Some p => fmt_fixed_plus 0 (f64_sub (f64_of_Z (rss_kb s)) p) ++ str "K"
               | None => []
               end in
  line (fmt_right_chars 6 (fmt_fixed 0 (elapsed_secs s) ++ str "s") ++ str " |" ++ bar (bar_len min max (rss_kb s)) ++ str "| " ++ delta ++
        str " " ++ r8 (fmt_uint (rss_kb s)) ++ str " KB").
Fixpoint chart_lines (min max n i : Z) (prev : option f64) (l : list MemSample) : list byte :=
  match l with
  | [] => []
  | s :: rest =>
      if sample_kept n i then chart_line min max prev s ++ chart_lines min max n (i + 1) (Some (f64_of_Z (rss_kb s))) rest
      else chart_lines min max n (i + 1) prev rest
  end.

(** ** The whole text *)

Definition report_head : list byte :=
  line (line (str "==> MEMORY PROFILE <==")) ++
  line (cells [r10 (str "RSS_MIN"); r10 (str "RSS_AVG"); r10 (str "RSS_MAX"); r10 (str "RSS_END"); r8 (str "SAMPLES"); r8 (str "DUR_S")]).
Definition summary_line (min avg max end_ n : Z) (dur : f64) : list byte :=
  line (cells [r10 (format_size min); r10 (format_size avg); r10 (format_size max); r10 (format_size end_); r8 (fmt_uint n); r8 (fmt_fixed 1 dur)]).
(** the cast makes 0 of a negative number of MB *)
Definition growth_line (growth_rate dur : f64) : list byte :=
  line (str "Growth rate: " ++ fmt_fixed 1 growth_rate ++ str " KB/s (" ++
        fmt_uint (f64_to_u64 (f64_div (f64_mul growth_rate dur) (f64_of_Z 1024))) ++ str " MB over " ++ fmt_fixed 0 dur ++ str "s)").
Definition chart_section (min max : Z) (samples : list MemSample) : list byte :=
  line (str "") ++ line (str "==> RSS OVER TIME <==") ++ chart_lines min max (blen samples) 0 None samples.

Definition new_report_str (samples : list MemSample) (engine_samples : list (f64 * Z * Z)) : list byte :=
  match samples with
  | [] => line (str "No memory samples collected.")
  | first :: _ =>
      let values := map rss_kb samples in
      let rss_min := list_min values in
      let rss_max := list_max values in
      let rss_sum := foldl (fun n v => wrap64 (n + v)) 0 values in
      let rss_avg := rss_sum / blen values in
      let lst := List.last samples first in
      let dur := f64_sub (elapsed_secs lst) (elapsed_secs first) in
      let growth_rate := if f64_lt (f64_of_Z 0) dur then f64_div (f64_sub (f64_of_Z (rss_kb lst)) (f64_of_Z (rss_kb first))) dur else f64_of_Z 0 in
      report_head ++ summary_line rss_min rss_avg rss_max (rss_kb lst) (blen samples) dur ++ growth_line growth_rate dur ++
      engine_section samples engine_samples ++ chart_section rss_min rss_max samples
  end.

(** ** The text and the report agree *)

Definition report_engine_line (e : EngineSample) : list byte :=
  line (cells [r10 (fmt_fixed 2 (es_elapsed_secs e)); r12 (fmt_uint (es_memtable e)); r12 (fmt_uint (es_sst_count e));
               r12 (fmt_uint (es_rss e)); r12 (fmt_int (es_delta e))]).
Lemma engine_lines_report samples first_bytes n i l :
  engine_lines samples first_bytes n i l = concat (map report_engine_line (engine_samples_from samples first_bytes n i l)).
Proof.
  revert i. induction l as [|[[t b] c] l IH]; intros i; [done|]. cbn [engine_lines engine_samples_from]. rewrite IH.
  by destruct (sample_kept n i).
Qed.

(** the text shows the numbers of the report *)
Lemma report_str_report samples engine_samples r : new_report samples engine_samples = Some r ->
  new_report_str samples engine_samples =
    report_head ++ summary_line (rss_min r) (rss_avg r) (rss_max r) (rss_last r) (blen samples) (mr_duration r) ++
    growth_line (growth_rate_kb r) (mr_duration r) ++
    (match engine_samples with
     | [] => []
     | _ => line (str "") ++ line (str "==> ENGINE STATE SAMPLES (" ++ fmt_uint (blen engine_samples) ++ str " total) <==") ++
            line (cells [r10 (str "ELAPSED"); r12 (str "MEMTBL_KB"); r12 (str "SST_CNT"); r12 (str "RSS_KB"); r12 (str "DELTA_KB")]) ++
            concat (map report_engine_line (mr_engine_samples r))
     end) ++ chart_section (rss_min r) (rss_max r) samples.
Proof.
  destruct samples as [|s l]; [done|]. intros [= <-]. cbn [rss_min rss_max rss_avg rss_last mr_duration growth_rate_kb mr_engine_samples].
  unfold new_report_str, engine_section. cbv zeta. destruct engine_samples as [|[[t b] c] es]; [reflexivity|].
  rewrite engine_lines_report. reflexivity.
Qed.

(** ** The bars *)

(** [x / x] is 1 *)
Lemma f64_div_self m e : f64_div (S754_finite false m e) (S754_finite false m e) = f64_of_Z 1.
Proof.
  unfold f64_div, SFdiv, SFdiv_core_binary. rewrite !Z.sub_diag. change (Z.min (fexp 53 1024 0) 0) with (-53). change (0 - -53) with 53.
  cbv iota beta zeta. replace (Z.div_eucl _ _) with (2 ^ 53, 0).
  - replace (new_location (Z.pos m) 0) with loc_Exact by (by destruct m). by vm_compute.
  - rewrite Z.shiftl_mul_pow2 by lia. pose proof (Z.div_mul (2 ^ 53) (Z.pos m) ltac:(lia)) as Hd. pose proof (Z.mod_mul (2 ^ 53) (Z.pos m) ltac:(lia)) as Hm.
    rewrite (Z.mul_comm (Z.pos m)). unfold Z.div, Z.modulo in *. destruct (Z.div_eucl (2 ^ 53 * Z.pos m) (Z.pos m)). by subst.
Qed.

(** an integer below [2^53] is an [f64] *)
Lemma digits2_iter m k : digits2_pos (Pos.iter xO m k) = (digits2_pos m + k)%positive.
Proof. induction k as [|k IH] using Pos.peano_ind; [cbn; lia|]. rewrite Pos.iter_succ. cbn [digits2_pos]. rewrite IH. lia. Qed.
Lemma shr_fexp_exact m e : Zdigits2 (Z.pos m) = 53 -> -1074 <= e -> shr_fexp 53 1024 (Z.pos m) e loc_Exact = (Build_shr_record (Z.pos m) false false, e).
Proof.
  intros Hd He. unfold shr_fexp. rewrite Hd. unfold fexp, emin. replace (Z.max (53 + e - 53) (3 - 1024 - 53) - e) with 0 by lia. done.
Qed.
Lemma f64_of_Z_exact z : 0 < z < 2 ^ 53 -> exists m e, f64_of_Z z = S754_finite false m e /\ e <= 0 /\ Z.pos m = z * 2 ^ (- e).
Proof.
  intros Hz. destruct z as [|p|p]; [lia| |lia]. unfold f64_of_Z, f64_dyadic, binary_normalize, binary_round.
  pose proof (digits2_pos_bounds p) as [Hb _]. assert (Z.pos (digits2_pos p) <= 53) as Hd.
  { destruct (Z.le_gt_cases (Z.pos (digits2_pos p)) 53) as [|Hgt]; [done|]. assert (2 ^ 53 <= 2 ^ (Z.pos (digits2_pos p) - 1)) by (apply Z.pow_le_mono_r; lia). lia. }
  set (g := Z.pos (digits2_pos p) - 53). replace (shl_align p 0 _) with (shl_align p 0 g) by (unfold fexp, emin, g; f_equal; cbn [Zdigits2]; lia).
  pose proof (shl_align_grid p 0 g ltac:(lia)) as Hg. unfold on_grid in Hg.
  assert (Zdigits2 (Z.pos (shl_align p 0 g).1) = 53 /\ (shl_align p 0 g).2 = g) as [Hd' Hg'].
  { unfold shl_align. destruct (g - 0) as [|k|k] eqn:E; cbn [fst snd Zdigits2]; [split; lia|lia|]. rewrite digits2_iter. split; lia. }
  destruct (shl_align p 0 g) as [m e]. cbn [fst snd] in *. subst e. exists m, g. split; [|split; [lia|by rewrite Hg]].
  unfold binary_round_aux. rewrite shr_fexp_exact by (unfold g; lia). cbn [loc_of_shr_record shr_m shr_r shr_s round_nearest_even].
  rewrite shr_fexp_exact by (unfold g; lia). cbn [shr_m]. by rewrite (proj2 (Z.leb_le g (1024 - 53))) by lia.
Qed.

(** the chart spans its width: the smallest sample has no block, the largest
    one all 60 *)
Lemma bar_len_ends min max : min < max -> max - min < 2 ^ 53 -> bar_len min max min = 0 /\ bar_len min max max = CHART_WIDTH.
Proof.
  intros Hlt Hmax. unfold bar_len. cbv zeta. rewrite Z.sub_diag, Z.max_l by lia.
  destruct (f64_of_Z_exact (max - min)) as (m & e & -> & _); [lia|]. split; [by vm_compute|]. rewrite f64_div_self. by vm_compute.
Qed.
(** a bar of at most 60 blocks is 60 characters wide *)
Lemma str_chars_blocks n : str_chars (concat (repeat full_block n)) = n.
Proof. induction n as [|n IH]; [done|]. cbn [repeat concat]. by rewrite str_chars_app, IH. Qed.
Lemma bar_width n : 0 <= n <= CHART_WIDTH -> str_chars (bar n) = Z.to_nat CHART_WIDTH.
Proof. intros Hn. unfold bar. rewrite str_chars_fill by done. rewrite str_chars_blocks. unfold CHART_WIDTH in *. lia. Qed.

(** a process that shrinks by 2 MB in 4 seconds *)
Example report_str_demo :
  let bar_of := fun b d => concat (repeat full_block b) ++ repeat Byte.x2d d in
  new_report_str [demo_mem 0 4096; demo_mem 2 3072; demo_mem 4 2048] [(f64_of_Z 2, 8192, 3)] =
    line (line (str "==> MEMORY PROFILE <==")) ++
    line (str "   RSS_MIN    RSS_AVG    RSS_MAX    RSS_END  SAMPLES    DUR_S") ++
    line (str "     2.0MB      3.0MB      4.0MB      2.0MB        3      4.0") ++
    line (str "Growth rate: -512.0 KB/s (0 MB over 4s)") ++
    line [] ++ line (str "==> ENGINE STATE SAMPLES (1 total) <==") ++
    line (str "   ELAPSED    MEMTBL_KB      SST_CNT       RSS_KB     DELTA_KB") ++
    line (str "      2.00            8            3         3072            0") ++
    line [] ++ line (str "==> RSS OVER TIME <==") ++
    line (str "    0s |" ++ bar_of 60%nat 0%nat ++ str "|      4096 KB") ++
    line (str "    2s |" ++ bar_of 30%nat 30%nat ++ str "| -1024K     3072 KB") ++
    line (str "    4s |" ++ bar_of 0%nat 60%nat ++ str "| -1024K     2048 KB").
Proof. vm_compute. reflexivity. Qed.
