(* ===== verification/Compare.v ===== *)
(** * Comparing benchmark results: logregator-tools/src/cmp and bin/cmp.rs

    The benchmark's own data ([crate::bench]) is not part of the repository:
    [BenchModule] has the fields that the comparison reads. A [HashMap] is
    iterated in an order of its own, which is an argument. Here is what is
    compared, what is shown and how it is marked; [Display] has the text. *)
From S2P Require Import Prelude Std Text Codec Float Metrics Mem.

Inductive Workload := WlWrite | WlRead | WlMixed | WlTail | WlBulk.
#[export] Instance workload_eq_dec : EqDecision Workload.
Proof. solve_decision. Defined.
Definition workload_rank (w : Workload) : Z :=
  match w with WlWrite => 0 | WlRead => 1 | WlMixed => 2 | WlTail => 3 | WlBulk => 4 end.
Definition rank_workload (z : Z) : option Workload :=
  match z with 0 => Some WlWrite | 1 => Some WlRead | 2 => Some WlMixed | 3 => Some WlTail | 4 => Some WlBulk | _ => None end.
#[export] Instance workload_countable : Countable Workload.
Proof. refine (inj_countable workload_rank rank_workload _). by intros []. Defined.

(** [format!("{:?}", workload).to_lowercase()] *)
Definition workload_name (w : Workload) : list byte :=
  match w with
  | WlWrite => str "write" | WlRead => str "read" | WlMixed => str "mixed" | WlTail => str "tail" | WlBulk => str "bulk"
  end.

Class BenchModule := {
  SingleRunResult : Type;
  run_concurrency : SingleRunResult -> Z;
  run_workload : SingleRunResult -> Workload;
  insert_ops_per_sec : SingleRunResult -> f64;
  range_ops_per_sec : SingleRunResult -> f64;
  avg_records_per_range : SingleRunResult -> f64;
  run_sstable_count : SingleRunResult -> Z;
  run_insert_latency : SingleRunResult -> LatencySnapshot;
  run_range_latency : SingleRunResult -> LatencySnapshot;
  Saturation : Type;
  sat_workload : Saturation -> Workload;
  max_throughput : Saturation -> f64;
  max_concurrency : Saturation -> Z;
  BenchmarkResult : Type;
  br_runs : BenchmarkResult -> list SingleRunResult;
  br_metrics : BenchmarkResult -> option MetricsSnapshot;
  br_saturations : BenchmarkResult -> list Saturation;
  br_mem : BenchmarkResult -> option MemReport;
  br_tag : BenchmarkResult -> option (list byte)
}.

(** ** cmp/mod.rs *)

Record CmpContext := { cx_concurrency : Z; cx_workload : Workload }.
#[export] Instance cmp_context_eq_dec : EqDecision CmpContext.
Proof. solve_decision. Defined.
#[export] Instance cmp_context_countable : Countable CmpContext.
Proof.
  refine (inj_countable (fun c => (cx_concurrency c, cx_workload c)) (fun p => Some {| cx_concurrency := p.1; cx_workload := p.2 |}) _).
  by intros [].
Defined.

Definition context_label (c : CmpContext) : list byte :=
  workload_name (cx_workload c) ++ str ", " ++ fmt_uint (cx_concurrency c) ++ str " " ++
  (if cx_concurrency c =? 1 then str "client" else str "clients").

Inductive ChangeDirection := HigherBetter | LowerBetter | Neutral.
Record FieldCmp := {
  fc_key : list byte; fc_new : f64; fc_prev : f64; fc_delta : f64; fc_delta_pct : f64;
  fc_is_latency : bool; fc_direction : ChangeDirection; fc_context : option CmpContext
}.
Record RunComparisons := { rc_cw : CmpContext; rc_fields : list FieldCmp }.
Record CmpResult := {
  cr_files : list (list byte); cr_comparisons : list RunComparisons; cr_saturations : list FieldCmp;
  cr_metrics : list FieldCmp; cr_mem : list FieldCmp; cr_regressed_fields : list FieldCmp
}.
Definition has_regression (c : CmpResult) : bool := match cr_regressed_fields c with [] => false | _ => true end.

(** ** cmp/compare.rs *)

Definition field (key : list byte) (prev new : f64) (is_latency : bool) (dir : ChangeDirection) (ctx : option CmpContext) : FieldCmp :=
  let delta := f64_sub new prev in
  let delta_pct :=
    if negb (f64_eq prev (f64_of_Z 0)) then f64_mul (f64_div delta (f64_abs prev)) (f64_of_Z 100)
    else if f64_eq delta (f64_of_Z 0) then f64_of_Z 0
    else f64_infinity in
  {| fc_key := key; fc_prev := prev; fc_new := new; fc_delta := delta; fc_delta_pct := delta_pct;
     fc_is_latency := is_latency; fc_direction := dir; fc_context := ctx |}.
Definition field_us (key : list byte) (prev new : Z) (dir : ChangeDirection) (ctx : option CmpContext) : FieldCmp :=
  field key (f64_of_Z prev) (f64_of_Z new) true dir ctx.

Definition is_regressed (f : FieldCmp) : bool :=
  match fc_direction f with
  | HigherBetter => f64_lt (fc_delta_pct f) (f64_of_Z (-5))
  | LowerBetter => f64_lt (f64_of_Z 20) (fc_delta_pct f)
  | Neutral => false
  end.

Definition find_regressions (comparisons : list RunComparisons) (saturations metrics mem : list FieldCmp) : list FieldCmp :=
  List.filter is_regressed (concat (map rc_fields comparisons)) ++ List.filter is_regressed saturations ++
  List.filter is_regressed metrics ++ List.filter is_regressed mem.

Definition latency_fields (prefix : list byte) (ctx : option CmpContext) (b t : LatencySnapshot) : list FieldCmp :=
  [field_us (prefix ++ str "_latency min") (ls_min b) (ls_min t) LowerBetter ctx;
   field_us (prefix ++ str "_latency p50") (ls_p50 b) (ls_p50 t) LowerBetter ctx;
   field_us (prefix ++ str "_latency p90") (ls_p90 b) (ls_p90 t) LowerBetter ctx;
   field_us (prefix ++ str "_latency p99") (ls_p99 b) (ls_p99 t) LowerBetter ctx;
   field_us (prefix ++ str "_latency max") (ls_max b) (ls_max t) LowerBetter ctx].

(** a field without context: counters and gauges *)
Definition count_field (key : list byte) (b t : Z) (dir : ChangeDirection) : FieldCmp :=
  field key (f64_of_Z b) (f64_of_Z t) false dir None.

Definition sync_p50 (w : WalSnapshot) : f64 := match ws_sync_latency w with Some s => f64_of_Z (ls_p50 s) | None => f64_of_Z 0 end.

Definition cmp_metrics (b t : option MetricsSnapshot) : list FieldCmp :=
  match b, t with
  | Some b, Some t =>
      let bw := ms_wal b in let tw := ms_wal t in let be := ms_engine b in let te := ms_engine t in
      let bs := ms_server b in let ts := ms_server t in
      [field (str "wal_sync p50 (us)") (sync_p50 bw) (sync_p50 tw) true LowerBetter None;
       count_field (str "wal_write_count") (ws_write_count bw) (ws_write_count tw) Neutral;
       count_field (str "wal_write_bytes") (ws_write_bytes bw) (ws_write_bytes tw) Neutral;
       count_field (str "wal_sync_count") (ws_sync_count bw) (ws_sync_count tw) Neutral;
       count_field (str "engine_flush_count") (es_flush_count be) (es_flush_count te) LowerBetter;
       count_field (str "engine_compactions") (es_compaction_count be) (es_compaction_count te) LowerBetter;
       count_field (str "engine_records") (es_records_inserted be) (es_records_inserted te) Neutral;
       count_field (str "engine_memtable_bytes") (es_memtable_bytes be) (es_memtable_bytes te) LowerBetter;
       count_field (str "engine_sst_count") (es_sstable_count be) (es_sstable_count te) Neutral;
       count_field (str "server_conns_accepted") (vs_connections_accepted bs) (vs_connections_accepted ts) Neutral;
       count_field (str "server_frames_read") (vs_frames_read bs) (vs_frames_read ts) Neutral;
       count_field (str "server_frames_written") (vs_frames_written bs) (vs_frames_written ts) Neutral]
  | _, _ => []
  end.

Definition cmp_mem (b t : MemReport) : list FieldCmp :=
  [count_field (str "mem_rss_min_kb") (rss_min b) (rss_min t) LowerBetter;
   count_field (str "mem_rss_max_kb") (rss_max b) (rss_max t) LowerBetter;
   count_field (str "mem_rss_avg_kb") (rss_avg b) (rss_avg t) LowerBetter;
   count_field (str "mem_rss_sum_kb") (rss_sum b) (rss_sum t) LowerBetter;
   count_field (str "mem_rss_end_kb") (rss_last b) (rss_last t) LowerBetter;
   field (str "mem_growth_kbs") (growth_rate_kb b) (growth_rate_kb t) false LowerBetter None;
   field (str "mem_growth_mbs") (growth_rate_mb b) (growth_rate_mb t) false LowerBetter None;
   count_field (str "mem_sample_size") (mr_sample_size b) (mr_sample_size t) Neutral].

(** the order of the comparisons: workload, then concurrency *)
Definition context_le (a b : CmpContext) : bool :=
  (workload_rank (cx_workload a) <? workload_rank (cx_workload b)) ||
  ((workload_rank (cx_workload a) =? workload_rank (cx_workload b)) && (cx_concurrency a <=? cx_concurrency b)).
Definition rc_le (a b : RunComparisons) : bool := context_le (rc_cw a) (rc_cw b).

Section comparing.
Context `{BenchModule}.

Definition run_context (r : SingleRunResult) : CmpContext :=
  {| cx_concurrency := run_concurrency r; cx_workload := run_workload r |}.

(** a later run of the same context replaces an earlier one *)
Definition build_workload_index (results : list SingleRunResult) : gmap CmpContext SingleRunResult :=
  foldl (fun m r => <[run_context r := r]> m) ∅ results.

Definition throughput_fields (ctx : option CmpContext) (b t : SingleRunResult) : list FieldCmp :=
  [field (str "inserts/s") (insert_ops_per_sec b) (insert_ops_per_sec t) false HigherBetter ctx;
   field (str "ranges/s") (range_ops_per_sec b) (range_ops_per_sec t) false HigherBetter ctx;
   field (str "records/range") (avg_records_per_range b) (avg_records_per_range t) false HigherBetter ctx;
   field (str "SSTs") (f64_of_Z (run_sstable_count b)) (f64_of_Z (run_sstable_count t)) false Neutral ctx].

Definition cmp_runs (b t : SingleRunResult) : RunComparisons :=
  let ctx := run_context b in
  {| rc_cw := ctx;
     rc_fields := throughput_fields (Some ctx) b t ++
       latency_fields (str "insert") (Some ctx) (run_insert_latency b) (run_insert_latency t) ++
       latency_fields (str "range") (Some ctx) (run_range_latency b) (run_range_latency t) |}.

Definition cmp_saturations (b t : list Saturation) : list FieldCmp :=
  concat (map (fun bs =>
    let label := workload_name (sat_workload bs) in
    match List.find (fun s => bool_decide (sat_workload s = sat_workload bs)) t with
    | Some ts => [field (str "sat_" ++ label ++ str "_throughput") (max_throughput bs) (max_throughput ts) false HigherBetter None;
                  field (str "sat_" ++ label ++ str "_conc_peak") (f64_of_Z (max_concurrency bs)) (f64_of_Z (max_concurrency ts)) false HigherBetter None]
    | None => []
    end) b).

(** the comparisons of one context, one for each target that has it *)
Definition context_cmps (targets : list (gmap CmpContext SingleRunResult)) (cb : CmpContext * SingleRunResult) : list RunComparisons :=
  concat (map (fun ti => match ti !! cb.1 with Some run_t => [cmp_runs cb.2 run_t] | None => [] end) targets).

(** [iter]: the order of the map; the loop over the results that have been
    loaded *)
Definition compare_loaded (iter : gmap CmpContext SingleRunResult -> list (CmpContext * SingleRunResult))
    (baseline : list byte) (targets : list (list byte)) (b : BenchmarkResult) (ts : list BenchmarkResult) : CmpResult :=
  let indices := map (fun t => build_workload_index (br_runs t)) ts in
  let cmps := concat (map (context_cmps indices) (iter (build_workload_index (br_runs b)))) in
  let cmps := stable_sort rc_le cmps in
  let metrics := match last ts with Some t => cmp_metrics (br_metrics b) (br_metrics t) | None => [] end in
  let saturations := match last ts with Some t => cmp_saturations (br_saturations b) (br_saturations t) | None => [] end in
  let mem := match last ts with
             | Some t => match br_mem b, br_mem t with Some mb, Some mt => cmp_mem mb mt | _, _ => [] end
             | None => []
             end in
  {| cr_files := baseline :: targets; cr_comparisons := cmps; cr_saturations := saturations; cr_metrics := metrics; cr_mem := mem;
     cr_regressed_fields := find_regressions cmps saturations metrics mem |}.

(** [parse_benchmark]: a file that cannot be opened or read panics *)
Definition parse_benchmark (open : list byte -> option (list byte)) (json : list byte -> option BenchmarkResult) (path : list byte) :
    outcome io_error BenchmarkResult := f ← unwrap (open path); unwrap (json f).
(** [load]: opening and reading as one *)
Definition compare_benchmarks (load : list byte -> option BenchmarkResult)
    (iter : gmap CmpContext SingleRunResult -> list (CmpContext * SingleRunResult))
    (baseline : list byte) (targets : list (list byte)) : outcome io_error CmpResult :=
  b ← unwrap (load baseline);
  ts ← unwrap (mapM load targets);
  Ok (compare_loaded iter baseline targets b ts).

(** ** [extract_tag]: paths are those of Unix *)

Definition is_slash (b : byte) : bool := bool_decide (b = Byte.x2f).
(** the components that are names: repeated slashes and inner dots go *)
Definition path_parts (p : list byte) : list (list byte) :=
  List.filter (fun c => negb (bool_decide (c = [])) && negb (bool_decide (c = str "."))) (split_by is_slash p).
Definition file_name_of (c : list byte) : option (list byte) := if decide (c = str "..") then None else Some c.

Definition second_part (s : list byte) : option (list byte) :=
  '(_, rest) ← split_at_str (str "__") s;
  Some (match split_at_str (str "__") rest with Some (p, _) => p | None => rest end).

Definition extract_tag (result : BenchmarkResult) (path : list byte) : list byte :=
  match br_tag result with
  | Some (b :: tag) => b :: tag
  | _ =>
      let parts := path_parts path in
      match rev parts with
      | file :: dir :: _ =>
          match file_name_of dir with
          | Some parent => default parent (second_part parent)
          | None => match file_name_of file with Some f => file_stem_of f | None => str "unknown" end
          end
      | [file] => match file_name_of file with Some f => file_stem_of f | None => str "unknown" end
      | [] => str "unknown"
      end
  end.
End comparing.

(** ** cmp/goals.rs *)

Record Goals := { by_workload : gmap Workload (gmap (list byte) f64); goals_aggregate : gmap (list byte) f64 }.
Record GoalsToml := {
  gt_write : option (gmap (list byte) f64); gt_read : option (gmap (list byte) f64); gt_mixed : option (gmap (list byte) f64);
  gt_tail : option (gmap (list byte) f64); gt_bulk : option (gmap (list byte) f64); gt_aggregate : option (gmap (list byte) f64)
}.
Definition goals_add (w : Workload) (t : option (gmap (list byte) f64)) (m : gmap Workload (gmap (list byte) f64)) :
    gmap Workload (gmap (list byte) f64) := match t with Some t => <[w := t]> m | None => m end.
Definition goals_from (g : GoalsToml) : Goals := {|
  by_workload := goals_add WlBulk (gt_bulk g) (goals_add WlTail (gt_tail g) (goals_add WlMixed (gt_mixed g)
    (goals_add WlRead (gt_read g) (goals_add WlWrite (gt_write g) ∅))));
  goals_aggregate := default ∅ (gt_aggregate g)
|}.
Definition goal_for (g : Goals) (workload : option Workload) (key : list byte) : option f64 :=
  match workload with
  | Some wl => m ← by_workload g !! wl; m !! key
  | None => goals_aggregate g !! key
  end.

(** [from_file]: [None] for a path that does not exist; [content]: what can
    be read, [toml]: the parser *)
Definition goals_from_file (toml : list byte -> option GoalsToml) (exists_ : bool) (content : option (list byte)) :
    outcome io_error (option Goals) :=
  if negb exists_ then Ok None
  else match content with
       | None => Err (IoError OtherIo)
       | Some c => match toml c with Some g => Ok (Some (goals_from g)) | None => Err (IoError OtherIo) end
       end.

(** ** cmp/display.rs: what is shown, and how it is marked *)

Definition is_core_metric (key : list byte) : bool :=
  bool_decide (key ∈ [str "inserts/s"; str "ranges/s"; str "insert_latency p50"; str "insert_latency p99";
                      str "range_latency p50"; str "range_latency p99"]).
Definition field_zero (f : FieldCmp) : bool := f64_eq (fc_prev f) (f64_of_Z 0) && f64_eq (fc_new f) (f64_of_Z 0).

(** [write_fields] and the lines of [write_condensed] *)
Definition shown_fields (fields : list FieldCmp) : list FieldCmp := List.filter (fun f => negb (field_zero f)) fields.
Definition condensed_fields (fields : list FieldCmp) : list FieldCmp :=
  List.filter (fun f => negb (field_zero f) && is_core_metric (fc_key f)) fields.

(** the workloads in the order of [write_condensed], each with the
    comparisons it has *)
Definition condensed (comparisons : list RunComparisons) : list (Workload * list FieldCmp) :=
  omap (fun w =>
    match List.filter (fun c => bool_decide (cx_workload (rc_cw c) = w)) comparisons with
    | [] => None
    | cs => Some (w, concat (map (fun c => condensed_fields (rc_fields c)) cs))
    end) [WlWrite; WlRead; WlMixed; WlTail; WlBulk].

(** the list under REGRESSIONS; it is left out when empty *)
Definition shown_regressions (verbose : bool) (c : CmpResult) : list FieldCmp :=
  List.filter (fun f => verbose || (match fc_context f with None => true | Some _ => false end) || is_core_metric (fc_key f))
    (cr_regressed_fields c).

Definition has_improved_or_neutral (f : FieldCmp) : bool :=
  match fc_direction f with
  | HigherBetter => f64_lt (f64_of_Z 0) (fc_delta f)
  | LowerBetter => f64_lt (fc_delta f) (f64_of_Z 0)
  | Neutral => true
  end.
Inductive Colour := Plain | Green | Red.
(** [padded_color] of the change and of its percentage *)
Definition change_colour (f : FieldCmp) : Colour :=
  let has_change := negb (f64_eq (fc_delta f) (f64_of_Z 0)) in
  if has_change && negb (has_improved_or_neutral f) then Red else if has_change then Green else Plain.
(** the colour of the goal; [None]: a dash *)
Definition goal_colour (goals : option Goals) (f : FieldCmp) : option Colour :=
  g ← goals;
  goal ← goal_for g (cx_workload <$> fc_context f) (fc_key f);
  Some (if match fc_direction f with
           | HigherBetter => f64_le goal (fc_new f)
           | LowerBetter => f64_le (fc_new f) goal
           | Neutral => true
           end
        then Green else Red).

(** ** bin/cmp.rs: the exit code *)

Section cmp_main.
Context `{BenchModule}.

Record CmpArgs := { ca_targets : list (list byte); ca_baseline : list byte; ca_out_file : option (list byte); ca_reg : bool; ca_verbose : bool }.

(** the name of the output file under [--out-dir]; [targets[0]] panics when
    there is none. The result files load, and writing does not fail. *)
Definition cmp_out_name (load : list byte -> option BenchmarkResult) (args : CmpArgs) : outcome io_error (list byte) :=
  match ca_out_file args with
  | Some f => Ok f
  | None =>
      b ← unwrap (load (ca_baseline args));
      target ← index (ca_targets args) 0;
      t ← unwrap (load target);
      Ok (extract_tag t target ++ str "__vs__" ++ extract_tag b (ca_baseline args) ++ str ".json")
  end.

Definition cmp_main (load : list byte -> option BenchmarkResult)
    (iter : gmap CmpContext SingleRunResult -> list (CmpContext * SingleRunResult)) (args : CmpArgs) : outcome io_error Z :=
  c ← compare_benchmarks load iter (ca_baseline args) (ca_targets args);
  _ ← cmp_out_name load args;
  Ok (if ca_reg args && has_regression c then 1 else 0).
End cmp_main.

(** ** The comparisons do not depend on the order of the map *)

Lemma workload_rank_inj w v : workload_rank w = workload_rank v -> w = v.
Proof. by destruct w, v. Qed.
Lemma context_le_spec a b : context_le a b = true <->
  workload_rank (cx_workload a) < workload_rank (cx_workload b) \/
  (workload_rank (cx_workload a) = workload_rank (cx_workload b) /\ cx_concurrency a <= cx_concurrency b).
Proof. unfold context_le. rewrite orb_true_iff, andb_true_iff, Z.ltb_lt, Z.eqb_eq, Z.leb_le. done. Qed.
Lemma context_le_total a b : context_le a b = true \/ context_le b a = true.
Proof. rewrite !context_le_spec. lia. Qed.
Lemma context_le_trans a b c : context_le a b = true -> context_le b c = true -> context_le a c = true.
Proof. rewrite !context_le_spec. lia. Qed.
Lemma context_le_antisym a b : context_le a b = true -> context_le b a = true -> a = b.
Proof.
  rewrite !context_le_spec. intros H1 H2. assert (workload_rank (cx_workload a) = workload_rank (cx_workload b)) as Hw by lia.
  assert (cx_concurrency a = cx_concurrency b) as Hc by lia. apply workload_rank_inj in Hw. destruct a, b. cbn in *. by subst.
Qed.

Section compare_facts.
Context `{BenchModule}.

Lemma index_context results cw r : build_workload_index results !! cw = Some r -> run_context r = cw /\ r ∈ results.
Proof.
  unfold build_workload_index. induction results as [|x l IH] using rev_ind; [cbn; by rewrite lookup_empty|]. rewrite foldl_app. cbn [foldl].
  rewrite lookup_insert_Some. intros [[<- <-]|[_ Hl]]; [split; [done|]; apply elem_of_app; right; left|].
  apply IH in Hl as [? ?]. split; [done|]. apply elem_of_app. by left.
Qed.

Lemma context_cmps_elem indices cb c : c ∈ context_cmps indices cb <->
  exists ti run_t, ti ∈ indices /\ ti !! cb.1 = Some run_t /\ c = cmp_runs cb.2 run_t.
Proof.
  unfold context_cmps. rewrite list_elem_of_In, in_concat. split.
  - intros (l & (ti & <- & Hti)%in_map_iff & Hc). destruct (ti !! cb.1) as [run_t|] eqn:E; [|done]. destruct Hc as [<-|[]].
    exists ti, run_t. split; [by apply list_elem_of_In|done].
  - intros (ti & run_t & Hti & E & ->). exists [cmp_runs cb.2 run_t]. split; [|by left]. apply in_map_iff. exists ti.
    split; [by rewrite E|by apply list_elem_of_In].
Qed.

(** the order in which the contexts of the baseline come out *)
Definition run_le (x y : CmpContext * SingleRunResult) : bool := context_le (run_context x.2) (run_context y.2).

Lemma sorted_cmps indices items :
  stable_sort rc_le (concat (map (context_cmps indices) items)) = concat (map (context_cmps indices) (stable_sort run_le items)).
Proof.
  apply stable_sort_blocks.
  - intros x y. apply context_le_total.
  - intros x y z. apply context_le_trans.
  - intros x y b c (? & ? & _ & _ & ->)%context_cmps_elem (? & ? & _ & _ & ->)%context_cmps_elem. done.
Qed.

Lemma items_order results items items' :
  items ≡ₚ map_to_list (build_workload_index results) -> items' ≡ₚ map_to_list (build_workload_index results) ->
  stable_sort run_le items = stable_sort run_le items'.
Proof.
  intros Hi Hi'. apply stable_sort_order; [intros; apply context_le_total|intros ???; apply context_le_trans|by rewrite Hi, Hi'|].
  intros [c1 r1] [c2 r2]. rewrite !Hi, !elem_of_map_to_list. intros H1 H2 Hle Hle'.
  destruct (index_context _ _ _ H1) as [E1 _]. destruct (index_context _ _ _ H2) as [E2 _].
  pose proof (context_le_antisym _ _ Hle Hle') as E. cbn in E. rewrite E1, E2 in E. rewrite <- E in H2 |- *. rewrite H1 in H2. by injection H2 as ->.
Qed.

(** ** What the comparisons should be

    The runs by workload and concurrency, without maps: of several the last,
    the workloads in their order and the concurrencies ascending. *)
Definition all_workloads : list Workload := [WlWrite; WlRead; WlMixed; WlTail; WlBulk].
Definition last_run (runs : list SingleRunResult) (w : Workload) (c : Z) : option SingleRunResult :=
  List.find (fun r => bool_decide (run_workload r = w) && (run_concurrency r =? c)) (rev runs).
Definition concurrencies (runs : list SingleRunResult) (w : Workload) : list Z :=
  stable_sort Z.leb (remove_dups (map run_concurrency (List.filter (fun r => bool_decide (run_workload r = w)) runs))).
Definition runs_of (runs : list SingleRunResult) (w : Workload) : list SingleRunResult :=
  omap (last_run runs w) (concurrencies runs w).

(** the figures of a run: name, whether a latency, what is better, value *)
Definition run_table : list (list byte * bool * ChangeDirection * (SingleRunResult -> f64)) :=
  let lat part get := fun r => f64_of_Z (get (part r)) in
  [(str "inserts/s", false, HigherBetter, insert_ops_per_sec);
   (str "ranges/s", false, HigherBetter, range_ops_per_sec);
   (str "records/range", false, HigherBetter, avg_records_per_range);
   (str "SSTs", false, Neutral, fun r => f64_of_Z (run_sstable_count r));
   (str "insert_latency min", true, LowerBetter, lat run_insert_latency ls_min);
   (str "insert_latency p50", true, LowerBetter, lat run_insert_latency ls_p50);
   (str "insert_latency p90", true, LowerBetter, lat run_insert_latency ls_p90);
   (str "insert_latency p99", true, LowerBetter, lat run_insert_latency ls_p99);
   (str "insert_latency max", true, LowerBetter, lat run_insert_latency ls_max);
   (str "range_latency min", true, LowerBetter, lat run_range_latency ls_min);
   (str "range_latency p50", true, LowerBetter, lat run_range_latency ls_p50);
   (str "range_latency p90", true, LowerBetter, lat run_range_latency ls_p90);
   (str "range_latency p99", true, LowerBetter, lat run_range_latency ls_p99);
   (str "range_latency max", true, LowerBetter, lat run_range_latency ls_max)].
Definition run_comparison (b t : SingleRunResult) : RunComparisons :=
  let ctx := {| cx_concurrency := run_concurrency b; cx_workload := run_workload b |} in
  {| rc_cw := ctx; rc_fields := map (fun '(key, lat, dir, get) => field key (get b) (get t) lat dir (Some ctx)) run_table |}.

(** one comparison for each run of the baseline and each target that has its
    workload and concurrency *)
Definition expected_comparisons (b : BenchmarkResult) (ts : list BenchmarkResult) : list RunComparisons :=
  concat (map (fun w => concat (map (fun run_b =>
    omap (fun t => run_comparison run_b <$> last_run (br_runs t) w (run_concurrency run_b)) ts)
    (runs_of (br_runs b) w))) all_workloads).

Lemma cmp_runs_comparison b t : cmp_runs b t = run_comparison b t.
Proof. reflexivity. Qed.

Lemma last_run_index runs w c : last_run runs w c = build_workload_index runs !! {| cx_concurrency := c; cx_workload := w |}.
Proof.
  unfold last_run, build_workload_index. induction runs as [|r l IH] using rev_ind; [cbn; by rewrite lookup_empty|].
  rewrite rev_app_distr, foldl_app. cbn [rev app find foldl]. destruct (_ && _) eqn:E.
  - apply andb_true_iff in E as [E1%bool_decide_eq_true E2%Z.eqb_eq]. symmetry. apply lookup_insert_Some. left. split; [|done].
    unfold run_context. by rewrite E1, E2.
  - rewrite IH. symmetry. apply lookup_insert_ne. unfold run_context. intros [= <- <-].
    by rewrite bool_decide_eq_true_2, Z.eqb_refl in E.
Qed.

Lemma elem_of_concurrencies runs w c : c ∈ concurrencies runs w <-> is_Some (last_run runs w c).
Proof.
  unfold concurrencies. rewrite stable_sort_perm, elem_of_remove_dups, list_elem_of_In, in_map_iff.
  setoid_rewrite filter_In. unfold last_run. split.
  - intros (r & <- & Hr & Hw). destruct (List.find _ (rev runs)) as [x|] eqn:E; [by exists x|]. exfalso.
    apply in_rev in Hr. apply (find_none _ _ E r) in Hr. by rewrite Hw, Z.eqb_refl in Hr.
  - intros [r Hr]. apply find_some in Hr as [Hin [Hw Hc%Z.eqb_eq]%andb_true_iff]. exists r. split_and!; [done| |done]. by apply in_rev.
Qed.

(** the contexts of the baseline, strictly ascending *)
Definition context_lt (a b : CmpContext) : Prop :=
  workload_rank (cx_workload a) < workload_rank (cx_workload b) \/
  (workload_rank (cx_workload a) = workload_rank (cx_workload b) /\ cx_concurrency a < cx_concurrency b).
Definition contexts (runs : list SingleRunResult) (ws : list Workload) : list CmpContext :=
  concat (map (fun w => map (fun c => {| cx_concurrency := c; cx_workload := w |}) (concurrencies runs w)) ws).

Lemma concurrencies_sorted runs w : StronglySorted Z.lt (concurrencies runs w).
Proof.
  assert (StronglySorted (fun x y => Z.leb x y = true) (concurrencies runs w)) as Hs.
  { apply stable_sort_sorted; intros; rewrite ?Z.leb_le in *; lia. }
  assert (NoDup (concurrencies runs w)) as Hn by (unfold concurrencies; rewrite stable_sort_perm; apply NoDup_remove_dups).
  induction Hs as [|x l Hs IH Hx]; [constructor|]. apply NoDup_cons in Hn as [Hnx Hn]. constructor; [by apply IH|].
  rewrite Forall_forall in Hx |- *. intros y Hy. specialize (Hx y Hy). rewrite Z.leb_le in Hx.
  assert (x <> y) by congruence. lia.
Qed.
Lemma contexts_sorted runs ws : StronglySorted (fun a b => workload_rank a < workload_rank b) ws -> StronglySorted context_lt (contexts runs ws).
Proof.
  induction 1 as [|w ws Hs IH Hw]; [constructor|]. unfold contexts in *. cbn [map concat].
  pose proof (concurrencies_sorted runs w) as Hc. induction Hc as [|c l Hl IHl Hcl]; cbn [map app]; [exact IH|].
  constructor; [exact IHl|]. apply Forall_app_2.
  - apply Forall_fmap. eapply Forall_impl; [exact Hcl|]. intros y Hy. right. cbn. lia.
  - apply Forall_forall. intros x Hx%list_elem_of_In%in_concat. destruct Hx as (k & (w' & <- & Hw')%in_map_iff & (c' & <- & _)%in_map_iff).
    left. cbn. rewrite Forall_forall in Hw. apply Hw. by apply list_elem_of_In.
Qed.
Lemma elem_of_contexts runs cx : cx ∈ contexts runs all_workloads <-> is_Some (build_workload_index runs !! cx).
Proof.
  destruct cx as [c w]. rewrite <- last_run_index, <- elem_of_concurrencies. unfold contexts. rewrite list_elem_of_In, in_concat. split.
  - intros (l & (w' & <- & _)%in_map_iff & (c' & [= <- <-] & Hc)%in_map_iff). by apply list_elem_of_In.
  - intros Hc. eexists. split; [apply in_map_iff; exists w; split; [reflexivity|by destruct w; cbn; auto 6]|].
    apply in_map_iff. exists c. split; [done|by apply list_elem_of_In].
Qed.
Lemma contexts_nodup runs : NoDup (contexts runs all_workloads).
Proof.
  assert (StronglySorted context_lt (contexts runs all_workloads)) as Hs by (apply contexts_sorted; repeat constructor).
  induction Hs as [|x l _ IH Hx]; constructor; [|done]. intros Hin. rewrite Forall_forall in Hx. destruct (Hx x Hin); lia.
Qed.

(** the runs that count, in order *)
Definition context_runs (runs : list SingleRunResult) : list (CmpContext * SingleRunResult) :=
  omap (fun cx => (fun r => (cx, r)) <$> build_workload_index runs !! cx) (contexts runs all_workloads).

Lemma context_runs_perm runs : context_runs runs ≡ₚ map_to_list (build_workload_index runs).
Proof.
  assert (forall l, NoDup l -> NoDup (omap (fun cx => (fun r => (cx, r)) <$> build_workload_index runs !! cx) l)) as Hnd.
  { induction 1 as [|cx l Hcx _ IH]; cbn; [constructor|]. destruct (build_workload_index runs !! cx) as [r|]; cbn; [|done]. constructor; [|done].
    rewrite list_elem_of_omap. intros (y & Hy & E). destruct (build_workload_index runs !! y); [|done]. injection E as -> _. done. }
  apply list.NoDup_Permutation; [apply Hnd, contexts_nodup|apply NoDup_map_to_list|]. intros [cx r].
  unfold context_runs. rewrite elem_of_map_to_list, list_elem_of_omap. split.
  - intros (y & _ & E). destruct (build_workload_index runs !! y) eqn:Ey; [|done]. by injection E as <- <-.
  - intros E. exists cx. rewrite elem_of_contexts, E. by split.
Qed.
Lemma context_runs_sorted runs : StronglySorted (fun x y => run_le x y = true) (context_runs runs).
Proof.
  assert (StronglySorted context_lt (contexts runs all_workloads)) as Hs by (apply contexts_sorted; repeat constructor).
  unfold context_runs. induction Hs as [|cx l _ IH Hx]; cbn; [constructor|].
  destruct (build_workload_index runs !! cx) as [r|] eqn:E; cbn; [|done]. constructor; [done|]. apply Forall_forall. intros y Hy.
  apply list_elem_of_omap in Hy as (cy & Hcy & Ey). destruct (build_workload_index runs !! cy) as [ry|] eqn:Er; [|done]. injection Ey as <-.
  unfold run_le. cbn. destruct (index_context _ _ _ E) as [-> _]. destruct (index_context _ _ _ Er) as [-> _]. apply context_le_spec.
  rewrite Forall_forall in Hx. specialize (Hx cy Hcy) as [?|?]; [by left|right; lia].
Qed.
Lemma sorted_runs runs items : items ≡ₚ map_to_list (build_workload_index runs) -> stable_sort run_le items = context_runs runs.
Proof.
  intros Hi. rewrite (items_order runs items (context_runs runs) Hi (context_runs_perm runs)).
  apply (sorted_unique run_le); [apply stable_sort_sorted; intros; [apply context_le_total|by eapply context_le_trans]|apply context_runs_sorted|apply stable_sort_perm|].
  intros [c1 r1] [c2 r2]. rewrite stable_sort_perm, !context_runs_perm, !elem_of_map_to_list. intros H1 H2 Hle Hle'.
  destruct (index_context _ _ _ H1) as [E1 _]. destruct (index_context _ _ _ H2) as [E2 _].
  pose proof (context_le_antisym _ _ Hle Hle') as E. cbn in E. rewrite E1, E2 in E. rewrite <- E in H2 |- *. rewrite H1 in H2. by injection H2 as ->.
Qed.

Lemma expected_contexts b ts :
  concat (map (context_cmps (map (fun t => build_workload_index (br_runs t)) ts)) (context_runs (br_runs b))) = expected_comparisons b ts.
Proof.
  unfold context_runs, expected_comparisons, contexts, runs_of. induction all_workloads as [|w ws IH]; [done|]. cbn [map concat].
  rewrite omap_app, map_app, concat_app. f_equal; [|exact IH]. clear IH.
  induction (concurrencies (br_runs b) w) as [|c l IH]; [done|]. cbn [map omap list_omap]. rewrite <- last_run_index.
  destruct (last_run (br_runs b) w c) as [rb|] eqn:E; cbn [fmap option_fmap option_map map concat]; [|exact IH]. f_equal; [|exact IH]. clear IH.
  rewrite last_run_index in E. destruct (index_context _ _ _ E) as [Ec _]. apply (f_equal cx_concurrency) in Ec. cbn in Ec. rewrite Ec.
  unfold context_cmps. cbn [fst snd]. induction ts as [|t ts IH]; [done|]. cbn [map concat omap list_omap]. rewrite IH, <- last_run_index.
  by destruct (last_run (br_runs t) w c).
Qed.

(** C24: exactly what is compared, in which order. Whatever order the hash
    maps are iterated in, the comparisons are this list: workload by
    workload, by ascending concurrency, for the last run of the baseline
    with that workload and concurrency, and target by target, the figures
    of that run beside those of the target's last run with the same workload
    and concurrency, one comparison for each target that has one. *)
Theorem compare_spec (iter iter' : gmap CmpContext SingleRunResult -> list (CmpContext * SingleRunResult))
    (baseline : list byte) (targets : list (list byte)) (b : BenchmarkResult) (ts : list BenchmarkResult)
    (Hiter : forall m, iter m ≡ₚ map_to_list m) (Hiter' : forall m, iter' m ≡ₚ map_to_list m) :
  let c := compare_loaded iter baseline targets b ts in
  c = compare_loaded iter' baseline targets b ts /\
  StronglySorted (fun x y => rc_le x y = true) (cr_comparisons c) /\
  cr_comparisons c = expected_comparisons b ts.
Proof.
  cbv zeta. split_and!.
  - unfold compare_loaded. cbv zeta. rewrite !sorted_cmps. by rewrite (items_order _ _ _ (Hiter _) (Hiter' _)).
  - apply stable_sort_sorted; intros; [apply context_le_total|by eapply context_le_trans].
  - cbn [compare_loaded cr_comparisons]. rewrite sorted_cmps, (sorted_runs (br_runs b)) by apply Hiter. apply expected_contexts.
Qed.
End compare_facts.

(** ** What counts as a regression *)

Lemma pct_sign delta prev s : delta = S754_nan \/ f64_neg_bit delta = s ->
  let p := f64_mul (f64_div delta (f64_abs prev)) (f64_of_Z 100) in p = S754_nan \/ f64_neg_bit p = s.
Proof.
  intros Hd p. destruct (f64_mul_sign (f64_div delta (f64_abs prev)) (f64_of_Z 100)) as [|Hm]; [by left|].
  destruct Hd as [->|Hs]; [left; by destruct prev|]. destruct (f64_div_sign delta (f64_abs prev)) as [Hn|Hq].
  - left. unfold p. by rewrite Hn.
  - right. unfold p. rewrite Hm, Hq, Hs. replace (f64_neg_bit (f64_abs prev)) with false by (by destruct prev).
    replace (f64_neg_bit (f64_of_Z 100)) with false by (by vm_compute). by destruct s.
Qed.

Lemma lt_nonneg x y : f64_neg_bit y = true -> x = S754_nan \/ f64_neg_bit x = false -> f64_lt x y = false.
Proof.
  intros Hy [->|Hx]; [apply f64_lt_nan_l|]. destruct x as [| | |]; try (by apply f64_lt_sign). apply f64_lt_nan_l.
Qed.
Lemma lt_neg x y : f64_neg_bit x = false -> x <> S754_nan -> y = S754_nan \/ f64_neg_bit y = true -> f64_lt x y = false.
Proof. intros Hx Hn [->|Hy]; [apply f64_lt_nan_r|by apply f64_lt_sign]. Qed.

(** Better is not worse, with one exception. For numbers an [f64] can
    hold: more of what should be high is never reported as a regression; nor
    is less of what should be low, unless the baseline is 0. There the change
    in percent is plus infinity whatever its sign, and a value below 0 (a
    growth rate of a process that shrinks) is reported as a regression and
    shown as an improvement. *)
Theorem regression_direction (key : list byte) (prev new : f64) (lat : bool) (ctx : option CmpContext)
    (Hp : f64_ok prev) (Hn : f64_ok new) :
  (f64_lt prev new = true -> is_regressed (field key prev new lat HigherBetter ctx) = false) /\
  (f64_lt new prev = true -> f64_eq prev (f64_of_Z 0) = false -> is_regressed (field key prev new lat LowerBetter ctx) = false) /\
  (f64_lt new prev = true -> f64_eq prev (f64_of_Z 0) = true ->
     is_regressed (field key prev new lat LowerBetter ctx) = true /\
     has_improved_or_neutral (field key prev new lat LowerBetter ctx) = true).
Proof.
  unfold is_regressed, has_improved_or_neutral, field. cbn [fc_direction fc_delta_pct fc_delta]. split_and!.
  - intros Hlt. destruct (f64_sub_sign prev new Hp Hn Hlt) as [_ Hs]. apply lt_nonneg; [by vm_compute|].
    destruct (negb _); [by apply pct_sign|]. right. by destruct (f64_eq _ _).
  - intros Hlt ->. destruct (f64_sub_sign new prev Hn Hp Hlt) as [Hs _]. cbn [negb]. apply lt_neg; [by vm_compute|done|]. by apply pct_sign.
  - intros Hlt Hz. rewrite Hz. cbn [negb].
    assert (exists s, prev = S754_zero s) as [s ->] by (destruct prev as [s|[]| |[] ? ?]; [by exists s|by vm_compute in Hz..]).
    assert (f64_sub new (S754_zero s) = new /\ f64_neg_bit new = true /\ new <> S754_zero true /\ new <> S754_zero false) as (-> & Hneg & H1 & H2).
    { destruct new as [[]|[]| |[] ? ?], s; by vm_compute in Hlt. }
    destruct new as [[]|[]| |[] m e]; done.
Qed.

(** ** Two runs on concrete inputs *)

Definition demo_latency (p50 : Z) : LatencySnapshot :=
  {| ls_min := 1; ls_p50 := p50; ls_p90 := p50; ls_p95 := p50; ls_p99 := p50; ls_p99_9 := p50; ls_max := p50;
     ls_mean := f64_of_Z p50; ls_stddev := f64_of_Z 0; ls_sample_count := 9 |}.
(** a run is its context, its throughput and its latency *)
#[local] Instance demo_bench : BenchModule := {|
  SingleRunResult := CmpContext * Z * Z; run_concurrency r := cx_concurrency r.1.1; run_workload r := cx_workload r.1.1;
  insert_ops_per_sec r := f64_of_Z r.1.2; range_ops_per_sec r := f64_of_Z r.1.2; avg_records_per_range _ := f64_of_Z 0;
  run_sstable_count _ := 0; run_insert_latency r := demo_latency r.2; run_range_latency r := demo_latency r.2;
  Saturation := unit; sat_workload _ := WlRead; max_throughput _ := f64_of_Z 0; max_concurrency _ := 0;
  BenchmarkResult := list (CmpContext * Z * Z); br_runs r := r; br_metrics _ := None; br_saturations _ := []; br_mem _ := None;
  br_tag _ := None
|}.
Definition demo_ctx (w : Workload) (c : Z) : CmpContext := {| cx_concurrency := c; cx_workload := w |}.
Definition demo_base : BenchmarkResult :=
  [(demo_ctx WlRead 1, 100, 10); (demo_ctx WlWrite 4, 50, 20); (demo_ctx WlWrite 2, 40, 20); (demo_ctx WlWrite 2, 45, 20)].
Definition demo_target : BenchmarkResult := [(demo_ctx WlWrite 2, 40, 23); (demo_ctx WlRead 1, 100, 13); (demo_ctx WlBulk 1, 1, 1)].

Lemma compare_spec_witness :
  let c := compare_loaded map_to_list (str "b") [str "t"] demo_base [demo_target] in
  map rc_cw (cr_comparisons c) = [demo_ctx WlWrite 2; demo_ctx WlRead 1] /\
  c = compare_loaded (fun m => rev (map_to_list m)) (str "b") [str "t"] demo_base [demo_target] /\
  map fc_key (shown_regressions false c) = [str "inserts/s"; str "ranges/s"; str "insert_latency p50"; str "insert_latency p99"; str "range_latency p50"; str "range_latency p99"].
Proof.
  cbv zeta. split; [vm_compute; reflexivity|]. split; [|vm_compute; reflexivity].
  apply (compare_spec map_to_list (fun m => rev (map_to_list m)) (str "b") [str "t"] demo_base [demo_target]); [done|].
  intros m. symmetry. apply Permutation_rev.
Defined.

(** a baseline of 0 and a growth rate of -3 *)
Lemma regression_direction_witness :
  is_regressed (field (str "mem_growth_kbs") (f64_of_Z 0) (f64_of_Z (-3)) false LowerBetter None) = true /\
  is_regressed (field (str "mem_growth_kbs") (f64_of_Z 1) (f64_of_Z (-3)) false LowerBetter None) = false.
Proof.
  split.
  - apply (regression_direction (str "mem_growth_kbs") (f64_of_Z 0) (f64_of_Z (-3)) false None); by vm_compute.
  - apply (regression_direction (str "mem_growth_kbs") (f64_of_Z 1) (f64_of_Z (-3)) false None); by vm_compute.
Defined.
