(* ===== verification/Display.v ===== *)
(** * Printing a comparison: logregator-tools/src/cmp/display.rs

    Every line that [write_to] writes, on any [Write]. The colours
    ([owo_colors]) and [fmt_latency_f64] ([crate::bench], which is not in the
    repository) are parameters. A line is written as one piece. *)
From S2P Require Import Prelude Std Text Codec Float FloatText Metrics Mem Compare.

Class Paint := {
  cyan : list byte -> list byte;
  yellow : list byte -> list byte;
  green : list byte -> list byte;
  red : list byte -> list byte
}.
(** no colours *)
Definition plain_paint : Paint := {| cyan s := s; yellow s := s; green s := s; red s := s |}.

Definition million : f64 := f64_of_Z 1000000.
Definition thousand : f64 := f64_of_Z 1000.

Definition fmt_count (v : f64) : list byte :=
  if f64_le million v then fmt_fixed 2 (f64_div v million) ++ str "M"
  else if f64_le thousand v then fmt_fixed 1 (f64_div v thousand) ++ str "K"
  else if f64_is_integer v && f64_lt (f64_abs v) (f64_of_Z 10000) then fmt_fixed 0 v
  else fmt_fixed 2 v.

(** the sign in front of a change; [zero] is printed for 0 and for NaN *)
Definition signed_text (v : f64) (s zero : list byte) : list byte :=
  if f64_lt v (f64_of_Z 0) then str "-" ++ s else if f64_lt (f64_of_Z 0) v then str "+" ++ s else zero.

Definition fmt_delta_latency (v : f64) : list byte :=
  let abs := f64_abs v in
  let s := if f64_le (f64_of_Z 10000000) abs then fmt_fixed 2 (f64_div abs million) ++ str "s"
           else if f64_le thousand abs then fmt_fixed 2 (f64_div abs thousand) ++ str "ms"
           else fmt_fixed 3 (f64_div abs thousand) ++ str "ms" in
  signed_text v s (str " 0.000ms").
Definition fmt_delta_count (v : f64) : list byte :=
  let abs := f64_abs v in
  let s := if f64_le million abs then fmt_fixed 2 (f64_div abs million) ++ str "M"
           else if f64_le thousand abs then fmt_fixed 1 (f64_div abs thousand) ++ str "K"
           else fmt_fixed 2 abs in
  signed_text v s (str " 0.00").
Definition f64_is_infinite (v : f64) : bool := match v with S754_infinity _ => true | _ => false end.
Definition fmt_delta_pct (v : f64) : list byte :=
  if f64_is_infinite v then str "  N/A"
  else if f64_lt (f64_of_Z 0) v then str "+" ++ fmt_fixed 1 v ++ str "%"
  else if f64_lt v (f64_of_Z 0) then fmt_fixed 1 v ++ str "%"
  else str " 0.0%".

Section display.
Context `{Paint} (fmt_latency_f64 : f64 -> list byte).

Definition fmt_val (cmp : FieldCmp) : list byte * list byte :=
  if fc_is_latency cmp then (fmt_latency_f64 (fc_prev cmp), fmt_latency_f64 (fc_new cmp))
  else (fmt_count (fc_prev cmp), fmt_count (fc_new cmp)).
Definition colored_val (s : list byte) (width : nat) (is_baseline : bool) : list byte :=
  let padded := fmt_right_chars width s in if is_baseline then cyan padded else yellow padded.
Definition padded_color (s : list byte) (width : nat) (is_good has_change : bool) : list byte :=
  let padded := fmt_right_chars width s in
  if has_change && negb is_good then red padded else if has_change then green padded else padded.
Definition field_changed (cmp : FieldCmp) : bool := negb (f64_eq (fc_delta cmp) (f64_of_Z 0)).
Definition colored_delta (cmp : FieldCmp) : list byte :=
  padded_color (if fc_is_latency cmp then fmt_delta_latency (fc_delta cmp) else fmt_delta_count (fc_delta cmp)) 12
    (has_improved_or_neutral cmp) (field_changed cmp).
Definition colored_pct (cmp : FieldCmp) : list byte :=
  padded_color (fmt_delta_pct (fc_delta_pct cmp)) 10 (has_improved_or_neutral cmp) (field_changed cmp).

Definition field_key (f : FieldCmp) : list byte :=
  match fc_context f with
  | Some ctx => fc_key f ++ str " (" ++ context_label ctx ++ str ")"
  | None => fc_key f
  end.

(** the goal's number; [fmt_count] without its last case *)
Definition fmt_goal (is_latency : bool) (goal : f64) : list byte :=
  if is_latency then fmt_latency_f64 goal
  else if f64_le million goal then fmt_fixed 2 (f64_div goal million) ++ str "M"
  else if f64_le thousand goal then fmt_fixed 1 (f64_div goal thousand) ++ str "K"
  else fmt_fixed 0 goal.
(** ten blanks and an em dash *)
Definition no_goal : list byte := str "          " ++ [Byte.xe2; Byte.x80; Byte.x94].
Definition goal_cell (goals : option Goals) (f : FieldCmp) : list byte :=
  match g ← goals; goal_for g (cx_workload <$> fc_context f) (fc_key f) with
  | Some goal =>
      let is_met := match fc_direction f with
                    | HigherBetter => f64_le goal (fc_new f)
                    | LowerBetter => f64_le (fc_new f) goal
                    | Neutral => true
                    end in
      let padded := fmt_right_chars 12 (fmt_goal (fc_is_latency f) goal) in
      if is_met then green padded else red padded
  | None => no_goal
  end.

Definition newline : list byte := [Byte.x0a].
Definition blank : list byte := str " ".

Definition field_line (goals : option Goals) (f : FieldCmp) : list byte :=
  let '(prev_s, new_s) := fmt_val f in
  str "  " ++ fmt_left 30 (field_key f) ++ blank ++ colored_val prev_s 12 true ++ blank ++ colored_val new_s 12 false ++ blank ++
  (match goals with Some _ => goal_cell goals f ++ blank | None => [] end) ++
  fmt_right_chars 12 (colored_delta f) ++ blank ++ fmt_right_chars 10 (colored_pct f) ++ newline.

Definition header_line (show_goals : bool) : list byte :=
  str "  " ++ fmt_left 22 [] ++ blank ++ fmt_right_chars 12 (str "BASELINE") ++ blank ++ fmt_right_chars 12 (str "TARGET") ++ blank ++
  (if show_goals then fmt_right_chars 12 (str "GOALS") ++ blank else []) ++
  fmt_right_chars 12 (str "DELTA") ++ blank ++ fmt_right_chars 10 (str "DELTA_PCT") ++ newline.

Definition is_some {A} (o : option A) : bool := match o with Some _ => true | None => false end.

Section writing.
Context {W : Type} `{Write W}.

Definition write_header (show_goals : bool) : st W io_error unit := w_write_all (header_line show_goals).
Definition write_field_line (goals : option Goals) (f : FieldCmp) : st W io_error unit := w_write_all (field_line goals f).

Fixpoint write_fields (fields : list FieldCmp) (goals : option Goals) : st W io_error unit :=
  match fields with
  | [] => mret tt
  | f :: rest => if field_zero f then write_fields rest goals else write_field_line goals f ≫= fun _ => write_fields rest goals
  end.

Definition write_section (title : list byte) (fields : list FieldCmp) (goals : option Goals) : st W io_error unit :=
  match fields with
  | [] => mret tt
  | _ => w_write_all (title ++ newline) ≫= fun _ => write_header (is_some goals) ≫= fun _ => write_fields fields goals
  end.

(** the lines of one comparison, condensed *)
Fixpoint write_core_fields (fields : list FieldCmp) (goals : option Goals) : st W io_error unit :=
  match fields with
  | [] => mret tt
  | f :: rest =>
      if field_zero f then write_core_fields rest goals
      else if is_core_metric (fc_key f) then write_field_line goals f ≫= fun _ => write_core_fields rest goals
      else write_core_fields rest goals
  end.
Fixpoint write_core_comps (comps : list RunComparisons) (goals : option Goals) : st W io_error unit :=
  match comps with
  | [] => mret tt
  | c :: rest => write_core_fields (rc_fields c) goals ≫= fun _ => write_core_comps rest goals
  end.

(** [by_workload]: the comparisons of each workload, in their order *)
Definition group_by_workload (comparisons : list RunComparisons) : gmap Workload (list RunComparisons) :=
  foldl (fun m c => <[cx_workload (rc_cw c) := default [] (m !! cx_workload (rc_cw c)) ++ [c]]> m) ∅ comparisons.
Definition rank_le (a b : Workload) : bool := workload_rank a <=? workload_rank b.

(** [{:?}] of the lowercase name puts it in quotes *)
Definition condensed_title (w : Workload) : list byte := str "--- " ++ [Byte.x22] ++ workload_name w ++ [Byte.x22] ++ str " ---" ++ newline.

Fixpoint write_workloads (first : bool) (ws : list Workload) (m : gmap Workload (list RunComparisons)) (goals : option Goals) : st W io_error unit :=
  match ws with
  | [] => mret tt
  | w :: rest =>
      (if first then mret tt else w_write_all newline) ≫= fun _ =>
      w_write_all (condensed_title w) ≫= fun _ =>
      write_header (is_some goals) ≫= fun _ =>
      st_lift (unwrap (m !! w)) ≫= fun comps =>
      write_core_comps comps goals ≫= fun _ =>
      write_workloads false rest m goals
  end.
(** [keys]: the order in which the map gives its keys *)
Definition write_condensed (keys : gmap Workload (list RunComparisons) -> list Workload) (comparisons : list RunComparisons)
    (goals : option Goals) : st W io_error unit :=
  let by_workload := group_by_workload comparisons in
  write_workloads true (stable_sort rank_le (keys by_workload)) by_workload goals.

Definition comp_title (c : CmpContext) : list byte :=
  str "--- " ++ workload_name (cx_workload c) ++ str " | " ++ fmt_uint (cx_concurrency c) ++
  (if negb (cx_concurrency c =? 1) then str " clients" else str " client") ++ str " ---" ++ newline.
Fixpoint write_verbose (comparisons : list RunComparisons) (goals : option Goals) : st W io_error unit :=
  match comparisons with
  | [] => mret tt
  | c :: rest =>
      w_write_all (comp_title (rc_cw c)) ≫= fun _ =>
      write_header (is_some goals) ≫= fun _ =>
      write_fields (rc_fields c) goals ≫= fun _ =>
      write_verbose rest goals
  end.

Fixpoint write_lines (fields : list FieldCmp) : st W io_error unit :=
  match fields with
  | [] => mret tt
  | f :: rest => write_field_line None f ≫= fun _ => write_lines rest
  end.
Definition regressions_title (n : Z) : list byte :=
  newline ++ str "--- REGRESSIONS (" ++ fmt_uint n ++ str ") ---" ++ newline ++
  str "  Fields that crossed the regression threshold (throughput -5%, latency +20%)." ++ newline.
Definition write_regressions (verbose : bool) (c : CmpResult) : st W io_error unit :=
  match cr_regressed_fields c with
  | [] => mret tt
  | _ =>
      match shown_regressions verbose c with
      | [] => mret tt
      | regressed =>
          w_write_all (regressions_title (blen regressed)) ≫= fun _ =>
          write_header false ≫= fun _ =>
          write_lines regressed
      end
  end.

Definition write_to (keys : gmap Workload (list RunComparisons) -> list Workload) (c : CmpResult) (goals : option Goals) (verbose : bool) :
    st W io_error unit :=
  st_lift (index (cr_files c) 0) ≫= fun file =>
  w_write_all (str "=> cmp: " ++ file ++ str " vs " ++ fmt_uint (blen (cr_files c) - 1) ++ str " target(s) <=" ++ newline) ≫= fun _ =>
  (if verbose then write_verbose (cr_comparisons c) goals else write_condensed keys (cr_comparisons c) goals) ≫= fun _ =>
  write_section (newline ++ str "--- Aggregate Metrics ---") (cr_metrics c) goals ≫= fun _ =>
  write_section (newline ++ str "--- Saturations ---") (cr_saturations c) goals ≫= fun _ =>
  write_section (newline ++ str "--- Memory Profile ---") (cr_mem c) goals ≫= fun _ =>
  write_regressions verbose c.
End writing.
End display.

(** ** What is written *)

Section emits.
Context {W : Type} `{WriteLaws W}.

(** a writer that takes everything: memory, or a terminal that stays open *)
Definition reliable : Prop := forall bs (w : W), exists w', w_write_all bs w = (w', Ok tt).
(** when [m] succeeds it has written [bs], and on a reliable writer it does *)
Definition emits (m : st W io_error unit) (bs : list byte) : Prop :=
  (forall w w', m w = (w', Ok tt) -> w_contents w' = w_contents w ++ bs) /\
  (reliable -> forall w, exists w', m w = (w', Ok tt)).

Lemma emits_ret : emits (mret tt) [].
Proof. split; [intros w w' [= <-]; by rewrite app_nil_r|intros _ w; by exists w]. Qed.
Lemma emits_write bs : emits (w_write_all bs) bs.
Proof. split; [intros w w'; apply w_write_all_ok|intros Hr w; apply Hr]. Qed.
Lemma emits_bind m n a b : emits m a -> emits n b -> emits (m ≫= fun _ => n) (a ++ b).
Proof.
  intros [Hm Rm] [Hn Rn]. split.
  - intros w w'. rewrite st_bind_unfold. destruct (m w) as [w1 [[]| |]] eqn:E; try done. intros E'.
    by rewrite (Hn _ _ E'), (Hm _ _ E), app_assoc.
  - intros Hr w. rewrite st_bind_unfold. destruct (Rm Hr w) as [w1 ->]. apply (Rn Hr).
Qed.
Lemma emits_unwrap {A} (o : option A) x f b : o = Some x -> emits (f x) b -> emits (st_lift (unwrap o) ≫= f) b.
Proof. intros ->. done. Qed.
End emits.

Create HintDb emits.
#[export] Hint Resolve emits_ret emits_write emits_bind : emits.

Lemma group_by_workload_get cs w : group_by_workload cs !! w =
  match List.filter (fun c => bool_decide (cx_workload (rc_cw c) = w)) cs with [] => None | l => Some l end.
Proof.
  unfold group_by_workload. induction cs as [|c cs IH] using rev_ind; [done|]. rewrite foldl_app, List.filter_app. cbn [foldl List.filter].
  case_bool_decide as Hw.
  - subst w. rewrite lookup_insert_eq, IH. by destruct (List.filter _ cs).
  - rewrite lookup_insert_ne, app_nil_r by done. exact IH.
Qed.

Lemma rank_le_total a b : rank_le a b = true \/ rank_le b a = true.
Proof. unfold rank_le. rewrite !Z.leb_le. lia. Qed.
Lemma rank_le_trans a b c : rank_le a b = true -> rank_le b c = true -> rank_le a c = true.
Proof. unfold rank_le. rewrite !Z.leb_le. lia. Qed.

(** whatever the order of the map, the workloads come out in the order of
    [condensed] *)
Definition all_workloads : list Workload := [WlWrite; WlRead; WlMixed; WlTail; WlBulk].
Definition has_group {A} (m : gmap Workload A) (w : Workload) : bool := bool_decide (is_Some (m !! w)).
Lemma workload_order {A} (m : gmap Workload A) keys : keys ≡ₚ (map_to_list m).*1 ->
  stable_sort rank_le keys = List.filter (has_group m) all_workloads.
Proof.
  intros Hk. assert (NoDup keys) as Hnd by (rewrite Hk; apply NoDup_fst_map_to_list).
  assert (keys ≡ₚ List.filter (has_group m) all_workloads) as Hp.
  { apply list.NoDup_Permutation; [done|apply NoDup_ListNoDup, List.NoDup_filter, NoDup_ListNoDup; by apply (bool_decide_unpack (NoDup all_workloads))|].
    intros w. rewrite Hk, list_elem_of_In, list_elem_of_In, filter_In. unfold has_group. rewrite bool_decide_eq_true. split.
    - intros Hin%list_elem_of_In. apply list_elem_of_fmap in Hin as ([v x] & -> & Hx%elem_of_map_to_list). split; [destruct v; cbn; tauto|by exists x].
    - intros [_ [x Hx]]. apply list_elem_of_In, list_elem_of_fmap. exists (w, x). split; [done|by apply elem_of_map_to_list]. }
  rewrite (stable_sort_order rank_le rank_le_total rank_le_trans _ _ Hp).
  - clear. unfold all_workloads. cbn [List.filter]. by repeat destruct (has_group m _).
  - intros x y _ _ Hxy Hyx. unfold rank_le in *. apply workload_rank_inj. apply Z.leb_le in Hxy, Hyx. lia.
Qed.

Section rendering.
Context `{Paint} (fmt_latency_f64 : f64 -> list byte).

(** the report as a text: what [Compare] says is shown, line by line *)
Definition render_fields (goals : option Goals) (fields : list FieldCmp) : list byte := concat (map (field_line fmt_latency_f64 goals) fields).
Definition render_section (title : list byte) (fields : list FieldCmp) (goals : option Goals) : list byte :=
  match fields with
  | [] => []
  | _ => (title ++ newline) ++ header_line (is_some goals) ++ render_fields goals (shown_fields fields)
  end.
Definition render_group (goals : option Goals) (g : Workload * list FieldCmp) : list byte :=
  condensed_title g.1 ++ header_line (is_some goals) ++ render_fields goals g.2.
(** groups are separated by an empty line *)
Definition render_condensed (goals : option Goals) (comparisons : list RunComparisons) : list byte :=
  match condensed comparisons with
  | [] => []
  | g :: rest => render_group goals g ++ concat (map (fun g => newline ++ render_group goals g) rest)
  end.
Definition render_verbose (goals : option Goals) (comparisons : list RunComparisons) : list byte :=
  concat (map (fun c => comp_title (rc_cw c) ++ header_line (is_some goals) ++ render_fields goals (shown_fields (rc_fields c))) comparisons).
Definition render_regressions (verbose : bool) (c : CmpResult) : list byte :=
  match shown_regressions verbose c with
  | [] => []
  | l => regressions_title (blen l) ++ header_line false ++ render_fields None l
  end.
Definition render (file : list byte) (c : CmpResult) (goals : option Goals) (verbose : bool) : list byte :=
  (str "=> cmp: " ++ file ++ str " vs " ++ fmt_uint (blen (cr_files c) - 1) ++ str " target(s) <=" ++ newline) ++
  (if verbose then render_verbose goals (cr_comparisons c) else render_condensed goals (cr_comparisons c)) ++
  render_section (newline ++ str "--- Aggregate Metrics ---") (cr_metrics c) goals ++
  render_section (newline ++ str "--- Saturations ---") (cr_saturations c) goals ++
  render_section (newline ++ str "--- Memory Profile ---") (cr_mem c) goals ++
  render_regressions verbose c.

Context {W : Type} `{WriteLaws W}.

Lemma write_fields_emits goals fields : emits (W := W) (write_fields fmt_latency_f64 fields goals) (render_fields goals (shown_fields fields)).
Proof. induction fields as [|f l IH]; cbn [write_fields shown_fields List.filter]; [apply emits_ret|]. destruct (field_zero f); cbn [negb]; [exact IH|]. exact (emits_bind _ _ _ _ (emits_write _) IH). Qed.
Lemma write_lines_emits fields : emits (W := W) (write_lines fmt_latency_f64 fields) (render_fields None fields).
Proof. induction fields as [|f l IH]; cbn [write_lines]; [apply emits_ret|]. exact (emits_bind _ _ _ _ (emits_write _) IH). Qed.
Lemma write_section_emits title fields goals : emits (W := W) (write_section fmt_latency_f64 title fields goals) (render_section title fields goals).
Proof.
  destruct fields as [|f l]; [apply emits_ret|]. unfold write_section, render_section, write_header. auto using write_fields_emits with emits.
Qed.
Lemma write_core_fields_emits goals fields : emits (W := W) (write_core_fields fmt_latency_f64 fields goals) (render_fields goals (condensed_fields fields)).
Proof.
  induction fields as [|f l IH]; cbn [write_core_fields condensed_fields List.filter]; [apply emits_ret|].
  destruct (field_zero f); cbn [negb andb]; [exact IH|]. destruct (is_core_metric _); [|exact IH]. exact (emits_bind _ _ _ _ (emits_write _) IH).
Qed.
Lemma render_fields_app goals l k : render_fields goals (l ++ k) = render_fields goals l ++ render_fields goals k.
Proof. unfold render_fields. by rewrite map_app, concat_app. Qed.
Lemma write_core_comps_emits goals comps : emits (W := W) (write_core_comps fmt_latency_f64 comps goals)
  (render_fields goals (concat (map (fun c => condensed_fields (rc_fields c)) comps))).
Proof.
  induction comps as [|c l IH]; cbn [write_core_comps map concat]; [apply emits_ret|]. rewrite render_fields_app.
  apply emits_bind; [apply write_core_fields_emits|exact IH].
Qed.
Lemma write_verbose_emits goals comps : emits (W := W) (write_verbose fmt_latency_f64 comps goals) (render_verbose goals comps).
Proof.
  induction comps as [|c l IH]; cbn [write_verbose]; [apply emits_ret|]. unfold render_verbose. cbn [map concat]. rewrite <- !app_assoc.
  unfold write_header. auto using write_fields_emits with emits.
Qed.
Lemma write_regressions_emits verbose c : emits (W := W) (write_regressions fmt_latency_f64 verbose c) (render_regressions verbose c).
Proof.
  unfold write_regressions, render_regressions, shown_regressions. destruct (cr_regressed_fields c) as [|f l]; [apply emits_ret|].
  destruct (List.filter _ _); [apply emits_ret|]. unfold write_header. auto using write_lines_emits with emits.
Qed.

(** the groups of [condensed], from the map *)
Definition group_lines (m : gmap Workload (list RunComparisons)) (w : Workload) : Workload * list FieldCmp :=
  (w, concat (map (fun c => condensed_fields (rc_fields c)) (default [] (m !! w)))).
Lemma condensed_groups cs :
  condensed cs = map (group_lines (group_by_workload cs)) (List.filter (has_group (group_by_workload cs)) all_workloads).
Proof.
  unfold condensed. fold all_workloads. induction all_workloads as [|w ws IH] using rev_ind; [done|].
  rewrite omap_app, IH, List.filter_app, map_app. f_equal. clear IH. cbn [omap list_omap List.filter]. unfold has_group.
  rewrite (group_by_workload_get cs w). destruct (List.filter _ cs) as [|c l] eqn:E; [done|].
  rewrite bool_decide_eq_true_2 by (by eexists). cbn [map]. unfold group_lines. by rewrite group_by_workload_get, E.
Qed.

Lemma write_workloads_emits goals m first ws : Forall (fun w => has_group m w = true) ws ->
  emits (W := W) (write_workloads fmt_latency_f64 first ws m goals)
    (match map (group_lines m) ws with
     | [] => []
     | g :: rest => (if first then [] else newline) ++ render_group goals g ++ concat (map (fun g => newline ++ render_group goals g) rest)
     end).
Proof.
  intros Hws. revert first. induction Hws as [|w ws Hw Hws IH]; intros first; cbn [write_workloads map]; [apply emits_ret|].
  apply bool_decide_eq_true in Hw as [comps Hc]. unfold render_group at 1. rewrite <- !app_assoc.
  apply emits_bind; [destruct first; [apply emits_ret|apply emits_write]|]. apply emits_bind; [apply emits_write|].
  apply emits_bind; [apply emits_write|]. apply (emits_unwrap _ comps); [done|]. unfold group_lines at 1. rewrite Hc. cbn [default snd fst].
  apply emits_bind; [apply write_core_comps_emits|]. specialize (IH false). by destruct ws.
Qed.
Lemma write_condensed_emits keys goals cs : (forall m, keys m ≡ₚ (map_to_list m).*1) ->
  emits (W := W) (write_condensed fmt_latency_f64 keys cs goals) (render_condensed goals cs).
Proof.
  intros Hk. unfold write_condensed. cbv zeta. rewrite (workload_order _ _ (Hk _)). unfold render_condensed. rewrite condensed_groups.
  pose proof (write_workloads_emits goals (group_by_workload cs) true (List.filter (has_group (group_by_workload cs)) all_workloads)) as Hw.
  cbn [app] in Hw. apply Hw, Forall_forall. intros w Hin%list_elem_of_In. by apply filter_In in Hin as [_ ?].
Qed.

(** The report. On every writer, and whatever the order of the hash map: when
    [write_to] succeeds, what it has written is the text [render] of the
    comparisons that [Compare] says are shown, and it succeeds when the writer
    takes everything; a result without files panics, before anything is
    written. *)
Lemma write_to_spec (keys : gmap Workload (list RunComparisons) -> list Workload) (c : CmpResult) (goals : option Goals) (verbose : bool)
    (Hk : forall m, keys m ≡ₚ (map_to_list m).*1) :
  match cr_files c with
  | [] => forall w : W, write_to fmt_latency_f64 keys c goals verbose w = (w, Panic)
  | file :: _ => emits (W := W) (write_to fmt_latency_f64 keys c goals verbose) (render file c goals verbose)
  end.
Proof.
  unfold write_to. destruct (cr_files c) as [|file files] eqn:E; [done|].
  change (emits (W := W) (w_write_all (str "=> cmp: " ++ file ++ str " vs " ++ fmt_uint (blen (file :: files) - 1) ++ str " target(s) <=" ++ newline) ≫= fun _ =>
    (if verbose then write_verbose fmt_latency_f64 (cr_comparisons c) goals else write_condensed fmt_latency_f64 keys (cr_comparisons c) goals) ≫= fun _ =>
    write_section fmt_latency_f64 (newline ++ str "--- Aggregate Metrics ---") (cr_metrics c) goals ≫= fun _ =>
    write_section fmt_latency_f64 (newline ++ str "--- Saturations ---") (cr_saturations c) goals ≫= fun _ =>
    write_section fmt_latency_f64 (newline ++ str "--- Memory Profile ---") (cr_mem c) goals ≫= fun _ =>
    write_regressions fmt_latency_f64 verbose c) (render file c goals verbose)).
  unfold render. rewrite E. apply emits_bind; [apply emits_write|]. apply emits_bind; [destruct verbose; [apply write_verbose_emits|by apply write_condensed_emits]|].
  do 3 (apply emits_bind; [apply write_section_emits|]). apply write_regressions_emits.
Qed.
End rendering.

(** ** The columns *)

(** The header is eight characters narrower than a line: its first column is
    22 wide and that of the lines is 30, so that no heading is above its
    column. The cell of a field without a goal is 11 wide in a column of 12. *)
Definition visible (s : list byte) : nat := str_chars (List.filter (fun b => negb (bool_decide (b = Byte.x0a))) s).

Lemma visible_app s t : visible (s ++ t) = (visible s + visible t)%nat.
Proof. unfold visible. by rewrite List.filter_app, str_chars_app. Qed.

Lemma header_narrow show : visible (header_line show) = (if show then 87 else 74)%nat.
Proof. by destruct show. Qed.
Lemma no_goal_narrow : visible no_goal = 11%nat.
Proof. reflexivity. Qed.

(** a line on the page, without colours *)
Example field_line_plain :
  let f := field (str "inserts/s") (f64_of_Z 12000) (f64_of_Z 1500000) false HigherBetter None in
  @field_line plain_paint (fun _ => []) None f =
    str "  inserts/s                             12.0K        1.50M       +1.49M  +12400.0%" ++ newline /\
  header_line false = str "                             BASELINE       TARGET        DELTA  DELTA_PCT" ++ newline /\
  visible (@field_line plain_paint (fun _ => []) None f) = 82%nat.
Proof. vm_compute. split_and!; reflexivity. Qed.

(** a write that fails ends the report *)
Lemma write_to_demo :
  let c := {| cr_files := [str "base.json"; str "new.json"]; cr_comparisons := []; cr_saturations := []; cr_metrics := [];
              cr_mem := [field (str "mem_rss_max_kb") (f64_of_Z 0) (f64_of_Z 0) false LowerBetter None;
                         field (str "mem_rss_end_kb") (f64_of_Z 2000) (f64_of_Z 1000) false LowerBetter None]; cr_regressed_fields := [] |} in
  @write_to plain_paint (fun _ => []) (list byte) vec_write (fun m => (map_to_list m).*1) c None true [] =
  (str "=> cmp: base.json vs 1 target(s) <=" ++ newline ++ newline ++ str "--- Memory Profile ---" ++ newline ++
   str "                             BASELINE       TARGET        DELTA  DELTA_PCT" ++ newline ++
   str "  mem_rss_end_kb                         2.0K         1.0K        -1.0K     -50.0%" ++ newline, Ok tt).
Proof. vm_compute. reflexivity. Qed.
