(* ===== verification/Runs.v ===== *)
(** * Run directories: logregator-tools/src/runs.rs

    A directory is its entries in the order they are listed; a file that
    cannot be opened has no content. What the JSON files hold is a parameter,
    as the types and their parsers are not part of the repository
    ([crate::bench]). Warnings on standard error are left out. *)
From S2P Require Import Prelude Std Text Codec CoreStorage Float Metrics Mem.

Inductive DirEntry :=
| EntFile (name : list byte) (content : option (list byte))
| EntDir (name : list byte) (entries : option (list (list byte * option (list byte)))).
Definition entry_name (e : DirEntry) : list byte := match e with EntFile n _ | EntDir n _ => n end.

Class RunFormats := {
  RunMeta : Type;
  RunResult : Type;
  parse_meta : list byte -> option RunMeta;
  parse_result : list byte -> option RunResult;
  parse_mem_report : list byte -> option MemReport
}.

(** the fields that are filled in; a log and a flame graph are kept as files *)
Record RunBuilder `{RunFormats} := {
  rb_base_path : option (list byte);
  rb_meta : option RunMeta;
  rb_benchmark_result : option RunResult;
  rb_mem_report : option MemReport;
  rb_server_log : option (list byte);
  rb_prof_flamegraph : option (list byte);
  rb_prof_perf_output : option (list byte);
  rb_prof_strace_output : option (list byte);
  rb_prof_syscall_output : option (list byte)
}.

Definition BENCHMARK_META := str "meta.json".
Definition BENCHMARK_RESULT := str "benchmark_result.json".
Definition BENCHMARK_SERVER_LOG := str "server.log".
Definition BENCHMARK_MEM_REPORT := str "mem_report.json".
Definition PROFILING_DIR := str "prof".
Definition PROF_FLAMEGRAPH_FILE := str "flamegraph.svg".
Definition PROF_PERF_FILE := str "perf.txt".
Definition PROF_STRACE_FILE := str "strace.txt".
Definition PROF_SYSCALL_FILE := str "syscall.txt".

(** [read_json]: an empty file is no value *)
Definition read_json {A} (parse : list byte -> option A) (content : option (list byte)) : outcome io_error (option A) :=
  match content with
  | None => bail
  | Some [] => Ok None
  | Some bs => match parse bs with Some a => Ok (Some a) | None => bail end
  end.

(** [read_to_string]: text that is not empty *)
Definition read_text (content : option (list byte)) : outcome io_error (option (list byte)) :=
  match content with
  | None => bail
  | Some bs => if utf8_valid bs then Ok (match bs with [] => None | _ => Some bs end) else bail
  end.

(** a file that opens and is not empty *)
Definition nonempty_file (content : option (list byte)) : option (list byte) :=
  match content with Some [] | None => None | Some bs => Some bs end.

(** an assignment that leaves the field alone when there is no value *)
Definition or_keep {A} (new old : option A) : option A := match new with Some a => Some a | None => old end.

Section unpack.
Context `{RunFormats}.

Definition parse_prof_entry (b : RunBuilder) (e : list byte * option (list byte)) : outcome io_error RunBuilder :=
  let '(file_name, content) := e in
  let '(Build_RunBuilder _ bp me re mr sl fl pe st sy) := b in
  if negb (utf8_valid file_name) then Ok b
  else if decide (file_name = PROF_FLAMEGRAPH_FILE) then
    Ok (Build_RunBuilder _ bp me re mr sl (or_keep (nonempty_file content) fl) pe st sy)
  else if decide (file_name = PROF_PERF_FILE) then
    s ← read_text content; Ok (Build_RunBuilder _ bp me re mr sl fl (or_keep s pe) st sy)
  else if decide (file_name = PROF_STRACE_FILE) then
    s ← read_text content; Ok (Build_RunBuilder _ bp me re mr sl fl pe (or_keep s st) sy)
  else if decide (file_name = PROF_SYSCALL_FILE) then
    s ← read_text content; Ok (Build_RunBuilder _ bp me re mr sl fl pe st (or_keep s sy))
  else Ok b.

Fixpoint fold_entries {A} (step : RunBuilder -> A -> outcome io_error RunBuilder) (b : RunBuilder) (l : list A) : outcome io_error RunBuilder :=
  match l with [] => Ok b | e :: rest => b ← step b e; fold_entries step b rest end.

Definition parse_prof_dir (b : RunBuilder) (entries : option (list (list byte * option (list byte)))) : outcome io_error RunBuilder :=
  match entries with None => bail | Some l => fold_entries parse_prof_entry b l end.

Definition unpack_entry (b : RunBuilder) (e : DirEntry) : outcome io_error RunBuilder :=
  match e with
  | EntDir name entries => if decide (name = PROFILING_DIR) then parse_prof_dir b entries else Ok b
  | EntFile name content =>
      let '(Build_RunBuilder _ bp me re mr sl fl pe st sy) := b in
      if negb (utf8_valid name) then Ok b
      else if decide (name = BENCHMARK_META) then
        m ← read_json parse_meta content; Ok (Build_RunBuilder _ bp (or_keep m me) re mr sl fl pe st sy)
      else if decide (name = BENCHMARK_RESULT) then
        r ← read_json parse_result content; Ok (Build_RunBuilder _ bp me (or_keep r re) mr sl fl pe st sy)
      else if decide (name = BENCHMARK_MEM_REPORT) then
        m ← read_json parse_mem_report content; Ok (Build_RunBuilder _ bp me re (or_keep m mr) sl fl pe st sy)
      else if decide (name = BENCHMARK_SERVER_LOG) then
        Ok (Build_RunBuilder _ bp me re mr (or_keep (nonempty_file content) sl) fl pe st sy)
      else Ok b
  end.

(** [None]: the directory cannot be listed *)
Definition unpack_rundir (run_path : list byte) (entries : option (list DirEntry)) : outcome io_error RunBuilder :=
  match entries with
  | None => bail
  | Some l => fold_entries unpack_entry (Build_RunBuilder _ (Some run_path) None None None None None None None None) l
  end.

Definition read_baseline (content : option (list byte)) : outcome io_error RunResult :=
  r ← read_json parse_result content;
  match r with Some r => Ok r | None => bail end.

(** [main] of bin/desc.rs: the directory is read and the run is built; the
    builder's [build] belongs to [crate::bench] *)
Definition desc_main {Run : Type} (build : RunBuilder -> outcome io_error Run) (target : list byte) (entries : option (list DirEntry)) :
    outcome io_error unit :=
  b ← unpack_rundir target entries;
  _ ← build b;
  Ok tt.
End unpack.

(** [create_rundir], of the time in milliseconds *)
Definition rundir_path (ts : Z) (tag : list byte) : list byte := str "bench/runs/" ++ fmt_uint ts ++ str "__" ++ tag.

(** ** The order of a listing does not matter *)

Section order.
Context `{RunFormats}.

(** folding steps that commute when their keys differ *)
Section commuting.
Context {A K : Type} (step : RunBuilder -> A -> outcome io_error RunBuilder) (key : A -> K) (P : A -> Prop).
Hypothesis commute : forall b x y, P x -> P y -> key x <> key y ->
  (step b x ≫= fun b => step b y) = (step b y ≫= fun b => step b x).

Lemma fold_entries_perm l k : l ≡ₚ k -> Forall P l -> NoDup (key <$> l) -> forall b, fold_entries step b l = fold_entries step b k.
Proof.
  induction 1 as [|x l k _ IH|x y l|l k m Hlk IH1 _ IH2]; intros HP Hnd b; [done|..].
  - apply Forall_cons in HP as [_ HP]. apply NoDup_cons in Hnd as [_ Hnd]. cbn [fold_entries].
    destruct (step b x) as [b'|e|]; cbn; [|done..]. by apply IH.
  - apply Forall_cons in HP as [Hy HP]. apply Forall_inv in HP as Hx. apply NoDup_cons in Hnd as [Hn _].
    assert (key y <> key x) as Hne by (intros E; apply Hn; rewrite E; left).
    pose proof (commute b y x Hy Hx Hne) as Hc. cbn [fold_entries].
    destruct (step b y) as [b1|e1|] eqn:E1, (step b x) as [b2|e2|] eqn:E2; cbn in Hc |- *;
      first [congruence|by rewrite Hc|by rewrite <- Hc].
  - rewrite IH1 by done. apply IH2; [by rewrite <- Hlk|]. by rewrite <- Hlk.
Qed.
End commuting.

(** reading a file gives a value or the one error *)
Definition ok_or_bail {A} (m : outcome io_error A) : Prop := (exists a, m = Ok a) \/ m = bail.
Lemma read_text_cases c : ok_or_bail (read_text c).
Proof. destruct c as [bs|]; cbn; [|by right]. destruct (utf8_valid bs); [left; by eexists|by right]. Qed.
Lemma read_json_cases {A} (p : list byte -> option A) c : ok_or_bail (read_json p c).
Proof. destruct c as [[|b bs]|]; cbn; [left; by eexists| |by right]. destruct (p (b :: bs)); [left; by eexists|by right]. Qed.

Ltac decide_all := repeat match goal with |- context [decide ?P] => destruct (decide P) end.

Lemma prof_commute b x y : x.1 <> y.1 ->
  (parse_prof_entry b x ≫= fun b => parse_prof_entry b y) = (parse_prof_entry b y ≫= fun b => parse_prof_entry b x).
Proof.
  destruct x as [n1 c1], y as [n2 c2]. cbn [fst]. intros Hne. unfold parse_prof_entry. destruct b as [bp me re mr sl fl pe st sy].
  destruct (utf8_valid n1), (utf8_valid n2); cbn [negb]; decide_all; try congruence;
    destruct (read_text_cases c1) as [[t1 E1]|E1], (read_text_cases c2) as [[t2 E2]|E2]; cbn; rewrite ?E1, ?E2; cbn; rewrite ?E1, ?E2; done.
Qed.

(** a sub-directory changes only the fields of profiles *)
Lemma prof_entry_file b e name content : ok_or_bail (parse_prof_entry b e) /\
  (parse_prof_entry b e ≫= fun b => unpack_entry b (EntFile name content)) =
  (unpack_entry b (EntFile name content) ≫= fun b => parse_prof_entry b e).
Proof.
  destruct e as [n c]. unfold parse_prof_entry, unpack_entry. destruct b as [bp me re mr sl fl pe st sy].
  pose proof (read_text_cases c) as Ht. pose proof (read_json_cases parse_meta content) as Hm.
  pose proof (read_json_cases parse_result content) as Hr. pose proof (read_json_cases parse_mem_report content) as Hp.
  split.
  - destruct (negb _); [left; by eexists|]. decide_all; try (left; by eexists); (destruct Ht as [[t ->]| ->]; [left; by eexists|by right]).
  - destruct (utf8_valid n), (utf8_valid name); cbn [negb]; decide_all;
      destruct Ht as [[? E1]|E1]; first [reflexivity|cbn; rewrite ?E1; cbn; reflexivity|idtac];
      try (destruct Hm as [[? E2]|E2]; cbn; rewrite ?E1, ?E2; cbn; rewrite ?E1, ?E2; reflexivity);
      try (destruct Hr as [[? E2]|E2]; cbn; rewrite ?E1, ?E2; cbn; rewrite ?E1, ?E2; reflexivity);
      try (destruct Hp as [[? E2]|E2]; cbn; rewrite ?E1, ?E2; cbn; rewrite ?E1, ?E2; reflexivity).
Qed.
Lemma outcome_bind_assoc {A B C} (m : outcome io_error A) (f : A -> outcome io_error B) (g : B -> outcome io_error C) :
  ((m ≫= f) ≫= g) = (m ≫= fun a => f a ≫= g).
Proof. by destruct m. Qed.

Lemma prof_dir_file b l name content :
  (fold_entries parse_prof_entry b l ≫= fun b => unpack_entry b (EntFile name content)) =
  (unpack_entry b (EntFile name content) ≫= fun b => fold_entries parse_prof_entry b l).
Proof.
  induction l as [|e l IH] in b |- *; cbn [fold_entries].
  - cbn [mbind outcome_bind]. by destruct (unpack_entry _ _).
  - rewrite outcome_bind_assoc. etrans; [|etrans].
    + instantiate (1 := parse_prof_entry b e ≫= fun b => unpack_entry b (EntFile name content) ≫= fun b => fold_entries parse_prof_entry b l).
      destruct (parse_prof_entry b e) as [b'|er|]; cbn [mbind outcome_bind]; [apply IH|done..].
    + instantiate (1 := (parse_prof_entry b e ≫= fun b => unpack_entry b (EntFile name content)) ≫= fun b => fold_entries parse_prof_entry b l).
      by rewrite outcome_bind_assoc.
    + destruct (prof_entry_file b e name content) as [_ ->]. by rewrite outcome_bind_assoc.
Qed.

Lemma unpack_ok_or_bail b name content : ok_or_bail (unpack_entry b (EntFile name content)).
Proof.
  unfold unpack_entry. destruct b as [bp me re mr sl fl pe st sy]. destruct (negb _); [left; by eexists|].
  pose proof (read_json_cases parse_meta content) as Hm. pose proof (read_json_cases parse_result content) as Hr.
  pose proof (read_json_cases parse_mem_report content) as Hp. decide_all; try (left; by eexists).
  - destruct Hm as [[? ->]| ->]; [left; by eexists|by right].
  - destruct Hr as [[? ->]| ->]; [left; by eexists|by right].
  - destruct Hp as [[? ->]| ->]; [left; by eexists|by right].
Qed.

Lemma file_commute b n1 c1 n2 c2 : n1 <> n2 ->
  (unpack_entry b (EntFile n1 c1) ≫= fun b => unpack_entry b (EntFile n2 c2)) =
  (unpack_entry b (EntFile n2 c2) ≫= fun b => unpack_entry b (EntFile n1 c1)).
Proof.
  intros Hne. unfold unpack_entry. destruct b as [bp me re mr sl fl pe st sy].
  destruct (utf8_valid n1), (utf8_valid n2); cbn [negb]; decide_all; try congruence; try reflexivity;
    repeat match goal with
    | |- context [read_json ?p ?c] => destruct (read_json_cases p c) as [[? E]|E]; cbn; rewrite ?E; cbn; rewrite ?E; clear E; try reflexivity
    end.
Qed.

Lemma dir_cases n l :
  (n = PROFILING_DIR /\ forall b, unpack_entry b (EntDir n l) = parse_prof_dir b l) \/ (n <> PROFILING_DIR /\ forall b, unpack_entry b (EntDir n l) = Ok b).
Proof. cbn. case_decide; [left|right]; done. Qed.

Lemma dir_file_commute b n l name content :
  (unpack_entry b (EntDir n l) ≫= fun b => unpack_entry b (EntFile name content)) =
  (unpack_entry b (EntFile name content) ≫= fun b => unpack_entry b (EntDir n l)).
Proof.
  assert (forall g, (forall b, unpack_entry b (EntDir n l) = g b) ->
    (unpack_entry b (EntFile name content) ≫= fun b => unpack_entry b (EntDir n l)) = (unpack_entry b (EntFile name content) ≫= g)) as Hext.
  { intros g Hg. destruct (unpack_ok_or_bail b name content) as [[b' ->]| ->]; [apply Hg|done]. }
  destruct (dir_cases n l) as [[_ Hd]|[_ Hd]]; rewrite (Hext _ Hd), Hd.
  - destruct l as [l|]; [apply prof_dir_file|]. by destruct (unpack_ok_or_bail b name content) as [[b' ->]| ->].
  - by destruct (unpack_ok_or_bail b name content) as [[b' E]|E]; cbn [mbind outcome_bind]; rewrite E.
Qed.

Lemma unpack_commute b x y : entry_name x <> entry_name y ->
  (unpack_entry b x ≫= fun b => unpack_entry b y) = (unpack_entry b y ≫= fun b => unpack_entry b x).
Proof.
  intros Hne. destruct x as [n1 c1|n1 l1], y as [n2 c2|n2 l2]; cbn [entry_name] in Hne; [by apply file_commute|symmetry; apply dir_file_commute|apply dir_file_commute|].
  destruct (dir_cases n1 l1) as [[-> H1]|[_ H1]], (dir_cases n2 l2) as [[-> H2]|[_ H2]]; [done|..]; rewrite H1, H2; cbn [mbind outcome_bind].
  - rewrite H1. destruct (parse_prof_dir b l1); [apply H2|done..].
  - rewrite H2. destruct (parse_prof_dir b l2) as [b'|?|]; [symmetry; apply H1|done..].
  - by rewrite H1, H2.
Qed.

(** The order in which a directory is listed does not matter. Names in
    a directory are distinct; then unpacking gives the same run, or fails
    alike, for every order of the entries of the run directory and of its
    [prof] directory. *)
Theorem unpack_order (run_path : list byte) (entries entries' : list DirEntry) (prof prof' : list (list byte * option (list byte)))
    (Hp : entries ≡ₚ EntDir PROFILING_DIR (Some prof) :: entries') (Hprof : prof ≡ₚ prof')
    (Hnd : NoDup (entry_name <$> entries)) (Hndp : NoDup (fst <$> prof)) :
  unpack_rundir run_path (Some entries) = unpack_rundir run_path (Some (EntDir PROFILING_DIR (Some prof') :: entries')).
Proof.
  cbn [unpack_rundir].
  rewrite (fold_entries_perm unpack_entry entry_name (fun _ => True) ltac:(intros; by apply unpack_commute) _ _ Hp); [|by apply Forall_true|done].
  cbn [fold_entries unpack_entry parse_prof_dir]. rewrite decide_True by done.
  by rewrite (fold_entries_perm parse_prof_entry fst (fun _ => True) ltac:(intros; by apply prof_commute) _ _ Hprof); [|apply Forall_true|].
Qed.
End order.

(** ** A run directory *)

#[local] Instance demo_formats : RunFormats := {|
  RunMeta := Z; RunResult := Z; parse_meta := parse_uint u64_max; parse_result := parse_uint u64_max; parse_mem_report _ := None
|}.
Definition demo_entries : list DirEntry :=
  [EntFile BENCHMARK_RESULT (Some (str "7")); EntDir (str "server_data") None;
   EntDir PROFILING_DIR (Some [(PROF_PERF_FILE, Some (str "x")); (PROF_FLAMEGRAPH_FILE, Some [])]); EntFile BENCHMARK_SERVER_LOG None].

Lemma unpack_order_witness :
  unpack_rundir (str "r") (Some demo_entries) =
    unpack_rundir (str "r") (Some [EntDir PROFILING_DIR (Some [(PROF_FLAMEGRAPH_FILE, Some []); (PROF_PERF_FILE, Some (str "x"))]);
      EntFile BENCHMARK_SERVER_LOG None; EntDir (str "server_data") None; EntFile BENCHMARK_RESULT (Some (str "7"))]) /\
  exists b, unpack_rundir (str "r") (Some demo_entries) = Ok b /\ rb_benchmark_result b = Some 7 /\ rb_prof_flamegraph b = None.
Proof.
  split; [|eexists; split; [vm_compute; reflexivity|split; reflexivity]].
  apply (unpack_order (str "r") demo_entries _ [(PROF_PERF_FILE, Some (str "x")); (PROF_FLAMEGRAPH_FILE, Some [])]).
  - unfold demo_entries. solve_Permutation.
  - apply Permutation_swap.
  - apply (bool_decide_unpack _). by vm_compute.
  - apply (bool_decide_unpack _). by vm_compute.
Defined.
