(* ===== verification/Baseline.v ===== *)
(** * Saved baselines: logregator-tools/src/bin/baseline.rs

    The collection is the directories under [bench/runs/baseline] in the
    order they are listed, each with its files, and the pointer file. Names
    that are not UTF-8 are skipped by the code and left out here; writing
    does not fail. *)
From S2P Require Import Prelude Std Text Codec CoreStorage.

Definition BASELINE_DIR : list byte := str "bench/runs/baseline".

Record Baselines := { bl_dirs : list (list byte * gmap (list byte) (list byte)); bl_pointer : option (list byte) }.

(** ** [existing_baselines] *)

(** the id of a directory name and its path *)
Definition baseline_entry (dirname : list byte) : option (list byte * list byte) :=
  '(id, _) ← split_at_str (str "__") dirname;
  Some (id, BASELINE_DIR ++ str "/" ++ dirname).

Definition id_value (id : list byte) : Z := default 0 (parse_uint u32_max id).
Definition id_le (a b : list byte * list byte) : bool := id_value a.1 <=? id_value b.1.

Definition existing_baselines (bl : Baselines) : list (list byte * list byte) :=
  stable_sort id_le (omap baseline_entry (bl_dirs bl).*1).

(** ** The commands *)

(** what the source path is: a directory or a file, and the files beside it *)
Record BaselineSrc := { src_is_dir : bool; src_name : list byte; src_files : gmap (list byte) (list byte) }.

Definition BASELINE_FILES : list (list byte) :=
  [str "benchmark_result.json"; str "meta.json"; str "mem_report.json"; str "reg.json"].

(** the files of those names that are there *)
Definition copied_files (src : BaselineSrc) : gmap (list byte) (list byte) :=
  list_to_map (omap (fun f => (fun c => (f, c)) <$> src_files src !! f) BASELINE_FILES).

(** [create_dir_all] keeps a directory that is there *)
Definition add_files (dir : list byte) (files : gmap (list byte) (list byte)) (dirs : list (list byte * gmap (list byte) (list byte)))
    : list (list byte * gmap (list byte) (list byte)) :=
  if decide (dir ∈ dirs.*1) then map (fun d => if decide (d.1 = dir) then (d.1, files ∪ d.2) else d) dirs
  else dirs ++ [(dir, files)].

(** [n + 1] wraps *)
Definition next_id (entries : list (list byte * list byte)) : Z :=
  match omap (fun e => parse_uint u32_max e.1) entries with
  | [] => 1
  | n :: rest => wrap32 (foldl Z.max n rest + 1)
  end.

Definition dir_name (id : Z) (tag : list byte) : list byte := fmt_uint_pad 2 id ++ str "__" ++ tag.

Definition cmd_current (src : BaselineSrc) (tag : option (list byte)) (bl : Baselines) : outcome io_error Baselines :=
  let result_file := if src_is_dir src then str "benchmark_result.json" else src_name src in
  match src_files src !! result_file with
  | None => bail
  | Some _ =>
      let name := dir_name (next_id (existing_baselines bl)) (default (str "baseline") tag) in
      Ok {| bl_dirs := add_files name (copied_files src) (bl_dirs bl); bl_pointer := Some (BASELINE_DIR ++ str "/" ++ name) |}
  end.

(** the lines of [list]: id, path and whether it is active *)
Definition cmd_list (bl : Baselines) : list (list byte * list byte * bool) :=
  map (fun e => (e.1, e.2, bool_decide (bl_pointer bl = Some e.2))) (existing_baselines bl).

Definition cmd_set (id : list byte) (bl : Baselines) : outcome io_error Baselines :=
  let entries := existing_baselines bl in
  let target := if decide (id = str "latest") then snd <$> last entries
                else snd <$> List.find (fun e => bool_decide (e.1 = id)) entries in
  match target with
  | Some dir => Ok {| bl_dirs := bl_dirs bl; bl_pointer := Some dir |}
  | None => bail
  end.

Inductive BaselineCommand := Current (src : BaselineSrc) (tag : option (list byte)) | ListAll | SetTo (id : list byte) | SwitchTo (id : list byte).
(** [main]: what is left, and the exit code; [set] and [switch] are the same *)
Definition baseline_main (cmd : BaselineCommand) (bl : Baselines) : Baselines * Z :=
  let res := match cmd with
             | Current src tag => cmd_current src tag bl
             | ListAll => Ok bl
             | SetTo id | SwitchTo id => cmd_set id bl
             end in
  match res with Ok bl' => (bl', 0) | _ => (bl, 1) end.

(** ** A new baseline is the latest *)

Definition in_range (entries : list (list byte * list byte)) : Prop :=
  Forall (fun e => forall n, parse_uint u32_max e.1 = Some n -> n < u32_max) entries.

Lemma parse_digits_bound max bs : forall acc n, 0 <= acc <= max -> num_digits max bs acc = Some n -> 0 <= n <= max.
Proof.
  induction bs as [|b bs IH]; intros acc n Ha; cbn [num_digits]; [by intros [= <-]|].
  destruct (digit_val b) as [d|] eqn:Ed; [|done]. destruct (Z.leb_spec (acc * 10 + d) max); [|done]. apply IH. split; [|lia].
  unfold digit_val in Ed. destruct (_ && _) eqn:Eb; [|done]. injection Ed as <-. apply andb_true_iff in Eb as [Eb%Z.leb_le _]. lia.
Qed.
Lemma parse_uint_bound max s n : 0 <= max -> parse_uint max s = Some n -> 0 <= n <= max.
Proof.
  intros Hm. unfold parse_uint. destruct s as [|b s]; [done|]. case_bool_decide.
  - destruct s; [done|]. apply parse_digits_bound. lia.
  - apply parse_digits_bound. lia.
Qed.

Lemma foldl_max_bound n l hi : n <= hi -> Forall (fun x => x <= hi) l -> n <= foldl Z.max n l <= hi /\ Forall (fun x => x <= foldl Z.max n l) l.
Proof.
  intros Hn Hl. induction Hl as [|x l Hx Hl IH] in n, Hn |- *; cbn; [split; [lia|constructor]|].
  destruct (IH (Z.max n x) ltac:(lia)) as [H1 H2]. split; [lia|]. constructor; [lia|done].
Qed.

Lemma next_id_above entries : in_range entries ->
  1 <= next_id entries <= u32_max /\ Forall (fun e => id_value e.1 < next_id entries) entries.
Proof.
  unfold in_range, next_id, id_value. intros Hr. set (ids := omap _ entries).
  assert (Forall (fun n => 0 <= n <= u32_max - 1) ids) as Hids.
  { apply Forall_forall. intros n (e & He & En)%list_elem_of_omap. rewrite Forall_forall in Hr. specialize (Hr e He n En).
    apply parse_uint_bound in En; [lia|by vm_compute]. }
  assert (forall e, e ∈ entries -> default 0 (parse_uint u32_max e.1) = 0 \/ default 0 (parse_uint u32_max e.1) ∈ ids) as Hin.
  { intros e He. destruct (parse_uint u32_max e.1) as [n|] eqn:En; [right|by left]. apply list_elem_of_omap. by exists e. }
  destruct ids as [|n ids].
  - split; [by vm_compute|]. apply Forall_forall. intros e He. destruct (Hin e He) as [->|?%not_elem_of_nil]; [lia|done].
  - apply Forall_cons in Hids as [Hn Hids]. destruct (foldl_max_bound n ids (u32_max - 1)) as [Hb Hall]; [lia|eapply Forall_impl; [exact Hids|cbn; lia]|].
    unfold wrap32. rewrite Z.mod_small by (unfold u32_max in *; lia). split; [lia|]. apply Forall_forall. intros e He.
    destruct (Hin e He) as [->|Hx]; [lia|]. apply elem_of_cons in Hx as [->|Hx]; [lia|]. rewrite Forall_forall in Hall. specialize (Hall _ Hx). lia.
Qed.

Lemma entry_of_dir_name id tag : baseline_entry (dir_name id tag) = Some (fmt_uint_pad 2 id, BASELINE_DIR ++ str "/" ++ dir_name id tag).
Proof.
  unfold baseline_entry. assert (split_at_str (str "__") (dir_name id tag) = Some (fmt_uint_pad 2 id, tag)) as ->; [|done].
  apply (split_at_str_app Byte.x5f [Byte.x5f] (fmt_uint_pad 2 id) tag). intros Hin. pose proof (fmt_pad_digits 2 id) as Hd.
  rewrite Forall_forall in Hd. destruct (Hd _ Hin) as (d & Hr & E). by destruct (digit_not d Byte.x5f Hr eq_refl).
Qed.

Lemma id_value_fmt n : 0 <= n <= u32_max -> id_value (fmt_uint_pad 2 n) = n.
Proof. intros Hn. unfold id_value. by rewrite parse_fmt_pad. Qed.

Lemma find_snoc {A} (p : A -> bool) l e : Forall (fun x => p x = false) l -> p e = true -> List.find p (l ++ [e]) = Some e.
Proof. intros Hl He. induction Hl as [|x l Hx _ IH]; cbn; [by rewrite He|by rewrite Hx]. Qed.

(** A captured baseline is new and the latest. Unless an id has reached
    [u32::MAX], [current] puts the files it found into a new directory, whose
    id is above all that exist; the collection keeps all others, in order,
    the pointer names the new one, and [set latest] and [set <its id>] name
    it as well. *)
Theorem baseline_current_latest (src : BaselineSrc) (tag : option (list byte)) (bl bl' : Baselines)
    (Hr : in_range (existing_baselines bl)) (Hcur : cmd_current src tag bl = Ok bl') :
  let n := next_id (existing_baselines bl) in
  let name := dir_name n (default (str "baseline") tag) in
  let dir := BASELINE_DIR ++ str "/" ++ name in
  Forall (fun e => id_value e.1 < n) (existing_baselines bl) /\
  bl_dirs bl' = bl_dirs bl ++ [(name, copied_files src)] /\
  existing_baselines bl' = existing_baselines bl ++ [(fmt_uint_pad 2 n, dir)] /\
  bl_pointer bl' = Some dir /\ cmd_set (str "latest") bl' = Ok bl' /\ cmd_set (fmt_uint_pad 2 n) bl' = Ok bl'.
Proof.
  destruct (next_id_above _ Hr) as [Hn Hall]. cbv zeta. set (n := next_id (existing_baselines bl)) in *.
  set (name := dir_name n (default (str "baseline") tag)). unfold cmd_current in Hcur. fold n name in Hcur.
  destruct (src_files src !! _) as [c|]; [|done].
  match type of Hcur with Ok ?x = Ok _ => assert (bl' = x) as -> by congruence end. clear Hcur.
  assert (id_value (fmt_uint_pad 2 n) = n) as Hv by (apply id_value_fmt; lia).
  assert (name ∉ (bl_dirs bl).*1) as Hnew.
  { intros Hin. assert ((fmt_uint_pad 2 n, BASELINE_DIR ++ str "/" ++ name) ∈ existing_baselines bl) as He.
    { unfold existing_baselines. rewrite stable_sort_perm. apply list_elem_of_omap. exists name. split; [done|apply entry_of_dir_name]. }
    rewrite Forall_forall in Hall. specialize (Hall _ He). cbn [fst] in Hall. lia. }
  assert (existing_baselines {| bl_dirs := bl_dirs bl ++ [(name, copied_files src)]; bl_pointer := Some (BASELINE_DIR ++ str "/" ++ name) |} =
    existing_baselines bl ++ [(fmt_uint_pad 2 n, BASELINE_DIR ++ str "/" ++ name)]) as Hex.
  { unfold existing_baselines in Hall |- *. cbn [bl_dirs]. rewrite fmap_app, omap_app.
    pose proof (entry_of_dir_name n (default (str "baseline") tag)) as Hent. fold name in Hent.
    replace (omap baseline_entry [(name, copied_files src)].*1) with [(fmt_uint_pad 2 n, BASELINE_DIR ++ str "/" ++ name)] 
      by (change (omap baseline_entry [(name, copied_files src)].*1) with (match baseline_entry name with Some e => [e] | None => [] end); by rewrite Hent).
    apply stable_sort_snoc. rewrite stable_sort_perm in Hall. eapply Forall_impl; [exact Hall|]. intros e He. unfold id_le. cbn [fst] in *.
    rewrite Hv. apply Z.leb_le. cbn in He. lia. }
  unfold add_files. rewrite decide_False by done. split_and!; [done|done|exact Hex|done| |].
  - unfold cmd_set. rewrite Hex. rewrite decide_True by done. by rewrite last_snoc.
  - unfold cmd_set. rewrite Hex. rewrite decide_False.
    + rewrite find_snoc; [done| |by apply bool_decide_eq_true]. eapply Forall_impl; [exact Hall|]. intros e He. cbn in He.
      apply bool_decide_eq_false. intros E. rewrite E, Hv in He. lia.
    + intros E. pose proof (fmt_pad_digits 2 n) as Hd. rewrite E in Hd. apply Forall_inv in Hd as (d & Hd & E').
      by destruct (digit_not d Byte.x6c Hd eq_refl).
Qed.

Definition demo_baselines : Baselines := {|
  bl_dirs := [(str "02__b", ∅); (str "notes", ∅); (str "11__c", ∅); (str "1__a", ∅)]; bl_pointer := Some (str "bench/runs/baseline/02__b")
|}.
Definition demo_src : BaselineSrc := {| src_is_dir := true; src_name := str "run"; src_files := {[str "benchmark_result.json" := str "{}"]} |}.

Lemma baseline_current_latest_witness :
  exists bl', cmd_current demo_src (Some (str "x__y")) demo_baselines = Ok bl' /\
    map fst (existing_baselines bl') = [str "1"; str "02"; str "11"; str "12"] /\
    cmd_set (str "latest") bl' = Ok bl' /\ bl_pointer bl' = Some (str "bench/runs/baseline/12__x__y").
Proof.
  eexists. split; [reflexivity|]. split; [vm_compute; reflexivity|].
  destruct (baseline_current_latest demo_src (Some (str "x__y")) demo_baselines _ ltac:(repeat constructor; cbn; intros n [= <-]; by vm_compute) eq_refl)
    as (_ & _ & _ & E & Hs & _).
  split; [exact Hs|vm_compute; reflexivity].
Defined.
