(* ===== verification/BenchTool.v ===== *)
(** * The load generator: logregator-tools/src/bin/bench.rs

    The runs of a benchmark, what a client does in a run, waiting for the
    server, and where the results go. The clock, the random generator and the
    server are inputs: an iteration of a client comes with the times, draws
    and answers it meets. The options and the counters belong to
    [crate::bench], which is not part of the repository; the records here
    have the fields the program uses. *)
From S2P Require Import Prelude Std Text Codec CoreProto CoreStorage Float Metrics Mem Compare.

Record BenchmarkArgs := {
  ba_addr : list byte; ba_workloads : list Workload; ba_duration : Z;
  ba_concurrency_min : Z; ba_concurrency_max : Z; ba_concurrency_step : Z;
  ba_sources : Z; ba_keys : Z; ba_value_size : Z; ba_batch_size : Z; ba_range_fraction : f64; ba_range_window : Z;
  ba_out_result : option (list byte); ba_out_meta : option (list byte); ba_out_dir : option (list byte)
}.
Record SingleRunConfig := {
  rc_addr : list byte; rc_run_id : Z; rc_workload : Workload; rc_concurrency : Z; rc_duration_secs : Z;
  rc_sources : Z; rc_keys : Z; rc_value_size : Z; rc_batch_size : Z; rc_range_fraction : f64; rc_range_window : Z
}.

(** ** [build_run_configs] *)

(** the inner [while]: the concurrencies of one workload, [None] when the
    fuel is used up; [u32] wraps *)
Fixpoint conc_loop (fuel : nat) (max step c : Z) : option (list Z) :=
  match fuel with
  | O => None
  | S fuel => if c <=? max then cons c <$> conc_loop fuel max step (wrap32 (c + if c =? 1 then 1 else step)) else Some []
  end.

Definition run_config (args : BenchmarkArgs) (workload : Workload) (run_id c : Z) : SingleRunConfig := {|
  rc_addr := ba_addr args; rc_run_id := run_id; rc_workload := workload; rc_concurrency := c; rc_duration_secs := ba_duration args;
  rc_sources := ba_sources args; rc_keys := ba_keys args; rc_value_size := ba_value_size args; rc_batch_size := ba_batch_size args;
  rc_range_fraction := ba_range_fraction args; rc_range_window := ba_range_window args
|}.

Fixpoint number_configs (args : BenchmarkArgs) (workload : Workload) (run_id : Z) (cs : list Z) : list SingleRunConfig :=
  match cs with
  | [] => []
  | c :: rest => run_config args workload run_id c :: number_configs args workload (run_id + 1) rest
  end.

Fixpoint build_from (fuel : nat) (args : BenchmarkArgs) (workloads : list Workload) (run_id : Z) : option (list SingleRunConfig) :=
  match workloads with
  | [] => Some []
  | w :: rest =>
      cs ← conc_loop fuel (ba_concurrency_max args) (ba_concurrency_step args) (ba_concurrency_min args);
      more ← build_from fuel args rest (run_id + blen cs);
      Some (number_configs args w run_id cs ++ more)
  end.
Definition build_run_configs (fuel : nat) (args : BenchmarkArgs) : option (list SingleRunConfig) :=
  build_from fuel args (ba_workloads args) 0.

Definition needs_prefill (w : Workload) : bool := match w with WlRead | WlMixed | WlTail | WlBulk => true | WlWrite => false end.

(** ** What a client does *)

Record ClientResult := {
  cl_inserts_completed : Z; cl_inserts_failed : Z; cl_range_queries_completed : Z; cl_ranges_failed : Z; cl_records_scanned : Z;
  cl_insert_samples : Z; cl_range_samples : Z
}.
Definition client_result_default : ClientResult := Build_ClientResult 0 0 0 0 0 0 0.

(** one call of [batch_insert]: it is acknowledged, or not within 30 seconds *)
Definition flush_pending (acked : bool) (pending : list Insert) (r : ClientResult) : list Insert * ClientResult :=
  match pending with
  | [] => ([], r)
  | _ =>
      let n := blen pending in
      ([], if acked
           then Build_ClientResult (wrap64 (cl_inserts_completed r + n)) (cl_inserts_failed r) (cl_range_queries_completed r)
                  (cl_ranges_failed r) (cl_records_scanned r) (cl_insert_samples r + 1) (cl_range_samples r)
           else Build_ClientResult (cl_inserts_completed r) (wrap64 (cl_inserts_failed r + n)) (cl_range_queries_completed r)
                  (cl_ranges_failed r) (cl_records_scanned r) (cl_insert_samples r) (cl_range_samples r))
  end.

Definition f64_tenth : f64 := f64_div (f64_of_Z 1) (f64_of_Z 10).
Definition should_range (cfg : SingleRunConfig) (draw : f64) : bool :=
  match rc_workload cfg with
  | WlWrite => false
  | WlRead => true
  | WlMixed => f64_lt draw (rc_range_fraction cfg)
  | WlTail => f64_lt draw f64_tenth
  | WlBulk => f64_lt draw f64_half
  end.

(** what an iteration meets: the time, the draws, and the answers; [None]: an
    error *)
Record Iteration := {
  it_elapsed_ms : Z; it_draw : f64; it_source : Z; it_key : Z; it_filter : f64;
  it_records : option Z; it_acked : bool
}.

(** [sources[i]] and [keys[i]] *)
Definition bench_source (cfg : SingleRunConfig) (i : Z) : outcome io_error Z :=
  if (0 <=? i) && (i <? rc_sources cfg) then Ok i else Panic.
Definition bench_key (cfg : SingleRunConfig) (i : Z) : outcome io_error (list byte) :=
  if (0 <=? i) && (i <? rc_keys cfg) then Ok (str "key_" ++ fmt_uint i) else Panic.

Definition range_query (cfg : SingleRunConfig) (it : Iteration) (sid : Z) (key : list byte) : RangeReq := {|
  rng_source_id := sid; rng_key := key; rng_start_ts := Z.max (it_elapsed_ms it - rc_range_window cfg * 1000) 0;
  rng_end_ts := it_elapsed_ms it; rng_filter := if f64_lt (it_filter it) f64_tenth then str "a" else []
|}.

Definition count_range (answer : option Z) (r : ClientResult) : ClientResult :=
  match answer with
  | Some n => Build_ClientResult (cl_inserts_completed r) (cl_inserts_failed r) (wrap64 (cl_range_queries_completed r + 1))
                (cl_ranges_failed r) (wrap64 (cl_records_scanned r + n)) (cl_insert_samples r) (cl_range_samples r + 1)
  | None => Build_ClientResult (cl_inserts_completed r) (cl_inserts_failed r) (cl_range_queries_completed r)
              (wrap64 (cl_ranges_failed r + 1)) (cl_records_scanned r) (cl_insert_samples r) (cl_range_samples r)
  end.

(** the state of the loop: the number of inserts so far, those waiting, the
    counters, and the requests that were sent (the newest last) *)
Inductive BenchRequest := ReqRange (r : RangeReq) | ReqBatch (l : list Insert).
Record ClientState := { cs_insert_count : Z; cs_pending : list Insert; cs_result : ClientResult; cs_sent : list BenchRequest }.
Definition client_start : ClientState := Build_ClientState 0 [] client_result_default [].

Definition do_flush (acked : bool) (s : ClientState) : ClientState :=
  let '(p, r) := flush_pending acked (cs_pending s) (cs_result s) in
  Build_ClientState (cs_insert_count s) p r (match cs_pending s with [] => cs_sent s | l => cs_sent s ++ [ReqBatch l] end).

Definition client_iteration (cfg : SingleRunConfig) (s : ClientState) (it : Iteration) : outcome io_error ClientState :=
  sid ← bench_source cfg (it_source it);
  key ← bench_key cfg (it_key it);
  if should_range cfg (it_draw it) then
    let q := range_query cfg it sid key in
    Ok (Build_ClientState (cs_insert_count s) (cs_pending s) (count_range (it_records it) (cs_result s)) (cs_sent s ++ [ReqRange q]))
  else
    let i := {| ins_source_id := sid; ins_ts := it_elapsed_ms it + cs_insert_count s; ins_key := key;
                ins_value := repeat Byte.x61 (Z.to_nat (rc_value_size cfg)) |} in
    let s := Build_ClientState (cs_insert_count s + 1) (cs_pending s ++ [i]) (cs_result s) (cs_sent s) in
    Ok (if rc_batch_size cfg <=? blen (cs_pending s) then do_flush (it_acked it) s else s).

(** the iterations until the time is up, and the last flush *)
Fixpoint client_loop (cfg : SingleRunConfig) (its : list Iteration) (s : ClientState) : outcome io_error ClientState :=
  match its with
  | [] => Ok s
  | it :: rest => s ← client_iteration cfg s it; client_loop cfg rest s
  end.
Definition do_client_work (cfg : SingleRunConfig) (its : list Iteration) (last_acked : bool) : outcome io_error ClientState :=
  s ← client_loop cfg its client_start;
  Ok (do_flush last_acked s).

(** ** [check_server] *)

(** attempts to connect and ping: the time each takes and whether it works;
    500 ms pass after one that fails, and none starts after 30 s *)
Fixpoint check_server (now_ms : Z) (attempts : list (Z * bool)) : outcome io_error unit :=
  if now_ms <? 30000 then
    match attempts with
    | [] => bail
    | (ms, ok) :: rest => if (ok : bool) then Ok tt else check_server (now_ms + ms + 500) rest
    end
  else bail.

(** ** Where the results go *)

Inductive BenchOutput := OutResult | OutMeta | OutMem.
Inductive OutAction := WriteFile (path : list byte) (what : BenchOutput) | PrintOut (what : BenchOutput).

(** the directory of a path that does not end in a slash, slash included *)
Definition dir_of (p : list byte) : list byte :=
  match split_at_str (str "/") (rev p) with Some (_, before) => rev before ++ str "/" | None => [] end.

Definition in_dir (d name : list byte) : list byte := d ++ str "/" ++ name.
Definition or_else {A} (a b : option A) : option A := match a with Some x => Some x | None => b end.
Definition result_path (args : BenchmarkArgs) : option (list byte) :=
  or_else (ba_out_result args) ((fun d => in_dir d (str "benchmark_result.json")) <$> ba_out_dir args).
Definition meta_path (args : BenchmarkArgs) : option (list byte) :=
  or_else (ba_out_meta args) ((fun d => in_dir d (str "meta.json")) <$> ba_out_dir args).
Definition mem_path (args : BenchmarkArgs) : option (list byte) :=
  or_else ((fun p => dir_of p ++ str "mem_report.json") <$> result_path args)
    ((fun d => in_dir d (str "mem_report.json")) <$> ba_out_dir args).

Definition mem_output (args : BenchmarkArgs) (has_mem : bool) : list OutAction :=
  if has_mem then match mem_path args with Some p => [WriteFile p OutMem] | None => [] end else [].

Definition bench_outputs (args : BenchmarkArgs) (has_mem : bool) : list OutAction :=
  match result_path args, meta_path args with
  | Some rp, Some mp => [WriteFile rp OutResult; WriteFile mp OutMeta] ++ mem_output args has_mem
  | Some rp, None => [WriteFile rp OutResult; PrintOut OutMeta] ++ mem_output args has_mem
  | None, Some mp => [PrintOut OutResult; WriteFile mp OutMeta]
  | None, None => [PrintOut OutMeta; PrintOut OutResult]
  end.

(** ** The runs end, unless the step is 0 *)

Definition conc_base (min : Z) : Z := if min =? 1 then 2 else min.

(** one turn of the loop covers the concurrencies the rest does not *)
Lemma conc_step c step max x : 0 < step -> 0 <= c <= max ->
  let d := if c =? 1 then 1 else step in
  (x = c \/ (c + d <= x <= max /\ (x = c + d \/ (conc_base (c + d) <= x /\ (x - conc_base (c + d)) mod step = 0)))) <->
  c <= x <= max /\ (x = c \/ (conc_base c <= x /\ (x - conc_base c) mod step = 0)).
Proof.
  intros Hs Hc d. unfold d, conc_base. destruct (Z.eqb_spec c 1) as [->|Hne].
  - change (1 + 1) with 2. change (2 =? 1) with false. cbv iota. split.
    + intros [->|[Hx [->|Hm]]]; [lia| |lia]. split; [lia|]. right. split; [lia|]. by rewrite Z.mod_0_l by lia.
    + intros [Hx [->|[Hx' Hm]]]; [by left|]. right. split; [lia|]. by right.
  - destruct (Z.eqb_spec (c + step) 1) as [E|E].
    + replace step with 1 by lia. replace c with 0 by lia. rewrite !Z.mod_1_r. lia.
    + assert ((x - (c + step)) mod step = (x - c) mod step) as Hm.
      { replace (x - (c + step)) with (x - c + (-1) * step) by lia. by rewrite Z_mod_plus_full. }
      rewrite Hm. split.
      * intros [->|[Hx [->|Hx']]]; [lia| |lia]. split; [lia|]. right. split; [lia|]. replace (c + step - c) with step by lia. by rewrite Z_mod_same_full.
      * intros [Hx [->|[_ Hx']]]; [by left|]. destruct (Z.eq_dec x c); [by left|]. right.
        assert (step <= x - c) as Hge.
        { apply Z.mod_divide in Hx'; [|lia]. destruct Hx' as [k Hk]. assert (1 <= k) by nia. nia. }
        split; [lia|]. destruct (Z.eq_dec x (c + step)); [by left|right]. split; [lia|done].
Qed.

Lemma conc_loop_ok max step : 0 < step -> max + step <= u32_max -> forall fuel c, 0 <= c -> (Z.to_nat (max + 1 - c) < fuel)%nat ->
  exists l, conc_loop fuel max step c = Some l /\ StronglySorted Z.lt l /\
    forall x, x ∈ l <-> c <= x <= max /\ (x = c \/ (conc_base c <= x /\ (x - conc_base c) mod step = 0)).
Proof.
  intros Hs Hov. induction fuel as [|fuel IH]; intros c Hc Hf; [lia|]. cbn [conc_loop]. destruct (Z.leb_spec c max) as [Hle|Hgt].
  2:{ exists []. split; [done|]. split; [constructor|]. intros x. rewrite elem_of_nil. lia. }
  set (d := if c =? 1 then 1 else step). assert (0 < d /\ d <= step) as Hd by (unfold d; destruct (c =? 1); lia).
  assert (wrap32 (c + d) = c + d) as -> by (unfold wrap32; apply Z.mod_small; unfold u32_max in Hov; lia).
  destruct (IH (c + d)) as (l & -> & Hsort & Hl); [lia|lia|].
  exists (c :: l). split; [done|]. split.
  - constructor; [done|]. apply Forall_forall. intros x Hx. apply Hl in Hx. lia.
  - intros x. rewrite elem_of_cons, Hl. apply conc_step; lia.
Qed.

Lemma conc_loop_stuck max c fuel : c <= max -> 0 <= c <= u32_max -> c <> 1 -> conc_loop fuel max 0 c = None.
Proof.
  intros Hle Hc Hne. induction fuel as [|fuel IH]; [done|]. cbn [conc_loop]. destruct (Z.leb_spec c max); [|lia].
  destruct (Z.eqb_spec c 1); [done|]. rewrite Z.add_0_r. unfold wrap32. rewrite Z.mod_small by (unfold u32_max in Hc; lia). by rewrite IH.
Qed.
Lemma conc_loop_stuck_one max fuel : 2 <= max -> conc_loop fuel max 0 1 = None.
Proof.
  intros Hle. destruct fuel as [|fuel]; [done|]. cbn [conc_loop]. destruct (Z.leb_spec 1 max); [|lia].
  change (wrap32 (1 + (if 1 =? 1 then 1 else 0))) with 2. by rewrite conc_loop_stuck.
Qed.

Lemma number_configs_ids args w n cs : map rc_run_id (number_configs args w n cs) = seqZ n (blen cs) /\
  map rc_concurrency (number_configs args w n cs) = cs /\ map rc_workload (number_configs args w n cs) = map (fun _ => w) cs.
Proof.
  revert n. induction cs as [|c cs IH]; intros n; cbn [number_configs map]; [done|].
  destruct (IH (n + 1)) as (E1 & E2 & E3). cbn [rc_run_id rc_concurrency rc_workload run_config]. split_and!; [|by f_equal|by f_equal].
  pose proof (blen_nonneg cs). rewrite E1, blen_cons, (seqZ_cons n) by lia. f_equal. f_equal; lia.
Qed.

Lemma build_from_ok fuel args cs ws n :
  conc_loop fuel (ba_concurrency_max args) (ba_concurrency_step args) (ba_concurrency_min args) = Some cs ->
  exists l, build_from fuel args ws n = Some l /\ map rc_concurrency l = concat (map (fun _ => cs) ws) /\
    map rc_workload l = concat (map (fun w => map (fun _ => w) cs) ws) /\ map rc_run_id l = seqZ n (blen l).
Proof.
  intros Hcs. revert n. induction ws as [|w ws IH]; intros n; cbn [build_from map concat]; [by exists []|]. rewrite Hcs. cbn [mbind option_bind].
  destruct (IH (n + blen cs)) as (l & -> & E1 & E2 & E3). cbn [mbind option_bind]. eexists; split; [done|].
  destruct (number_configs_ids args w n cs) as (I1 & I2 & I3). rewrite !map_app, I1, I2, I3, E1, E2, E3, blen_app.
  assert (blen (number_configs args w n cs) = blen cs) as -> by (unfold blen; rewrite <- I2 at 2; by rewrite length_map).
  split_and!; [done|done|]. symmetry. apply seqZ_app; apply blen_nonneg.
Qed.

(** C36: the runs of a benchmark. With a step of at least 1 and bounds that
    do not overflow, [build_run_configs] ends; for each workload, in order,
    it makes a run for the smallest concurrency and then for every step from
    it up to the largest (from 2, if the smallest is 1), numbered from 0.
    With a step of 0 it does not end if there is a workload and a concurrency
    other than 1 in range; with one client only it still makes one run for
    each workload, and none when the smallest is above the largest. *)
Theorem build_run_configs_spec (args : BenchmarkArgs) (fuel : nat)
    (Hmin : 0 <= ba_concurrency_min args) (Hmax : ba_concurrency_max args + ba_concurrency_step args <= u32_max)
    (Hfuel : (Z.to_nat (ba_concurrency_max args + 1) < fuel)%nat) :
  let min := ba_concurrency_min args in let max := ba_concurrency_max args in let step := ba_concurrency_step args in
  (0 < step -> exists cs l, build_run_configs fuel args = Some l /\ StronglySorted Z.lt cs /\
     (forall x, x ∈ cs <-> min <= x <= max /\ (x = min \/ (conc_base min <= x /\ (x - conc_base min) mod step = 0))) /\
     map rc_concurrency l = concat (map (fun _ => cs) (ba_workloads args)) /\
     map rc_workload l = concat (map (fun w => map (fun _ => w) cs) (ba_workloads args)) /\
     map rc_run_id l = seqZ 0 (blen l)) /\
  (step = 0 -> ba_workloads args <> [] -> min <= max -> (min = 1 -> 2 <= max) -> forall n, build_run_configs n args = None) /\
  (step = 0 -> max < min \/ (min = 1 /\ max = 1) -> exists l, build_run_configs fuel args = Some l /\
     map rc_concurrency l = concat (map (fun _ => if min <=? max then [1] else []) (ba_workloads args)) /\
     map rc_run_id l = seqZ 0 (blen l)).
Proof.
  cbv zeta. split_and!.
  - intros Hs. destruct (conc_loop_ok _ _ Hs Hmax fuel (ba_concurrency_min args)) as (cs & Hcs & Hsort & Hmem); [done|lia|].
    destruct (build_from_ok fuel args cs (ba_workloads args) 0 Hcs) as (l & Hl & E1 & E2 & E3). by exists cs, l.
  - intros Hs Hw Hle H1 n. unfold build_run_configs. destruct (ba_workloads args) as [|w ws]; [done|]. cbn [build_from]. rewrite Hs in Hmax |- *.
    destruct (Z.eq_dec (ba_concurrency_min args) 1) as [E|E]; [rewrite E in *; by rewrite conc_loop_stuck_one by auto|].
    by rewrite conc_loop_stuck by lia.
  - intros Hs Hends.
    assert (conc_loop fuel (ba_concurrency_max args) (ba_concurrency_step args) (ba_concurrency_min args)
            = Some (if ba_concurrency_min args <=? ba_concurrency_max args then [1] else [])) as Hcs.
    { destruct fuel as [|fuel]; [lia|]. cbn [conc_loop]. destruct Hends as [Hlt|[H1 H2]].
      - by destruct (Z.leb_spec (ba_concurrency_min args) (ba_concurrency_max args)); [lia|].
      - rewrite H1, H2 in *. destruct fuel as [|fuel]; [cbn in Hfuel; lia|]. done. }
    destruct (build_from_ok fuel args _ (ba_workloads args) 0 Hcs) as (l & Hl & E1 & _ & E3). by exists l.
Qed.

(** ** What a client was to do, and what it did *)

(** the iterations that query and those that insert *)
Definition range_its (cfg : SingleRunConfig) (its : list Iteration) : list Iteration :=
  filter (fun it => should_range cfg (it_draw it) = true) its.
Definition insert_its (cfg : SingleRunConfig) (its : list Iteration) : list Iteration :=
  filter (fun it => should_range cfg (it_draw it) = false) its.

Definition key_of (it : Iteration) : list byte := str "key_" ++ fmt_uint (it_key it).
Definition insert_of (cfg : SingleRunConfig) (it : Iteration) (i : Z) : Insert := {|
  ins_source_id := it_source it; ins_ts := it_elapsed_ms it + i; ins_key := key_of it;
  ins_value := repeat Byte.x61 (Z.to_nat (rc_value_size cfg)) |}.

(** the inserts in order, the [i]th [i] milliseconds late, each with the
    answer its iteration meets; and the queries *)
Definition made (cfg : SingleRunConfig) (its : list Iteration) : list (Insert * bool) :=
  imap (fun i it => (insert_of cfg it (Z.of_nat i), it_acked it)) (insert_its cfg its).
Definition queries (cfg : SingleRunConfig) (its : list Iteration) : list RangeReq :=
  map (fun it => range_query cfg it (it_source it) (key_of it)) (range_its cfg its).
Definition answers_of (cfg : SingleRunConfig) (its : list Iteration) : list Z := omap it_records (range_its cfg its).

(** a batch is answered with what its last insert's iteration meets *)
Definition batch_max (cfg : SingleRunConfig) : Z := Z.max 1 (rc_batch_size cfg).
Definition batch_acked (b : list (Insert * bool)) : bool := match last b with Some (_, a) => a | None => false end.
Definition zsum (l : list Z) : Z := foldr Z.add 0 l.
Definition inserts_answered (acked : bool) (bs : list (list (Insert * bool))) : Z :=
  zsum (map (fun b => if Bool.eqb (batch_acked b) acked then blen b else 0) bs).
Definition batches_acked (bs : list (list (Insert * bool))) : Z := zsum (map (fun b => if batch_acked b then 1 else 0) bs).

Definition sent_batch (r : BenchRequest) : option (list Insert) := match r with ReqBatch l => Some l | ReqRange _ => None end.
Definition sent_query (r : BenchRequest) : option RangeReq := match r with ReqRange q => Some q | ReqBatch _ => None end.

Lemma zsum_app l k : zsum (l ++ k) = zsum l + zsum k.
Proof. unfold zsum. induction l as [|x l IH]; cbn; [lia|]. rewrite IH. lia. Qed.
Lemma inserts_answered_snoc acked bs b :
  inserts_answered acked (bs ++ [b]) = inserts_answered acked bs + if Bool.eqb (batch_acked b) acked then blen b else 0.
Proof. unfold inserts_answered. rewrite map_app, zsum_app. cbn. lia. Qed.
Lemma inserts_answered_sum bs :
  0 <= inserts_answered true bs /\ 0 <= inserts_answered false bs /\
  inserts_answered true bs + inserts_answered false bs = blen (concat bs).
Proof.
  induction bs as [|b bs IH] using rev_ind; [done|]. rewrite !inserts_answered_snoc, concat_app. cbn [concat].
  rewrite app_nil_r, blen_app. pose proof (blen_nonneg b). destruct (batch_acked b); cbn [Bool.eqb]; lia.
Qed.

Lemma insert_its_snoc cfg its it :
  insert_its cfg (its ++ [it]) = insert_its cfg its ++ if should_range cfg (it_draw it) then [] else [it].
Proof.
  unfold insert_its. rewrite filter_app, filter_cons, filter_nil.
  destruct (should_range _ _); [by rewrite decide_False|by rewrite decide_True].
Qed.
Lemma range_its_snoc cfg its it :
  range_its cfg (its ++ [it]) = range_its cfg its ++ if should_range cfg (it_draw it) then [it] else [].
Proof.
  unfold range_its. rewrite filter_app, filter_cons, filter_nil.
  destruct (should_range _ _); [by rewrite decide_True|by rewrite decide_False].
Qed.
Lemma made_snoc cfg its it :
  made cfg (its ++ [it]) = made cfg its ++
    if should_range cfg (it_draw it) then [] else [(insert_of cfg it (blen (made cfg its)), it_acked it)].
Proof.
  unfold made. rewrite insert_its_snoc. destruct (should_range cfg (it_draw it)); [by rewrite !app_nil_r|].
  rewrite imap_app. cbn. unfold blen. by rewrite length_imap, Nat.add_0_r.
Qed.
Lemma blen_made cfg its : blen (made cfg its) + blen (range_its cfg its) = blen its.
Proof.
  induction its as [|it its IH] using rev_ind; [done|]. rewrite made_snoc, range_its_snoc, !blen_app.
  destruct (should_range _ _); unfold blen in *; cbn [length]; lia.
Qed.

(** after the iterations [its]: [full] are the batches sent, [rest] the
    inserts that wait *)
Record work_inv (cfg : SingleRunConfig) (its : list Iteration) (full : list (list (Insert * bool)))
    (rest : list (Insert * bool)) (s : ClientState) : Prop := {
  wk_made : made cfg its = concat full ++ rest;
  wk_pending : cs_pending s = map fst rest;
  wk_count : cs_insert_count s = blen (made cfg its);
  wk_batches : omap sent_batch (cs_sent s) = map (map fst) full;
  wk_queries : omap sent_query (cs_sent s) = queries cfg its;
  wk_completed : cl_inserts_completed (cs_result s) = inserts_answered true full;
  wk_failed : cl_inserts_failed (cs_result s) = inserts_answered false full;
  wk_samples : cl_insert_samples (cs_result s) = batches_acked full;
  wk_answered : cl_range_queries_completed (cs_result s) = blen (answers_of cfg its);
  wk_refused : cl_ranges_failed (cs_result s) = blen (range_its cfg its) - blen (answers_of cfg its);
  wk_scanned : cl_records_scanned (cs_result s) = wrap64 (zsum (answers_of cfg its));
  wk_range_samples : cl_range_samples (cs_result s) = blen (answers_of cfg its)
}.

(** what sending the inserts that wait does, with either answer *)
Lemma do_flush_spec cfg its full rest acked s :
  blen its <= u64_max -> work_inv cfg its full rest s -> rest <> [] ->
  do_flush acked s = Build_ClientState (cs_insert_count s) []
    (Build_ClientResult (inserts_answered true full + if acked then blen rest else 0)
       (inserts_answered false full + if acked then 0 else blen rest) (cl_range_queries_completed (cs_result s))
       (cl_ranges_failed (cs_result s)) (cl_records_scanned (cs_result s))
       (batches_acked full + if acked then 1 else 0) (cl_range_samples (cs_result s)))
    (cs_sent s ++ [ReqBatch (map fst rest)]).
Proof.
  intros Hk [H1 H2 _ _ _ H6 H7 H8 _ _ _ _] Hne. unfold do_flush, flush_pending. rewrite H2.
  assert (blen (map fst rest) = blen rest) as Hl by (unfold blen; by rewrite length_map).
  pose proof (inserts_answered_sum full) as (Ht & Hf & Hsum). pose proof (blen_nonneg rest).
  pose proof (blen_made cfg its) as Hm. rewrite H1, blen_app in Hm. pose proof (blen_nonneg (range_its cfg its)).
  destruct (map fst rest) as [|i l] eqn:E; [by destruct rest|]. rewrite <- E in *. rewrite Hl, H6, H7, H8.
  unfold wrap64, u64_max in *. f_equal. destruct acked; rewrite !Z.mod_small by lia; by rewrite !Z.add_0_r.
Qed.

Lemma do_flush_inv cfg its full rest s :
  blen its <= u64_max -> work_inv cfg its full rest s -> rest <> [] ->
  work_inv cfg its (full ++ [rest]) [] (do_flush (batch_acked rest) s).
Proof.
  intros Hk Hw Hne. rewrite (do_flush_spec cfg its full rest) by done. destruct Hw as [H1 H2 H3 H4 H5 H6 H7 H8 H9 H10 H11 H12].
  split; cbn; rewrite ?omap_app, ?inserts_answered_snoc; try done.
  - rewrite concat_app. cbn. by rewrite !app_nil_r.
  - cbn. by rewrite H4, map_app.
  - cbn. by rewrite app_nil_r.
  - by destruct (batch_acked rest).
  - by destruct (batch_acked rest).
  - unfold batches_acked. rewrite map_app, zsum_app. cbn. lia.
Qed.

(** the draws are within the sources and keys *)
Definition draws_ok (cfg : SingleRunConfig) (it : Iteration) : Prop :=
  0 <= it_source it < rc_sources cfg /\ 0 <= it_key it < rc_keys cfg.

Definition batches_ok (cfg : SingleRunConfig) (full : list (list (Insert * bool))) (rest : list (Insert * bool)) : Prop :=
  Forall (fun b => blen b = batch_max cfg) full /\ blen rest < batch_max cfg.

Lemma answers_of_snoc cfg its it :
  should_range cfg (it_draw it) = true ->
  answers_of cfg (its ++ [it]) = answers_of cfg its ++ match it_records it with Some n => [n] | None => [] end.
Proof. intros Hr. unfold answers_of. rewrite range_its_snoc, Hr, omap_app. cbn. by destruct (it_records it). Qed.
Lemma answers_of_le cfg its : blen (answers_of cfg its) <= blen (range_its cfg its).
Proof.
  unfold answers_of, blen. generalize (range_its cfg its). intros l. induction l as [|it l IH]; cbn; [done|].
  destruct (it_records it); cbn [length]; lia.
Qed.

Lemma client_range_inv cfg its it full rest s :
  blen its + 1 <= u64_max -> work_inv cfg its full rest s -> should_range cfg (it_draw it) = true ->
  work_inv cfg (its ++ [it]) full rest
    (Build_ClientState (cs_insert_count s) (cs_pending s) (count_range (it_records it) (cs_result s))
       (cs_sent s ++ [ReqRange (range_query cfg it (it_source it) (key_of it))])).
Proof.
  intros Hk [H1 H2 H3 H4 H5 H6 H7 H8 H9 H10 H11 H12] Hr.
  pose proof (blen_made cfg its) as Hm. pose proof (blen_nonneg (made cfg its)). pose proof (answers_of_le cfg its).
  pose proof (blen_nonneg (answers_of cfg its)).
  split; cbn [cs_insert_count cs_pending cs_sent cs_result]; rewrite ?made_snoc, ?Hr, ?app_nil_r, ?omap_app; try done.
  - cbn. by rewrite app_nil_r.
  - unfold queries. rewrite range_its_snoc, Hr, map_app. cbn. by rewrite H5.
  - by destruct (it_records it).
  - by destruct (it_records it).
  - by destruct (it_records it).
  - rewrite answers_of_snoc, blen_app by done. destruct (it_records it); cbn; rewrite H9; [|unfold blen; cbn; lia].
    unfold wrap64, u64_max in *. rewrite Z.mod_small by lia. done.
  - rewrite answers_of_snoc, range_its_snoc, Hr, !blen_app by done. destruct (it_records it); cbn; rewrite H10; unfold blen in *; cbn [length]; [lia|].
    unfold wrap64, u64_max in *. rewrite Z.mod_small by lia. lia.
  - rewrite answers_of_snoc, zsum_app by done. destruct (it_records it); cbn; rewrite H11; [|by rewrite Z.add_0_r].
    unfold wrap64. rewrite Zplus_mod_idemp_l. f_equal. lia.
  - rewrite answers_of_snoc, blen_app by done. destruct (it_records it); cbn; rewrite H12; unfold blen; cbn; lia.
Qed.

Lemma client_insert_inv cfg its it full rest s :
  work_inv cfg its full rest s -> should_range cfg (it_draw it) = false ->
  work_inv cfg (its ++ [it]) full (rest ++ [(insert_of cfg it (cs_insert_count s), it_acked it)])
    (Build_ClientState (cs_insert_count s + 1) (cs_pending s ++ [insert_of cfg it (cs_insert_count s)]) (cs_result s) (cs_sent s)).
Proof.
  intros [H1 H2 H3 H4 H5 H6 H7 H8 H9 H10 H11 H12] Hr.
  assert (range_its cfg (its ++ [it]) = range_its cfg its) as Hri by (by rewrite range_its_snoc, Hr, app_nil_r).
  split; cbn [cs_insert_count cs_pending cs_sent cs_result]; rewrite ?made_snoc, ?Hr; unfold queries, answers_of; rewrite ?Hri; try done.
  - by rewrite H3, H1, <- app_assoc.
  - by rewrite H2, map_app.
  - by rewrite H3, blen_app.
Qed.

Lemma client_iteration_inv cfg its it full rest s :
  blen its + 1 <= u64_max -> work_inv cfg its full rest s -> batches_ok cfg full rest -> draws_ok cfg it ->
  exists full' rest' s', client_iteration cfg s it = Ok s' /\
    work_inv cfg (its ++ [it]) full' rest' s' /\ batches_ok cfg full' rest'.
Proof.
  intros Hk Hw [Hfull Hrest] [Hs Hkey]. unfold client_iteration, bench_source, bench_key.
  replace ((0 <=? it_source it) && (it_source it <? rc_sources cfg)) with true by (symmetry; apply andb_true_intro; lia).
  replace ((0 <=? it_key it) && (it_key it <? rc_keys cfg)) with true by (symmetry; apply andb_true_intro; lia).
  cbn [mbind outcome_bind]. destruct (should_range cfg (it_draw it)) eqn:Hr.
  - exists full, rest. eexists. split; [reflexivity|]. split; [by apply client_range_inv|done].
  - cbv zeta. pose proof (client_insert_inv cfg its it full rest s Hw Hr) as Hw'. cbn [cs_pending].
    fold (key_of it). fold (insert_of cfg it (cs_insert_count s)).
    set (rest' := rest ++ _) in *. set (s1 := Build_ClientState _ _ _ _) in *.
    assert (blen (cs_pending s ++ [insert_of cfg it (cs_insert_count s)]) = blen rest') as ->.
    { rewrite (wk_pending _ _ _ _ _ Hw). unfold rest', blen. rewrite !length_app, length_map. done. }
    assert (blen rest' = blen rest + 1) as Hl by (unfold rest'; by rewrite blen_app).
    pose proof (blen_nonneg rest). destruct (Z.leb_spec (rc_batch_size cfg) (blen rest')).
    + exists (full ++ [rest']), []. eexists. split; [reflexivity|].
      assert (it_acked it = batch_acked rest') as -> by (unfold batch_acked, rest'; by rewrite last_snoc).
      split; [|split; [apply Forall_app_2; [done|]; apply Forall_singleton; unfold batch_max in *; lia|unfold batch_max, blen; cbn [length]; lia]].
      apply do_flush_inv; [rewrite blen_app; done|done|]. intros Heq. rewrite Heq in Hl. change (blen []) with 0 in Hl. lia.
    + exists full, rest', s1. split_and!; [done|done|]. split; [done|]. unfold batch_max in *. lia.
Qed.

Lemma client_loop_inv cfg its : forall pre full rest s,
  blen pre + blen its <= u64_max -> work_inv cfg pre full rest s -> batches_ok cfg full rest -> Forall (draws_ok cfg) its ->
  exists full' rest' s', client_loop cfg its s = Ok s' /\
    work_inv cfg (pre ++ its) full' rest' s' /\ batches_ok cfg full' rest'.
Proof.
  induction its as [|it its IH]; intros pre full rest s Hk Hw Hb Hd; cbn [client_loop].
  - exists full, rest, s. by rewrite app_nil_r.
  - apply Forall_cons in Hd as [Hd Hds]. rewrite blen_cons in Hk. pose proof (blen_nonneg its).
    destruct (client_iteration_inv cfg pre it full rest s) as (f1 & r1 & s1 & -> & Hw1 & Hb1); [lia|done..|].
    cbn [mbind outcome_bind]. destruct (IH (pre ++ [it]) f1 r1 s1) as (f2 & r2 & s2 & -> & Hw2 & Hb2); [unfold blen in *; rewrite length_app; cbn [length]; lia|done..|].
    exists f2, r2, s2. by rewrite <- app_assoc in Hw2.
Qed.

(** C35: what a client does and counts. An iteration makes a query or an
    insert, by its draw. The inserts go out in order, each once, in batches of
    exactly the batch size (1, if that is 0) and, at the end, what is left in
    a smaller one; the queries go out in order. The counters say what
    happened: the inserts of the batches that were acknowledged count as
    completed and those of the others as failed, a batch sent in the loop
    being answered as the iteration of its last insert meets it and the last
    one as [last_acked] says; one latency sample for every acknowledged batch;
    queries answered, refused and records scanned likewise. Nothing is left
    waiting. The random draws must be within the sources and keys. *)
Theorem client_work_accounted (cfg : SingleRunConfig) (its : list Iteration) (last_acked : bool)
    (Hlen : blen its <= u64_max) (Hdraws : Forall (draws_ok cfg) its) :
  exists s full rest, do_client_work cfg its last_acked = Ok s /\
    made cfg its = concat full ++ rest /\
    Forall (fun b => blen b = batch_max cfg) full /\ blen rest < batch_max cfg /\
    omap sent_batch (cs_sent s) = map (map fst) (full ++ match rest with [] => [] | _ => [rest] end) /\
    omap sent_query (cs_sent s) = queries cfg its /\
    cs_pending s = [] /\
    cl_inserts_completed (cs_result s) = inserts_answered true full + (if last_acked then blen rest else 0) /\
    cl_inserts_failed (cs_result s) = inserts_answered false full + (if last_acked then 0 else blen rest) /\
    cl_insert_samples (cs_result s) = batches_acked full + (if last_acked && (0 <? blen rest) then 1 else 0) /\
    cl_range_queries_completed (cs_result s) = blen (answers_of cfg its) /\
    cl_ranges_failed (cs_result s) = blen (range_its cfg its) - blen (answers_of cfg its) /\
    cl_records_scanned (cs_result s) = wrap64 (zsum (answers_of cfg its)) /\
    cl_range_samples (cs_result s) = blen (answers_of cfg its).
Proof.
  assert (work_inv cfg [] [] [] client_start) as H0 by (by split).
  destruct (client_loop_inv cfg its [] [] [] client_start) as (full & rest & s & Hloop & Hw & [Hfull Hrest]);
    [done|done|split; [constructor|unfold batch_max, blen; cbn [length]; lia]|done|]. cbn [app] in Hw.
  exists (do_flush last_acked s), full, rest. unfold do_client_work. rewrite Hloop. split; [done|].
  pose proof Hw as [H1 H2 H3 H4 H5 H6 H7 H8 H9 H10 H11 H12]. destruct rest as [|i rest].
  - unfold do_flush, flush_pending. rewrite H2. cbn. rewrite !app_nil_r, ?andb_false_r in *.
    split_and!; try done; by destruct last_acked; rewrite Z.add_0_r.
  - rewrite (do_flush_spec cfg its full (i :: rest)) by done. cbn [cs_sent cs_pending cs_result cl_inserts_completed cl_inserts_failed
      cl_insert_samples cl_range_queries_completed cl_ranges_failed cl_records_scanned cl_range_samples].
    rewrite !omap_app, H4, H5, map_app. cbn [omap list_omap sent_batch sent_query]. rewrite !app_nil_r.
    assert ((0 <? blen (i :: rest)) = true) as -> by (apply Z.ltb_lt; pose proof (blen_nonneg rest); rewrite blen_cons; lia).
    rewrite andb_true_r. by split_and!.
Qed.

(** ** The results go where the other tools look *)

Lemma dir_of_in_dir d name : Byte.x2f ∉ name -> dir_of (in_dir d name) = d ++ str "/".
Proof.
  intros Hn. unfold dir_of, in_dir. rewrite rev_app_distr. change (rev (str "/" ++ name)) with (rev (Byte.x2f :: name)). cbn [rev]. rewrite <- app_assoc.
  assert (split_at_str (str "/") (rev name ++ [Byte.x2f] ++ rev d) = Some (rev name, rev d)) as ->; [|by rewrite rev_involutive].
  apply (split_at_str_app Byte.x2f [] (rev name) (rev d)). intros Hin. apply Hn. apply list_elem_of_In, in_rev. by apply list_elem_of_In.
Qed.

(** with [--out-dir] alone, the files a run directory is made of *)
Lemma bench_outputs_dir args d : ba_out_dir args = Some d -> ba_out_result args = None -> ba_out_meta args = None ->
  bench_outputs args true = [WriteFile (in_dir d (str "benchmark_result.json")) OutResult; WriteFile (in_dir d (str "meta.json")) OutMeta;
    WriteFile (in_dir d (str "mem_report.json")) OutMem].
Proof.
  intros Hd Hr Hm. unfold bench_outputs, mem_output, mem_path, result_path, meta_path. rewrite Hd, Hr, Hm. cbn [or_else fmap option_fmap option_map].
  rewrite dir_of_in_dir by (by vm_compute; set_solver). unfold in_dir. by rewrite <- app_assoc.
Qed.

(** ** On concrete inputs *)

Definition demo_bench_args (step : Z) : BenchmarkArgs := {|
  ba_addr := []; ba_workloads := [WlWrite; WlTail]; ba_duration := 1; ba_concurrency_min := 1; ba_concurrency_max := 6;
  ba_concurrency_step := step; ba_sources := 2; ba_keys := 3; ba_value_size := 1; ba_batch_size := 2; ba_range_fraction := f64_half;
  ba_range_window := 1; ba_out_result := None; ba_out_meta := None; ba_out_dir := None
|}.

Lemma build_run_configs_spec_witness :
  (exists l, build_run_configs 100 (demo_bench_args 2) = Some l /\ map rc_concurrency l = [1; 2; 4; 6; 1; 2; 4; 6] /\
     map rc_run_id l = seqZ 0 (blen l)) /\
  forall n, build_run_configs n (demo_bench_args 0) = None.
Proof.
  split.
  - destruct (build_run_configs_spec (demo_bench_args 2) 100) as [Hok _]; [by vm_compute|by vm_compute|apply Nat.ltb_lt; by vm_compute|].
    destruct (Hok ltac:(by vm_compute)) as (cs & l & E & _ & _ & _ & _ & E3). exists l. split; [exact E|]. split; [|exact E3].
    vm_compute in E. by injection E as <-.
  - apply (build_run_configs_spec (demo_bench_args 0) 100); [by vm_compute|by vm_compute|apply Nat.ltb_lt; by vm_compute|done|done|by vm_compute|by vm_compute].
Defined.

Definition demo_iteration (draw : f64) (records : option Z) (acked : bool) : Iteration :=
  {| it_elapsed_ms := 1000; it_draw := draw; it_source := 1; it_key := 2; it_filter := f64_half; it_records := records; it_acked := acked |}.
Definition demo_run_config : SingleRunConfig := run_config (demo_bench_args 2) WlTail 0 1.
Definition demo_work : list Iteration :=
  [demo_iteration f64_half None true; demo_iteration (f64_of_Z 0) (Some 7) true; demo_iteration f64_half None false; demo_iteration f64_half None true].

Lemma client_work_accounted_witness :
  exists s full rest, do_client_work demo_run_config demo_work true = Ok s /\
    made demo_run_config demo_work = concat full ++ rest /\ Forall (fun b => blen b = 2) full /\ blen rest < 2 /\
    cl_inserts_completed (cs_result s) = inserts_answered true full + blen rest /\
    cl_inserts_completed (cs_result s) = 1 /\ cl_inserts_failed (cs_result s) = 2.
Proof.
  destruct (client_work_accounted demo_run_config demo_work true)
    as (s & full & rest & Hs & Hm & Hf & Hr & _ & _ & _ & Hc & _).
  - by vm_compute.
  - repeat constructor; by vm_compute.
  - exists s, full, rest. split_and!; [exact Hs|exact Hm|exact Hf|exact Hr|exact Hc| |];
      vm_compute in Hs; by injection Hs as <-.
Defined.
