(* ===== verification/BenchRun.v ===== *)
(** * A whole benchmark: [run], [run_single] and [prefill] of
    logregator-tools/src/bin/bench.rs

    On top of [BenchTool]: connecting, filling the server, the clients of a
    run, the runs one after another, and what is reported. Times, draws and
    answers are inputs ([RunEnv]). [crate::bench] ([BenchStats]: merging and
    summing up results) is not part of the repository. *)
From S2P Require Import Prelude Std Text Codec CoreProto CoreStorage Float Metrics Mem Compare BenchTool.

(** ** [prefill] *)

Record PrefillDraw := { pf_source : Z; pf_key : Z; pf_ms : Z; pf_acked : bool }.

Definition prefill_insert (cfg : SingleRunConfig) (d : PrefillDraw) : outcome io_error Insert :=
  sid ← bench_source cfg (pf_source d);
  key ← bench_key cfg (pf_key d);
  Ok {| ins_source_id := sid; ins_ts := pf_ms d; ins_key := key; ins_value := repeat Byte.x73 (Z.to_nat (rc_value_size cfg)) |}.

(** one turn of the outer loop: an insert by each client, the state is what
    was sent by whom; the first that fails ends it *)
Fixpoint prefill_round (cfg : SingleRunConfig) (clients : list Z) (draw : Z -> PrefillDraw) : st (list (Z * Insert)) io_error unit :=
  match clients with
  | [] => mret tt
  | c :: rest =>
      st_lift (prefill_insert cfg (draw c)) ≫= fun i =>
      st_modify (fun sent => sent ++ [(c, i)]) ≫= fun _ =>
      if pf_acked (draw c) then prefill_round cfg rest draw else st_lift bail
  end.
(** the turns until three seconds are over *)
Fixpoint prefill (cfg : SingleRunConfig) (clients : list Z) (rounds : list (Z -> PrefillDraw)) : st (list (Z * Insert)) io_error unit :=
  match rounds with
  | [] => mret tt
  | draw :: rest => prefill_round cfg clients draw ≫= fun _ => prefill cfg clients rest
  end.

(** ** [run_single] *)

Class BenchStats := {
  RunResult : Type;
  RunSaturation : Type;
  merge_result : ClientResult -> ClientResult -> ClientResult;
  to_run_result : ClientResult -> SingleRunConfig -> RunResult;
  set_sstable_count : Z -> RunResult -> RunResult;
  compute_saturations : list RunResult -> list RunSaturation
}.

(** what a run meets: whether each client connects, the turns of [prefill],
    the iterations of each client with the answer to its last flush; then
    whether the server can be reached for its metrics, and what it answers
    ([None]: an error, or JSON that is not a snapshot) *)
Record RunEnv := {
  re_connect : Z -> bool;
  re_rounds : list (Z -> PrefillDraw);
  re_work : Z -> list Iteration * bool;
  re_reconnect : bool;
  re_metrics : option MetricsSnapshot
}.

Section bench_run.
Context `{BenchStats}.

(** a client that panics makes [h.await?] an error *)
Fixpoint join_clients (cfg : SingleRunConfig) (work : Z -> list Iteration * bool) (clients : list Z) (total : ClientResult) :
    outcome io_error ClientResult :=
  match clients with
  | [] => Ok total
  | c :: rest =>
      match do_client_work cfg (work c).1 (work c).2 with
      | Ok s => join_clients cfg work rest (merge_result total (cs_result s))
      | _ => bail
      end
  end.

Definition run_clients (cfg : SingleRunConfig) : list Z := seqZ 0 (rc_concurrency cfg).

Definition run_single (cfg : SingleRunConfig) (env : RunEnv) : st (list (Z * Insert)) io_error RunResult :=
  if forallb (re_connect env) (run_clients cfg) then
    (if needs_prefill (rc_workload cfg) then prefill cfg (run_clients cfg) (re_rounds env) else mret tt) ≫= fun _ =>
    st_lift (join_clients cfg (re_work env) (run_clients cfg) client_result_default) ≫= fun total =>
    mret (to_run_result total cfg)
  else st_lift bail.

(** ** [run] *)

(** the turns of the loop over the configurations; [envs]: by run id *)
Fixpoint run_configs (envs : Z -> RunEnv) (configs : list SingleRunConfig) : outcome io_error (list RunResult) :=
  match configs with
  | [] => Ok []
  | cfg :: configs =>
      let env := envs (rc_run_id cfg) in
      result ← (run_single cfg env []).2;
      if re_reconnect env then
        let result := match re_metrics env with
                      | Some snap => set_sstable_count (es_sstable_count (ms_engine snap)) result
                      | None => result
                      end in
        results ← run_configs envs configs;
        Ok (result :: results)
      else Panic
  end.

Record BenchmarkReport := {
  bm_runs : list RunResult; bm_metrics : option MetricsSnapshot; bm_saturations : list RunSaturation; bm_mem : option MemReport
}.

(** [None]: [build_run_configs] does not end. [attempts]: the pings;
    [samples]: what the profiler has when it is stopped *)
Definition run (fuel : nat) (args : BenchmarkArgs) (profile_mem : Z) (attempts : list (Z * bool)) (envs : Z -> RunEnv)
    (final_connect : bool) (final_metrics : option MetricsSnapshot) (samples : list MemSample) :
    option (outcome io_error (BenchmarkReport * list OutAction)) :=
  match check_server 0 attempts with
  | Ok _ =>
      configs ← build_run_configs fuel args;
      Some (
        results ← run_configs envs configs;
        if final_connect then
          let mem := new_report (if 0 <? profile_mem then samples else []) [] in
          Ok ({| bm_runs := results; bm_metrics := final_metrics; bm_saturations := compute_saturations results; bm_mem := mem |},
              bench_outputs args (match mem with Some _ => true | None => false end))
        else Panic)
  | Err e => Some (Err e)
  | Panic => Some Panic
  end.
End bench_run.

(** ** meta.json *)

(** [trim], of ASCII text *)
Fixpoint trim_start (s : list byte) : list byte :=
  match s with b :: rest => if is_space b then trim_start rest else s | [] => [] end.
Definition trim (s : list byte) : list byte := rev (trim_start (rev (trim_start s))).
(** the output of git, whatever its exit code; [None]: it cannot be started *)
Definition git_hash (stdout : option (list byte)) : list byte :=
  match stdout with
  | Some out => if utf8_valid out then trim out else str "unknown"
  | None => str "unknown"
  end.

Record BenchMeta := {
  bmeta_tag : list byte; bmeta_git_hash : list byte; bmeta_timestamp_ms : Z; bmeta_duration : Z; bmeta_workloads : list (list byte);
  bmeta_addr : list byte; bmeta_batch_size : Z; bmeta_concurrency_min : Z; bmeta_concurrency_max : Z; bmeta_concurrency_step : Z;
  bmeta_sources : Z; bmeta_keys : Z; bmeta_value_size : Z; bmeta_range_fraction : f64; bmeta_range_window : Z; bmeta_profile_mem : Z;
  bmeta_verbose : bool
}.
Definition bench_meta (args : BenchmarkArgs) (tag : option (list byte)) (stdout : option (list byte)) (ts profile_mem : Z) (verbose : bool) : BenchMeta := {|
  bmeta_tag := default (str "unknown") tag; bmeta_git_hash := git_hash stdout; bmeta_timestamp_ms := ts; bmeta_duration := ba_duration args;
  bmeta_workloads := map workload_name (ba_workloads args); bmeta_addr := ba_addr args; bmeta_batch_size := ba_batch_size args;
  bmeta_concurrency_min := ba_concurrency_min args; bmeta_concurrency_max := ba_concurrency_max args;
  bmeta_concurrency_step := ba_concurrency_step args; bmeta_sources := ba_sources args; bmeta_keys := ba_keys args;
  bmeta_value_size := ba_value_size args; bmeta_range_fraction := ba_range_fraction args; bmeta_range_window := ba_range_window args;
  bmeta_profile_mem := profile_mem; bmeta_verbose := verbose
|}.

(** a git that fails without output leaves an empty hash, not "unknown" *)
Example git_hash_samples :
  git_hash (Some (str "0a1b2c" ++ [Byte.x0a])) = str "0a1b2c" /\ git_hash None = str "unknown" /\ git_hash (Some []) = [].
Proof. vm_compute. split_and!; reflexivity. Qed.

(** ** What [prefill] sends *)

(** an insert of [prefill]: its source and key are among the configured ones *)
Definition prefill_ok (cfg : SingleRunConfig) (i : Insert) : Prop :=
  0 <= ins_source_id i < rc_sources cfg /\ (exists k, 0 <= k < rc_keys cfg /\ ins_key i = str "key_" ++ fmt_uint k) /\
  length (ins_value i) = Z.to_nat (rc_value_size cfg).

Lemma prefill_insert_ok cfg d i : prefill_insert cfg d = Ok i -> prefill_ok cfg i.
Proof.
  unfold prefill_insert, bench_source, bench_key. destruct ((0 <=? pf_source d) && _) eqn:Es; [|done].
  destruct ((0 <=? pf_key d) && _) eqn:Ek; [|done]. intros [= <-]. apply andb_true_iff in Es as [?%Z.leb_le ?%Z.ltb_lt], Ek as [?%Z.leb_le ?%Z.ltb_lt].
  split_and!; [done|done|by exists (pf_key d)|apply repeat_length].
Qed.

Lemma prefill_round_ok cfg clients draw sent sent' : prefill_round cfg clients draw sent = (sent', Ok tt) ->
  exists new, sent' = sent ++ new /\ new.*1 = clients /\ Forall (prefill_ok cfg) new.*2.
Proof.
  revert sent. induction clients as [|c rest IH]; intros sent; cbn [prefill_round].
  - intros [= <-]. exists []. by rewrite app_nil_r.
  - rewrite st_bind_unfold. unfold st_lift at 1. destruct (prefill_insert cfg (draw c)) as [i|?|] eqn:Ei; try done.
    rewrite st_bind_unfold. cbn [st_modify]. destruct (pf_acked (draw c)); [|done]. intros (new & -> & <- & Hok)%IH.
    exists ((c, i) :: new). rewrite <- app_assoc. split_and!; [done|done|]. constructor; [by eapply prefill_insert_ok|done].
Qed.

(** Every client sends one insert in every turn, in turn. *)
Lemma prefill_sends cfg clients rounds sent' : prefill cfg clients rounds [] = (sent', Ok tt) ->
  sent'.*1 = concat (repeat clients (length rounds)) /\ Forall (prefill_ok cfg) sent'.*2.
Proof.
  assert (forall sent, prefill cfg clients rounds sent = (sent', Ok tt) ->
    exists new, sent' = sent ++ new /\ new.*1 = concat (repeat clients (length rounds)) /\ Forall (prefill_ok cfg) new.*2) as Hgen.
  { induction rounds as [|draw rounds IH]; intros sent; cbn [prefill length repeat concat].
    - intros [= <-]. exists []. by rewrite app_nil_r.
    - rewrite st_bind_unfold. destruct (prefill_round cfg clients draw sent) as [s [[]| |]] eqn:E; try done.
      apply prefill_round_ok in E as (n1 & -> & H1 & Hk1). intros (n2 & -> & H2 & Hk2)%IH. exists (n1 ++ n2).
      rewrite app_assoc, !fmap_app, H1, H2, Forall_app. done. }
  intros (new & -> & ?)%Hgen. done.
Qed.

(** without sources there is nothing to draw from: the first insert panics *)
Lemma prefill_no_sources cfg c clients draw rounds : rc_sources cfg <= 0 -> prefill cfg (c :: clients) (draw :: rounds) [] = ([], Panic).
Proof.
  intros Hs. cbn [prefill prefill_round]. rewrite !st_bind_unfold. unfold st_lift at 1, prefill_insert, bench_source.
  destruct ((0 <=? pf_source (draw c)) && _) eqn:E; [|done]. apply andb_true_iff in E as [?%Z.leb_le ?%Z.ltb_lt]. lia.
Qed.

(** ** What [run] reports *)

Section run_facts.
Context `{BenchStats}.

(** the result of one run, when all goes well *)
Definition run_done (env : RunEnv) (cfg : SingleRunConfig) (r : RunResult) : Prop :=
  forallb (re_connect env) (run_clients cfg) = true /\ re_reconnect env = true /\
  exists total states, length states = length (run_clients cfg) /\
    Forall2 (fun c s => do_client_work cfg (re_work env c).1 (re_work env c).2 = Ok s) (run_clients cfg) states /\
    total = foldl merge_result client_result_default (map cs_result states) /\
    r = match re_metrics env with
        | Some snap => set_sstable_count (es_sstable_count (ms_engine snap)) (to_run_result total cfg)
        | None => to_run_result total cfg
        end.

Lemma join_clients_ok cfg work clients total r : join_clients cfg work clients total = Ok r ->
  exists states, Forall2 (fun c s => do_client_work cfg (work c).1 (work c).2 = Ok s) clients states /\
    r = foldl merge_result total (map cs_result states).
Proof.
  revert total. induction clients as [|c rest IH]; intros total; cbn [join_clients].
  - intros [= <-]. exists []. split; [constructor|done].
  - destruct (do_client_work _ _ _) as [s|?|] eqn:E; try done. intros (states & Hs & ->)%IH. exists (s :: states). split; [by constructor|done].
Qed.

Lemma run_single_ok cfg env sent r : run_single cfg env [] = (sent, Ok r) ->
  forallb (re_connect env) (run_clients cfg) = true /\
  exists states, Forall2 (fun c s => do_client_work cfg (re_work env c).1 (re_work env c).2 = Ok s) (run_clients cfg) states /\
    r = to_run_result (foldl merge_result client_result_default (map cs_result states)) cfg.
Proof.
  unfold run_single. destruct (forallb _ _) eqn:Ec; [|done]. rewrite st_bind_unfold.
  destruct ((if needs_prefill (rc_workload cfg) then prefill cfg (run_clients cfg) (re_rounds env) else mret tt) []) as [s1 [[]| |]]; try done.
  rewrite st_bind_unfold. unfold st_lift. destruct (join_clients _ _ _ _) as [total|?|] eqn:Ej; try done. intros [= _ <-].
  apply join_clients_ok in Ej as (states & Hs & ->). split; [done|]. by exists states.
Qed.

(** When [run] returns a report, the server was ready, every configured run
    has been made, and the report has the result of each, in order: the merged
    counts of all its clients. Anything that fails on the way ends the
    benchmark without a report. *)
Lemma run_report fuel args profile_mem attempts envs fc fm samples rep outs :
  run fuel args profile_mem attempts envs fc fm samples = Some (Ok (rep, outs)) ->
  check_server 0 attempts = Ok tt /\
  exists configs, build_run_configs fuel args = Some configs /\
    Forall2 (fun cfg r => run_done (envs (rc_run_id cfg)) cfg r) configs (bm_runs rep) /\
    bm_saturations rep = compute_saturations (bm_runs rep) /\
    outs = bench_outputs args (match bm_mem rep with Some _ => true | None => false end).
Proof.
  unfold run. destruct (check_server 0 attempts) as [[]|?|]; try done. intros Hrun. split; [done|].
  destruct (build_run_configs fuel args) as [configs|]; [|done]. cbn [mbind option_bind] in Hrun. injection Hrun as Hrun.
  exists configs. split; [done|]. destruct (run_configs envs configs) as [results|?|] eqn:E; try done. cbn [mbind outcome_bind] in Hrun.
  destruct fc; [|done]. injection Hrun as <- <-. cbn [bm_runs bm_saturations bm_mem]. split_and!; [|done|done]. clear -E.
  revert results E. induction configs as [|cfg configs IH]; intros results; cbn [run_configs].
  - intros [= <-]. constructor.
  - destruct (run_single cfg (envs (rc_run_id cfg)) []) as [sent [r|?|]] eqn:Er; cbn [snd]; try done. cbn [mbind outcome_bind].
    destruct (re_reconnect _) eqn:Ec; [|done]. destruct (run_configs envs configs) as [rs|?|]; try done. intros [= <-].
    constructor; [|by apply IH]. apply run_single_ok in Er as (Hcon & states & Hs & ->). split_and!; [done|done|].
    eexists _, states. split; [symmetry; by eapply Forall2_length|]. done.
Qed.
End run_facts.
