(* ===== verification/Xtask.v ===== *)
(** * The task runner: xtask

    main.rs, bench.rs and prep.rs: which programs are run with which
    arguments, in which order, and what the task runner returns. What the
    programs and the system answer is an argument; messages are left out. *)
From S2P Require Import Prelude Std Text Codec CoreStorage.

(** a command line; whether it is waited for; changes of the file system *)
Inductive XAction :=
| XRun (args : list (list byte))
| XSpawn (args : list (list byte))
| XMkdir (dir : list byte)
| XSymlink (target link : list byte)
| XFreePort.

(** [None]: the program could not be started *)
Definition Status := option bool.

Definition xact (a : XAction) : st (list XAction) io_error unit := st_modify (fun l => l ++ [a]).
Definition xfail {A} : st (list XAction) io_error A := st_lift bail.
(** [.status()?] *)
Definition xrun (args : list (list byte)) (s : Status) : st (list XAction) io_error bool :=
  _ ← xact (XRun args);
  match s with Some ok => mret ok | None => xfail end.
(** and fail unless it succeeds *)
Definition xrun_ok (args : list (list byte)) (s : Status) : st (list XAction) io_error unit :=
  ok ← xrun args s;
  if (ok : bool) then mret tt else xfail.

(** ** prep.rs, and [smoke] of main.rs *)

Definition cargo_build : list (list byte) := [str "cargo"; str "build"; str "--color"; str "always"].
Definition cargo_clippy : list (list byte) := [str "cargo"; str "clippy"; str "--color"; str "always"; str "--"; str "-D"; str "warnings"].
Definition cargo_fmt : list (list byte) := [str "cargo"; str "fmt"; str "--color"; str "always"].
Definition cargo_test : list (list byte) := [str "cargo"; str "test"; str "--color"; str "always"].

Definition prep_run (build clippy fmt : Status) : st (list XAction) io_error unit :=
  _ ← xrun_ok cargo_build build;
  _ ← xrun_ok cargo_clippy clippy;
  xrun_ok cargo_fmt fmt.
Definition smoke_run (build test : Status) : st (list XAction) io_error unit :=
  _ ← xrun_ok cargo_build build;
  xrun_ok cargo_test test.

(** ** bench.rs *)

Record BenchArgs := {
  xb_tag : list byte; xb_duration : Z; xb_workloads : list (list byte);
  xb_concurrency_min : Z; xb_concurrency_max : Z; xb_concurrency_step : Z; xb_memtable_mb : Z; xb_addr : list byte;
  xb_noreg : bool; xb_set_baseline : bool; xb_baseline : option (list byte);
  xb_server_args : list (list byte); xb_bench_args : list (list byte); xb_prep : bool
}.

(** what happens: the time; the answers of the system and of the programs;
    the attempts to bind the port within ten seconds and to connect within
    thirty; the [baseline] entry of the pointer file; whether a file is there *)
Record BenchWorld := {
  bw_now_ms : Z; bw_prep : Status * Status * Status; bw_mkdir : bool; bw_symlink : bool; bw_addr_parses : bool;
  bw_binds : list bool; bw_server : bool; bw_connects : list bool; bw_bench : Status;
  bw_pointer : option (list byte); bw_exists : list byte -> bool; bw_cmp : Status; bw_baseline : Status
}.

Definition join_path (d name : list byte) : list byte := match d with [] => name | _ => d ++ str "/" ++ name end.

Definition cargo_bin (package bin : list byte) (args : list (list byte)) : list (list byte) :=
  [str "cargo"; str "run"; str "-p"; package; str "--bin"; bin; str "--"] ++ args.

(** [join(",")] *)
Fixpoint join_comma (l : list (list byte)) : list byte :=
  match l with [] => [] | [x] => x | x :: rest => x ++ str "," ++ join_comma rest end.

Definition rundir_name (w : BenchWorld) (args : BenchArgs) : list byte := fmt_uint (bw_now_ms w) ++ str "__" ++ xb_tag args.
Definition rundir (w : BenchWorld) (args : BenchArgs) : list byte := str "bench/runs/" ++ rundir_name w args.

Definition server_cmd (w : BenchWorld) (args : BenchArgs) : list (list byte) :=
  cargo_bin (str "logregatord") (str "server")
    ([str "--addr"; xb_addr args; str "--data-dir"; join_path (rundir w args) (str "server_data");
      str "--memtable-mb"; fmt_uint (xb_memtable_mb args); str "--batch-size"; str "8192"] ++ xb_server_args args).
Definition bench_cmd (w : BenchWorld) (args : BenchArgs) : list (list byte) :=
  cargo_bin (str "logregator-tools") (str "bench")
    ([str "--tag"; xb_tag args; str "--duration"; fmt_uint (xb_duration args); str "--workloads"; join_comma (xb_workloads args);
      str "--concurrency-min"; fmt_uint (xb_concurrency_min args); str "--concurrency-max"; fmt_uint (xb_concurrency_max args);
      str "--concurrency-step"; fmt_uint (xb_concurrency_step args); str "--addr"; xb_addr args;
      str "--out-dir"; rundir w args] ++ xb_bench_args args).
Definition reg_cmd (w : BenchWorld) (args : BenchArgs) (baseline_result : list byte) : list (list byte) :=
  cargo_bin (str "logregator-tools") (str "cmp")
    [str "-b"; baseline_result; str "-t"; join_path (rundir w args) (str "benchmark_result.json");
     str "--out-file"; join_path (rundir w args) (str "reg.json"); str "--reg"].
Definition capture_cmd (w : BenchWorld) (args : BenchArgs) : list (list byte) :=
  cargo_bin (str "logregator-tools") (str "baseline") [str "current"; rundir w args; str "--tag"; xb_tag args].

(** the loop that frees the port: a try, and [fuser -k] when it fails *)
Fixpoint free_port (binds : list bool) : st (list XAction) io_error unit :=
  match binds with
  | [] | true :: _ => mret tt
  | false :: rest => _ ← xact XFreePort; free_port rest
  end.

(** the regression check: its result is kept in a variable nobody reads *)
Definition regression_check (w : BenchWorld) (args : BenchArgs) : st (list XAction) io_error unit :=
  if xb_noreg args then mret tt
  else
    let baseline_dir := default (default [] (bw_pointer w)) (xb_baseline args) in
    let baseline_result := join_path baseline_dir (str "benchmark_result.json") in
    if bw_exists w baseline_result
    then _ ← xrun (reg_cmd w args baseline_result) (bw_cmp w); mret tt
    else mret tt.

Definition run_bench (w : BenchWorld) (args : BenchArgs) : st (list XAction) io_error unit :=
  _ ← (if xb_prep args then let '(b, c, f) := bw_prep w in prep_run b c f else mret tt);
  _ ← xact (XMkdir (rundir w args));
  _ ← (if bw_mkdir w then mret tt else xfail);
  _ ← xact (XSymlink (rundir_name w args) (str "bench/runs/latest"));
  _ ← (if bw_symlink w then mret tt else xfail);
  _ ← (if bw_addr_parses w then mret tt else xfail);
  _ ← free_port (bw_binds w);
  _ ← xact (XSpawn (server_cmd w args));
  _ ← (if bw_server w then mret tt else xfail);
  _ ← (if existsb id (bw_connects w) then mret tt else xfail);
  _ ← xrun_ok (bench_cmd w args) (bw_bench w);
  _ ← regression_check w args;
  if xb_set_baseline args then _ ← xrun (capture_cmd w args) (bw_baseline w); mret tt else mret tt.

(** ** main.rs *)

Inductive XtaskCmd :=
| XcBench (args : BenchArgs)
| XcSmoke
| XcPrep
| XcProfile
| XcHistory
| XcCmp (target baseline : list byte) (goal : option (list byte)) (reg : bool) (out_file : option (list byte)) (verbose : bool)
| XcTrend.

Definition xtask_name (c : XtaskCmd) : list byte :=
  match c with
  | XcBench _ => str "xtask bench" | XcSmoke => str "xtask smoke" | XcPrep => str "xtask prep" | XcProfile => str "xtask profile"
  | XcCmp _ _ _ _ _ _ => str "xtask cmp" | XcHistory => str "xtask history" | XcTrend => str "xtask trend"
  end.

Definition cmp_cmd (target baseline : list byte) (goal : option (list byte)) (reg : bool) (out_file : option (list byte)) (verbose : bool)
    : list (list byte) :=
  cargo_bin (str "logregator-tools") (str "cmp")
    ([str "-b"; baseline; str "-t"; target] ++
     match goal with Some g => [str "--goals"; g] | None => [] end ++
     (if reg then [str "--reg"] else []) ++ (if verbose then [str "--verbose"] else []) ++
     match out_file with Some o => [str "--out-file"; o] | None => [] end).

(** the exit code, [Ok 0] at the end of [main]; [cmp] hands on the code of
    the program it runs ([None]: it was killed); the subcommands that are not
    implemented end well *)
Definition xtask_main (w : BenchWorld) (smoke : Status * Status) (cmp_code : option (option Z)) (c : XtaskCmd) : st (list XAction) io_error Z :=
  match c with
  | XcPrep => let '(b, cl, f) := bw_prep w in _ ← prep_run b cl f; mret 0
  | XcBench args => _ ← run_bench w args; mret 0
  | XcSmoke => _ ← smoke_run smoke.1 smoke.2; mret 0
  | XcCmp target baseline goal reg out_file verbose =>
      _ ← xact (XRun (cmp_cmd target baseline goal reg out_file verbose));
      match cmp_code with
      | None => xfail
      | Some code => mret (default 1 code)
      end
  | XcProfile | XcHistory | XcTrend => mret 0
  end.

(** ** What the task runner does with a regression *)

(** the answers with another result of the comparison *)
Definition with_cmp (s : Status) (w : BenchWorld) : BenchWorld :=
  Build_BenchWorld (bw_now_ms w) (bw_prep w) (bw_mkdir w) (bw_symlink w) (bw_addr_parses w) (bw_binds w) (bw_server w) (bw_connects w)
    (bw_bench w) (bw_pointer w) (bw_exists w) s (bw_baseline w).

(** everything up to the regression check works *)
Definition bench_works (w : BenchWorld) (args : BenchArgs) : Prop :=
  xb_prep args = false /\ bw_mkdir w = true /\ bw_symlink w = true /\ bw_addr_parses w = true /\ bw_server w = true /\
  existsb id (bw_connects w) = true /\ bw_bench w = Some true.

Definition port_actions (binds : list bool) : list XAction :=
  (fix go l := match l with [] | true :: _ => [] | false :: rest => XFreePort :: go rest end) binds.

Lemma free_port_ok binds l : free_port binds l = (l ++ port_actions binds, Ok tt).
Proof.
  revert l. induction binds as [|[] binds IH]; intros l; cbn; [by rewrite app_nil_r..|]. rewrite st_bind_unfold. cbn. rewrite IH. by rewrite <- app_assoc.
Qed.

Definition main_actions (w : BenchWorld) (args : BenchArgs) : list XAction :=
  [XMkdir (rundir w args); XSymlink (rundir_name w args) (str "bench/runs/latest")] ++ port_actions (bw_binds w) ++
  [XSpawn (server_cmd w args); XRun (bench_cmd w args)].

Lemma run_bench_works w args l : bench_works w args ->
  run_bench w args l = (_ ← regression_check w args;
    if xb_set_baseline args then _ ← xrun (capture_cmd w args) (bw_baseline w); mret tt else mret tt) (l ++ main_actions w args).
Proof.
  intros (Hp & H1 & H2 & H3 & H4 & H5 & H6). unfold run_bench, main_actions. rewrite Hp, H1, H2, H3, H4, H5, H6.
  do 6 (rewrite st_bind_unfold; cbn [mret st_ret xact st_modify]). rewrite st_bind_unfold, free_port_ok.
  do 3 (rewrite st_bind_unfold; cbn [mret st_ret xact st_modify]). rewrite st_bind_unfold. unfold xrun_ok, xrun. rewrite !st_bind_unfold.
  cbn [mret st_ret xact st_modify]. f_equal. by rewrite <- !app_assoc.
Qed.

Lemma regression_check_cmp w args ok l : regression_check (with_cmp (Some ok) w) args l = regression_check (with_cmp (Some true) w) args l.
Proof. unfold regression_check. destruct (xb_noreg args); [done|]. cbn [bw_pointer bw_exists with_cmp]. destruct (bw_exists w _); [|done]. done. Qed.

(** A regression goes unnoticed. When the benchmark has run and there is
    a baseline, [xtask bench] has made the run directory, linked it, started
    the server, run the benchmark and then the comparison with [--reg], in
    this order, and ends well whether the comparison reports a regression or
    not; a run with a regression is captured as the new baseline like any
    other. *)
Theorem xtask_regression_ignored (w : BenchWorld) (args : BenchArgs) (ok : bool) (captured : bool)
    (Hworks : bench_works w args) (Hreg : xb_noreg args = false)
    (Hbase : bw_exists w (join_path (default (default [] (bw_pointer w)) (xb_baseline args)) (str "benchmark_result.json")) = true)
    (Hcap : bw_baseline w = Some captured) :
  xtask_main (with_cmp (Some ok) w) (None, None) None (XcBench args) [] =
    (main_actions w args ++
     [XRun (reg_cmd w args (join_path (default (default [] (bw_pointer w)) (xb_baseline args)) (str "benchmark_result.json")))] ++
     (if xb_set_baseline args then [XRun (capture_cmd w args)] else []), Ok 0).
Proof.
  cbn [xtask_main]. rewrite st_bind_unfold, run_bench_works by done. rewrite st_bind_unfold, regression_check_cmp.
  unfold regression_check. rewrite Hreg. cbn [bw_pointer bw_exists with_cmp bw_cmp bw_baseline]. rewrite Hbase. unfold xrun. rewrite !st_bind_unfold.
  cbn [xact st_modify mret st_ret]. destruct (xb_set_baseline args).
  - rewrite !st_bind_unfold. cbn [xact st_modify mret st_ret]. rewrite Hcap. cbn [mret st_ret app]. by rewrite <- !app_assoc.
  - done.
Qed.

Definition demo_world : BenchWorld := {|
  bw_now_ms := 1700; bw_prep := (None, None, None); bw_mkdir := true; bw_symlink := true; bw_addr_parses := true;
  bw_binds := [false; true]; bw_server := true; bw_connects := [false; true]; bw_bench := Some true;
  bw_pointer := Some (str "bench/runs/baseline/02__b"); bw_exists _ := true; bw_cmp := Some false; bw_baseline := Some true
|}.
Definition demo_xargs : BenchArgs := {|
  xb_tag := str "t"; xb_duration := 30; xb_workloads := [str "write"; str "read"]; xb_concurrency_min := 1; xb_concurrency_max := 16;
  xb_concurrency_step := 2; xb_memtable_mb := 32; xb_addr := str "127.0.0.1:4321"; xb_noreg := false; xb_set_baseline := false;
  xb_baseline := None; xb_server_args := []; xb_bench_args := []; xb_prep := false
|}.

Lemma xtask_regression_ignored_witness :
  (xtask_main demo_world (None, None) None (XcBench demo_xargs) []).2 = Ok 0 /\
  length (xtask_main demo_world (None, None) None (XcBench demo_xargs) []).1 = 6%nat.
Proof.
  assert (xtask_main demo_world (None, None) None (XcBench demo_xargs) [] =
    (main_actions demo_world demo_xargs ++ [XRun (reg_cmd demo_world demo_xargs (str "bench/runs/baseline/02__b/benchmark_result.json"))] ++ [], Ok 0)) as E.
  { apply (xtask_regression_ignored demo_world demo_xargs false true); [by split_and!|done|done|done]. }
  rewrite E. split; reflexivity.
Defined.
